(* ===== verification/_CoqProject ===== *)
-Q . S2P
Prelude.v
Hash.v
Arith256.v
Serialize.v
Script.v
ScriptInterp.v
Transaction.v
Params.v
TxCheck.v
Pow.v
Workpool.v
Block.v
Merkle.v
CoinsMath.v
Coins.v
UtxoDelta.v
BlockCheck.v
Probing.v
BlockMap.v
CoinsMap.v
UtxoCommitment.v
CoinsView.v
BlockIndex.v
Blake2b.v
Sighash.v
TxVerifier.v
EhArray.v
Equihash.v
EquihashSolve.v
Finality.v
UtxoStage.v
UtxoHistory.v
UtxoFaults.v
UpdateCoins.v
ConnectBlock.v
Mining.v
