(* ===== verification/Prelude.v ===== *)
(** * ZClassic23: a verification of the consensus core

    ZClassic23 is a full node for the ZClassic chain, written in C.  This library models its
    consensus core as Rocq functions translated from the source and proves what makes that core
    correct.

    ** The program and how its parts interact

    A block arrives as bytes and is parsed (lib/core, lib/primitives).  Its header is checked
    against the proof-of-work and difficulty rules (domain/consensus, lib/chain), its body against
    the structural rules (domain/consensus, lib/validation): Merkle root, coinbase, every
    transaction, signature operations.  The header becomes an entry of the block index, a hash
    table kept in memory (lib/validation/chainstate.c).  The stages of app/jobs then move the
    block through a pipeline driven by cursors in an SQLite store; the apply stage computes the
    change a block makes to the coins table, writes it in one transaction, and unwinds blocks when
    the active chain changes branch, within the limits of the finality policy
    (lib/validation).  Scripts are run by the interpreter of domain/consensus and lib/script.

    ** Which file models what

    - Prelude: machine words (w-bit integers are [Z] with the wrap-around written out), bytes,
      little-endian encoding, the [result] type for [zcl_result], the tactics and hint databases.
    - Hash: the interface of the hash functions; the theorems hold for every instance, and where
      collision resistance matters a theorem exhibits the colliding messages.
    - Arith256: core/arith_uint256 -- 256-bit arithmetic on eight 32-bit limbs, division by shift
      and subtract, compact targets.
    - Serialize: core/serialize -- byte streams with their growth and error flag, compact sizes,
      variable-length integers; the stream monad with the [codec] hints that prove round trips.
    - Script, ScriptInterp: script parsing, script numbers, signature-operation counts; the script
      interpreter, opcode by opcode, and script verification.  An access outside a stack is the
      error [VmUndefined], which is proved unreachable.
    - Transaction, Block: primitives/ -- the wire formats, transaction ids, value totals.
    - Params: consensus/ -- network upgrades, subsidy, chain parameters.
    - TxCheck: tx_structural, sapling_structural and locktime of domain/consensus.
    - Pow: proof of work, chain work, retargeting, median time.
    - Merkle: bloom/merkle -- the root with its mutation flag, partial trees.
    - CoinsMath, Coins: coin records, compression, undo data; the coins table.
    - UtxoDelta: app/jobs/utxo_apply_delta -- the delta of a block and its inverse, against a
      reference semantics that connects one transaction at a time.
    - BlockCheck: the header, block and contextual checks and the verdicts they stamp on a
      validation state.
    - BlockMap: the open-addressing table of the block index.
    - Finality: the reorganisation and chain-work policies.
    - UtxoStage, UtxoHistory, UtxoFaults: the apply stage over a store in which any write and any
      read may fail; its state is the record [store], a statement is an action of the [sql] monad,
      and [wp] is its predicate transformer.  UtxoHistory holds the invariants of every reachable
      state, UtxoFaults progress, concrete runs and the consequences of failing statements.

    ** What the theorems show

    Wire formats: encoding then decoding is the identity, decoding yields well-formed values, ids
    commit to contents.  Arithmetic: the limb routines are the operations on integers modulo
    2^256, targets and work are exact.  Checks: each check accepts exactly a declarative
    predicate.  Scripts: evaluation never leaves its stacks and ends within one iteration per
    byte; rule flags only restrict, with one exception that is stated.  Trees and tables: Merkle
    roots and proofs bind up to an explicit collision; the block map is a finite map.  Coins: a
    delta is the reference result; value is conserved; in every reachable state of the apply
    stage the table is the result of connecting a hash-linked chain, whatever writes failed.
    Where the code does not do what it means to, a theorem exhibits the behaviour on a concrete
    input.

    ** Bounds and fuel

    A loop whose recursion is not structural takes fuel from a quantity of the source: the length
    of a script (each step consumes a byte), the number of rows of a Merkle level (each round
    halves it), the capacity of the block map (a probe sequence visits each bucket once), 64
    doublings for a size.  The lemmas about these loops state that the fuel suffices.  Hypotheses
    such as [tx_ok], [block_ok] or [header_ok] say that fields have their C widths and vectors
    their wire limits, which parsing establishes.

    ** Conventions

    NULL-argument guards are modelled by taking values.  Allocation is the class [Allocator];
    theorems that need memory assume [AllocatorTotal].  Text of error messages, logs, metrics and
    events is not modelled; reject reasons and scores are.

    ** Not modelled

    SQLite, libsecp256k1 and the allocator are outside the source and are parameters.  The
    shielded cryptography (lib/sapling: curves, pairings, Groth16) is reached through the class
    [ShieldedCrypto]; its field arithmetic would need a development of its own.  The network layer
    (lib/net), RPC (lib/rpc), wallet (lib/wallet, domain/wallet), views and controllers (app),
    configuration and start-up (config, main.c) and the remaining stages and services of app are
    input/output, concurrency and presentation around the core; they are listed in the manifest
    with the reason. *)

From Stdlib Require Export ZArith Lia ZifyBool.
From stdpp Require Export base tactics numbers list list_numbers option strings.

#[export] Set Default Goal Selector "!".
#[export] Set Warnings "-clear-no-such-hyp".
Global Open Scope Z_scope.

(** ** Machine integers

    A [w]-bit unsigned C integer is a [Z] in [0, 2^w); [uwrap w] is the
    conversion to it and [swrap w] the conversion to the two's complement signed
    type of the same width. *)

Definition uwrap (w x : Z) : Z := x mod 2 ^ w.

Definition swrap (w x : Z) : Z := (x + 2 ^ (w - 1)) mod 2 ^ w - 2 ^ (w - 1).

Definition is_u (w x : Z) : Prop := 0 <= x < 2 ^ w.

Definition is_s (w x : Z) : Prop := - 2 ^ (w - 1) <= x < 2 ^ (w - 1).

#[export] Instance is_u_dec w x : Decision (is_u w x).
Proof. unfold is_u. apply _. Defined.

#[export] Instance is_s_dec w x : Decision (is_s w x).
Proof. unfold is_s. apply _. Defined.

Declare Scope zcl_scope.
Delimit Scope zcl_scope with zcl.
Abbreviation u8 := (uwrap 8).
Abbreviation u16 := (uwrap 16).
Abbreviation u32 := (uwrap 32).
Abbreviation u64 := (uwrap 64).
Abbreviation i32 := (swrap 32).
Abbreviation i64 := (swrap 64).
Notation "a .| b" := (Z.lor a b) (at level 50, left associativity) : zcl_scope.
Notation "a .& b" := (Z.land a b) (at level 40, left associativity) : zcl_scope.
Notation "a .^ b" := (Z.lxor a b) (at level 50, left associativity) : zcl_scope.
Global Open Scope zcl_scope.

(** ** Bytes and little-endian encodings *)

Abbreviation byte_ok := (is_u 8).
Abbreviation bytes := (list Z).

Definition bytes_ok (l : bytes) : Prop := Forall byte_ok l.

#[export] Instance bytes_ok_dec l : Decision (bytes_ok l).
Proof. unfold bytes_ok. apply _. Defined.

Fixpoint le_encode (n : nat) (z : Z) : bytes :=
  match n with
  | O => []
  | S n' => u8 z :: le_encode n' (z ≫ 8)
  end.

Fixpoint le_decode (l : bytes) : Z :=
  match l with
  | [] => 0
  | b :: l' => b + 256 * le_decode l'
  end.

(** ** Results

    The domain layer returns a [zcl_result]: success, or an error code. *)

Inductive result (E A : Type) :=
  | Ok (a : A)
  | Err (e : E).
Arguments Ok {E A} a.
Arguments Err {E A} e.

#[export] Instance result_ret {E} : MRet (result E) := fun A a => Ok a.

#[export] Instance result_bind {E} : MBind (result E) :=
  fun A B f m => match m with Ok a => f a | Err e => Err e end.

Definition ensure {E} (b : bool) (e : E) : result E unit :=
  if b then Ok tt else Err e.

Definition is_ok {E A} (m : result E A) : bool :=
  match m with Ok _ => true | Err _ => false end.

(** ** Tactics *)

Create HintDb zcl discriminated.
Create Rewrite HintDb zcl.

Ltac zbool :=
  repeat match goal with
  | H : (_ && _)%bool = true |- _ => apply andb_true_iff in H as [? ?]
  | H : (_ || _)%bool = false |- _ => apply orb_false_iff in H as [? ?]
  | H : negb _ = true |- _ => apply negb_true_iff in H
  | H : negb _ = false |- _ => apply negb_false_iff in H
  end.

Ltac case_if :=
  match goal with
  | |- context [if ?b then _ else _] => let E := fresh "Hif" in destruct b eqn:E
  | H : context [if ?b then _ else _] |- _ => let E := fresh "Hif" in destruct b eqn:E
  end.

Ltac case_match_in H :=
  match type of H with
  | context [match ?x with _ => _ end] => let E := fresh "Hm" in destruct x eqn:E
  end.

(** Closed decidable facts by computation. *)
Ltac compute_decide :=
  match goal with |- ?P => refine (bool_decide_unpack P _); vm_compute; exact I end.

Ltac div_mod_lia := Z.to_euclidean_division_equations; lia.

(** ** Word lemmas *)

Lemma uwrap_range w x : 0 <= w -> is_u w (uwrap w x).
Proof. intros. unfold is_u, uwrap. apply Z.mod_pos_bound. lia. Qed.

Lemma uwrap_small w x : is_u w x -> uwrap w x = x.
Proof. unfold is_u, uwrap. intros. by apply Z.mod_small. Qed.

Lemma swrap_range w x : 0 < w -> is_s w (swrap w x).
Proof.
  intros Hw. unfold is_s, swrap.
  pose proof (Z.mod_pos_bound (x + 2 ^ (w - 1)) (2 ^ w)) as B.
  assert (2 ^ w = 2 * 2 ^ (w - 1)) as E by (rewrite <- Z.pow_succ_r by lia; f_equal; lia).
  lia.
Qed.

Lemma swrap_small w x : 0 < w -> is_s w x -> swrap w x = x.
Proof.
  unfold is_s, swrap. intros Hw ?.
  assert (2 ^ w = 2 * 2 ^ (w - 1)) as E by (rewrite <- Z.pow_succ_r by lia; f_equal; lia).
  rewrite Z.mod_small; lia.
Qed.

Lemma uwrap_swrap w x : 0 < w -> uwrap w (swrap w x) = uwrap w x.
Proof.
  intros Hw. unfold uwrap, swrap.
  rewrite Zminus_mod_idemp_l. f_equal. lia.
Qed.

Lemma uwrap_idemp w x : uwrap w (uwrap w x) = uwrap w x.
Proof. apply Zmod_mod. Qed.

Lemma swrap_uwrap w x : swrap w (uwrap w x) = swrap w x.
Proof. unfold swrap, uwrap. by rewrite Zplus_mod_idemp_l. Qed.

Lemma swrap_add_l w a b : swrap w (swrap w a + b) = swrap w (a + b).
Proof.
  unfold swrap. destruct (decide (2 ^ w = 0)) as [E|E]; [by rewrite E, !Z.mod_0_r; f_equal; lia|].
  f_equal. replace (_ + b + _) with ((a + 2 ^ (w - 1)) mod 2 ^ w + b) by lia.
  rewrite Z.add_mod_idemp_l by done. f_equal. lia.
Qed.

Lemma shiftr_div a n : 0 <= n -> a ≫ n = a / 2 ^ n.
Proof. apply Z.shiftr_div_pow2. Qed.

Lemma land_ones_mod a n : 0 <= n -> a .& (2 ^ n - 1) = a mod 2 ^ n.
Proof. intros. rewrite <- Z.land_ones by done. rewrite Z.ones_equiv. done. Qed.

(** Disjoint bit ranges: [lor] is addition. *)
Lemma lor_disjoint_add a b n :
  0 <= n -> 0 <= a < 2 ^ n -> a .| (b * 2 ^ n) = a + b * 2 ^ n.
Proof.
  intros Hn Ha. rewrite Z.add_nocarry_lxor; [rewrite Z.lxor_lor; [done|]|].
  all: apply Z.bits_inj'; intros i Hi; rewrite Z.land_spec, Z.bits_0.
  all: destruct (decide (i < n)); [rewrite (Z.mul_pow2_bits_low b n i) by lia; apply andb_false_r|].
  all: rewrite <- (Z.mod_small a (2 ^ n)) by done.
  all: by rewrite Z.mod_pow2_bits_high by lia.
Qed.

#[export] Hint Resolve uwrap_range swrap_range : zcl.

(** ** Lengths as integers *)

Definition zlen {A} (l : list A) : Z := Z.of_nat (length l).

Lemma zlen_app {A} (l1 l2 : list A) : zlen (l1 ++ l2) = zlen l1 + zlen l2.
Proof. unfold zlen. rewrite length_app. lia. Qed.

Lemma zlen_cons {A} (a : A) l : zlen (a :: l) = zlen l + 1.
Proof. unfold zlen. simpl length. lia. Qed.

(** ** Byte-string lemmas *)

Lemma bytes_ok_app l1 l2 : bytes_ok (l1 ++ l2) <-> bytes_ok l1 /\ bytes_ok l2.
Proof. apply Forall_app. Qed.

Lemma bytes_ok_take n l : bytes_ok l -> bytes_ok (take n l).
Proof. apply Forall_take. Qed.

Lemma bytes_ok_drop n l : bytes_ok l -> bytes_ok (drop n l).
Proof. apply Forall_drop. Qed.

Lemma bytes_ok_lookup l i b : bytes_ok l -> l !! i = Some b -> 0 <= b < 256.
Proof. intros H Hl. exact (Forall_lookup_1 _ _ _ _ H Hl). Qed.

#[export] Hint Resolve bytes_ok_take bytes_ok_drop : zcl.

Lemma le_encode_length n z : length (le_encode n z) = n.
Proof. revert z; induction n as [|n IH]; intros z; simpl; [done|by rewrite IH]. Qed.

Lemma zlen_le_encode n v : zlen (le_encode n v) = Z.of_nat n.
Proof. unfold zlen. by rewrite le_encode_length. Qed.

Lemma le_encode_ok n z : bytes_ok (le_encode n z).
Proof.
  revert z; induction n as [|n IH]; intros z; simpl; constructor; [|apply IH].
  by apply uwrap_range.
Qed.

Lemma pow256_succ n : 256 ^ Z.of_nat (S n) = 256 * 256 ^ Z.of_nat n.
Proof. rewrite Nat2Z.inj_succ. apply Z.pow_succ_r. lia. Qed.

Lemma le_decode_encode n z : le_decode (le_encode n z) = z mod 256 ^ Z.of_nat n.
Proof.
  revert z; induction n as [|n IH]; intros z; [simpl; by rewrite Z.mod_1_r|].
  cbn [le_encode le_decode]. rewrite IH, pow256_succ, shiftr_div by lia.
  unfold uwrap. change (2 ^ 8) with 256.
  rewrite (Z.rem_mul_r z 256 (256 ^ Z.of_nat n)); lia.
Qed.

Lemma le_decode_range l : bytes_ok l -> 0 <= le_decode l < 256 ^ Z.of_nat (length l).
Proof.
  induction 1 as [|b l Hb _ IH]; [simpl; lia|].
  cbn [length le_decode]. rewrite pow256_succ. unfold is_u in Hb.
  change (2 ^ 8) with 256 in Hb. lia.
Qed.

Lemma le_encode_decode l : bytes_ok l -> le_encode (length l) (le_decode l) = l.
Proof.
  induction 1 as [|b l Hb Hl IH]; [done|].
  cbn [length le_decode le_encode]. unfold is_u in Hb; change (2 ^ 8) with 256 in Hb.
  rewrite shiftr_div by lia. change (2 ^ 8) with 256.
  f_equal; [unfold uwrap; change (2 ^ 8) with 256; div_mod_lia|].
  replace ((b + 256 * le_decode l) / 256) with (le_decode l) by div_mod_lia. done.
Qed.

Lemma le_encode_mod n z : le_encode n (z mod 256 ^ Z.of_nat n) = le_encode n z.
Proof.
  rewrite <- le_decode_encode.
  pose proof (le_encode_decode (le_encode n z) (le_encode_ok n z)) as E.
  by rewrite le_encode_length in E.
Qed.

Lemma le_decode_app l1 l2 :
  le_decode (l1 ++ l2) = le_decode l1 + 256 ^ Z.of_nat (length l1) * le_decode l2.
Proof.
  induction l1 as [|b l1 IH]; [simpl; lia|].
  cbn [app length le_decode]. rewrite IH, pow256_succ. lia.
Qed.

Lemma le_decode_inj l1 l2 :
  bytes_ok l1 -> bytes_ok l2 -> length l1 = length l2 ->
  le_decode l1 = le_decode l2 -> l1 = l2.
Proof.
  intros H1 H2 Hl E. rewrite <- (le_encode_decode l1), <- (le_encode_decode l2) by done.
  by rewrite E, Hl.
Qed.

#[export] Hint Resolve le_encode_ok : zcl.
#[export] Hint Rewrite le_encode_length : zcl.

(** ** Result lemmas *)

Lemma bind_ok {E A B} (m : result E A) (f : A -> result E B) b :
  m ≫= f = Ok b <-> exists a, m = Ok a /\ f a = Ok b.
Proof. destruct m; simpl; naive_solver. Qed.

Lemma bind_unit_ok {E B} (m : result E unit) (k : result E B) b :
  (m;; k) = Ok b <-> m = Ok tt /\ k = Ok b.
Proof. destruct m as [[]|]; simpl; naive_solver. Qed.

Lemma ensure_ok {E} b (e : E) u : ensure b e = Ok u <-> b = true.
Proof. destruct b, u; simpl; naive_solver. Qed.

Lemma is_ok_true {E A} (m : result E A) : is_ok m = true <-> exists a, m = Ok a.
Proof. destruct m; simpl; naive_solver. Qed.

(** ** Masks of one byte *)

Lemma byte_land_7f b : 0 <= b < 256 -> b .& 0x7f = if b <? 128 then b else b - 128.
Proof.
  intros. change 0x7f with (2 ^ 7 - 1). rewrite land_ones_mod by lia.
  change (2 ^ 7) with 128. destruct (Z.ltb_spec b 128); div_mod_lia.
Qed.

Lemma land_pow2_testbit m k : 0 <= k -> negb (m .& 2 ^ k =? 0) = Z.testbit m k.
Proof.
  intros Hk. assert (m .& 2 ^ k = if Z.testbit m k then 2 ^ k else 0) as ->.
  { apply Z.bits_inj'; intros i Hi. rewrite Z.land_spec, Z.pow2_bits_eqb by lia.
    destruct (Z.eqb_spec k i) as [->|].
    - rewrite andb_true_r. destruct (Z.testbit m i); [by rewrite Z.pow2_bits_true|by rewrite Z.bits_0].
    - rewrite andb_false_r. destruct (Z.testbit m k); [by rewrite Z.pow2_bits_false|by rewrite Z.bits_0]. }
  destruct (Z.testbit m k); [|done]. pose proof (Z.pow_pos_nonneg 2 k). lia.
Qed.

(** The top bit of a [k+1]-bit number. *)
Lemma testbit_top m k : 0 <= k -> 0 <= m < 2 ^ (k + 1) -> Z.testbit m k = (2 ^ k <=? m).
Proof.
  intros Hk Hm. rewrite Z.pow_add_r in Hm by lia. rewrite Z.testbit_eqb by lia.
  destruct (Z.leb_spec (2 ^ k) m).
  - replace (m / 2 ^ k) with 1; [done|]. apply Z.div_unique with (m - 2 ^ k); lia.
  - by rewrite Z.div_small by lia.
Qed.

Lemma byte_land_80 b : 0 <= b < 256 -> negb (b .& 0x80 =? 0) = (128 <=? b).
Proof. intros. change 0x80 with (2 ^ 7). rewrite land_pow2_testbit, testbit_top; done. Qed.

Lemma byte_lor_80 b : 0 <= b < 128 -> b .| 0x80 = b + 128.
Proof. intros. change 0x80 with (1 * 2 ^ 7) at 1. rewrite lor_disjoint_add; lia. Qed.

Lemma u8_small b : 0 <= b < 256 -> u8 b = b.
Proof. intros. by apply uwrap_small. Qed.

Lemma land_ff b : b .& 0xff = b mod 256.
Proof. apply (land_ones_mod b 8). lia. Qed.

Lemma land_lnot_pow2 m k : 0 <= k -> Z.testbit m k = true -> m .& Z.lnot (2 ^ k) = m - 2 ^ k.
Proof.
  intros Hk Ht. rewrite <- Z.ldiff_land. symmetry. apply Z.sub_nocarry_ldiff.
  apply Z.bits_inj'; intros i Hi. rewrite Z.ldiff_spec, Z.bits_0, Z.pow2_bits_eqb by lia.
  destruct (Z.eqb_spec k i) as [<-|]; [by rewrite Ht|done].
Qed.

Lemma snoc_case {A} (l : list A) : l = [] \/ exists t d, l = d ++ [t].
Proof.
  destruct l as [|t d _] using rev_ind; [by left|right; by exists t, d].
Qed.
