(* ===== verification/Hash.v ===== *)
(** * Hash functions

    The interface through which the consensus components use lib/crypto and lib/core/hash:
    each function takes a message and returns a digest of fixed length.  The theorems of
    the client components hold for every instance; where collision resistance matters a
    theorem exhibits the colliding pair instead of assuming there is none. *)

From S2P Require Import Prelude.

Class HashFunctions := {
  h_sha256 : bytes -> bytes;
  h_sha1 : bytes -> bytes;
  h_ripemd160 : bytes -> bytes;
  h_hash160 : bytes -> bytes;
  h_hash256 : bytes -> bytes;
}.

Definition digest_ok (n : nat) (h : bytes -> bytes) : Prop :=
  forall m, length (h m) = n /\ bytes_ok (h m).

(** What the clients rely on: digests have their length and are bytes. *)
Class HashFunctionsOk `{HashFunctions} := {
  sha256_ok : digest_ok 32 h_sha256;
  sha1_ok : digest_ok 20 h_sha1;
  ripemd160_ok : digest_ok 20 h_ripemd160;
  hash160_ok : digest_ok 20 h_hash160;
  hash256_ok : digest_ok 32 h_hash256;
}.

(** Two different messages with the same digest. *)
Definition collision (h : bytes -> bytes) (m1 m2 : bytes) : Prop := m1 <> m2 /\ h m1 = h m2.

(** A toy instance, to evaluate the clients on concrete inputs: a one-byte checksum padded
    to the digest length. *)
Definition checksum (n : nat) (m : bytes) : bytes :=
  uwrap 8 (foldl (fun a b => (31 * a + b + 7) mod 256) 0 m) :: replicate n 0.

Definition checksum_hashes : HashFunctions := {|
  h_sha256 := checksum 31; h_sha1 := checksum 19; h_ripemd160 := checksum 19;
  h_hash160 := checksum 19; h_hash256 := checksum 31 |}.

Lemma checksum_ok n : digest_ok (S n) (checksum n).
Proof.
  intros m. split; [simpl; by rewrite length_replicate|]. apply Forall_cons. split.
  - apply Z.mod_pos_bound. done.
  - by apply Forall_replicate.
Qed.

Definition checksum_hashes_ok : @HashFunctionsOk checksum_hashes.
Proof. split; apply checksum_ok. Qed.
