(* ===== verification/Arith256.v ===== *)
(** * 256-bit arithmetic

    Models lib/core/include/core/arith_uint256.h and
    lib/core/src/arith_uint256.c: a 256-bit unsigned integer is an array of eight
    32-bit limbs, least significant limb first.  [limbs_Z] is the abstraction
    function to [Z]; the theorems show that every operation, written limb by limb
    with its 64-bit carries exactly as in the source, refines the corresponding
    operation on integers modulo 2^256, and that the compact ("nBits") encoding
    behaves as the floating-point format it is meant to be. *)

From S2P Require Import Prelude.

(** ** Representation *)

Abbreviation ARITH_UINT256_WIDTH := 8%nat.

(** [struct arith_uint256]: the limbs [pn[0]] .. [pn[7]]. *)
Abbreviation arith_uint256 := (list Z).

Definition limbs_ok (n : nat) (a : arith_uint256) : Prop :=
  length a = n /\ Forall (is_u 32) a.

#[export] Instance limbs_ok_dec n a : Decision (limbs_ok n a).
Proof. unfold limbs_ok. apply _. Defined.

Abbreviation arith_ok := (limbs_ok ARITH_UINT256_WIDTH).

Fixpoint limbs_Z (a : arith_uint256) : Z :=
  match a with
  | [] => 0
  | x :: a' => x + 2 ^ 32 * limbs_Z a'
  end.

(** ** Operations of arith_uint256.h *)

Definition arith_uint256_set_zero : arith_uint256 := replicate ARITH_UINT256_WIDTH 0.

Definition arith_uint256_set_u64 (v : Z) : arith_uint256 :=
  u32 v :: u32 (v ≫ 32) :: replicate (ARITH_UINT256_WIDTH - 2) 0.

Definition arith_uint256_get_low64 (a : arith_uint256) : Z :=
  (a !!! 0%nat) .| u64 ((a !!! 1%nat) ≪ 32).

Definition arith_uint256_is_zero (a : arith_uint256) : bool :=
  forallb (fun x => x =? 0) a.

(** The comparison loop runs from the top limb down: [n] limbs remain. *)
Fixpoint compare_loop (a b : arith_uint256) (n : nat) : Z :=
  match n with
  | O => 0
  | S i =>
      if a !!! i <? b !!! i then -1
      else if a !!! i >? b !!! i then 1
      else compare_loop a b i
  end.

Definition arith_uint256_compare (a b : arith_uint256) : Z :=
  compare_loop a b ARITH_UINT256_WIDTH.

Definition arith_uint256_equal_u64 (a : arith_uint256) (b : Z) : bool :=
  if negb (forallb (fun x => x =? 0) (drop 2 a)) then false
  else if negb (a !!! 1%nat =? u32 (b ≫ 32)) then false
  else a !!! 0%nat =? u32 (b .& 0xffffffff).

Definition arith_uint256_complement (a : arith_uint256) : arith_uint256 :=
  map (fun x => u32 (Z.lnot x)) a.

(** [while (i < WIDTH && ++r->pn[i] == 0) i++;] *)
Fixpoint increment_loop (r : arith_uint256) : arith_uint256 :=
  match r with
  | [] => []
  | x :: r' =>
      let x' := u32 (x + 1) in
      if x' =? 0 then x' :: increment_loop r' else x' :: r'
  end.

Definition arith_uint256_negate (a : arith_uint256) : arith_uint256 :=
  increment_loop (map (fun x => u32 (Z.lnot x)) a).

Fixpoint add_loop (carry : Z) (a b : arith_uint256) : arith_uint256 :=
  match a, b with
  | x :: a', y :: b' =>
      let n := u64 (carry + x + y) in
      (n .& 0xffffffff) :: add_loop (n ≫ 32) a' b'
  | _, _ => []
  end.

Definition arith_uint256_add (a b : arith_uint256) : arith_uint256 := add_loop 0 a b.

Definition arith_uint256_sub (a b : arith_uint256) : arith_uint256 :=
  arith_uint256_add a (arith_uint256_negate b).

Fixpoint mul_u32_loop (carry : Z) (a : arith_uint256) (b : Z) : arith_uint256 :=
  match a with
  | [] => []
  | x :: a' =>
      let n := u64 (carry + u64 (b * x)) in
      (n .& 0xffffffff) :: mul_u32_loop (n ≫ 32) a' b
  end.

Definition arith_uint256_mul_u32 (a : arith_uint256) (b : Z) : arith_uint256 :=
  mul_u32_loop 0 a b.

Definition arith_uint256_or (a b : arith_uint256) : arith_uint256 := zip_with Z.lor a b.

Definition arith_uint256_and (a b : arith_uint256) : arith_uint256 := zip_with Z.land a b.

Definition arith_uint256_xor (a b : arith_uint256) : arith_uint256 := zip_with Z.lxor a b.

(** ** Operations of arith_uint256.c *)

(** One iteration of the shift loops: the result array is updated in place. *)
Definition shl_step (tmp : arith_uint256) (k : nat) (shift : Z)
    (r : arith_uint256) (i : nat) : arith_uint256 :=
  let r1 :=
    if ((i + k + 1 <? ARITH_UINT256_WIDTH)%nat && negb (shift =? 0))%bool
    then alter (fun w => w .| ((tmp !!! i) ≫ (32 - shift))) (i + k + 1)%nat r
    else r in
  if (i + k <? ARITH_UINT256_WIDTH)%nat
  then alter (fun w => w .| u32 ((tmp !!! i) ≪ shift)) (i + k)%nat r1
  else r1.

Definition arith_uint256_shl (a : arith_uint256) (shift : Z) : arith_uint256 :=
  foldl (shl_step a (Z.to_nat (shift / 32)) (shift mod 32))
    arith_uint256_set_zero (seq 0 ARITH_UINT256_WIDTH).

Definition shr_step (tmp : arith_uint256) (k : nat) (shift : Z)
    (r : arith_uint256) (i : nat) : arith_uint256 :=
  let r1 :=
    if ((k + 1 <=? i)%nat && negb (shift =? 0))%bool
    then alter (fun w => w .| u32 ((tmp !!! i) ≪ (32 - shift))) (i - k - 1)%nat r
    else r in
  if (k <=? i)%nat
  then alter (fun w => w .| ((tmp !!! i) ≫ shift)) (i - k)%nat r1
  else r1.

Definition arith_uint256_shr (a : arith_uint256) (shift : Z) : arith_uint256 :=
  foldl (shr_step a (Z.to_nat (shift / 32)) (shift mod 32))
    arith_uint256_set_zero (seq 0 ARITH_UINT256_WIDTH).

(** The inner loop of the product adds [aj * b] into the limbs [r[j..7]]. *)
Fixpoint mul_row (carry aj : Z) (r b : arith_uint256) : arith_uint256 :=
  match r, b with
  | x :: r', y :: b' =>
      let n := u64 (u64 (carry + x) + u64 (aj * y)) in
      (n .& 0xffffffff) :: mul_row (n ≫ 32) aj r' b'
  | _, _ => r
  end.

(** The outer loop; [r] is the suffix of the result starting at limb [j]. *)
Fixpoint mul_loop (a r b : arith_uint256) : arith_uint256 :=
  match a with
  | [] => r
  | aj :: a' =>
      match mul_row 0 aj r b with
      | [] => []
      | x :: r' => x :: mul_loop a' r' b
      end
  end.

Definition arith_uint256_mul (a b : arith_uint256) : arith_uint256 :=
  mul_loop a arith_uint256_set_zero b.

(** [for (nbits = 31; nbits > 0; nbits--) if (w & (1u << nbits)) ...] *)
Fixpoint limb_bits (w : Z) (nbits : nat) : Z :=
  match nbits with
  | O => 1
  | S n => if negb (w .& (1 ≪ Z.of_nat nbits) =? 0) then Z.of_nat nbits + 1 else limb_bits w n
  end.

Fixpoint bits_loop (a : arith_uint256) (n : nat) : Z :=
  match n with
  | O => 0
  | S pos =>
      if negb (a !!! pos =? 0) then 32 * Z.of_nat pos + limb_bits (a !!! pos) 31
      else bits_loop a pos
  end.

Definition arith_uint256_bits (a : arith_uint256) : Z := bits_loop a ARITH_UINT256_WIDTH.

(** The [while (shift >= 0)] loop of the division; [n] is [shift + 1]. *)
Fixpoint div_loop (n : nat) (num div r : arith_uint256) : arith_uint256 :=
  match n with
  | O => r
  | S shift =>
      let '(num', r') :=
        if arith_uint256_compare num div >=? 0
        then (arith_uint256_sub num div,
              alter (fun w => w .| u32 (1 ≪ (Z.of_nat shift .& 31))) (shift / 32)%nat r)
        else (num, r) in
      div_loop shift num' (arith_uint256_shr div 1) r'
  end.

Definition arith_uint256_div (a b : arith_uint256) : arith_uint256 :=
  let num_bits := arith_uint256_bits a in
  let div_bits := arith_uint256_bits b in
  if div_bits =? 0 then arith_uint256_set_zero
  else if div_bits >? num_bits then arith_uint256_set_zero
  else
    let shift := num_bits - div_bits in
    div_loop (Z.to_nat (shift + 1)) a (arith_uint256_shl b shift) arith_uint256_set_zero.

(** Result of [arith_uint256_set_compact]: the value and the two out-flags. *)
Record compact_result := CompactResult {
  cr_value : arith_uint256;
  cr_negative : bool;
  cr_overflow : bool;
}.

Definition compact_word (compact : Z) : Z :=
  let size := compact ≫ 24 in
  let word := compact .& 0x007fffff in
  if size <=? 3 then word ≫ (8 * (3 - size)) else word.

Definition arith_uint256_set_compact (compact : Z) : compact_result :=
  let size := compact ≫ 24 in
  let word := compact_word compact in
  {| cr_value :=
       if size <=? 3 then arith_uint256_set_u64 word
       else arith_uint256_shl (arith_uint256_set_u64 word) (8 * (size - 3));
     cr_negative := negb (word =? 0) && negb (compact .& 0x00800000 =? 0);
     cr_overflow := negb (word =? 0) &&
       ((size >? 34) || ((word >? 0xff) && (size >? 33)) || ((word >? 0xffff) && (size >? 32))) |}.

(** [None] is a failing [assert]. *)
Definition arith_uint256_get_compact (a : arith_uint256) (negative : bool) : option Z :=
  let size := (arith_uint256_bits a + 7) / 8 in
  let compact :=
    if size <=? 3 then u32 (u64 (arith_uint256_get_low64 a ≪ (8 * (3 - size))))
    else u32 (arith_uint256_get_low64 (arith_uint256_shr a (8 * (size - 3)))) in
  let '(compact, size) :=
    if negb (compact .& 0x00800000 =? 0) then (compact ≫ 8, size + 1) else (compact, size) in
  if negb (compact .& u32 (Z.lnot 0x007fffff) =? 0) then None
  else if negb (size <? 256) then None
  else
    let compact := compact .| u32 (size ≪ 24) in
    Some (compact .| (if (negative && negb (compact .& 0x007fffff =? 0))%bool then 0x00800000 else 0)).

(** ** Conversion to and from the byte form (struct uint256: 32 bytes) *)

Abbreviation uint256 := (list Z).

Definition uint256_ok (h : uint256) : Prop := length h = 32%nat /\ bytes_ok h.

#[export] Instance uint256_ok_dec h : Decision (uint256_ok h).
Proof. unfold uint256_ok. apply _. Defined.

Definition arith_to_uint256 (a : arith_uint256) : uint256 :=
  mjoin (map (le_encode 4) a).

Definition uint256_to_arith (h : uint256) : arith_uint256 :=
  map (fun x => le_decode (take 4 (drop (4 * x) h))) (seq 0 ARITH_UINT256_WIDTH).

(** ** The abstraction function *)

Definition R256 : Z := 2 ^ 256.

Lemma limbs_ok_cons n x a :
  limbs_ok (S n) (x :: a) <-> is_u 32 x /\ limbs_ok n a.
Proof. unfold limbs_ok. rewrite Forall_cons. simpl. naive_solver lia. Qed.

Lemma limbs_ok_nil n : limbs_ok n [] <-> n = 0%nat.
Proof. unfold limbs_ok. simpl. naive_solver. Qed.

Lemma limbs_ok_zero n : limbs_ok n (replicate n 0).
Proof.
  split; [apply length_replicate|]. apply Forall_replicate. done.
Qed.

Lemma limbs_ok_lookup n a i : limbs_ok n a -> (i < n)%nat -> is_u 32 (a !!! i).
Proof.
  intros [<- Ha] Hi. exact (Forall_lookup_total_1 _ _ _ Ha Hi).
Qed.

Lemma pow32_succ n : 2 ^ (32 * Z.of_nat (S n)) = 2 ^ 32 * 2 ^ (32 * Z.of_nat n).
Proof. rewrite <- Z.pow_add_r by lia. f_equal. lia. Qed.

Lemma limbs_Z_bound n a : limbs_ok n a -> 0 <= limbs_Z a < 2 ^ (32 * Z.of_nat n).
Proof.
  revert n; induction a as [|x a IH]; intros n Ha.
  - apply limbs_ok_nil in Ha as ->. done.
  - destruct n as [|n]; [by destruct Ha|]. apply limbs_ok_cons in Ha as [Hx Ha].
    specialize (IH n Ha). rewrite pow32_succ. cbn [limbs_Z]. unfold is_u in Hx. nia.
Qed.

Lemma arith_bound a : arith_ok a -> 0 <= limbs_Z a < R256.
Proof. apply (limbs_Z_bound 8). Qed.

Lemma limbs_Z_zero n : limbs_Z (replicate n 0) = 0.
Proof. induction n as [|n IH]; simpl in *; lia. Qed.

Lemma limbs_Z_inj n a b : limbs_ok n a -> limbs_ok n b -> limbs_Z a = limbs_Z b -> a = b.
Proof.
  revert a b; induction n as [|n IH]; intros a b Ha Hb E.
  - destruct a, b; [done|by destruct Hb|by destruct Ha..].
  - destruct a as [|x a], b as [|y b]; [by destruct Ha|by destruct Ha|by destruct Hb|].
    apply limbs_ok_cons in Ha as [Hx Ha], Hb as [Hy Hb]. cbn [limbs_Z] in E.
    unfold is_u in *.
    assert (x = y) as -> by lia. f_equal. apply IH; [done..|]. lia.
Qed.

(** The carry step shared by the addition and multiplication loops: emit the low
    limb of [n], carry its high part. *)
Lemma limb_carry_step n m M :
  0 < M -> n mod 2 ^ 32 + 2 ^ 32 * ((n / 2 ^ 32 + m) mod M) = (n + 2 ^ 32 * m) mod (2 ^ 32 * M).
Proof.
  intros HM. rewrite (Z.rem_mul_r _ (2 ^ 32) M) by lia.
  rewrite (Z.mul_comm (2 ^ 32) m), Z.mod_add, Z.div_add by lia. done.
Qed.

Lemma low_limb n : n .& 0xffffffff = n mod 2 ^ 32.
Proof. apply (land_ones_mod n 32). lia. Qed.

Lemma low_limb_ok n : is_u 32 (n .& 0xffffffff).
Proof. rewrite low_limb. by apply Z.mod_pos_bound. Qed.

#[export] Hint Resolve low_limb_ok limbs_ok_zero : zcl.

(** ** Addition, negation, subtraction *)

Lemma add_loop_spec n a b c :
  limbs_ok n a -> limbs_ok n b -> 0 <= c < 2 ^ 32 ->
  limbs_ok n (add_loop c a b) /\
  limbs_Z (add_loop c a b) = (c + limbs_Z a + limbs_Z b) mod 2 ^ (32 * Z.of_nat n).
Proof.
  revert a b c; induction n as [|n IH]; intros a b c Ha Hb Hc.
  - destruct a; [|by destruct Ha]. simpl. rewrite Z.mod_1_r. by rewrite limbs_ok_nil.
  - destruct a as [|x a]; [by destruct Ha|]. destruct b as [|y b]; [by destruct Hb|].
    apply limbs_ok_cons in Ha as [Hx Ha], Hb as [Hy Hb]. unfold is_u in *.
    cbn [add_loop limbs_Z]. rewrite uwrap_small by (unfold is_u; lia).
    destruct (IH a b ((c + x + y) ≫ 32) Ha Hb) as [Hok Hval].
    { rewrite shiftr_div by lia. split; [apply Z.div_pos; lia|]. apply Z.div_lt_upper_bound; lia. }
    rewrite limbs_ok_cons. split; [auto with zcl|].
    rewrite Hval, low_limb, shiftr_div, pow32_succ by lia.
    rewrite <- (Z.add_assoc (_ / _)), limb_carry_step by (apply Z.pow_pos_nonneg; lia).
    f_equal. ring.
Qed.

Lemma add_ok a b : arith_ok a -> arith_ok b -> arith_ok (arith_uint256_add a b).
Proof. intros. by apply (add_loop_spec 8 a b 0). Qed.

Lemma add_spec a b : arith_ok a -> arith_ok b ->
  limbs_Z (arith_uint256_add a b) = (limbs_Z a + limbs_Z b) mod R256.
Proof. intros. by apply (add_loop_spec 8 a b 0). Qed.

Lemma not_limb x : is_u 32 x -> u32 (Z.lnot x) = 2 ^ 32 - 1 - x.
Proof.
  unfold is_u, uwrap, Z.lnot. intros. rewrite <- (Z.mod_add _ 1) by lia.
  rewrite Z.mod_small; lia.
Qed.

Lemma complement_limbs n a : limbs_ok n a ->
  limbs_ok n (map (fun x => u32 (Z.lnot x)) a) /\
  limbs_Z (map (fun x => u32 (Z.lnot x)) a) = 2 ^ (32 * Z.of_nat n) - 1 - limbs_Z a.
Proof.
  revert n; induction a as [|x a IH]; intros n Ha.
  - apply limbs_ok_nil in Ha as ->. done.
  - destruct n as [|n]; [by destruct Ha|]. apply limbs_ok_cons in Ha as [Hx Ha].
    destruct (IH n Ha) as [Hok Hval]. cbn [map limbs_Z].
    rewrite limbs_ok_cons, pow32_succ, Hval, not_limb by done.
    unfold is_u in *. split; [split; [lia|done]|lia].
Qed.

Lemma complement_ok a : arith_ok a -> arith_ok (arith_uint256_complement a).
Proof. intros. by apply (complement_limbs 8). Qed.

Lemma complement_spec a : arith_ok a ->
  limbs_Z (arith_uint256_complement a) = R256 - 1 - limbs_Z a.
Proof. intros. by apply (complement_limbs 8). Qed.

Lemma increment_loop_spec n r : limbs_ok n r ->
  limbs_ok n (increment_loop r) /\
  limbs_Z (increment_loop r) = (limbs_Z r + 1) mod 2 ^ (32 * Z.of_nat n).
Proof.
  revert n; induction r as [|x r IH]; intros n Hr.
  - apply limbs_ok_nil in Hr as ->. done.
  - destruct n as [|n]; [by destruct Hr|]. apply limbs_ok_cons in Hr as [Hx Hr].
    destruct (IH n Hr) as [Hok Hval]. pose proof (limbs_Z_bound n r Hr).
    cbn [increment_loop limbs_Z]. unfold is_u, uwrap in *. rewrite pow32_succ.
    destruct (decide (x = 2 ^ 32 - 1)) as [->|].
    + change ((2 ^ 32 - 1 + 1) mod 2 ^ 32) with 0. cbn [Z.eqb limbs_Z].
      rewrite limbs_ok_cons, Hval. split; [by split|].
      replace (2 ^ 32 - 1 + 2 ^ 32 * limbs_Z r + 1) with (2 ^ 32 * (limbs_Z r + 1)) by ring.
      rewrite Z.mul_mod_distr_l by lia. lia.
    + rewrite Z.mod_small by lia. replace (x + 1 =? 0) with false by lia.
      cbn [limbs_Z]. rewrite limbs_ok_cons, Z.mod_small by nia. unfold is_u.
      split; [split; [lia|done]|lia].
Qed.

Lemma negate_ok a : arith_ok a -> arith_ok (arith_uint256_negate a).
Proof. intros. by apply (increment_loop_spec 8), (complement_limbs 8). Qed.

Lemma negate_spec a : arith_ok a ->
  limbs_Z (arith_uint256_negate a) = (- limbs_Z a) mod R256.
Proof.
  intros Ha. destruct (complement_limbs 8 a Ha) as [Hok Hval].
  unfold arith_uint256_negate. rewrite (proj2 (increment_loop_spec 8 _ Hok)), Hval.
  change (2 ^ (32 * Z.of_nat 8)) with R256.
  replace (R256 - 1 - limbs_Z a + 1) with (- limbs_Z a + 1 * R256) by ring.
  by rewrite Z.mod_add.
Qed.

#[export] Hint Resolve add_ok complement_ok negate_ok : zcl.

Lemma sub_ok a b : arith_ok a -> arith_ok b -> arith_ok (arith_uint256_sub a b).
Proof. unfold arith_uint256_sub. auto with zcl. Qed.

Lemma sub_spec a b : arith_ok a -> arith_ok b ->
  limbs_Z (arith_uint256_sub a b) = (limbs_Z a - limbs_Z b) mod R256.
Proof.
  intros Ha Hb. unfold arith_uint256_sub.
  rewrite add_spec, negate_spec by auto with zcl.
  by rewrite Zplus_mod_idemp_r.
Qed.

(** ** Multiplication *)

Lemma mul_row_spec n c aj r b :
  limbs_ok n r -> Forall (is_u 32) b -> (n <= length b)%nat -> is_u 32 aj -> is_u 32 c ->
  limbs_ok n (mul_row c aj r b) /\
  limbs_Z (mul_row c aj r b) = (c + limbs_Z r + aj * limbs_Z b) mod 2 ^ (32 * Z.of_nat n).
Proof.
  revert c r b; induction n as [|n IH]; intros c r b Hr Hb Hlen Haj Hc.
  - destruct r; [|by destruct Hr]. simpl. rewrite Z.mod_1_r. by rewrite limbs_ok_nil.
  - destruct r as [|x r]; [by destruct Hr|]. destruct b as [|y b]; [simpl in Hlen; lia|].
    apply limbs_ok_cons in Hr as [Hx Hr]. apply Forall_cons in Hb as [Hy Hb].
    cbn [mul_row limbs_Z length] in *. unfold is_u in Hx, Hy, Haj, Hc.
    rewrite !uwrap_small by (unfold is_u; try rewrite !uwrap_small; unfold is_u; nia).
    destruct (IH ((c + x + aj * y) ≫ 32) r b Hr Hb ltac:(lia) Haj) as [Hok Hval].
    { rewrite shiftr_div by lia. split; [apply Z.div_pos; nia|]. apply Z.div_lt_upper_bound; nia. }
    rewrite limbs_ok_cons. split; [auto with zcl|].
    rewrite Hval, low_limb, shiftr_div, pow32_succ by lia.
    rewrite <- (Z.add_assoc (_ / _)), limb_carry_step by (apply Z.pow_pos_nonneg; lia).
    f_equal. ring.
Qed.

Lemma mul_loop_spec n a r b :
  limbs_ok n a -> limbs_ok n r -> Forall (is_u 32) b -> (n <= length b)%nat ->
  limbs_ok n (mul_loop a r b) /\
  limbs_Z (mul_loop a r b) = (limbs_Z r + limbs_Z a * limbs_Z b) mod 2 ^ (32 * Z.of_nat n).
Proof.
  revert a r; induction n as [|n IH]; intros a r Ha Hr Hb Hlen.
  - destruct a; [|by destruct Ha]. destruct r; [|by destruct Hr]. done.
  - destruct a as [|x a]; [by destruct Ha|]. apply limbs_ok_cons in Ha as [Hx Ha].
    destruct (mul_row_spec (S n) 0 x r b Hr Hb Hlen Hx ltac:(done)) as [Hok Hval].
    cbn [mul_loop]. destruct (mul_row 0 x r b) as [|y r'] eqn:E; [by destruct Hok|].
    apply limbs_ok_cons in Hok as [Hy Hr'].
    destruct (IH a r' Ha Hr' Hb ltac:(lia)) as [Hok' Hval']. rewrite limbs_ok_cons.
    split; [done|]. cbn [limbs_Z] in *. rewrite Hval'. rewrite pow32_succ in *.
    set (M := 2 ^ (32 * Z.of_nat n)) in *. assert (0 < M) by (apply Z.pow_pos_nonneg; lia).
    replace (limbs_Z r + (x + 2 ^ 32 * limbs_Z a) * limbs_Z b)
      with ((0 + limbs_Z r + x * limbs_Z b) + 2 ^ 32 * (limbs_Z a * limbs_Z b)) by ring.
    rewrite <- (Zplus_mod_idemp_l (0 + _ + _)), <- Hval.
    pose proof (limb_carry_step (y + 2 ^ 32 * limbs_Z r') (limbs_Z a * limbs_Z b) M) as L.
    unfold is_u in Hy. rewrite <- L by done.
    replace ((y + 2 ^ 32 * limbs_Z r') mod 2 ^ 32) with y by div_mod_lia.
    replace ((y + 2 ^ 32 * limbs_Z r') / 2 ^ 32) with (limbs_Z r') by div_mod_lia. done.
Qed.

Lemma mul_ok a b : arith_ok a -> arith_ok b -> arith_ok (arith_uint256_mul a b).
Proof.
  intros Ha [Hb1 Hb2]. apply (mul_loop_spec 8); [done|apply limbs_ok_zero|done|lia].
Qed.

Lemma mul_spec a b : arith_ok a -> arith_ok b ->
  limbs_Z (arith_uint256_mul a b) = (limbs_Z a * limbs_Z b) mod R256.
Proof.
  intros Ha [Hb1 Hb2]. unfold arith_uint256_mul, arith_uint256_set_zero.
  by rewrite (proj2 (mul_loop_spec 8 a (replicate 8 0) b Ha (limbs_ok_zero 8) Hb2 ltac:(lia))).
Qed.

Lemma mul_u32_loop_spec n c a b :
  limbs_ok n a -> is_u 32 b -> is_u 32 c ->
  limbs_ok n (mul_u32_loop c a b) /\
  limbs_Z (mul_u32_loop c a b) = (c + limbs_Z a * b) mod 2 ^ (32 * Z.of_nat n).
Proof.
  revert c n; induction a as [|x a IH]; intros c n Ha Hb Hc.
  - apply limbs_ok_nil in Ha as ->. simpl. by rewrite Z.mod_1_r, limbs_ok_nil.
  - destruct n as [|n]; [by destruct Ha|]. apply limbs_ok_cons in Ha as [Hx Ha].
    cbn [mul_u32_loop limbs_Z]. unfold is_u in Hx, Hb, Hc.
    rewrite !uwrap_small by (unfold is_u; try rewrite !uwrap_small; unfold is_u; nia).
    destruct (IH ((c + b * x) ≫ 32) n Ha Hb) as [Hok Hval].
    { rewrite shiftr_div by lia. split; [apply Z.div_pos; nia|]. apply Z.div_lt_upper_bound; nia. }
    rewrite limbs_ok_cons. split; [auto with zcl|].
    rewrite Hval, low_limb, shiftr_div, pow32_succ by lia.
    rewrite limb_carry_step by (apply Z.pow_pos_nonneg; lia). f_equal. ring.
Qed.

Lemma mul_u32_ok a b : arith_ok a -> is_u 32 b -> arith_ok (arith_uint256_mul_u32 a b).
Proof. intros. by apply (mul_u32_loop_spec 8). Qed.

Lemma mul_u32_spec a b : arith_ok a -> is_u 32 b ->
  limbs_Z (arith_uint256_mul_u32 a b) = (limbs_Z a * b) mod R256.
Proof. intros. by apply (mul_u32_loop_spec 8 0). Qed.

(** ** Comparison *)

Lemma limbs_Z_app a b :
  limbs_Z (a ++ b) = limbs_Z a + 2 ^ (32 * Z.of_nat (length a)) * limbs_Z b.
Proof.
  induction a as [|x a IH]; [simpl; lia|].
  cbn [app length limbs_Z]. rewrite IH, pow32_succ. ring.
Qed.

Lemma limbs_Z_take_S n a i : limbs_ok n a -> (i < n)%nat ->
  limbs_Z (take (S i) a) = limbs_Z (take i a) + 2 ^ (32 * Z.of_nat i) * (a !!! i).
Proof.
  intros [<- _] Hi. rewrite (take_S_r a i (a !!! i)) by (by apply list_lookup_lookup_total_lt).
  rewrite limbs_Z_app, length_take. rewrite Nat.min_l by lia. simpl. lia.
Qed.

Lemma limbs_ok_take n a i : limbs_ok n a -> (i <= n)%nat -> limbs_ok i (take i a).
Proof.
  intros [<- Ha] Hi. split; [rewrite length_take; lia|by apply Forall_take].
Qed.

Definition Z_of_comparison (c : comparison) : Z :=
  match c with Lt => -1 | Eq => 0 | Gt => 1 end.

Lemma compare_loop_spec n a b i : limbs_ok n a -> limbs_ok n b -> (i <= n)%nat ->
  compare_loop a b i = Z_of_comparison (limbs_Z (take i a) ?= limbs_Z (take i b)).
Proof.
  intros Ha Hb. induction i as [|i IH]; intros Hi; [done|].
  cbn [compare_loop]. rewrite IH by lia.
  rewrite !(limbs_Z_take_S n) by (done || lia).
  pose proof (limbs_Z_bound i _ (limbs_ok_take n a i Ha ltac:(lia))).
  pose proof (limbs_Z_bound i _ (limbs_ok_take n b i Hb ltac:(lia))).
  set (M := 2 ^ (32 * Z.of_nat i)) in *.
  destruct (Z.ltb_spec (a !!! i) (b !!! i)).
  { replace (_ ?= _) with Lt; [done|]. symmetry. apply Z.compare_lt_iff. nia. }
  rewrite Z.gtb_ltb. destruct (Z.ltb_spec (b !!! i) (a !!! i)).
  { replace (_ ?= _) with Gt; [done|]. symmetry. apply Z.compare_gt_iff. nia. }
  replace (b !!! i) with (a !!! i) by lia.
  f_equal. rewrite !(Z.add_comm (limbs_Z _)). symmetry. apply Z.add_compare_mono_l.
Qed.

Lemma compare_spec a b : arith_ok a -> arith_ok b ->
  arith_uint256_compare a b = Z_of_comparison (limbs_Z a ?= limbs_Z b).
Proof.
  intros Ha Hb. unfold arith_uint256_compare. rewrite (compare_loop_spec 8) by done.
  rewrite !take_ge by (destruct Ha, Hb; lia). done.
Qed.

Lemma compare_ge a b : arith_ok a -> arith_ok b ->
  (arith_uint256_compare a b >=? 0) = (limbs_Z b <=? limbs_Z a).
Proof.
  intros. rewrite compare_spec by done. destruct (Z.compare_spec (limbs_Z a) (limbs_Z b)); simpl; lia.
Qed.

Lemma compare_gt a b : arith_ok a -> arith_ok b ->
  (arith_uint256_compare a b >? 0) = (limbs_Z b <? limbs_Z a).
Proof.
  intros. rewrite compare_spec by done. destruct (Z.compare_spec (limbs_Z a) (limbs_Z b)); simpl; lia.
Qed.

Lemma zero_limbs a : forallb (fun x => x =? 0) a = true -> limbs_Z a = 0.
Proof.
  induction a as [|x a IH]; simpl; [done|]. intros. zbool. rewrite IH by done. lia.
Qed.

Lemma nonzero_limbs n a : limbs_ok n a -> forallb (fun x => x =? 0) a = false -> limbs_Z a <> 0.
Proof.
  revert n; induction a as [|x a IH]; intros n Ha; cbn [forallb limbs_Z]; [done|].
  destruct n as [|n]; [by destruct Ha|]. apply limbs_ok_cons in Ha as [Hx Ha].
  pose proof (limbs_Z_bound n a Ha). unfold is_u in Hx.
  destruct (x =? 0) eqn:E; simpl; [|lia]. intros F. specialize (IH n Ha F). lia.
Qed.

Lemma is_zero_spec a : arith_ok a -> arith_uint256_is_zero a = (limbs_Z a =? 0).
Proof.
  intros Ha. unfold arith_uint256_is_zero.
  destruct (forallb _ a) eqn:E; [apply zero_limbs in E|apply (nonzero_limbs 8) in E]; [lia|lia|done].
Qed.

(** ** 64-bit conversions *)

Lemma set_u64_ok v : arith_ok (arith_uint256_set_u64 v).
Proof.
  unfold arith_uint256_set_u64. rewrite !limbs_ok_cons.
  split; [by apply uwrap_range|]. split; [by apply uwrap_range|]. apply (limbs_ok_zero 6).
Qed.

Lemma set_u64_spec v : limbs_Z (arith_uint256_set_u64 v) = u64 v.
Proof.
  unfold arith_uint256_set_u64, uwrap. cbn [limbs_Z Nat.sub replicate].
  rewrite shiftr_div by lia. change (2 ^ 64) with (2 ^ 32 * 2 ^ 32).
  rewrite (Z.rem_mul_r v) by lia. lia.
Qed.

Lemma limbs8_inv a : arith_ok a ->
  exists a0 a1 a2 a3 a4 a5 a6 a7, a = [a0; a1; a2; a3; a4; a5; a6; a7] /\
  (is_u 32 a0 /\ is_u 32 a1 /\ is_u 32 a2 /\ is_u 32 a3) /\
  (is_u 32 a4 /\ is_u 32 a5 /\ is_u 32 a6 /\ is_u 32 a7).
Proof.
  intros Ha. do 8 (destruct a as [|? a]; [by destruct Ha|]).
  destruct a; [|by destruct Ha].
  repeat (apply limbs_ok_cons in Ha as [? Ha]). do 8 eexists. done.
Qed.

Lemma get_low64_spec a : arith_ok a -> arith_uint256_get_low64 a = limbs_Z a mod 2 ^ 64.
Proof.
  intros Ha. destruct (limbs8_inv a Ha) as (a0&a1&a2&a3&a4&a5&a6&a7&->&(H0&H1&_)&_).
  unfold arith_uint256_get_low64. cbn [lookup_total list_lookup_total]. unfold is_u in *.
  rewrite Z.shiftl_mul_pow2, uwrap_small by (unfold is_u; lia).
  rewrite lor_disjoint_add by lia. cbn [limbs_Z].
  rewrite <- (Z.mod_small (a0 + a1 * 2 ^ 32) (2 ^ 64)) by lia.
  match goal with |- _ = (a0 + 2 ^ 32 * (a1 + 2 ^ 32 * ?r)) mod _ =>
    replace (a0 + 2 ^ 32 * (a1 + 2 ^ 32 * r)) with (a0 + a1 * 2 ^ 32 + r * 2 ^ 64) by ring end.
  by rewrite Z.mod_add.
Qed.

#[export] Hint Resolve mul_ok mul_u32_ok sub_ok set_u64_ok : zcl.

(** ** Shifts

    The loops are shown equal to a list of "cells" (reference definition), whose
    value is computed by induction. *)

Definition shl_hi (r prev : Z) : Z := if r =? 0 then 0 else prev ≫ (32 - r).

Fixpoint shl_cells (r prev : Z) (a : arith_uint256) : arith_uint256 :=
  match a with
  | [] => [shl_hi r prev]
  | x :: a' => (shl_hi r prev .| u32 (x ≪ r)) :: shl_cells r x a'
  end.

Lemma shl_loop_cells a k r : arith_ok a ->
  foldl (shl_step a k r) arith_uint256_set_zero (seq 0 8) =
  take 8 (replicate k 0 ++ shl_cells r 0 a).
Proof.
  intros Ha. destruct (limbs8_inv a Ha) as (a0&a1&a2&a3&a4&a5&a6&a7&->&_).
  do 8 (destruct k as [|k]; [unfold shl_step; cbn -[uwrap Z.lor Z.shiftl Z.shiftr Z.sub];
    unfold shl_hi; destruct (r =? 0);
    cbn -[uwrap Z.lor Z.shiftl Z.shiftr Z.sub]; by rewrite ?Z.shiftr_0_l, ?Z.lor_0_l|]).
  done.
Qed.

Lemma shl_cell_spec r x : 0 <= r < 32 -> is_u 32 x ->
  u32 (x ≪ r) = (x mod 2 ^ (32 - r)) * 2 ^ r /\
  shl_hi r x = x / 2 ^ (32 - r) /\ 0 <= shl_hi r x < 2 ^ r /\
  0 <= x mod 2 ^ (32 - r) < 2 ^ (32 - r) /\
  x = x mod 2 ^ (32 - r) + 2 ^ (32 - r) * shl_hi r x /\ 2 ^ r * 2 ^ (32 - r) = 2 ^ 32.
Proof.
  intros Hr Hx. unfold is_u in Hx.
  assert (2 ^ r * 2 ^ (32 - r) = 2 ^ 32) as E by (rewrite <- Z.pow_add_r by lia; f_equal; lia).
  assert (shl_hi r x = x / 2 ^ (32 - r)) as Eh.
  { unfold shl_hi. destruct (Z.eqb_spec r 0) as [->|]; [|by apply shiftr_div; lia].
    rewrite Z.div_small; lia. }
  assert (0 < 2 ^ (32 - r)) by (apply Z.pow_pos_nonneg; lia).
  rewrite Eh. split_and!; [|done|apply Z.div_pos; lia|apply Z.div_lt_upper_bound; lia
    |by apply Z.mod_pos_bound|by apply Z.mod_pos_bound|rewrite Z.add_comm; apply Z.div_mod; lia|done].
  unfold uwrap. rewrite Z.shiftl_mul_pow2 by lia. rewrite <- E, (Z.mul_comm (2 ^ r)).
  apply Z.mul_mod_distr_r; lia.
Qed.

Lemma shl_cells_spec n a r prev : 0 <= r < 32 -> limbs_ok n a -> is_u 32 prev ->
  limbs_ok (S n) (shl_cells r prev a) /\
  limbs_Z (shl_cells r prev a) = shl_hi r prev + 2 ^ r * limbs_Z a.
Proof.
  revert n prev; induction a as [|x a IH]; intros n prev Hr Ha Hp.
  all: destruct (shl_cell_spec r prev Hr Hp) as (_ & _ & Bh & _).
  all: assert (2 ^ r <= 2 ^ 32) by (apply Z.pow_le_mono_r; lia).
  - apply limbs_ok_nil in Ha as ->. cbn [shl_cells limbs_Z]. rewrite limbs_ok_cons, limbs_ok_nil.
    unfold is_u. split; [split; [lia|done]|lia].
  - destruct n as [|n]; [by destruct Ha|]. apply limbs_ok_cons in Ha as [Hx Ha].
    destruct (shl_cell_spec r x Hr Hx) as (El & _ & _ & Bm & Ex & E32).
    destruct (IH n x Hr Ha Hx) as [Hok Hval].
    cbn [shl_cells limbs_Z]. rewrite limbs_ok_cons, El, lor_disjoint_add, Hval by lia.
    unfold is_u. split; [split; [nia|done]|].
    rewrite Ex at 3. rewrite <- E32. ring.
Qed.

Lemma limbs_Z_take_mod n a i : limbs_ok n a -> (i <= n)%nat ->
  limbs_Z (take i a) = limbs_Z a mod 2 ^ (32 * Z.of_nat i).
Proof.
  intros Ha Hi. pose proof (limbs_Z_bound i _ (limbs_ok_take n a i Ha Hi)) as B.
  rewrite <- (take_drop i a) at 2. rewrite limbs_Z_app, length_take.
  rewrite Nat.min_l by (destruct Ha; lia).
  rewrite Z.mul_comm, Z.mod_add, Z.mod_small by lia. done.
Qed.

Lemma limbs_ok_app n m a b : limbs_ok n a -> limbs_ok m b -> limbs_ok (n + m) (a ++ b).
Proof. intros [<- ?] [<- ?]. split; [apply length_app|by apply Forall_app]. Qed.

Lemma shift_split s : 0 <= s -> 2 ^ s = 2 ^ (32 * Z.of_nat (Z.to_nat (s / 32))) * 2 ^ (s mod 32).
Proof.
  intros. pose proof (Z.mod_pos_bound s 32). rewrite <- Z.pow_add_r by (try apply Z.div_pos; lia).
  f_equal. rewrite Z2Nat.id by (apply Z.div_pos; lia). apply Z.div_mod. lia.
Qed.

Lemma shl_correct a s : arith_ok a -> 0 <= s ->
  arith_ok (arith_uint256_shl a s) /\
  limbs_Z (arith_uint256_shl a s) = (limbs_Z a * 2 ^ s) mod R256.
Proof.
  intros Ha Hs. unfold arith_uint256_shl. rewrite shl_loop_cells by done.
  set (k := Z.to_nat (s / 32)). set (r := s mod 32).
  destruct (shl_cells_spec 8 a r 0) as [Hok Hval]; [by apply Z.mod_pos_bound|done|done|].
  pose proof (limbs_ok_app k 9 _ _ (limbs_ok_zero k) Hok) as Hall.
  split; [apply (limbs_ok_take (k + 9)); [done|lia]|].
  rewrite (limbs_Z_take_mod (k + 9)) by (done || lia).
  rewrite limbs_Z_app, limbs_Z_zero, length_replicate, Hval, (shift_split s) by done.
  change (2 ^ (32 * Z.of_nat 8)) with R256. f_equal. fold k r.
  replace (shl_hi r 0) with 0 by (unfold shl_hi; by destruct (r =? 0); rewrite ?Z.shiftr_0_l). ring.
Qed.

Lemma shl_ok a s : arith_ok a -> 0 <= s -> arith_ok (arith_uint256_shl a s).
Proof. intros. by apply shl_correct. Qed.

Definition shr_lo (r next : Z) : Z := if r =? 0 then 0 else u32 (next ≪ (32 - r)).

Fixpoint shr_cells (r : Z) (a : arith_uint256) : arith_uint256 :=
  match a with
  | [] => []
  | [x] => [x ≫ r]
  | x :: ((y :: _) as a') => ((x ≫ r) .| shr_lo r y) :: shr_cells r a'
  end.

Lemma shr_loop_cells a k r : arith_ok a ->
  foldl (shr_step a k r) arith_uint256_set_zero (seq 0 8) =
  shr_cells r (drop k a) ++ replicate (Nat.min k 8) 0.
Proof.
  intros Ha. destruct (limbs8_inv a Ha) as (a0&a1&a2&a3&a4&a5&a6&a7&->&_).
  do 8 (destruct k as [|k]; [unfold shr_step; cbn -[uwrap Z.lor Z.shiftl Z.shiftr Z.sub];
    unfold shr_lo; destruct (r =? 0);
    cbn -[uwrap Z.lor Z.shiftl Z.shiftr Z.sub]; by rewrite ?Z.lor_0_l, ?Z.lor_0_r|]).
  destruct k; done.
Qed.

Lemma shr_lo_spec r y : 0 <= r < 32 -> is_u 32 y ->
  shr_lo r y = (y mod 2 ^ r) * 2 ^ (32 - r) /\ 2 ^ (32 - r) * 2 ^ r = 2 ^ 32.
Proof.
  intros Hr Hy. assert (2 ^ (32 - r) * 2 ^ r = 2 ^ 32) as E
    by (rewrite <- Z.pow_add_r by lia; f_equal; lia).
  split; [|done]. unfold shr_lo. destruct (Z.eqb_spec r 0) as [->|].
  - by rewrite Z.mod_1_r.
  - unfold uwrap. rewrite Z.shiftl_mul_pow2 by lia. rewrite <- E, (Z.mul_comm (2 ^ (32 - r))).
    apply Z.mul_mod_distr_r; lia.
Qed.

Lemma limbs_head_mod y t r : 0 <= r <= 32 -> (y + 2 ^ 32 * t) mod 2 ^ r = y mod 2 ^ r.
Proof.
  intros Hr. replace (2 ^ 32) with (2 ^ (32 - r) * 2 ^ r) by (rewrite <- Z.pow_add_r by lia; f_equal; lia).
  rewrite <- (Z.mod_add y (2 ^ (32 - r) * t)) by lia. f_equal. ring.
Qed.

Lemma shr_cells_spec n a r : 0 <= r < 32 -> limbs_ok n a ->
  limbs_ok n (shr_cells r a) /\ limbs_Z (shr_cells r a) = limbs_Z a / 2 ^ r.
Proof.
  revert n; induction a as [|x a IH]; intros n Hr Ha; [done|].
  destruct n as [|n]; [by destruct Ha|]. apply limbs_ok_cons in Ha as [Hx Ha].
  destruct (IH n Hr Ha) as [Hok Hval]. unfold is_u in Hx.
  assert (0 <= x / 2 ^ r < 2 ^ (32 - r)) as B.
  { split; [apply Z.div_pos; lia|]. apply Z.div_lt_upper_bound; [lia|].
    rewrite <- Z.pow_add_r by lia. replace (r + (32 - r)) with 32 by lia. lia. }
  destruct a as [|y a].
  - cbn [shr_cells limbs_Z]. rewrite limbs_ok_cons, shiftr_div by lia. destruct n; [|by destruct Ha].
    assert (2 ^ (32 - r) <= 2 ^ 32) by (apply Z.pow_le_mono_r; lia).
    unfold is_u. split; [split; [lia|done]|]. rewrite Z.mul_0_r, !Z.add_0_r. done.
  - destruct n as [|n]; [by destruct Ha|]. pose proof Ha as Ha'. apply limbs_ok_cons in Ha' as [Hy Ha'].
    destruct (shr_lo_spec r y Hr Hy) as [El E32].
    change (shr_cells r (x :: y :: a)) with (((x ≫ r) .| shr_lo r y) :: shr_cells r (y :: a)).
    set (A := limbs_Z (y :: a)) in *.
    change (limbs_Z (x :: y :: a)) with (x + 2 ^ 32 * A).
    rewrite limbs_ok_cons, El, shiftr_div, lor_disjoint_add by lia. cbn [limbs_Z]. rewrite Hval.
    assert (A mod 2 ^ r = y mod 2 ^ r) as EA by (apply limbs_head_mod; lia).
    pose proof (Z.mod_pos_bound y (2 ^ r) ltac:(lia)).
    split; [split; [unfold is_u; nia|done]|].
    rewrite <- E32 at 2.
    replace (2 ^ (32 - r) * 2 ^ r * A) with ((2 ^ (32 - r) * A) * 2 ^ r) by ring.
    rewrite Z.div_add by lia. rewrite (Z.div_mod A (2 ^ r)) at 2 by lia. rewrite EA, <- E32. ring.
Qed.

Lemma limbs_drop_div n a k : limbs_ok n a -> (k <= n)%nat ->
  limbs_ok (n - k) (drop k a) /\ limbs_Z (drop k a) = limbs_Z a / 2 ^ (32 * Z.of_nat k).
Proof.
  intros Ha Hk. pose proof (limbs_Z_bound k _ (limbs_ok_take n a k Ha Hk)) as B.
  destruct Ha as [<- Ha]. split; [split; [apply length_drop|by apply Forall_drop]|].
  rewrite <- (take_drop k a) at 2. rewrite limbs_Z_app, length_take, Nat.min_l by lia.
  rewrite Z.mul_comm, Z.div_add, Z.div_small by lia. lia.
Qed.

Lemma shr_correct a s : arith_ok a -> 0 <= s ->
  arith_ok (arith_uint256_shr a s) /\ limbs_Z (arith_uint256_shr a s) = limbs_Z a / 2 ^ s.
Proof.
  intros Ha Hs. unfold arith_uint256_shr. rewrite shr_loop_cells by done.
  assert (0 <= s mod 32 < 32) as Hr by (by apply Z.mod_pos_bound).
  rewrite (shift_split s Hs), <- Z.div_div by lia.
  set (k := Z.to_nat (s / 32)) in *. set (r := s mod 32) in *.
  destruct (decide (k <= 8)%nat) as [Hk|Hk].
  - destruct (limbs_drop_div 8 a k Ha Hk) as [Hd Ed].
    destruct (shr_cells_spec _ _ r Hr Hd) as [Hok Hval]. rewrite Nat.min_l by lia.
    split; [replace 8%nat with (8 - k + k)%nat by lia; apply limbs_ok_app; auto with zcl|].
    rewrite limbs_Z_app, limbs_Z_zero, Hval, Ed. lia.
  - rewrite drop_ge by (destruct Ha; lia). rewrite Nat.min_r by lia.
    cbn [shr_cells app]. split; [apply limbs_ok_zero|]. rewrite limbs_Z_zero.
    pose proof (arith_bound a Ha). rewrite (Z.div_small (limbs_Z a)); [done|].
    split; [lia|]. eapply Z.lt_le_trans; [apply H|]. apply Z.pow_le_mono_r; lia.
Qed.

Lemma shr_ok a s : arith_ok a -> 0 <= s -> arith_ok (arith_uint256_shr a s).
Proof. intros. by apply shr_correct. Qed.

#[export] Hint Resolve shl_ok shr_ok : zcl.

(** ** Bit length *)

Lemma land_bit w n : 0 <= n -> negb (w .& (1 ≪ n) =? 0) = Z.testbit w n.
Proof.
  intros Hn. rewrite Z.shiftl_1_l.
  assert (w .& 2 ^ n = if Z.testbit w n then 2 ^ n else 0) as ->.
  { apply Z.bits_inj'; intros i Hi. rewrite Z.land_spec, Z.pow2_bits_eqb by lia.
    destruct (Z.eqb_spec n i) as [->|].
    - rewrite andb_true_r. destruct (Z.testbit w i); [by rewrite Z.pow2_bits_true|by rewrite Z.bits_0].
    - rewrite andb_false_r. destruct (Z.testbit w n); [by rewrite Z.pow2_bits_false|by rewrite Z.bits_0]. }
  destruct (Z.testbit w n); [|done]. pose proof (Z.pow_pos_nonneg 2 n). lia.
Qed.

Lemma limb_bits_spec w n : 0 < w < 2 ^ (Z.of_nat n + 1) -> limb_bits w n = Z.log2 w + 1.
Proof.
  induction n as [|n IH]; intros Hw; [simpl in *; by replace w with 1 by lia|].
  cbn [limb_bits]. rewrite land_bit by lia. destruct (Z.testbit w (Z.of_nat (S n))) eqn:E.
  - f_equal. symmetry. apply Z.log2_unique; [lia|]. split; [|replace (Z.succ _) with (Z.of_nat (S n) + 1); lia].
    apply Z.nlt_ge. intros Hlt. rewrite <- (Z.mod_small w (2 ^ Z.of_nat (S n))) in E by lia.
    rewrite Z.mod_pow2_bits_high in E; [done|lia].
  - apply IH. split; [lia|]. replace (Z.of_nat n + 1) with (Z.of_nat (S n)) by lia.
    apply Z.nle_gt. intros Hle.
    assert (Z.testbit w (Z.log2 w) = true) as Hb by (apply Z.bit_log2; lia).
    assert (Z.log2 w = Z.of_nat (S n)) as El; [|congruence].
    apply Z.log2_unique; [lia|]. replace (Z.succ (Z.of_nat (S n))) with (Z.of_nat (S n) + 1) by lia. lia.
Qed.

Definition Zbits (x : Z) : Z := if x =? 0 then 0 else Z.log2 x + 1.

Lemma bits_loop_spec n a i : limbs_ok n a -> (i <= n)%nat ->
  bits_loop a i = Zbits (limbs_Z (take i a)).
Proof.
  intros Ha. induction i as [|i IH]; intros Hi; [done|].
  cbn [bits_loop]. rewrite IH, (limbs_Z_take_S n) by (done || lia).
  pose proof (limbs_Z_bound i _ (limbs_ok_take n a i Ha ltac:(lia))) as B.
  pose proof (limbs_ok_lookup n a i Ha ltac:(lia)) as Hw. unfold is_u in Hw.
  destruct (Z.eqb_spec (a !!! i) 0) as [->|Hnz]; [cbn [negb]; by rewrite Z.mul_0_r, Z.add_0_r|].
  cbn [negb]. rewrite limb_bits_spec by (simpl; lia). unfold Zbits.
  set (M := 2 ^ (32 * Z.of_nat i)) in *. set (w := a !!! i) in *. set (x := limbs_Z (take i a)) in *.
  destruct (Z.eqb_spec (x + M * w) 0); [nia|].
  rewrite Z.add_assoc. f_equal. symmetry.
  destruct (Z.log2_spec w ltac:(lia)) as [L1 L2]. pose proof (Z.log2_nonneg w).
  apply Z.log2_unique; [lia|]. rewrite Z.pow_succ_r in * by lia. rewrite Z.pow_add_r by lia. fold M. nia.
Qed.

Lemma bits_spec a : arith_ok a -> arith_uint256_bits a = Zbits (limbs_Z a).
Proof.
  intros Ha. unfold arith_uint256_bits. rewrite (bits_loop_spec 8) by done.
  by rewrite take_ge by (destruct Ha; lia).
Qed.

Lemma Zbits_bound x : 0 <= x -> x < 2 ^ Zbits x /\ 0 <= Zbits x /\ (0 < x -> 2 ^ (Zbits x - 1) <= x).
Proof.
  intros Hx. unfold Zbits. destruct (Z.eqb_spec x 0) as [->|]; [done|].
  destruct (Z.log2_spec x ltac:(lia)). pose proof (Z.log2_nonneg x).
  rewrite Z.add_simpl_r, Z.add_1_r. lia.
Qed.

Lemma Zbits_le x n : 0 <= n -> 0 <= x < 2 ^ n -> Zbits x <= n.
Proof.
  intros Hn Hx. unfold Zbits. destruct (Z.eqb_spec x 0); [done|].
  pose proof (proj1 (Z.log2_lt_pow2 x n ltac:(lia)) ltac:(lia)). lia.
Qed.

(** ** Division *)

Lemma limbs_alter n a i f : limbs_ok n a -> (i < n)%nat -> is_u 32 (f (a !!! i)) ->
  limbs_ok n (alter f i a) /\
  limbs_Z (alter f i a) = limbs_Z a + 2 ^ (32 * Z.of_nat i) * (f (a !!! i) - a !!! i).
Proof.
  revert n i; induction a as [|x a IH]; intros n i Ha Hi Hf.
  { apply limbs_ok_nil in Ha. lia. }
  destruct n as [|n]; [lia|]. apply limbs_ok_cons in Ha as [Hx Ha].
  destruct i as [|i]; simpl in Hf.
  - cbn. rewrite limbs_ok_cons. split; [done|lia].
  - destruct (IH n i Ha ltac:(lia) Hf) as [Hok Hval].
    cbn [alter list_alter limbs_Z]. change (list_alter f i a) with (alter f i a).
    rewrite limbs_ok_cons, Hval, pow32_succ. split; [done|].
    change ((x :: a) !!! S i) with (a !!! i). ring.
Qed.

Lemma setbit_spec r s : arith_ok r -> (s < 256)%nat -> limbs_Z r mod 2 ^ Z.of_nat (S s) = 0 ->
  arith_ok (alter (fun w => w .| u32 (1 ≪ (Z.of_nat s .& 31))) (s / 32)%nat r) /\
  limbs_Z (alter (fun w => w .| u32 (1 ≪ (Z.of_nat s .& 31))) (s / 32)%nat r) =
    limbs_Z r + 2 ^ Z.of_nat s.
Proof.
  intros Hr Hs Hz. set (i := (s / 32)%nat). set (j := Z.of_nat s mod 32).
  assert (0 <= j < 32) as Hj by (by apply Z.mod_pos_bound).
  assert (Z.of_nat s = 32 * Z.of_nat i + j) as Es.
  { unfold i, j. rewrite Nat2Z.inj_div. apply Z.div_mod. done. }
  assert (i < 8)%nat as Hi by lia.
  change (Z.of_nat s .& 31) with (Z.of_nat s .& (2 ^ 5 - 1)). rewrite land_ones_mod by lia.
  change (Z.of_nat s mod 2 ^ 5) with j.
  assert (2 ^ j < 2 ^ 32) by (apply Z.pow_lt_mono_r; lia).
  rewrite Z.shiftl_1_l, (uwrap_small 32 (2 ^ j)) by (unfold is_u; lia).
  pose proof (limbs_ok_lookup 8 r i Hr Hi) as Hw. unfold is_u in Hw.
  assert ((r !!! i) mod 2 ^ (j + 1) = 0) as Hlow.
  { destruct (limbs_drop_div 8 r i Hr ltac:(lia)) as [_ Ed].
    rewrite (drop_S r (r !!! i) i) in Ed by (apply list_lookup_lookup_total_lt; destruct Hr; lia).
    cbn [limbs_Z] in Ed. rewrite <- (limbs_head_mod _ (limbs_Z (drop (S i) r))) by lia. rewrite Ed.
    apply Z.mod_divide in Hz as [m ->]; [|lia].
    replace (Z.of_nat (S s)) with (32 * Z.of_nat i + (j + 1)) by lia.
    rewrite Z.pow_add_r, (Z.mul_comm (2 ^ (32 * _))), Z.mul_assoc, Z.div_mul by lia.
    apply Z.mod_mul. lia. }
  apply Z.mod_divide in Hlow as [m Em]; [|lia].
  assert ((r !!! i) .| 2 ^ j = r !!! i + 2 ^ j) as El.
  { rewrite Em, Z.lor_comm, lor_disjoint_add; [lia|lia|]. rewrite Z.pow_add_r by lia. lia. }
  destruct (limbs_alter 8 r i (fun w => w .| 2 ^ j) Hr Hi) as [Hok Hval].
  - rewrite El. unfold is_u. split; [lia|]. rewrite Z.pow_add_r in Em by lia.
    assert (2 ^ j * 2 ^ (32 - j) = 2 ^ 32) as E32 by (rewrite <- Z.pow_add_r by lia; f_equal; lia).
    assert (2 ^ 32 = 2 ^ j * 2 * 2 ^ (31 - j)) as E31.
    { rewrite <- E32, <- Z.mul_assoc. f_equal. rewrite <- Z.pow_succ_r by lia. f_equal. lia. }
    assert (m < 2 ^ (31 - j)) by nia. nia.
  - split; [done|]. rewrite Hval, El, Es, Z.pow_add_r by lia. ring.
Qed.

Lemma div_loop_spec n num div r b : (n <= 256)%nat ->
  arith_ok num -> arith_ok div -> arith_ok r -> 0 < b ->
  (forall s, n = S s -> limbs_Z div = b * 2 ^ Z.of_nat s) ->
  limbs_Z num < b * 2 ^ Z.of_nat n -> limbs_Z r mod 2 ^ Z.of_nat n = 0 ->
  arith_ok (div_loop n num div r) /\
  limbs_Z (div_loop n num div r) = limbs_Z r + limbs_Z num / b.
Proof.
  revert num div r; induction n as [|s IH]; intros num div r Hn Hnum Hdiv Hr Hb Ediv Hlt Hz.
  { pose proof (arith_bound num Hnum). change (2 ^ Z.of_nat 0) with 1 in Hlt.
    cbn [div_loop]. rewrite Z.div_small by lia. split; [done|lia]. }
  specialize (Ediv s eq_refl). cbn [div_loop]. rewrite compare_ge by done.
  destruct (shr_correct div 1 Hdiv ltac:(lia)) as [Hdiv' Ediv'].
  assert (forall s', s = S s' -> limbs_Z (arith_uint256_shr div 1) = b * 2 ^ Z.of_nat s') as Enext.
  { intros s' ->. rewrite Ediv', Ediv, Nat2Z.inj_succ, Z.pow_succ_r by lia.
    replace (b * (2 * 2 ^ Z.of_nat s')) with (b * 2 ^ Z.of_nat s' * 2) by ring. by rewrite Z.div_mul. }
  assert (2 ^ Z.of_nat (S s) = 2 * 2 ^ Z.of_nat s) as Ep by (rewrite Nat2Z.inj_succ, Z.pow_succ_r; lia).
  pose proof (arith_bound num Hnum). pose proof (arith_bound div Hdiv).
  assert (0 < 2 ^ Z.of_nat s) by lia.
  destruct (Z.leb_spec (limbs_Z div) (limbs_Z num)).
  - destruct (setbit_spec r s Hr ltac:(lia) Hz) as [Hr' Er'].
    assert (limbs_Z (arith_uint256_sub num div) = limbs_Z num - limbs_Z div) as Es
      by (rewrite sub_spec by done; apply Z.mod_small; lia).
    destruct (IH (arith_uint256_sub num div) (arith_uint256_shr div 1) _ ltac:(lia)
      ltac:(auto with zcl) Hdiv' Hr' Hb Enext) as [Hok Hval].
    + rewrite Es. lia.
    + rewrite Er'. apply Z.mod_divide in Hz as [m Hm]; [|lia]. rewrite Hm, Ep.
      replace (m * (2 * 2 ^ Z.of_nat s) + 2 ^ Z.of_nat s) with ((2 * m + 1) * 2 ^ Z.of_nat s) by ring.
      apply Z.mod_mul. lia.
    + split; [done|]. rewrite Hval, Er', Es, Ediv.
      replace (limbs_Z num - b * 2 ^ Z.of_nat s) with (limbs_Z num + (- 2 ^ Z.of_nat s) * b) by ring.
      rewrite Z.div_add by lia. lia.
  - apply IH; [lia|done..|rewrite Ediv in *; lia|].
    apply Z.mod_divide in Hz as [m ->]; [|lia]. rewrite Ep, Z.mul_assoc. apply Z.mod_mul. lia.
Qed.

Lemma div_correct a b : arith_ok a -> arith_ok b ->
  arith_ok (arith_uint256_div a b) /\
  limbs_Z (arith_uint256_div a b) = if limbs_Z b =? 0 then 0 else limbs_Z a / limbs_Z b.
Proof.
  intros Ha Hb. unfold arith_uint256_div. rewrite !bits_spec by done.
  pose proof (arith_bound a Ha) as Ba. pose proof (arith_bound b Hb) as Bb.
  destruct (Zbits_bound _ (proj1 Ba)) as (A1 & A2 & A3).
  destruct (Zbits_bound _ (proj1 Bb)) as (B1 & B2 & B3).
  pose proof (Zbits_le (limbs_Z a) 256 ltac:(lia) Ba) as LA.
  destruct (Z.eqb_spec (limbs_Z b) 0) as [Eb|Nb].
  { rewrite Eb. cbn. split; [apply limbs_ok_zero|done]. }
  assert (0 < Zbits (limbs_Z b)).
  { unfold Zbits. destruct (Z.eqb_spec (limbs_Z b) 0); [lia|]. pose proof (Z.log2_nonneg (limbs_Z b)). lia. }
  destruct (Z.eqb_spec (Zbits (limbs_Z b)) 0); [lia|]. specialize (B3 ltac:(lia)).
  rewrite Z.gtb_ltb. destruct (Z.ltb_spec (Zbits (limbs_Z a)) (Zbits (limbs_Z b))).
  { split; [apply limbs_ok_zero|]. unfold arith_uint256_set_zero. rewrite limbs_Z_zero. symmetry.
    apply Z.div_small. split; [lia|]. eapply Z.lt_le_trans; [apply A1|]. etrans; [|apply B3].
    apply Z.pow_le_mono_r; lia. }
  set (s := Zbits (limbs_Z a) - Zbits (limbs_Z b)).
  destruct (shl_correct b s Hb ltac:(lia)) as [Hok Hval].
  assert (limbs_Z b * 2 ^ s < R256).
  { eapply Z.lt_le_trans; [apply Z.mul_lt_mono_pos_r; [apply Z.pow_pos_nonneg; lia|apply B1]|].
    rewrite <- Z.pow_add_r by lia. apply Z.pow_le_mono_r; lia. }
  rewrite Z.mod_small in Hval by (split; [apply Z.mul_nonneg_nonneg|]; lia).
  destruct (div_loop_spec (Z.to_nat (s + 1)) a (arith_uint256_shl b s) (replicate 8 0) (limbs_Z b))
    as [Hd Ed]; [lia|done|done|apply limbs_ok_zero|lia| | | |].
  - intros s' Es'. rewrite Hval. do 2 f_equal. lia.
  - rewrite Z2Nat.id by lia. eapply Z.lt_le_trans; [apply A1|].
    replace (Zbits (limbs_Z a)) with ((Zbits (limbs_Z b) - 1) + (s + 1)) by lia.
    rewrite Z.pow_add_r by lia. apply Z.mul_le_mono_nonneg_r; [apply Z.pow_nonneg; lia|lia].
  - rewrite limbs_Z_zero. apply Zmod_0_l.
  - split; [done|]. unfold arith_uint256_set_zero. rewrite Ed, limbs_Z_zero. done.
Qed.

Lemma div_ok a b : arith_ok a -> arith_ok b -> arith_ok (arith_uint256_div a b).
Proof. intros. by apply div_correct. Qed.

#[export] Hint Resolve div_ok : zcl.

(** ** The compact encoding *)

(** The number a compact word denotes: mantissa times a power of 256. *)
Definition compact_value (c : Z) : Z :=
  let size := c / 2 ^ 24 in
  let word := c mod 2 ^ 23 in
  if size <=? 3 then word / 256 ^ (3 - size) else word * 256 ^ (size - 3).

Lemma pow256_bits n : 0 <= n -> 2 ^ (8 * n) = 256 ^ n.
Proof. intros. by rewrite Z.pow_mul_r. Qed.

Lemma compact_word_spec c : is_u 32 c ->
  compact_word c = (if c / 2 ^ 24 <=? 3 then compact_value c else c mod 2 ^ 23) /\
  0 <= compact_word c < 2 ^ 23.
Proof.
  unfold is_u. intros Hc. unfold compact_word, compact_value.
  change 0x007fffff with (2 ^ 23 - 1). rewrite shiftr_div, land_ones_mod by lia.
  pose proof (Z.mod_pos_bound c (2 ^ 23) ltac:(lia)).
  assert (0 <= c / 2 ^ 24) by (apply Z.div_pos; lia).
  destruct (Z.leb_spec (c / 2 ^ 24) 3); [|done].
  rewrite shiftr_div, pow256_bits by lia. split; [done|].
  split; [apply Z.div_pos; lia|]. apply Z.div_lt_upper_bound; nia.
Qed.

Lemma set_compact_ok c : is_u 32 c -> arith_ok (cr_value (arith_uint256_set_compact c)).
Proof.
  unfold is_u. intros Hc. cbn. rewrite shiftr_div by lia.
  destruct (Z.leb_spec (c / 2 ^ 24) 3); [auto with zcl|]. apply shl_ok; [auto with zcl|lia].
Qed.

Lemma set_compact_value c : is_u 32 c ->
  limbs_Z (cr_value (arith_uint256_set_compact c)) = compact_value c mod R256.
Proof.
  intros Hc. destruct (compact_word_spec c Hc) as [Ew Bw]. unfold is_u in Hc.
  cbn [arith_uint256_set_compact cr_value]. rewrite shiftr_div by lia.
  unfold compact_value in *. destruct (Z.leb_spec (c / 2 ^ 24) 3).
  - rewrite set_u64_spec, uwrap_small by (unfold is_u; lia). rewrite <- Ew, Z.mod_small; [done|].
    unfold R256; lia.
  - rewrite (proj2 (shl_correct _ (8 * (c / 2 ^ 24 - 3)) (set_u64_ok _) ltac:(lia))), set_u64_spec.
    rewrite uwrap_small, Ew, pow256_bits by (unfold is_u; lia). done.
Qed.

Lemma pow256_le a b : 0 <= a <= b -> 256 ^ a <= 256 ^ b.
Proof. intros. apply Z.pow_le_mono_r; lia. Qed.

Lemma set_compact_overflow c : is_u 32 c ->
  cr_overflow (arith_uint256_set_compact c) = (R256 <=? compact_value c).
Proof.
  intros Hc. destruct (compact_word_spec c Hc) as [Ew Bw]. unfold is_u in Hc.
  cbn [arith_uint256_set_compact cr_overflow]. rewrite shiftr_div by lia.
  set (w := compact_word c) in *. unfold compact_value in *. set (s := c / 2 ^ 24) in *.
  change R256 with (256 ^ 32).
  destruct (Z.leb_spec s 3) as [Hs|Hs].
  { rewrite <- Ew. lia. }
  rewrite <- Ew. destruct (Z.eqb_spec w 0) as [->|Hw]; [done|]. cbn [negb andb].
  destruct (Z.leb_spec 35 s).
  { pose proof (pow256_le 32 (s - 3)). replace (s >? 34) with true by lia. cbn [orb]. nia. }
  destruct (decide (s = 34)) as [->|]; [lia|].
  destruct (decide (s = 33)) as [->|]; [lia|].
  pose proof (pow256_le (s - 3) 29). assert (256 ^ 29 * 2 ^ 23 < 256 ^ 32) by done.
  transitivity false; [|symmetry; apply Z.leb_gt; nia]. lia.
Qed.

(** Size (in bytes) used by [arith_uint256_get_compact] for the value [x]. *)
Definition compact_size_of (x : Z) : Z :=
  let n := (Zbits x + 7) / 8 in
  let m := if n <=? 3 then x * 256 ^ (3 - n) else x / 256 ^ (n - 3) in
  if m <? 2 ^ 23 then n else n + 1.

Lemma byte_length_bound x n : 0 <= x < R256 -> n = (Zbits x + 7) / 8 ->
  0 <= n <= 32 /\ x < 256 ^ n /\ (0 < x -> 0 < n /\ 256 ^ (n - 1) <= x).
Proof.
  intros Hx ->. destruct (Zbits_bound x ltac:(lia)) as (A1 & A2 & A3).
  pose proof (Zbits_le x 256 ltac:(lia) Hx).
  set (n := (Zbits x + 7) / 8). assert (8 * n - 7 <= Zbits x <= 8 * n) by (unfold n; div_mod_lia).
  split; [lia|]. rewrite <- pow256_bits by lia. split.
  { eapply Z.lt_le_trans; [apply A1|]. apply Z.pow_le_mono_r; lia. }
  intros Hpos. specialize (A3 Hpos).
  assert (0 < n). { destruct (decide (n = 0)) as [E|]; [|lia]. replace (Zbits x) with 0 in A1 by lia. simpl in A1. lia. }
  split; [done|]. rewrite <- pow256_bits by lia. etrans; [|apply A3]. apply Z.pow_le_mono_r; lia.
Qed.

(** The mantissa before the sign-bit adjustment fits three bytes. *)
Lemma mantissa_bound x n : 0 <= x < R256 -> n = (Zbits x + 7) / 8 ->
  0 <= (if n <=? 3 then x * 256 ^ (3 - n) else x / 256 ^ (n - 3)) < 2 ^ 24.
Proof.
  intros Hx En. destruct (byte_length_bound x n Hx En) as (Bn & Bx & _).
  change (2 ^ 24) with (256 ^ 3). destruct (Z.leb_spec n 3).
  - assert (256 ^ n * 256 ^ (3 - n) = 256 ^ 3) by (rewrite <- Z.pow_add_r by lia; f_equal; lia). nia.
  - split; [apply Z.div_pos; lia|]. apply Z.div_lt_upper_bound; [lia|].
    rewrite <- Z.pow_add_r by lia. by replace (n - 3 + 3) with n by lia.
Qed.

Lemma land_signbit m : 0 <= m < 2 ^ 24 -> negb (m .& 0x00800000 =? 0) = negb (m <? 2 ^ 23).
Proof.
  intros Hm. change 0x00800000 with (1 ≪ 23). rewrite land_bit by lia.
  rewrite Z.testbit_eqb by lia.
  destruct (Z.ltb_spec m (2 ^ 23)); [rewrite Z.div_small by lia; done|].
  replace (m / 2 ^ 23) with 1; [done|]. apply Z.div_unique with (m - 2 ^ 23); lia.
Qed.

Lemma land_high_zero m : 0 <= m < 2 ^ 23 -> m .& u32 (Z.lnot 0x007fffff) = 0.
Proof.
  intros Hm. apply Z.bits_inj'; intros i Hi. rewrite Z.land_spec, Z.bits_0.
  destruct (decide (i < 23)).
  - change (u32 (Z.lnot 0x007fffff)) with (511 * 2 ^ 23).
    rewrite Z.mul_pow2_bits_low by lia. apply andb_false_r.
  - rewrite <- (Z.mod_small m (2 ^ 23)) by lia. by rewrite Z.mod_pow2_bits_high by lia.
Qed.

Lemma get_compact_eq a : arith_ok a ->
  let x := limbs_Z a in
  let n := (Zbits x + 7) / 8 in
  let m := if n <=? 3 then x * 256 ^ (3 - n) else x / 256 ^ (n - 3) in
  arith_uint256_get_compact a false =
  Some ((if m <? 2 ^ 23 then m else m / 256) + compact_size_of x * 2 ^ 24).
Proof.
  intros Ha x n m. pose proof (arith_bound a Ha) as Hx. fold x in Hx.
  destruct (byte_length_bound x n Hx eq_refl) as (Bn & Bx & _).
  pose proof (mantissa_bound x n Hx eq_refl) as Bm. fold m in Bm.
  unfold arith_uint256_get_compact, compact_size_of. rewrite bits_spec by done. fold x n m.
  assert ((if n <=? 3 then u32 (u64 (arith_uint256_get_low64 a ≪ (8 * (3 - n))))
    else u32 (arith_uint256_get_low64 (arith_uint256_shr a (8 * (n - 3))))) = m) as ->.
  { unfold m. destruct (Z.leb_spec n 3).
    - rewrite get_low64_spec by done. fold x.
      pose proof (pow256_le n 3 ltac:(lia)). change (256 ^ 3) with (2 ^ 24) in *.
      rewrite (Z.mod_small x), Z.shiftl_mul_pow2, pow256_bits by lia.
      rewrite !uwrap_small; unfold is_u; rewrite ?uwrap_small; unfold is_u; lia.
    - rewrite get_low64_spec by (apply shr_ok; [done|lia]).
      rewrite (proj2 (shr_correct a (8 * (n - 3)) Ha ltac:(lia))), pow256_bits by lia. fold x.
      rewrite Z.mod_small, uwrap_small by (unfold is_u; lia). done. }
  rewrite land_signbit by done. destruct (Z.ltb_spec m (2 ^ 23)); cbn [negb].
  - rewrite land_high_zero by lia. replace (n <? 256) with true by lia. cbn [negb Z.eqb andb].
    rewrite Z.lor_0_r, Z.shiftl_mul_pow2, uwrap_small, lor_disjoint_add by (unfold is_u; lia). done.
  - assert (0 <= m / 256 < 2 ^ 16) by div_mod_lia.
    rewrite shiftr_div by lia. change (2 ^ 8) with 256.
    rewrite land_high_zero by lia. replace (n + 1 <? 256) with true by lia. cbn [negb Z.eqb andb].
    rewrite Z.lor_0_r, Z.shiftl_mul_pow2, uwrap_small, lor_disjoint_add by (unfold is_u; lia). done.
Qed.

Lemma compact_parts w s : 0 <= w < 2 ^ 23 -> 0 <= s < 256 ->
  let c := w + s * 2 ^ 24 in
  is_u 32 c /\ c / 2 ^ 24 = s /\ c mod 2 ^ 23 = w /\ cr_negative (arith_uint256_set_compact c) = false.
Proof.
  intros Hw Hs c. assert (c / 2 ^ 24 = s) by (unfold c; div_mod_lia).
  assert (c mod 2 ^ 23 = w) by (unfold c; div_mod_lia).
  split_and!; [unfold is_u, c; lia|done|done|].
  cbn [arith_uint256_set_compact cr_negative]. change 0x00800000 with (1 ≪ 23).
  rewrite land_bit, Z.testbit_eqb by lia. replace (c / 2 ^ 23) with (s * 2) by (unfold c; div_mod_lia).
  rewrite Z.mod_mul by lia. apply andb_false_r.
Qed.

(** Dropping [k] low bytes. *)
Definition truncate_bytes (x k : Z) : Z := x / 256 ^ k * 256 ^ k.

Lemma truncate_bytes_bound x k : 0 <= x -> 0 <= k ->
  0 <= truncate_bytes x k <= x /\ x < truncate_bytes x k + 256 ^ k.
Proof.
  intros Hx Hk. unfold truncate_bytes. assert (0 < 256 ^ k) as Hp by (apply Z.pow_pos_nonneg; lia).
  pose proof (Z.div_mod x (256 ^ k) ltac:(lia)). pose proof (Z.mod_pos_bound x (256 ^ k) Hp).
  assert (0 <= x / 256 ^ k) by (apply Z.div_pos; lia). lia.
Qed.

(** The word [get_compact] emits, taken apart: its mantissa and size, the value
    it denotes, and the precision the mantissa keeps. *)
Lemma compact_encoding x : 0 <= x < R256 ->
  let n := (Zbits x + 7) / 8 in
  let m := if n <=? 3 then x * 256 ^ (3 - n) else x / 256 ^ (n - 3) in
  let w := if m <? 2 ^ 23 then m else m / 256 in
  let s := compact_size_of x in
  0 <= w < 2 ^ 23 /\ 0 <= s <= 33 /\
  (if s <=? 3 then w / 256 ^ (3 - s) else w * 256 ^ (s - 3)) = truncate_bytes x (Z.max 0 (s - 3)) /\
  (3 < s -> 2 ^ 15 <= w).
Proof.
  intros Hx n m w s. destruct (byte_length_bound x n Hx eq_refl) as (Bn & Bx & Bl).
  pose proof (mantissa_bound x n Hx eq_refl) as Bm. fold m in Bm.
  unfold w, s, compact_size_of. fold n m. unfold truncate_bytes.
  assert (3 < n -> 2 ^ 16 <= x / 256 ^ (n - 3)) as Hbig.
  { intros. apply Z.div_le_lower_bound; [lia|]. change (2 ^ 16) with (256 ^ 2).
    rewrite <- Z.pow_add_r by lia. replace (n - 3 + 2) with (n - 1) by lia. apply Bl.
    destruct (decide (x = 0)) as [E0|]; [|lia].
    assert (n = 0) by (unfold n; rewrite E0; done). lia. }
  destruct (Z.ltb_spec m (2 ^ 23)) as [Hm|Hm].
  - split_and!; [lia|lia|lia|lia| |].
    + unfold m. destruct (Z.leb_spec n 3).
      * rewrite Z.div_mul by lia. rewrite Z.max_l, Z.pow_0_r, Z.div_1_r by lia. lia.
      * by rewrite Z.max_r by lia.
    + unfold m in *. destruct (Z.leb_spec n 3); lia.
  - split_and!; [apply Z.div_pos; lia|apply Z.div_lt_upper_bound; lia|lia|lia| |].
    + unfold m. destruct (Z.leb_spec (n + 1) 3); [|destruct (Z.leb_spec n 3)].
      * replace (n <=? 3) with true by lia. rewrite Z.div_div by lia.
        replace (256 * 256 ^ (3 - (n + 1))) with (256 ^ (3 - n))
          by (rewrite <- Z.pow_succ_r by lia; f_equal; lia).
        rewrite Z.div_mul, Z.max_l, Z.pow_0_r, Z.div_1_r by lia. lia.
      * replace n with 3 by lia. rewrite Z.max_r by lia. simpl (3 - 3). simpl (3 + 1 - 3).
        by rewrite Z.pow_0_r, Z.mul_1_r, Z.pow_1_r.
      * rewrite Z.max_r, Z.div_div by lia. replace (256 ^ (n - 3) * 256) with (256 ^ (n + 1 - 3)); [done|].
        rewrite Z.mul_comm, <- Z.pow_succ_r by lia. f_equal. lia.
    + intros _. apply Z.div_le_lower_bound; lia.
Qed.

Lemma get_compact_correct a : arith_ok a ->
  exists c, arith_uint256_get_compact a false = Some c /\ is_u 32 c /\
    let r := arith_uint256_set_compact c in
    cr_negative r = false /\ cr_overflow r = false /\ arith_ok (cr_value r) /\
    limbs_Z (cr_value r) = truncate_bytes (limbs_Z a) (Z.max 0 (c / 2 ^ 24 - 3)) /\
    2 ^ 15 * (limbs_Z a - limbs_Z (cr_value r)) <= limbs_Z (cr_value r).
Proof.
  intros Ha. pose proof (arith_bound a Ha) as Hx.
  pose proof (get_compact_eq a Ha) as Eg. cbv zeta in Eg.
  destruct (compact_encoding (limbs_Z a) Hx) as (Bw & Bs & Ev & Hprec).
  set (x := limbs_Z a) in *. set (s := compact_size_of x) in *.
  match type of Bw with 0 <= ?t < _ => set (w := t) in * end.
  exists (w + s * 2 ^ 24). split; [done|]. clear Eg.
  destruct (compact_parts w s Bw ltac:(lia)) as (Hu & Es & Ew & Hneg).
  split; [done|]. cbv zeta. rewrite set_compact_overflow, set_compact_value by done.
  assert (compact_value (w + s * 2 ^ 24) = truncate_bytes x (Z.max 0 (s - 3))) as Ec
    by (unfold compact_value; rewrite Es, Ew; done).
  destruct (truncate_bytes_bound x (Z.max 0 (s - 3)) ltac:(lia) ltac:(lia)) as [T1 T2].
  rewrite Ec, Es, Z.mod_small by lia.
  split_and!; [done|lia|by apply set_compact_ok|done|].
  destruct (Z.leb_spec s 3).
  - rewrite Z.max_l in * by lia. change (256 ^ 0) with 1 in *. lia.
  - specialize (Hprec ltac:(lia)). rewrite Z.max_r in * by lia. rewrite <- Ev in *.
    assert (0 < 256 ^ (s - 3)) by (apply Z.pow_pos_nonneg; lia). nia.
Qed.

(** ** Byte form *)

Lemma arith_uint256_roundtrip a : arith_ok a -> uint256_to_arith (arith_to_uint256 a) = a.
Proof.
  intros Ha. destruct (limbs8_inv a Ha) as (a0&a1&a2&a3&a4&a5&a6&a7&->&(?&?&?&?)&(?&?&?&?)).
  unfold arith_to_uint256, uint256_to_arith.
  assert (forall x, is_u 32 x -> le_decode (le_encode 4 x) = x) as E.
  { intros x Hx. rewrite le_decode_encode. by apply Z.mod_small. }
  cbn [map seq]. cbn -[le_decode u8].
  repeat f_equal; match goal with |- _ = ?x => rewrite <- (E x) at 5 by done; done end.
Qed.

Lemma le_decode_take_drop n l : bytes_ok l -> length l = (4 * n)%nat ->
  limbs_ok n (map (fun x => le_decode (take 4 (drop (4 * x) l))) (seq 0 n)) /\
  limbs_Z (map (fun x => le_decode (take 4 (drop (4 * x) l))) (seq 0 n)) = le_decode l.
Proof.
  revert l; induction n as [|n IH]; intros l Hl Hlen.
  { destruct l; [done|]. simpl in Hlen; lia. }
  destruct (IH (drop 4 l)) as [Hok Hval]; [by apply Forall_drop|rewrite length_drop; lia|].
  assert (map (fun x => le_decode (take 4 (drop (4 * x) l))) (seq 1 n) =
          map (fun x => le_decode (take 4 (drop (4 * x) (drop 4 l)))) (seq 0 n)) as E.
  { rewrite <- List.seq_shift, List.map_map. apply List.map_ext. intros x.
    rewrite drop_drop. do 3 f_equal. lia. }
  cbn [seq map]. rewrite E. cbn [limbs_Z]. rewrite limbs_ok_cons, Hval.
  assert (length (take 4 l) = 4%nat) as L4 by (rewrite length_take; lia).
  pose proof (le_decode_range (take 4 l) ltac:(by apply Forall_take)) as B. rewrite L4 in B.
  change (drop (4 * 0) l) with l.
  split; [split; [exact B|done]|].
  rewrite <- (take_drop 4 l) at 3. rewrite le_decode_app, L4. done.
Qed.

Lemma uint256_to_arith_ok h : uint256_ok h ->
  arith_ok (uint256_to_arith h) /\ limbs_Z (uint256_to_arith h) = le_decode h.
Proof. intros [Hl Hb]. by apply (le_decode_take_drop 8). Qed.

(** ** Properties *)

(** C35: the limb-wise ring operations are arithmetic modulo 2^256: for
    well-formed operands, addition, subtraction, multiplication, multiplication by a
    32-bit word, complement and both shifts return eight 32-bit limbs whose value is the
    integer operation reduced modulo 2^256 (the right shift: floor division), and the
    three-way comparison is the comparison of the values. *)
Theorem arith_uint256_refines_Z a b s w :
  arith_ok a -> arith_ok b -> 0 <= s -> is_u 32 w ->
  let A := limbs_Z a in let B := limbs_Z b in
  let refines r v := arith_ok r /\ limbs_Z r = v in
  refines (arith_uint256_add a b) ((A + B) mod R256) /\
  refines (arith_uint256_sub a b) ((A - B) mod R256) /\
  refines (arith_uint256_mul a b) ((A * B) mod R256) /\
  refines (arith_uint256_mul_u32 a w) ((A * w) mod R256) /\
  refines (arith_uint256_complement a) (R256 - 1 - A) /\
  refines (arith_uint256_shl a s) ((A * 2 ^ s) mod R256) /\
  refines (arith_uint256_shr a s) (A / 2 ^ s) /\
  arith_uint256_compare a b = Z_of_comparison (A ?= B).
Proof.
  intros. unfold refines. split_and!; auto with zcl.
  all: by (apply add_spec || apply sub_spec || apply mul_spec || apply mul_u32_spec ||
           apply complement_spec || apply shl_correct || apply shr_correct || apply compare_spec).
Qed.

Lemma arith_uint256_refines_Z_witness :
  let a := arith_uint256_set_u64 7 in let b := arith_uint256_set_u64 (2 ^ 64 - 1) in
  limbs_Z (arith_uint256_sub a b) = (7 - (2 ^ 64 - 1)) mod R256 /\
  arith_uint256_compare a b = -1.
Proof.
  pose proof (arith_uint256_refines_Z (arith_uint256_set_u64 7) (arith_uint256_set_u64 (2 ^ 64 - 1))
    3 5 ltac:(apply set_u64_ok) ltac:(apply set_u64_ok) ltac:(lia) ltac:(done)) as H.
  cbv zeta in H. destruct H as (_ & [_ Hs] & _ & _ & _ & _ & _ & Hc).
  rewrite !set_u64_spec in Hs, Hc. split; [exact Hs|exact Hc].
Defined.

(** the shift-and-subtract long division is integer division: on
    well-formed operands the loop returns eight 32-bit limbs holding the floor quotient,
    and zero when the divisor is zero (the source returns early). *)
Theorem arith_uint256_div_is_Zdiv a b :
  arith_ok a -> arith_ok b ->
  arith_ok (arith_uint256_div a b) /\
  limbs_Z (arith_uint256_div a b) = if limbs_Z b =? 0 then 0 else limbs_Z a / limbs_Z b.
Proof. apply div_correct. Qed.

Lemma arith_uint256_div_is_Zdiv_witness :
  arith_uint256_div (arith_uint256_set_u64 1000003) (arith_uint256_set_u64 1009) =
    arith_uint256_set_u64 991 /\
  limbs_Z (arith_uint256_div (arith_uint256_set_u64 1000003) (arith_uint256_set_u64 1009)) =
    1000003 / 1009.
Proof.
  split; [vm_compute; reflexivity|].
  destruct (arith_uint256_div_is_Zdiv (arith_uint256_set_u64 1000003) (arith_uint256_set_u64 1009)
    (set_u64_ok _) (set_u64_ok _)) as [_ H].
  rewrite !set_u64_spec in H. exact H.
Defined.

(** decoding a compact ("nBits") word is exact unless flagged: the value is
    mantissa * 256^(size-3) reduced modulo 2^256, the overflow flag is raised exactly
    when that number does not fit 256 bits, and without it the decoded value is the
    denoted number itself. *)
Theorem set_compact_exact c :
  is_u 32 c ->
  let r := arith_uint256_set_compact c in
  arith_ok (cr_value r) /\
  limbs_Z (cr_value r) = compact_value c mod R256 /\
  cr_overflow r = (R256 <=? compact_value c) /\
  (cr_overflow r = false -> limbs_Z (cr_value r) = compact_value c).
Proof.
  intros Hc r. split; [by apply set_compact_ok|]. split; [by apply set_compact_value|].
  split; [by apply set_compact_overflow|]. intros Ho. unfold r in *.
  rewrite set_compact_overflow in Ho by done. rewrite set_compact_value by done.
  destruct (compact_word_spec c Hc) as [Ew Bw]. apply Z.mod_small. split; [|lia].
  unfold compact_value in *. unfold is_u in Hc. destruct (Z.leb_spec (c / 2 ^ 24) 3); [lia|].
  apply Z.mul_nonneg_nonneg; [lia|]. apply Z.pow_nonneg; lia.
Qed.

Lemma set_compact_exact_witness :
  limbs_Z (cr_value (arith_uint256_set_compact 0x1f07ffff)) = 0x07ffff * 256 ^ 28.
Proof.
  destruct (set_compact_exact 0x1f07ffff ltac:(done)) as (_ & _ & _ & H).
  rewrite H by (vm_compute; reflexivity). vm_compute. reflexivity.
Defined.

(** encoding a 256-bit value as a compact word never trips the assertions of
    the source and is a rounding towards zero: the word decodes (without sign or
    overflow) to the value with its low [size - 3] bytes cleared, an error of at most
    one part in 2^15. *)
Theorem get_compact_truncates a :
  arith_ok a ->
  exists c, arith_uint256_get_compact a false = Some c /\ is_u 32 c /\
    let r := arith_uint256_set_compact c in
    cr_negative r = false /\ cr_overflow r = false /\ arith_ok (cr_value r) /\
    limbs_Z (cr_value r) = truncate_bytes (limbs_Z a) (Z.max 0 (c / 2 ^ 24 - 3)) /\
    2 ^ 15 * (limbs_Z a - limbs_Z (cr_value r)) <= limbs_Z (cr_value r).
Proof. apply get_compact_correct. Qed.

Lemma get_compact_truncates_witness :
  arith_uint256_get_compact (arith_uint256_set_u64 0x123456789a) false = Some 0x05123456 /\
  exists c, arith_uint256_get_compact (arith_uint256_set_u64 0x123456789a) false = Some c /\
    cr_overflow (arith_uint256_set_compact c) = false.
Proof.
  split; [vm_compute; reflexivity|].
  destruct (get_compact_truncates (arith_uint256_set_u64 0x123456789a) (set_u64_ok _))
    as (c & E & _ & _ & Ho & _).
  exists c. split; [exact E|exact Ho].
Defined.
