(* ===== verification/Serialize.v ===== *)
(** * Byte streams and wire encodings

    Models lib/core/src/serialize.c and serialize.h: the growable byte stream with
    its sticky error flag, the little-endian integer encodings, the CompactSize length
    prefix and the base-128 VarInt.  A C function that mutates a stream and returns
    [bool] is a computation of the state monad [stream_m], which keeps the stream after
    a failure.  The memory allocator is not part of the repository: it is the parameter
    [Allocator].  The [Codec] class states what a pair of serialise and deserialise
    functions promises; the composite encodings of the other files are instances. *)

From S2P Require Import Prelude.

(** ** The stream *)

(** [struct byte_stream]; [bs_data] is the first [size] bytes of the buffer. *)
Record byte_stream := ByteStream {
  bs_data : bytes;
  bs_capacity : Z;
  bs_read_pos : Z;
  bs_error : bool;
  bs_owns : bool;
}.

Definition bs_size (s : byte_stream) : Z := Z.of_nat (length (bs_data s)).

Definition SIZE_MAX : Z := 2 ^ 64 - 1.

(** The allocator: does a request for [n] bytes succeed? *)
Class Allocator := alloc_succeeds : Z -> bool.

(** An allocator that never runs out of memory. *)
Class AllocatorTotal `{Allocator} := alloc_total : forall n, alloc_succeeds n = true.

(** A stream computation: [None] is the return value [false]. *)
Definition stream_m (A : Type) : Type := byte_stream -> option A * byte_stream.

#[export] Instance stream_ret : MRet stream_m := fun A a s => (Some a, s).

#[export] Instance stream_bind : MBind stream_m :=
  fun A B f m s =>
    match m s with
    | (Some a, s') => f a s'
    | (None, s') => (None, s')
    end.

Definition stream_fail {A} : stream_m A := fun s => (None, s).

Definition stream_guard (b : bool) : stream_m unit := fun s => (if b then Some tt else None, s).

Definition set_error (s : byte_stream) : byte_stream :=
  {| bs_data := bs_data s; bs_capacity := bs_capacity s; bs_read_pos := bs_read_pos s;
     bs_error := true; bs_owns := bs_owns s |}.

Definition stream_init_from_data (data : bytes) : byte_stream :=
  {| bs_data := data; bs_capacity := Z.of_nat (length data); bs_read_pos := 0;
     bs_error := false; bs_owns := false |}.

(** [while (new_cap < target) ...]: doubling, capped at the exact target when a
    further doubling would overflow; sixty-five iterations exhaust a 64-bit size. *)
Fixpoint grow_loop (fuel : nat) (new_cap target : Z) : Z :=
  match fuel with
  | O => new_cap
  | S fuel' =>
      if new_cap <? target then
        if new_cap >? SIZE_MAX / 2 then target
        else grow_loop fuel' (new_cap * 2) target
      else new_cap
  end.

Section Stream.
Context `{Allocator}.

Definition stream_init (initial_capacity : Z) : byte_stream :=
  let ok := (initial_capacity =? 0) || alloc_succeeds initial_capacity in
  {| bs_data := []; bs_capacity := if ok then initial_capacity else 0; bs_read_pos := 0;
     bs_error := negb ok; bs_owns := true |}.

Definition stream_grow (needed : Z) : stream_m unit := fun s =>
  if negb (bs_owns s) then (None, set_error s)
  else if needed >? SIZE_MAX - bs_size s then (None, set_error s)
  else
    let target := bs_size s + needed in
    let new_cap := grow_loop 65 (if bs_capacity s =? 0 then 64 else bs_capacity s) target in
    if negb (alloc_succeeds new_cap) then (None, set_error s)
    else (Some tt, {| bs_data := bs_data s; bs_capacity := new_cap; bs_read_pos := bs_read_pos s;
                      bs_error := bs_error s; bs_owns := bs_owns s |}).

Definition append_data (buf : bytes) (s : byte_stream) : byte_stream :=
  {| bs_data := bs_data s ++ buf; bs_capacity := bs_capacity s; bs_read_pos := bs_read_pos s;
     bs_error := bs_error s; bs_owns := bs_owns s |}.

Definition stream_write (buf : bytes) : stream_m unit := fun s =>
  let len := Z.of_nat (length buf) in
  if bs_error s then (None, s)
  else if u64 (bs_size s + len) >? bs_capacity s then
    match stream_grow len s with
    | (Some _, s') => (Some tt, append_data buf s')
    | (None, s') => (None, s')
    end
  else (Some tt, append_data buf s).

Definition stream_write_u8 (v : Z) : stream_m unit := stream_write [u8 v].

Definition stream_write_u16_le (v : Z) : stream_m unit := stream_write (le_encode 2 v).

Definition stream_write_u32_le (v : Z) : stream_m unit := stream_write (le_encode 4 v).

Definition stream_write_u64_le (v : Z) : stream_m unit := stream_write (le_encode 8 v).

Definition stream_write_i32_le (v : Z) : stream_m unit := stream_write_u32_le (u32 v).

Definition stream_write_i64_le (v : Z) : stream_m unit := stream_write_u64_le (u64 v).

Definition stream_write_compact_size (size : Z) : stream_m unit :=
  if size <? 253 then stream_write_u8 (u8 size)
  else if size <=? 0xffff then stream_write_u8 253;; stream_write_u16_le (u16 size)
  else if size <=? 0xffffffff then stream_write_u8 254;; stream_write_u32_le (u32 size)
  else stream_write_u8 255;; stream_write_u64_le size.

(** The digits of a VarInt, least significant first, as the loop fills [tmp]; the
    buffer holds ten bytes and [None] is a write past its end. *)
Fixpoint varint_digits (room : nat) (first : bool) (n : Z) : option bytes :=
  match room with
  | O => None
  | S room' =>
      let d := (n .& 0x7f) .| (if first then 0 else 0x80) in
      if n <=? 0x7f then Some [d]
      else ds ← varint_digits room' false ((n ≫ 7) - 1); Some (d :: ds)
  end.

Fixpoint write_all_u8 (l : bytes) : stream_m unit :=
  match l with
  | [] => mret tt
  | b :: l' => stream_write_u8 b;; write_all_u8 l'
  end.

Definition stream_write_varint (n : Z) : stream_m unit :=
  match varint_digits 10 true n with
  | Some ds => write_all_u8 (rev ds)
  | None => stream_fail
  end.

End Stream.

Definition stream_read (len : Z) : stream_m bytes := fun s =>
  if bs_error s || (bs_read_pos s >? bs_size s) || (len >? bs_size s - bs_read_pos s)
  then (None, set_error s)
  else (Some (take (Z.to_nat len) (drop (Z.to_nat (bs_read_pos s)) (bs_data s))),
        {| bs_data := bs_data s; bs_capacity := bs_capacity s;
           bs_read_pos := bs_read_pos s + len; bs_error := bs_error s; bs_owns := bs_owns s |}).

Definition stream_remaining (s : byte_stream) : Z :=
  if bs_read_pos s >=? bs_size s then 0 else bs_size s - bs_read_pos s.

Definition stream_read_u8 : stream_m Z := b ← stream_read 1; mret (le_decode b).

Definition stream_read_u16_le : stream_m Z := b ← stream_read 2; mret (le_decode b).

Definition stream_read_u32_le : stream_m Z := b ← stream_read 4; mret (le_decode b).

Definition stream_read_u64_le : stream_m Z := b ← stream_read 8; mret (le_decode b).

Definition stream_read_i32_le : stream_m Z := v ← stream_read_u32_le; mret (i32 v).

Definition stream_read_i64_le : stream_m Z := v ← stream_read_u64_le; mret (i64 v).

Definition stream_read_compact_size : stream_m Z :=
  marker ← stream_read_u8;
  if marker <? 253 then mret marker
  else if marker =? 253 then stream_read_u16_le
  else if marker =? 254 then stream_read_u32_le
  else stream_read_u64_le.

(** Each iteration consumes a byte, so the bytes left bound the iterations. *)
Fixpoint read_varint_loop (fuel : nat) (n : Z) : stream_m Z :=
  match fuel with
  | O => stream_fail
  | S fuel' =>
      ch ← stream_read_u8;
      let n' := u64 (n ≪ 7) .| (ch .& 0x7f) in
      if negb (ch .& 0x80 =? 0) then read_varint_loop fuel' (u64 (n' + 1)) else mret n'
  end.

Definition stream_read_varint : stream_m Z := fun s =>
  read_varint_loop (S (length (bs_data s))) 0 s.

Definition compact_size_sizeof (n : Z) : Z :=
  if n <? 253 then 1 else if n <=? 0xffff then 3 else if n <=? 0xffffffff then 5 else 9.

(** ** Stream invariants *)

Definition stream_ok (s : byte_stream) : Prop :=
  bs_size s <= bs_capacity s <= SIZE_MAX /\ 0 <= bs_read_pos s <= bs_size s.

(** [n] more bytes can be written. *)
Definition writable (n : Z) (s : byte_stream) : Prop :=
  stream_ok s /\ bs_error s = false /\ bs_owns s = true /\ bs_size s + n <= SIZE_MAX.

(** The unread bytes are [l]. *)
Definition readable (l : bytes) (s : byte_stream) : Prop :=
  bs_error s = false /\ 0 <= bs_read_pos s <= bs_size s /\
  drop (Z.to_nat (bs_read_pos s)) (bs_data s) = l.

Definition advance (n : nat) (s : byte_stream) : byte_stream :=
  {| bs_data := bs_data s; bs_capacity := bs_capacity s;
     bs_read_pos := bs_read_pos s + Z.of_nat n; bs_error := bs_error s; bs_owns := bs_owns s |}.

Lemma grow_loop_enough fuel cap target :
  0 < cap <= SIZE_MAX -> target <= SIZE_MAX -> target < cap * 2 ^ Z.of_nat fuel ->
  target <= grow_loop fuel cap target <= SIZE_MAX.
Proof.
  unfold SIZE_MAX. revert cap; induction fuel as [|fuel IH]; intros cap Hc Ht Hf.
  { cbn [grow_loop]. change (2 ^ Z.of_nat 0) with 1 in Hf. lia. }
  cbn [grow_loop]. destruct (Z.ltb_spec cap target); [|lia].
  change (SIZE_MAX / 2) with (2 ^ 63 - 1).
  destruct (cap >? 2 ^ 63 - 1) eqn:E; [lia|].
  apply IH; [lia|done|]. rewrite Nat2Z.inj_succ, Z.pow_succ_r in Hf by lia. lia.
Qed.

Lemma readable_advance l1 l2 s :
  readable (l1 ++ l2) s -> readable l2 (advance (length l1) s).
Proof.
  intros (He & Hp & Hd). unfold readable, advance, bs_size in *. simpl.
  apply (f_equal length) in Hd as Hl. rewrite length_drop, length_app in Hl.
  split; [done|]. split; [lia|].
  rewrite Z2Nat.inj_add, Nat2Z.id by lia. rewrite <- drop_drop, Hd. apply drop_app_length.
Qed.

Lemma readable_from_data l : readable l (stream_init_from_data l).
Proof. unfold readable, stream_init_from_data, bs_size. simpl. split; [done|]. split; [lia|done]. Qed.

Lemma advance_advance n m s : advance m (advance n s) = advance (n + m) s.
Proof. unfold advance. simpl. f_equal. lia. Qed.

Lemma advance_0 s : advance 0 s = s.
Proof. destruct s. unfold advance. simpl. f_equal. lia. Qed.

(** ** Emitting and parsing *)

Definition emits `{Allocator} (m : stream_m unit) (l : bytes) : Prop :=
  forall s, writable (Z.of_nat (length l)) s ->
  exists s', m s = (Some tt, s') /\ bs_data s' = bs_data s ++ l /\ writable 0 s' /\
             bs_read_pos s' = bs_read_pos s.

Definition parses {A} (m : stream_m A) (l : bytes) (a : A) : Prop :=
  forall s rest, readable (l ++ rest) s -> m s = (Some a, advance (length l) s).

Section Emits.
Context `{AllocatorTotal}.

Lemma emits_write l : emits (stream_write l) l.
Proof.
  intros s (Hok & He & Ho & Hn). unfold stream_ok, SIZE_MAX in Hok, Hn.
  assert (0 <= bs_size s) by (unfold bs_size; lia).
  unfold stream_write. rewrite He, uwrap_small by (unfold is_u; lia).
  assert (forall cap, bs_size s + Z.of_nat (length l) <= cap <= SIZE_MAX ->
    writable 0 (append_data l {| bs_data := bs_data s; bs_capacity := cap;
      bs_read_pos := bs_read_pos s; bs_error := bs_error s; bs_owns := bs_owns s |})) as Hw.
  { intros cap Hc. unfold writable, stream_ok, append_data, bs_size, SIZE_MAX in *. simpl.
    rewrite length_app. split_and!; try done; lia. }
  destruct (_ >? _) eqn:E.
  - unfold stream_grow. rewrite Ho. cbn [negb].
    replace (Z.of_nat (length l) >? SIZE_MAX - bs_size s) with false by (unfold SIZE_MAX; lia).
    rewrite alloc_total. cbn [negb]. eexists. split; [done|]. split; [done|]. split; [|done].
    rewrite <- Ho. apply Hw. apply grow_loop_enough.
    + unfold SIZE_MAX. destruct (bs_capacity s =? 0) eqn:?; lia.
    + unfold SIZE_MAX. lia.
    + change (2 ^ Z.of_nat 65) with (2 ^ 65). destruct (bs_capacity s =? 0) eqn:?; lia.
  - eexists. split; [done|]. split; [done|]. split; [|done].
    destruct s. apply Hw. simpl in *. unfold SIZE_MAX. lia.
Qed.

Lemma emits_bind m1 (m2 : stream_m unit) l1 l2 :
  emits m1 l1 -> emits m2 l2 -> emits (m1;; m2) (l1 ++ l2).
Proof.
  intros E1 E2 s Hw. assert (writable (Z.of_nat (length l1)) s) as Hw1.
  { unfold writable in *. rewrite length_app in Hw. split_and!; try apply Hw. lia. }
  destruct (E1 s Hw1) as (s1 & Hm1 & Hd1 & Hok1 & Hp1).
  assert (writable (Z.of_nat (length l2)) s1) as Hw2.
  { unfold writable, bs_size in *. rewrite Hd1 in *. rewrite length_app in *.
    split_and!; try apply Hok1. lia. }
  destruct (E2 s1 Hw2) as (s2 & Hm2 & Hd2 & Hok2 & Hp2).
  exists s2. unfold mbind, stream_bind. rewrite Hm1, Hm2, Hd2, Hd1, Hp2, Hp1.
  by rewrite app_assoc.
Qed.

Lemma emits_ret : emits (mret tt) [].
Proof. intros s Hw. exists s. rewrite app_nil_r. done. Qed.

Lemma emits_eq m l l' : emits m l -> l = l' -> emits m l'.
Proof. by intros ? <-. Qed.

Lemma emits_u8 v : is_u 8 v -> emits (stream_write_u8 v) [v].
Proof. intros Hv. unfold stream_write_u8. rewrite uwrap_small by done. apply emits_write. Qed.

Lemma emits_write_all l : bytes_ok l -> emits (write_all_u8 l) l.
Proof.
  induction 1 as [|b l Hb Hl IH]; [apply emits_ret|].
  apply (emits_bind _ _ [b] l); [by apply emits_u8|done].
Qed.

End Emits.

Lemma parses_read l n : n = Z.of_nat (length l) -> parses (stream_read n) l l.
Proof.
  intros -> s rest (He & Hp & Hd). unfold stream_read.
  apply (f_equal length) in Hd as Hl. rewrite length_drop, length_app in Hl. unfold bs_size in *.
  rewrite He. replace (_ >? _) with false by lia. replace (_ >? _) with false by lia. cbn [orb].
  rewrite Hd, Nat2Z.id, take_app_length. unfold advance. by rewrite He.
Qed.

Lemma parses_bind {A B} (m : stream_m A) (f : A -> stream_m B) l1 l2 a b :
  parses m l1 a -> parses (f a) l2 b -> parses (m ≫= f) (l1 ++ l2) b.
Proof.
  intros P1 P2 s rest Hr. unfold mbind, stream_bind. rewrite <- app_assoc in Hr.
  rewrite (P1 s _ Hr). rewrite (P2 _ rest (readable_advance _ _ _ Hr)).
  by rewrite advance_advance, length_app.
Qed.

Lemma parses_ret {A} (a : A) : parses (mret a) [] a.
Proof. intros s rest Hr. simpl. by rewrite advance_0. Qed.

Lemma parses_map {A B} (m : stream_m A) (f : A -> B) l a b :
  parses m l a -> f a = b -> parses (x ← m; mret (f x)) l b.
Proof.
  intros P <-. rewrite <- (app_nil_r l). eapply parses_bind; [done|]. apply parses_ret.
Qed.

Lemma parses_eq {A} (m : stream_m A) l l' a : parses m l a -> l = l' -> parses m l' a.
Proof. by intros ? <-. Qed.

Lemma parses_guard {A} b (m : stream_m A) l a :
  b = true -> parses m l a -> parses (stream_guard b;; m) l a.
Proof. intros -> P. exact P. Qed.

(** ** Fixed-width integers *)

Lemma parses_le n k v : Z.of_nat n = k -> 0 <= v < 256 ^ k ->
  parses (b ← stream_read k; mret (le_decode b)) (le_encode n v) v.
Proof.
  intros <- Hv. eapply parses_map; [apply parses_read; by rewrite le_encode_length|].
  rewrite le_decode_encode. by apply Z.mod_small.
Qed.

Lemma parses_u8 v : is_u 8 v -> parses stream_read_u8 [v] v.
Proof.
  intros Hv. eapply parses_map; [by apply parses_read|]. simpl. lia.
Qed.

Lemma parses_u16 v : is_u 16 v -> parses stream_read_u16_le (le_encode 2 v) v.
Proof. intros. by apply (parses_le 2). Qed.

Lemma parses_u32 v : is_u 32 v -> parses stream_read_u32_le (le_encode 4 v) v.
Proof. intros. by apply (parses_le 4). Qed.

Lemma parses_u64 v : is_u 64 v -> parses stream_read_u64_le (le_encode 8 v) v.
Proof. intros. by apply (parses_le 8). Qed.

Lemma parses_i32 v : is_s 32 v -> parses stream_read_i32_le (le_encode 4 (u32 v)) v.
Proof.
  intros. eapply parses_map; [apply parses_u32; by apply uwrap_range|].
  rewrite swrap_uwrap. by apply swrap_small.
Qed.

Lemma parses_i64 v : is_s 64 v -> parses stream_read_i64_le (le_encode 8 (u64 v)) v.
Proof.
  intros. eapply parses_map; [apply parses_u64; by apply uwrap_range|].
  rewrite swrap_uwrap. by apply swrap_small.
Qed.

(** ** CompactSize *)

Definition compact_size_bytes (n : Z) : bytes :=
  if n <? 253 then [n]
  else if n <=? 0xffff then 253 :: le_encode 2 n
  else if n <=? 0xffffffff then 254 :: le_encode 4 n
  else 255 :: le_encode 8 n.

Lemma emits_compact_size `{AllocatorTotal} n : is_u 64 n ->
  emits (stream_write_compact_size n) (compact_size_bytes n).
Proof.
  unfold is_u. intros Hn. unfold stream_write_compact_size, compact_size_bytes.
  destruct (Z.ltb_spec n 253).
  { rewrite uwrap_small by (unfold is_u; lia). apply emits_u8. unfold is_u; lia. }
  destruct (Z.leb_spec n 0xffff).
  { rewrite (uwrap_small 16) by (unfold is_u; lia).
    apply (emits_bind _ _ [253]); [by apply emits_u8|apply emits_write]. }
  destruct (Z.leb_spec n 0xffffffff).
  { rewrite (uwrap_small 32) by (unfold is_u; lia).
    apply (emits_bind _ _ [254]); [by apply emits_u8|apply emits_write]. }
  apply (emits_bind _ _ [255]); [by apply emits_u8|apply emits_write].
Qed.

Lemma parses_compact_size n : is_u 64 n ->
  parses stream_read_compact_size (compact_size_bytes n) n.
Proof.
  unfold is_u. intros Hn. unfold stream_read_compact_size, compact_size_bytes.
  destruct (Z.ltb_spec n 253).
  { apply (parses_bind _ _ [n] [] n); [apply parses_u8; unfold is_u; lia|].
    replace (n <? 253) with true by lia. apply parses_ret. }
  destruct (Z.leb_spec n 0xffff).
  { apply (parses_bind _ _ [253] _ 253); [by apply parses_u8|]. apply parses_u16. unfold is_u; lia. }
  destruct (Z.leb_spec n 0xffffffff).
  { apply (parses_bind _ _ [254] _ 254); [by apply parses_u8|]. apply parses_u32. unfold is_u; lia. }
  apply (parses_bind _ _ [255] _ 255); [by apply parses_u8|]. by apply parses_u64.
Qed.

Lemma compact_size_bytes_length n :
  Z.of_nat (length (compact_size_bytes n)) = compact_size_sizeof n.
Proof. unfold compact_size_bytes, compact_size_sizeof. by repeat case_if. Qed.

Lemma compact_size_bytes_ok n : is_u 64 n -> bytes_ok (compact_size_bytes n).
Proof.
  unfold is_u. intros Hn. unfold compact_size_bytes.
  repeat case_if; constructor; try apply le_encode_ok; unfold is_u; try lia. constructor.
Qed.

(** ** VarInt *)

Lemma varint_low n : 0 <= n -> (n .& 0x7f = n mod 2 ^ 7) /\ 0 <= n mod 2 ^ 7 < 2 ^ 7.
Proof.
  intros. change 0x7f with (2 ^ 7 - 1). rewrite land_ones_mod by lia.
  split; [done|]. apply Z.mod_pos_bound. lia.
Qed.

(** Reading back one digit without and with the continuation flag. *)
Lemma digit_flags d (first : bool) : 0 <= d < 2 ^ 7 ->
  let b := d .| (if first then 0 else 0x80) in
  b .& 0x7f = d /\ negb (b .& 0x80 =? 0) = negb first /\ is_u 8 b.
Proof.
  intros Hd b. change 0x7f with (2 ^ 7 - 1). rewrite land_ones_mod by lia.
  assert (b = d + (if first then 0 else 2 ^ 7)) as E.
  { unfold b. destruct first; [rewrite Z.lor_0_r; lia|]. change 0x80 with (1 * 2 ^ 7).
    rewrite lor_disjoint_add; lia. }
  rewrite E. split; [destruct first; div_mod_lia|].
  assert (forall m, 0 <= m < 2 ^ 8 -> negb (m .& 0x80 =? 0) = (2 ^ 7 <=? m)) as L.
  { intros m Hm. change 0x80 with (1 ≪ 7). 
    assert (Z.testbit m 7 = (2 ^ 7 <=? m)) as <-; [|].
    - rewrite Z.testbit_eqb by lia. destruct (Z.leb_spec (2 ^ 7) m).
      + replace (m / 2 ^ 7) with 1; [done|]. apply Z.div_unique with (m - 2 ^ 7); lia.
      + by rewrite Z.div_small by lia.
    - rewrite Z.shiftl_1_l. destruct (Z.testbit m 7) eqn:T.
      + destruct (Z.eqb_spec (m .& 2 ^ 7) 0) as [Z0|]; [|done].
        assert (Z.testbit (m .& 2 ^ 7) 7 = true) as C by (by rewrite Z.land_spec, T).
        by rewrite Z0 in C.
      + assert (m .& 2 ^ 7 = 0) as ->; [|done]. apply Z.bits_inj'; intros i Hi.
        rewrite Z.land_spec, Z.bits_0, Z.pow2_bits_eqb by lia.
        destruct (Z.eqb_spec 7 i) as [<-|]; [by rewrite T|apply andb_false_r]. }
  rewrite L by (destruct first; lia). unfold is_u. destruct first; lia.
Qed.

Lemma varint_digits_spec room first n : 0 <= n < 2 ^ (7 * Z.of_nat (S room)) ->
  exists ds, varint_digits (S room) first n = Some ds /\ bytes_ok ds.
Proof.
  revert first n; induction room as [|room IH]; intros first n Hn.
  all: destruct (varint_low n ltac:(lia)) as [El Bl].
  all: destruct (digit_flags (n mod 2 ^ 7) first Bl) as (_ & _ & Hd).
  all: remember 7 as seven eqn:E7; cbn [varint_digits]; rewrite El; subst seven.
  all: destruct (Z.leb_spec n 0x7f); [eexists; split; [done|by constructor]|].
  - simpl in Hn. lia.
  - destruct (IH false ((n ≫ 7) - 1)) as (ds & E & Hok).
    { rewrite shiftr_div by lia.
      assert (1 <= n / 2 ^ 7) by (apply Z.div_le_lower_bound; lia).
      replace (7 * Z.of_nat (S (S room))) with (7 + 7 * Z.of_nat (S room)) in Hn by lia.
      rewrite Z.pow_add_r in Hn by lia.
      assert (n / 2 ^ 7 < 2 ^ (7 * Z.of_nat (S room))) by (apply Z.div_lt_upper_bound; lia). lia. }
    cbn [varint_digits] in E. rewrite E. eexists. split; [done|by constructor].
Qed.

Lemma read_varint_loop_app fuel acc ch l n : is_u 8 ch ->
  (if negb (ch .& 0x80 =? 0)
   then parses (read_varint_loop fuel (u64 ((u64 (acc ≪ 7) .| (ch .& 0x7f)) + 1))) l n
   else l = [] /\ n = u64 (acc ≪ 7) .| (ch .& 0x7f)) ->
  parses (read_varint_loop (S fuel) acc) (ch :: l) n.
Proof.
  intros Hch P. apply (parses_bind _ _ [ch] l ch); [by apply parses_u8|].
  cbv zeta. destruct (negb _); [done|]. destruct P as [-> ->]. apply parses_ret.
Qed.

(** Reading the flagged digits of [n] from accumulator 0 continues with [n + 1]. *)
Lemma read_varint_digits room n ds tail v fuel :
  0 <= n < 2 ^ 57 -> varint_digits room false n = Some ds ->
  parses (read_varint_loop fuel (n + 1)) tail v ->
  parses (read_varint_loop (length ds + fuel) 0) (rev ds ++ tail) v.
Proof.
  revert n ds tail v fuel; induction room as [|room IH]; intros n ds tail v fuel Hn Hd P; [done|].
  cbn [varint_digits] in Hd. destruct (varint_low n ltac:(lia)) as [El Bl]. rewrite El in Hd.
  destruct (digit_flags (n mod 2 ^ 7) false Bl) as (F1 & F2 & F3). simpl in F1, F2, F3.
  assert (forall m, 0 <= m -> n = m * 2 ^ 7 + n mod 2 ^ 7 ->
    u64 ((u64 (m ≪ 7) .| n mod 2 ^ 7) + 1) = n + 1) as Hstep.
  { intros m Hm E. rewrite Z.shiftl_mul_pow2 by lia. rewrite (uwrap_small 64 (m * _)) by (unfold is_u; lia).
    rewrite Z.lor_comm, lor_disjoint_add, uwrap_small by (unfold is_u; lia). lia. }
  destruct (Z.leb_spec n 0x7f).
  - injection Hd as <-. simpl rev. cbn [length Nat.add].
    apply read_varint_loop_app; [done|]. rewrite F2. simpl negb. cbv iota.
    rewrite F1, Hstep; [done|lia|]. rewrite Z.mod_small; lia.
  - destruct (varint_digits room false ((n ≫ 7) - 1)) as [ds'|] eqn:E; [|done].
    injection Hd as <-. simpl rev. rewrite <- app_assoc. rewrite shiftr_div in E by lia.
    cbn [length]. replace (S (length ds') + fuel)%nat with (length ds' + S fuel)%nat by lia.
    eapply IH; [|exact E|].
    + assert (1 <= n / 2 ^ 7) by (apply Z.div_le_lower_bound; lia).
      assert (n / 2 ^ 7 <= n) by (apply Z.div_le_upper_bound; lia). lia.
    + rewrite Z.sub_add. cbn [app]. apply read_varint_loop_app; [done|]. rewrite F2. cbn [negb].
      rewrite F1, Hstep; [done|apply Z.div_pos; lia|]. rewrite Z.mul_comm. apply Z.div_mod. lia.
Qed.

(** More fuel than unread bytes never changes a successful read. *)
Lemma read_varint_loop_mono fuel fuel' acc s v s' :
  (fuel <= fuel')%nat -> read_varint_loop fuel acc s = (Some v, s') ->
  read_varint_loop fuel' acc s = (Some v, s').
Proof.
  revert fuel' acc s; induction fuel as [|fuel IH]; intros fuel' acc s Hle E; [done|].
  destruct fuel' as [|fuel']; [lia|]. cbn [read_varint_loop] in *. unfold mbind, stream_bind in *.
  destruct (stream_read_u8 s) as [[ch|] s1]; [|done].
  case_if; [|done]. apply IH; [lia|done].
Qed.

Lemma varint_digits_length room first n ds :
  varint_digits room first n = Some ds -> (length ds <= room)%nat.
Proof.
  revert first n ds; induction room as [|room IH]; intros first n ds E; [done|].
  cbn [varint_digits] in E. destruct (n <=? 0x7f); [injection E as <-; simpl; lia|].
  destruct (varint_digits room false _) as [ds'|] eqn:E'; [|done].
  injection E as <-. apply IH in E'. simpl. lia.
Qed.

Lemma varint_parses room n ds : is_u 64 n -> varint_digits (S room) true n = Some ds ->
  parses (read_varint_loop (length ds) 0) (rev ds) n.
Proof.
  unfold is_u. intros Hn Hd. cbn [varint_digits] in Hd.
  destruct (varint_low n ltac:(lia)) as [El Bl]. rewrite El in Hd.
  destruct (digit_flags (n mod 2 ^ 7) true Bl) as (F1 & F2 & F3). simpl in F1, F2, F3.
  destruct (Z.leb_spec n 0x7f).
  - injection Hd as <-. cbn [rev app length].
    apply read_varint_loop_app; [done|]. rewrite F2. split; [done|].
    rewrite F1, Z.mod_small by lia. done.
  - destruct (varint_digits _ false _) as [ds'|] eqn:E; [|done]. injection Hd as <-.
    simpl rev. cbn [length]. replace (S (length ds')) with (length ds' + 1)%nat by lia.
    rewrite shiftr_div in E by lia. eapply read_varint_digits; [|exact E|].
    + assert (1 <= n / 2 ^ 7) by (apply Z.div_le_lower_bound; lia).
      assert (n / 2 ^ 7 < 2 ^ 57) by (apply Z.div_lt_upper_bound; lia). lia.
    + rewrite Z.sub_add. apply read_varint_loop_app; [done|]. rewrite F2. split; [done|]. rewrite F1.
      assert (0 <= n / 2 ^ 7) by (apply Z.div_pos; lia).
      pose proof (Z.div_mod n (2 ^ 7) ltac:(lia)).
      rewrite Z.shiftl_mul_pow2, uwrap_small, Z.lor_comm, lor_disjoint_add by (unfold is_u; lia). lia.
Qed.

Definition varint_bytes (n : Z) : bytes := rev (default [] (varint_digits 10 true n)).

Lemma varint_digits_u64 n : is_u 64 n ->
  exists ds, varint_digits 10 true n = Some ds /\ bytes_ok ds /\ varint_bytes n = rev ds.
Proof.
  intros Hn. unfold is_u in Hn. destruct (varint_digits_spec 9 true n) as (ds & E & Hok).
  { change (2 ^ (7 * Z.of_nat 10)) with (2 ^ 70). lia. }
  exists ds. unfold varint_bytes. by rewrite E.
Qed.

Lemma emits_varint `{AllocatorTotal} n : is_u 64 n -> emits (stream_write_varint n) (varint_bytes n).
Proof.
  intros Hn. destruct (varint_digits_u64 n Hn) as (ds & E & Hok & Eb).
  unfold stream_write_varint. rewrite E, Eb. apply emits_write_all. by apply Forall_rev.
Qed.

Lemma parses_varint n : is_u 64 n -> parses stream_read_varint (varint_bytes n) n.
Proof.
  intros Hn s rest Hr. destruct (varint_digits_u64 n Hn) as (ds & E & Hok & Eb).
  pose proof (varint_parses 9 n ds Hn E s rest) as P. rewrite <- Eb in P. specialize (P Hr).
  unfold stream_read_varint. eapply read_varint_loop_mono; [|exact P].
  destruct Hr as (_ & _ & Hd). apply (f_equal length) in Hd.
  rewrite length_drop, length_app, Eb, length_rev in Hd. lia.
Qed.

(** ** Codecs

    What a serialiser and a deserialiser promise each other: on well-formed values
    the serialiser emits [encode a], and the deserialiser, at the start of those bytes,
    returns [a] and stops right after them. *)

Class Codec (A : Type) := {
  codec_ok : A -> Prop;
  encode : A -> bytes;
  put : forall `{Allocator}, A -> stream_m unit;
  get : stream_m A;
  put_emits : forall `{AllocatorTotal} a, codec_ok a -> emits (put a) (encode a);
  get_parses : forall a, codec_ok a -> parses get (encode a) a;
}.

(** The [for] loops over an array of items. *)
Fixpoint write_items {A} (w : A -> stream_m unit) (l : list A) : stream_m unit :=
  match l with
  | [] => mret tt
  | a :: l' => w a;; write_items w l'
  end.

Fixpoint read_items {A} (r : stream_m A) (n : nat) : stream_m (list A) :=
  match n with
  | O => mret []
  | S n' => a ← r; l ← read_items r n'; mret (a :: l)
  end.

Lemma emits_items `{AllocatorTotal} {A} (w : A -> stream_m unit) (enc : A -> bytes) l :
  Forall (fun a => emits (w a) (enc a)) l -> emits (write_items w l) (mjoin (map enc l)).
Proof.
  induction 1 as [|a l Ha Hl IH]; [apply emits_ret|]. by apply emits_bind.
Qed.

Lemma parses_items {A} (r : stream_m A) (enc : A -> bytes) l n :
  n = length l -> Forall (fun a => parses r (enc a) a) l ->
  parses (read_items r n) (mjoin (map enc l)) l.
Proof.
  intros ->. induction 1 as [|a l Ha Hl IH]; [apply parses_ret|].
  cbn [length read_items map mjoin list_join]. eapply parses_bind; [done|]. simpl.
  eapply parses_map; [exact IH|done].
Qed.

(** Writing to a fresh stream and reading the bytes back. *)
Definition written `{Allocator} (m : stream_m unit) : option bytes :=
  match m (stream_init 0) with
  | (Some _, s) => Some (bs_data s)
  | (None, _) => None
  end.

Definition parsed {A} (m : stream_m A) (l : bytes) : option (A * bytes) :=
  match m (stream_init_from_data l) with
  | (Some a, s) => Some (a, drop (Z.to_nat (bs_read_pos s)) (bs_data s))
  | (None, _) => None
  end.

Lemma emits_written `{AllocatorTotal} m l :
  emits m l -> Z.of_nat (length l) <= SIZE_MAX -> written m = Some l.
Proof.
  intros E Hl. destruct (E (stream_init 0)) as (s & Em & Hd & _).
  - unfold writable, stream_ok, bs_size, SIZE_MAX in *. simpl. split_and!; try done; lia.
  - unfold written. rewrite Em. by rewrite Hd.
Qed.

Lemma parses_parsed {A} (m : stream_m A) l a rest :
  parses m l a -> parsed m (l ++ rest) = Some (a, rest).
Proof.
  intros P. unfold parsed. rewrite (P _ rest (readable_from_data _)).
  pose proof (readable_advance l rest _ (readable_from_data _)) as (_ & _ & Hd).
  simpl in *. by rewrite Hd.
Qed.

Lemma codec_roundtrip `{AllocatorTotal} `{Codec A} a rest :
  codec_ok a -> Z.of_nat (length (encode a)) <= SIZE_MAX ->
  written (put a) = Some (encode a) /\ parsed get (encode a ++ rest) = Some (a, rest).
Proof.
  intros Ha Hl. split; [apply emits_written; [by apply put_emits|done]|].
  apply parses_parsed. by apply get_parses.
Qed.

(** ** What a reader returns

    [yields m P]: whenever [m] succeeds on a stream of bytes its result satisfies [P]. *)

Definition stream_bytes (s : byte_stream) : Prop := bytes_ok (bs_data s) /\ 0 <= bs_read_pos s.

Definition yields {A} (m : stream_m A) (P : A -> Prop) : Prop :=
  forall s a s', stream_bytes s -> m s = (Some a, s') -> P a /\ stream_bytes s'.

(** A byte array of known length. *)
Definition fixed (n : Z) (l : bytes) : Prop := Z.of_nat (length l) = n /\ bytes_ok l.

#[export] Instance fixed_dec n l : Decision (fixed n l).
Proof. unfold fixed. apply _. Defined.

Lemma yields_bind {A B} (m : stream_m A) (f : A -> stream_m B) P Q :
  yields m P -> (forall a, P a -> yields (f a) Q) -> yields (m ≫= f) Q.
Proof.
  intros Hm Hf s b s' Hs. unfold mbind, stream_bind. destruct (m s) as [[a|] s1] eqn:E; [|done].
  destruct (Hm _ _ _ Hs E) as [Ha Hs1]. by apply Hf.
Qed.

Lemma yields_ret {A} (a : A) (P : A -> Prop) : P a -> yields (mret a) P.
Proof. intros Ha s b s' Hs [= <- <-]. done. Qed.

Lemma yields_weaken {A} (m : stream_m A) (P Q : A -> Prop) :
  yields m P -> (forall a, P a -> Q a) -> yields m Q.
Proof. intros Hm HPQ s a s' Hs E. destruct (Hm _ _ _ Hs E). auto. Qed.

Lemma yields_guard b : yields (stream_guard b) (fun _ => b = true).
Proof. intros s a s' Hs. unfold stream_guard. destruct b; [|done]. by intros [= _ <-]. Qed.

Lemma yields_read n : 0 <= n -> yields (stream_read n) (fixed n).
Proof.
  intros Hn s a s' [Hb Hp]. unfold stream_read. case_if; [done|]. intros [= <- <-].
  zbool. unfold bs_size in *. split; [split|split].
  - rewrite length_take, length_drop. lia.
  - by apply Forall_take, Forall_drop.
  - done.
  - simpl. lia.
Qed.

Lemma yields_le n k : Z.of_nat n = k ->
  yields (b ← stream_read k; mret (le_decode b)) (fun v => 0 <= v < 256 ^ k).
Proof.
  intros <-. eapply yields_bind; [apply yields_read; lia|]. intros b [Hl Hb].
  apply yields_ret. rewrite <- Hl. by apply le_decode_range.
Qed.

Lemma yields_u32 : yields stream_read_u32_le (is_u 32).
Proof. by apply (yields_le 4). Qed.

Lemma yields_u64 : yields stream_read_u64_le (is_u 64).
Proof. by apply (yields_le 8). Qed.

Lemma yields_i32 : yields stream_read_i32_le (is_s 32).
Proof. eapply yields_bind; [apply yields_u32|]. intros v _. apply yields_ret, swrap_range. lia. Qed.

Lemma yields_i64 : yields stream_read_i64_le (is_s 64).
Proof. eapply yields_bind; [apply yields_u64|]. intros v _. apply yields_ret, swrap_range. lia. Qed.

Lemma yields_compact_size : yields stream_read_compact_size (is_u 64).
Proof.
  eapply yields_bind; [by apply (yields_le 1)|]. intros m Hm.
  repeat case_if; [|eapply yields_weaken; [by apply (yields_le 2)|]
    |eapply yields_weaken; [by apply (yields_le 4)|]|apply yields_u64];
    unfold is_u in *; [apply yields_ret| |]; intros; lia.
Qed.

Lemma yields_items {A} (r : stream_m A) (P : A -> Prop) n :
  yields r P -> yields (read_items r n) (fun l => length l = n /\ Forall P l).
Proof.
  intros Hr. induction n as [|n IH]; [by apply yields_ret|]. cbn [read_items].
  eapply yields_bind; [exact Hr|]. intros a Ha. eapply yields_bind; [exact IH|].
  intros l [<- Hl]. apply yields_ret. auto.
Qed.

(** ** Properties *)

(** CompactSize and VarInt are lossless 64-bit encodings: for every
    64-bit value the writers succeed (the VarInt writer stays inside its ten-byte
    buffer), the CompactSize writer emits exactly [compact_size_sizeof] bytes, and
    reading the emitted bytes, whatever follows them, returns the value and stops at the
    first byte after them. *)
Theorem length_prefix_roundtrip `{AllocatorTotal} n rest :
  is_u 64 n ->
  exists c v,
    written (stream_write_compact_size n) = Some c /\
    Z.of_nat (length c) = compact_size_sizeof n /\
    parsed stream_read_compact_size (c ++ rest) = Some (n, rest) /\
    written (stream_write_varint n) = Some v /\
    parsed stream_read_varint (v ++ rest) = Some (n, rest).
Proof.
  intros Hn. exists (compact_size_bytes n), (varint_bytes n).
  destruct (varint_digits_u64 n Hn) as (ds & E & _ & Eb).
  assert (length (varint_bytes n) <= 10)%nat as Hlen.
  { rewrite Eb, length_rev. eapply varint_digits_length, E. }
  split_and!.
  - apply emits_written; [by apply emits_compact_size|].
    rewrite compact_size_bytes_length. unfold compact_size_sizeof, SIZE_MAX. by repeat case_if.
  - apply compact_size_bytes_length.
  - by apply parses_parsed, parses_compact_size.
  - apply emits_written; [by apply emits_varint|]. unfold SIZE_MAX. lia.
  - by apply parses_parsed, parses_varint.
Qed.

Lemma length_prefix_roundtrip_witness :
  let A : Allocator := fun _ => true in
  exists c, written (stream_write_varint 300) = Some c /\
            parsed stream_read_varint (c ++ [7]) = Some (300, [7]) /\ c = [0x81; 0x2c].
Proof.
  intros A.
  destruct (@length_prefix_roundtrip A (fun _ => eq_refl) 300 [7] ltac:(done))
    as (c & v & _ & _ & _ & Hv & Hp).
  exists v. split; [exact Hv|]. split; [exact Hp|].
  vm_compute in Hv. injection Hv as <-. reflexivity.
Defined.
