(* ===== verification/Script.v ===== *)
(** * Scripts, script numbers and signature-operation counting

    Models lib/script/include/script/script.h and lib/script/src/script.c: opcodes,
    pushing and fetching script elements, the script templates, script numbers
    (sign-magnitude little-endian integers) and the sigop counters.  A [struct script]
    is the list of its [size] bytes.  A program counter is represented by the unread
    suffix of the script, so [*pc >= s->size] is [l = []] and [*pc + n > s->size] is
    [n > length l]. *)

From S2P Require Import Prelude.

Definition MAX_SCRIPT_SIZE : Z := 10000.
Definition MAX_SCRIPT_ELEMENT_SIZE : Z := 520.

Abbreviation script := (list Z).

(** ** Opcodes (enum opcodetype) *)

Definition OP_0 : Z := 0x00.
Definition OP_PUSHDATA1 : Z := 0x4c.
Definition OP_PUSHDATA2 : Z := 0x4d.
Definition OP_PUSHDATA4 : Z := 0x4e.
Definition OP_1NEGATE : Z := 0x4f.
Definition OP_1 : Z := 0x51.
Definition OP_16 : Z := 0x60.
Definition OP_IF : Z := 0x63.
Definition OP_ENDIF : Z := 0x68.
Definition OP_RETURN : Z := 0x6a.
Definition OP_DUP : Z := 0x76.
Definition OP_EQUAL : Z := 0x87.
Definition OP_EQUALVERIFY : Z := 0x88.
Definition OP_HASH160 : Z := 0xa9.
Definition OP_CHECKSIG : Z := 0xac.
Definition OP_CHECKSIGVERIFY : Z := 0xad.
Definition OP_CHECKMULTISIG : Z := 0xae.
Definition OP_CHECKMULTISIGVERIFY : Z := 0xaf.
Definition OP_CHECKDATASIG : Z := 0xba.
Definition OP_CHECKDATASIGVERIFY : Z := 0xbb.
Definition OP_INVALIDOPCODE : Z := 0xff.

(** ** Building scripts; [None] is the return value [false] *)

Definition script_set (data : bytes) : script :=
  if zlen data >? MAX_SCRIPT_SIZE then take (Z.to_nat MAX_SCRIPT_SIZE) data else data.

Definition script_push_op (s : script) (op : Z) : option script :=
  if zlen s >=? MAX_SCRIPT_SIZE then None else Some (s ++ [u8 op]).

Definition script_push_data (s : script) (data : bytes) : option script :=
  let len := zlen data in
  if len <? OP_PUSHDATA1 then
    if zlen s + 1 + len >? MAX_SCRIPT_SIZE then None else Some (s ++ [u8 len] ++ data)
  else if len <=? 0xff then
    if zlen s + 2 + len >? MAX_SCRIPT_SIZE then None else Some (s ++ [OP_PUSHDATA1; u8 len] ++ data)
  else if len <=? 0xffff then
    if zlen s + 3 + len >? MAX_SCRIPT_SIZE then None
    else Some (s ++ [OP_PUSHDATA2; u8 (len .& 0xff); u8 (len ≫ 8)] ++ data)
  else
    if zlen s + 5 + len >? MAX_SCRIPT_SIZE then None
    else Some (s ++ [OP_PUSHDATA4; u8 (len .& 0xff); u8 ((len ≫ 8) .& 0xff);
                     u8 ((len ≫ 16) .& 0xff); u8 ((len ≫ 24) .& 0xff)] ++ data).

(** ** Templates *)

Definition script_is_p2sh (s : script) : bool :=
  (zlen s =? 23) && (s !!! 0%nat =? OP_HASH160) && (s !!! 1%nat =? 0x14) && (s !!! 22%nat =? OP_EQUAL).

Definition script_is_p2pkh (s : script) : bool :=
  (zlen s =? 25) && (s !!! 0%nat =? OP_DUP) && (s !!! 1%nat =? OP_HASH160) &&
  (s !!! 2%nat =? 0x14) && (s !!! 23%nat =? OP_EQUALVERIFY) && (s !!! 24%nat =? OP_CHECKSIG).

Definition script_is_pay_to_script_hash (s : script) : bool :=
  (zlen s =? 23) && (s !!! 0%nat =? OP_HASH160) && (s !!! 1%nat =? 0x14) && (s !!! 22%nat =? OP_EQUAL).

Definition script_decode_op_n (op : Z) : Z := if op =? OP_0 then 0 else op - (OP_1 - 1).

Definition script_is_unspendable (s : script) : bool :=
  ((zlen s >? 0) && (s !!! 0%nat =? OP_RETURN)) || (zlen s >? MAX_SCRIPT_SIZE).

(** ** Fetching elements *)

(** The push length of [op]: the number of bytes to push and the suffix after the
    length bytes; [None] when the length bytes are cut off. *)
Definition push_size (op : Z) (l : script) : option (Z * script) :=
  if op <? OP_PUSHDATA1 then Some (op, l)
  else if op =? OP_PUSHDATA1 then
    match l with b0 :: l' => Some (b0, l') | _ => None end
  else if op =? OP_PUSHDATA2 then
    match l with b0 :: b1 :: l' => Some (b0 .| (b1 ≪ 8), l') | _ => None end
  else
    match l with
    | b0 :: b1 :: b2 :: b3 :: l' => Some (b0 .| (b1 ≪ 8) .| (b2 ≪ 16) .| (b3 ≪ 24), l')
    | _ => None
    end.

(** [script_get_op] with a data buffer: opcode, pushed data and the next position. *)
Definition script_get_op (l : script) : option (Z * bytes * script) :=
  match l with
  | [] => None
  | op :: l1 =>
      if op <=? OP_PUSHDATA4 then
        '(nsize, l2) ← push_size op l1;
        if nsize >? zlen l2 then None
        else if nsize >? MAX_SCRIPT_ELEMENT_SIZE then None
        else Some (op, take (Z.to_nat nsize) l2, drop (Z.to_nat nsize) l2)
      else Some (op, [], l1)
  end.

(** [script_is_push_only]: note that the pushed data may run past the end. *)
Fixpoint push_only_loop (fuel : nat) (l : script) : bool :=
  match fuel with
  | O => true
  | S fuel' =>
      match l with
      | [] => true
      | op :: l1 =>
          if op >? OP_16 then false
          else if op <=? OP_PUSHDATA4 then
            match push_size op l1 with
            | Some (len, l2) => push_only_loop fuel' (drop (Z.to_nat len) l2)
            | None => false
            end
          else push_only_loop fuel' l1
      end
  end.

Definition script_is_push_only (s : script) : bool := push_only_loop (length s) s.

(** ** Script numbers *)

Definition SCRIPT_NUM_DEFAULT_MAX_SIZE : Z := 4.
Definition SCRIPT_NUM_MAX_SIZE : Z := 8.

Definition INT32_MAX : Z := 2 ^ 31 - 1.
Definition INT32_MIN : Z := - 2 ^ 31.

(** [result |= (int64_t)data[i] << (8 * i)] *)
Fixpoint num_or_loop (i : Z) (result : Z) (data : bytes) : Z :=
  match data with
  | [] => result
  | b :: data' => num_or_loop (i + 1) (result .| i64 (b ≪ (8 * i))) data'
  end.

Definition script_num_from_bytes (data : bytes) (require_minimal : bool) (max_size : Z) : option Z :=
  let len := zlen data in
  let top := data !!! (length data - 1)%nat in
  if len >? max_size then None
  else if require_minimal && (len >? 0) && (top .& 0x7f =? 0) &&
          ((len <=? 1) || ((data !!! (length data - 2)%nat) .& 0x80 =? 0)) then None
  else if len =? 0 then Some 0
  else
    let result := num_or_loop 0 0 data in
    if negb (top .& 0x80 =? 0)
    then Some (i64 (- (result .& Z.lnot (i64 (0x80 ≪ (8 * (len - 1)))))))
    else Some result.

(** [while (absval) { out[len++] = absval & 0xff; absval >>= 8; }]: eight
    iterations exhaust a 64-bit magnitude. *)
Fixpoint num_magnitude (fuel : nat) (absval : Z) : bytes :=
  match fuel with
  | O => []
  | S fuel' => if absval =? 0 then [] else (absval .& 0xff) :: num_magnitude fuel' (absval ≫ 8)
  end.

Definition set_last (l : bytes) (f : Z -> Z) : bytes := alter f (length l - 1)%nat l.

Definition script_num_serialize (value : Z) (outsize : Z) : bytes :=
  if value =? 0 then []
  else
    let neg := value <? 0 in
    let absval := if neg then u64 (- value) else u64 value in
    let mag := num_magnitude 8 absval in
    let top := u8 ((absval ≫ (8 * (zlen mag - 1))) .& 0xff) in
    let req := if negb (top .& 0x80 =? 0) then zlen mag + 1 else zlen mag in
    if req >? outsize then []
    else if negb ((mag !!! (length mag - 1)%nat) .& 0x80 =? 0)
    then mag ++ [if neg then 0x80 else 0x00]
    else if neg then set_last mag (fun b => b .| 0x80)
    else mag.

Definition script_num_get_int (value : Z) : Z :=
  if value >? INT32_MAX then INT32_MAX else if value <? INT32_MIN then INT32_MIN else value.

(** ** Signature operations *)

Definition SCRIPT_VERIFY_P2SH : Z := 1 ≪ 0.
Definition SCRIPT_VERIFY_STRICTENC : Z := 1 ≪ 1.
Definition SCRIPT_VERIFY_LOW_S : Z := 1 ≪ 3.
Definition SCRIPT_VERIFY_NULLDUMMY : Z := 1 ≪ 4.
Definition SCRIPT_VERIFY_SIGPUSHONLY : Z := 1 ≪ 5.
Definition SCRIPT_VERIFY_MINIMALDATA : Z := 1 ≪ 6.
Definition SCRIPT_VERIFY_DISCOURAGE_UPGRADABLE_NOPS : Z := 1 ≪ 7.
Definition SCRIPT_VERIFY_CLEANSTACK : Z := 1 ≪ 8.
Definition SCRIPT_VERIFY_CHECKLOCKTIMEVERIFY : Z := 1 ≪ 9.
Definition SCRIPT_VERIFY_NULLFAIL : Z := 1 ≪ 10.
Definition SCRIPT_VERIFY_CHECKDATASIG_SIGOPS : Z := 1 ≪ 11.

Definition has_flag (flags f : Z) : bool := negb (flags .& f =? 0).

Definition sigop_weight (flags : Z) (accurate : bool) (last_opcode opcode : Z) : Z :=
  if (opcode =? OP_CHECKSIG) || (opcode =? OP_CHECKSIGVERIFY) then 1
  else if (opcode =? OP_CHECKDATASIG) || (opcode =? OP_CHECKDATASIGVERIFY) then
    if has_flag flags SCRIPT_VERIFY_CHECKDATASIG_SIGOPS then 1 else 0
  else if (opcode =? OP_CHECKMULTISIG) || (opcode =? OP_CHECKMULTISIGVERIFY) then
    if accurate && (last_opcode >=? OP_1) && (last_opcode <=? OP_16)
    then last_opcode - (OP_1 - 1) else 20
  else 0.

Fixpoint sig_op_loop (fuel : nat) (flags : Z) (accurate : bool) (n last_opcode : Z) (l : script) : Z :=
  match fuel with
  | O => n
  | S fuel' =>
      match script_get_op l with
      | None => n
      | Some (opcode, _, l') =>
          sig_op_loop fuel' flags accurate
            (u32 (n + sigop_weight flags accurate last_opcode opcode)) opcode l'
      end
  end.

Definition script_get_sig_op_count (s : script) (flags : Z) (accurate : bool) : Z :=
  sig_op_loop (length s) flags accurate 0 OP_INVALIDOPCODE s.

(** The walk over a P2SH scriptSig: the last pushed payload, or [None] when the
    script does not parse or contains a non-push opcode. *)
Fixpoint last_push_loop (fuel : nat) (last_push : bytes) (l : script) : option bytes :=
  match fuel, l with
  | _, [] => Some last_push
  | O, _ => None
  | S fuel', _ =>
      '(opcode, data, l') ← script_get_op l;
      if opcode >? OP_16 then None else last_push_loop fuel' data l'
  end.

Definition script_get_sig_op_count_p2sh (script_pub_key script_sig : script) (flags : Z) : Z :=
  if (flags .& SCRIPT_VERIFY_P2SH =? 0) || negb (script_is_pay_to_script_hash script_pub_key)
  then script_get_sig_op_count script_pub_key flags true
  else
    match last_push_loop (length script_sig) [] script_sig with
    | None => 0
    | Some last_push => script_get_sig_op_count (script_set last_push) flags true
    end.

(** ** Element lemmas *)

Lemma zlen_nonneg {A} (l : list A) : 0 <= zlen l.
Proof. unfold zlen. lia. Qed.

#[export] Hint Rewrite @zlen_app @zlen_cons : zcl.

Lemma push_size_spec op l n l' : bytes_ok l -> 0 <= op -> push_size op l = Some (n, l') ->
  0 <= n /\ (length l' <= length l)%nat /\ bytes_ok l'.
Proof.
  intros Hl Hop E. unfold push_size, bytes_ok in *. repeat case_if; simplify_eq/=; [done|..].
  all: repeat match goal with
  | H : match ?l with _ => _ end = _ |- _ => destruct l as [|? ?]; [done|]
  | H : Forall _ (_ :: _) |- _ => apply Forall_cons in H as [? ?]
  end; simplify_eq; unfold is_u in *.
  all: split; [rewrite ?Z.lor_nonneg, ?Z.shiftl_nonneg; lia|split; [simpl; lia|done]].
Qed.

Lemma script_get_op_spec l op d l' : bytes_ok l -> script_get_op l = Some (op, d, l') ->
  byte_ok op /\ (length l' < length l)%nat /\ bytes_ok l' /\ bytes_ok d /\ zlen d <= MAX_SCRIPT_ELEMENT_SIZE.
Proof.
  intros Hl E. destruct l as [|o l]; [done|]. apply Forall_cons in Hl as [Ho Hl].
  cbn [script_get_op] in E. case_if.
  2: { injection E as <- <- <-. split; [done|]. split; [simpl; lia|]. split; [done|].
       split; [by constructor|done]. }
  destruct (push_size o l) as [[n l2]|] eqn:Ep; [|done]. cbn in E.
  apply push_size_spec in Ep as (Hn & Hlen & Hok); [|done|unfold is_u in Ho; lia].
  case_if; [done|]. case_if; [done|]. injection E as <- <- <-.
  split; [done|]. split; [rewrite length_drop; simpl; lia|].
  split; [by apply Forall_drop|]. split; [by apply Forall_take|].
  unfold zlen in *. rewrite length_take. lia.
Qed.

Lemma push_size_direct n l : 0 <= n < OP_PUSHDATA1 -> push_size n l = Some (n, l).
Proof. intros H. unfold push_size. by replace (n <? OP_PUSHDATA1) with true by lia. Qed.

Lemma get_op_push op data rest hdr :
  op <= OP_PUSHDATA4 -> push_size op (hdr ++ data ++ rest) = Some (zlen data, data ++ rest) ->
  zlen data <= MAX_SCRIPT_ELEMENT_SIZE ->
  script_get_op (op :: hdr ++ data ++ rest) = Some (op, data, rest).
Proof.
  intros Hop E Hlen. unfold script_get_op. replace (op <=? OP_PUSHDATA4) with true by lia.
  rewrite E. cbn. rewrite zlen_app. pose proof (zlen_nonneg rest).
  replace (zlen data >? _) with false by lia. replace (zlen data >? _) with false by lia.
  unfold zlen. by rewrite Nat2Z.id, take_app_length, drop_app_length.
Qed.

(** Every element a script builder appends is fetched back. *)
Lemma push_data_get_op s data s' :
  script_push_data s data = Some s' -> zlen data <= MAX_SCRIPT_ELEMENT_SIZE ->
  exists e op, s' = s ++ e /\ zlen s' <= MAX_SCRIPT_SIZE /\ op <= OP_PUSHDATA4 /\
    forall rest, script_get_op (e ++ rest) = Some (op, data, rest).
Proof.
  intros E Hlen. unfold script_push_data in E. pose proof (zlen_nonneg data) as Hnn.
  unfold MAX_SCRIPT_ELEMENT_SIZE in Hlen. cbv zeta in E.
  destruct (Z.ltb_spec (zlen data) OP_PUSHDATA1) as [H1|H1]; unfold OP_PUSHDATA1 in H1.
  { case_if; [done|]. injection E as <-. rewrite u8_small by lia.
    exists (zlen data :: data), (zlen data). split; [done|].
    split; [autorewrite with zcl; lia|]. split; [unfold OP_PUSHDATA4; lia|]. intros rest.
    apply (get_op_push _ data rest []); [unfold OP_PUSHDATA4; lia| |done].
    apply push_size_direct. unfold OP_PUSHDATA1; lia. }
  destruct (Z.leb_spec (zlen data) 0xff).
  { case_if; [done|]. injection E as <-. rewrite u8_small by lia.
    exists (OP_PUSHDATA1 :: zlen data :: data), OP_PUSHDATA1. split; [done|].
    split; [autorewrite with zcl; lia|]. split; [done|]. intros rest.
    by apply (get_op_push _ data rest [zlen data]). }
  destruct (Z.leb_spec (zlen data) 0xffff); [|lia].
  case_if; [done|]. injection E as <-. rewrite land_ff, shiftr_div by lia. change (2 ^ 8) with 256.
  rewrite !u8_small by div_mod_lia.
  exists (OP_PUSHDATA2 :: zlen data mod 256 :: zlen data / 256 :: data), OP_PUSHDATA2. split; [done|].
  split; [autorewrite with zcl; lia|]. split; [done|]. intros rest.
  apply (get_op_push _ data rest [zlen data mod 256; zlen data / 256]); [done| |done].
  cbn [push_size app]. do 2 f_equal. change (push_size OP_PUSHDATA2) with (push_size OP_PUSHDATA2).
  cbn. do 2 f_equal. rewrite Z.shiftl_mul_pow2, lor_disjoint_add by div_mod_lia. div_mod_lia.
Qed.

(** ** Script-number lemmas *)

Lemma num_or_loop_spec i acc data :
  bytes_ok data -> 0 <= i -> i + zlen data <= 7 -> 0 <= acc < 256 ^ i ->
  num_or_loop i acc data = acc + 256 ^ i * le_decode data.
Proof.
  revert i acc; induction data as [|b data IH]; intros i acc Hd Hi Hlen Hacc; [simpl; lia|].
  apply Forall_cons in Hd as [Hb Hd]. rewrite zlen_cons in Hlen. pose proof (zlen_nonneg data).
  unfold is_u in Hb; change (2 ^ 8) with 256 in Hb.
  assert (256 ^ i <= 256 ^ 6) by (apply Z.pow_le_mono_r; lia).
  cbn [num_or_loop le_decode].
  rewrite Z.shiftl_mul_pow2 by lia. replace (2 ^ (8 * i)) with (256 ^ i) by (by rewrite Z.pow_mul_r by lia).
  rewrite swrap_small; [|lia|unfold is_s; simpl (2 ^ (64 - 1)); nia].
  replace (256 ^ i) with (2 ^ (8 * i)) at 1 by (by rewrite Z.pow_mul_r by lia).
  rewrite lor_disjoint_add; [|lia|by rewrite Z.pow_mul_r by lia].
  rewrite Z.pow_mul_r by lia. change (2 ^ 8) with 256.
  rewrite IH; [|done|lia|lia|].
  - rewrite Z.pow_add_r by lia. ring.
  - rewrite Z.pow_add_r by lia. change (256 ^ 1) with 256. nia.
Qed.

Lemma lookup_last_app (d : bytes) t : (d ++ [t]) !!! (length (d ++ [t]) - 1)%nat = t.
Proof.
  rewrite length_app. simpl. replace (length d + 1 - 1)%nat with (length d) by lia.
  rewrite list_lookup_total_alt, lookup_app_r, Nat.sub_diag by lia. done.
Qed.

(** The decoder on a non-empty string [d ++ [t]]. *)
Lemma from_bytes_snoc d t minimal mx : bytes_ok (d ++ [t]) -> zlen d + 1 <= mx <= 7 ->
  script_num_from_bytes (d ++ [t]) minimal mx =
  if minimal && ((t =? 0) || (t =? 128)) && ((zlen d =? 0) || ((d !!! (length d - 1)%nat) <? 128))
  then None
  else Some (if t <? 128 then le_decode d + 256 ^ zlen d * t
             else - (le_decode d + 256 ^ zlen d * (t - 128))).
Proof.
  intros Hok Hmx. apply bytes_ok_app in Hok as Hok'. destruct Hok' as [Hd Ht].
  apply Forall_cons in Ht as [Ht _]. unfold is_u in Ht; change (2 ^ 8) with 256 in Ht.
  pose proof (zlen_nonneg d) as Hz. unfold script_num_from_bytes. rewrite lookup_last_app, zlen_app.
  change (zlen [t]) with 1. replace (zlen d + 1 >? mx) with false by lia.
  replace (zlen d + 1 >? 0) with true by lia. replace (zlen d + 1 =? 0) with false by lia.
  replace (zlen d + 1 <=? 1) with (zlen d =? 0) by lia. rewrite andb_true_r.
  assert ((t .& 0x7f =? 0) = (t =? 0) || (t =? 128)) as -> by
    (rewrite byte_land_7f by lia; destruct (Z.ltb_spec t 128); lia).
  assert ((zlen d =? 0) || (((d ++ [t]) !!! (length (d ++ [t]) - 2)%nat) .& 0x80 =? 0) =
          (zlen d =? 0) || ((d !!! (length d - 1)%nat) <? 128)) as ->.
  { destruct (Z.eqb_spec (zlen d) 0) as [|Hne]; [done|]. cbn [orb].
    rewrite length_app. simpl. replace (length d + 1 - 2)%nat with (length d - 1)%nat by lia.
    unfold zlen in Hne. rewrite lookup_total_app_l by lia.
    assert (0 <= d !!! (length d - 1)%nat < 256) as B.
    { eapply bytes_ok_lookup; [exact Hd|]. apply list_lookup_lookup_total_lt. lia. }
    pose proof (byte_land_80 _ B). destruct (_ .& 0x80 =? 0); simpl in *; lia. }
  destruct (_ && _ && _)%bool; [done|].
  rewrite num_or_loop_spec by (rewrite ?zlen_app; change (zlen [t]) with 1; done || lia).
  rewrite le_decode_app. change (Z.of_nat (length d)) with (zlen d). cbn [le_decode].
  rewrite byte_land_80 by lia. rewrite Z.pow_0_r, Z.mul_0_r, Z.add_0_r, Z.add_0_l, Z.mul_1_l.
  set (P := 256 ^ zlen d).
  assert (P <= 256 ^ 6) by (apply Z.pow_le_mono_r; lia).
  pose proof (le_decode_range d Hd) as Bd. change (Z.of_nat (length d)) with (zlen d) in Bd. fold P in Bd.
  destruct (Z.leb_spec 128 t); [|by replace (t <? 128) with true by lia].
  replace (t <? 128) with false by lia. f_equal.
  replace (zlen d + 1 - 1) with (zlen d) by lia.
  assert (0x80 ≪ (8 * zlen d) = 2 ^ (8 * zlen d + 7)) as ->.
  { rewrite Z.shiftl_mul_pow2, Z.pow_add_r by lia. change (2 ^ 7) with 0x80. ring. }
  assert (2 ^ (8 * zlen d + 7) = P * 128) as Ep.
  { rewrite Z.pow_add_r, Z.pow_mul_r by lia. done. }
  rewrite (swrap_small 64 (2 ^ _)); [|lia|unfold is_s; rewrite Ep; simpl (2 ^ (64 - 1)); lia].
  rewrite land_lnot_pow2; [|lia|].
  - rewrite Ep. rewrite swrap_small; [lia|lia|]. unfold is_s. simpl (2 ^ (64 - 1)). nia.
  - rewrite testbit_top, Ep; [nia|lia|].
    replace (8 * zlen d + 7 + 1) with (8 * (zlen d + 1)) by lia. rewrite Z.pow_mul_r by lia.
    change (2 ^ 8) with 256. rewrite Z.pow_add_r by lia. fold P. nia.
Qed.

Lemma num_magnitude_decode fuel d t : bytes_ok (d ++ [t]) -> t <> 0 -> (length d < fuel)%nat ->
  num_magnitude fuel (le_decode (d ++ [t])) = d ++ [t].
Proof.
  revert fuel; induction d as [|b d IH]; intros fuel Hok Ht Hf; destruct fuel as [|fuel]; simpl in Hf; [lia| |lia|].
  - apply Forall_cons in Hok as [Hb _]. unfold is_u in Hb. change (2 ^ 8) with 256 in Hb.
    cbn [app le_decode num_magnitude]. rewrite Z.mul_0_r, Z.add_0_r.
    replace (t =? 0) with false by lia. rewrite land_ff, shiftr_div by lia. change (2 ^ 8) with 256.
    rewrite Z.mod_small, Z.div_small by lia. by destruct fuel.
  - apply Forall_cons in Hok as [Hb Hok]. unfold is_u in Hb. change (2 ^ 8) with 256 in Hb.
    fold (d ++ [t]) in *. cbn [app le_decode num_magnitude].
    pose proof (le_decode_range _ Hok) as [Bl _].
    assert (0 < le_decode (d ++ [t])) as Hpos.
    { rewrite le_decode_app. apply bytes_ok_app in Hok as [Hd Ht']. apply Forall_cons in Ht' as [Ht' _].
      pose proof (le_decode_range d Hd). unfold is_u in Ht'. cbn [le_decode].
      assert (0 < 256 ^ Z.of_nat (length d)) by (apply Z.pow_pos_nonneg; lia). nia. }
    replace (b + 256 * le_decode (d ++ [t]) =? 0) with false by lia.
    rewrite land_ff, shiftr_div by lia. change (2 ^ 8) with 256.
    replace ((b + 256 * le_decode (d ++ [t])) mod 256) with b by div_mod_lia.
    replace ((b + 256 * le_decode (d ++ [t])) / 256) with (le_decode (d ++ [t])) by div_mod_lia.
    rewrite IH; [done|done|done|lia].
Qed.

(** Every positive magnitude is the value of a byte string without leading zero. *)
Lemma magnitude_repr fuel m : 0 < m < 256 ^ Z.of_nat fuel ->
  exists d t, m = le_decode (d ++ [t]) /\ bytes_ok (d ++ [t]) /\ t <> 0 /\ (length d < fuel)%nat.
Proof.
  revert m; induction fuel as [|fuel IH]; intros m Hm; [simpl in Hm; lia|].
  rewrite pow256_succ in Hm. destruct (decide (m < 256)).
  - exists [], m. cbn. split_and!; [lia| |lia|lia]. constructor; [unfold is_u; lia|constructor].
  - destruct (IH (m / 256)) as (d & t & E & Hok & Ht & Hl).
    { split; [apply Z.div_str_pos; lia|apply Z.div_lt_upper_bound; lia]. }
    exists (m mod 256 :: d), t. cbn [app le_decode length]. rewrite <- E.
    split_and!; [div_mod_lia| |done|lia]. constructor; [apply Z.mod_pos_bound; lia|done].
Qed.

(** The encoder on a value of known magnitude. *)
Lemma serialize_repr d t (neg : bool) : bytes_ok (d ++ [t]) -> t <> 0 -> zlen d <= 6 ->
  script_num_serialize (if neg then - le_decode (d ++ [t]) else le_decode (d ++ [t])) SCRIPT_NUM_MAX_SIZE =
  if t <? 128 then d ++ [if neg then t + 128 else t] else d ++ [t; if neg then 128 else 0].
Proof.
  intros Hok Ht Hlen. pose proof (zlen_nonneg d) as Hz.
  pose proof (le_decode_range _ Hok) as Bm. rewrite length_app in Bm. cbn [length] in Bm.
  replace (Z.of_nat (length d + 1)) with (zlen d + 1) in Bm by (unfold zlen; lia).
  assert (256 ^ (zlen d + 1) <= 256 ^ 7) by (apply Z.pow_le_mono_r; lia).
  apply bytes_ok_app in Hok as Hok'. destruct Hok' as [Hd Ht'].
  apply Forall_cons in Ht' as [Ht' _]. unfold is_u in Ht'; change (2 ^ 8) with 256 in Ht'.
  pose proof (le_decode_range d Hd) as Bd. fold (zlen d) in Bd.
  assert (0 < 256 ^ zlen d) by (apply Z.pow_pos_nonneg; lia).
  pose proof (le_decode_app d [t]) as Em. fold (zlen d) in Em. cbn [le_decode] in Em.
  rewrite Z.mul_0_r, Z.add_0_r in Em. set (m := le_decode (d ++ [t])) in *.
  assert (0 < m) by nia. unfold script_num_serialize, SCRIPT_NUM_MAX_SIZE.
  replace ((if neg then - m else m) =? 0) with false by (destruct neg; lia).
  replace ((if neg then - m else m) <? 0) with neg by (destruct neg; lia).
  assert ((if neg then u64 (- (if neg then - m else m)) else u64 (if neg then - m else m)) = m) as ->.
  { destruct neg; rewrite ?Z.opp_involutive; apply uwrap_small; unfold is_u; lia. }
  assert (num_magnitude 8 m = d ++ [t]) as -> by (apply num_magnitude_decode; [done|done|unfold zlen in *; lia]).
  rewrite lookup_last_app, zlen_app. change (zlen [t]) with 1. replace (zlen d + 1 - 1) with (zlen d) by lia.
  assert (u8 ((m ≫ (8 * zlen d)) .& 0xff) = t) as ->.
  { rewrite shiftr_div, Z.pow_mul_r by lia. change (2 ^ 8) with 256.
    rewrite Em. rewrite (Z.mul_comm _ t), Z.div_add, Z.div_small, Z.add_0_l by lia.
    rewrite land_ff, Z.mod_small by lia. apply u8_small. lia. }
  rewrite byte_land_80 by lia. destruct (Z.leb_spec 128 t).
  - replace (zlen d + 1 + 1 >? 8) with false by lia. replace (t <? 128) with false by lia.
    rewrite <- app_assoc. by destruct neg.
  - replace (zlen d + 1 >? 8) with false by lia. replace (t <? 128) with true by lia.
    destruct neg; [|done]. unfold set_last. rewrite length_app. cbn [length].
    replace (length d + 1 - 1)%nat with (length d + 0)%nat by lia. rewrite alter_app_r.
    cbn. by rewrite byte_lor_80 by lia.
Qed.

Lemma from_bytes_nil minimal mx : 0 <= mx -> script_num_from_bytes [] minimal mx = Some 0.
Proof.
  intros. unfold script_num_from_bytes. change (zlen []) with 0. replace (0 >? mx) with false by lia.
  cbn [Z.gtb Z.compare]. rewrite andb_false_r. done.
Qed.

Lemma from_bytes_bound b minimal mx v : bytes_ok b -> 0 <= mx <= 7 ->
  script_num_from_bytes b minimal mx = Some v -> zlen b <= mx /\ - 2 ^ (8 * mx) < 2 * v < 2 ^ (8 * mx).
Proof.
  intros Hok Hmx E. assert (zlen b <= mx) as Hle.
  { unfold script_num_from_bytes in E. case_if; [done|lia]. }
  assert (0 < 2 ^ (8 * mx)) by (apply Z.pow_pos_nonneg; lia).
  split; [done|]. destruct (snoc_case b) as [->|(t & d & ->)].
  { rewrite from_bytes_nil in E by lia. simplify_eq. lia. }
  rewrite zlen_app in Hle. change (zlen [t]) with 1 in Hle.
  rewrite from_bytes_snoc in E by (done || lia). case_if; [done|].
  apply bytes_ok_app in Hok as [Hd Ht]. apply Forall_cons in Ht as [Ht _].
  unfold is_u in Ht; change (2 ^ 8) with 256 in Ht. pose proof (le_decode_range d Hd) as Bd. fold (zlen d) in Bd.
  pose proof (zlen_nonneg d).
  assert (256 ^ (zlen d + 1) <= 2 ^ (8 * mx)) as Hb.
  { rewrite Z.pow_mul_r by lia. apply Z.pow_le_mono_r; lia. }
  rewrite Z.pow_add_r in Hb by lia. change (256 ^ 1) with 256 in Hb.
  destruct (Z.ltb_spec t 128); simplify_eq; nia.
Qed.

Lemma script_num_encode_decode v mx minimal : - 2 ^ 55 < v < 2 ^ 55 ->
  let b := script_num_serialize v SCRIPT_NUM_MAX_SIZE in
  bytes_ok b /\ zlen b <= 7 /\
  (zlen b <= mx <= 7 -> script_num_from_bytes b minimal mx = Some v).
Proof.
  intros Hv. cbv zeta. destruct (decide (v = 0)) as [->|Hnz].
  { cbn. split; [constructor|]. split; [done|]. change (zlen []) with 0.
    intros. apply from_bytes_nil. lia. }
  destruct (magnitude_repr 7 (Z.abs v)) as (d & t & E & Hok & Ht & Hl); [simpl (256 ^ _); lia|].
  assert (zlen d <= 6) as Hld by (unfold zlen; lia). pose proof (zlen_nonneg d).
  apply bytes_ok_app in Hok as Hok'. destruct Hok' as [Hd Ht'].
  apply Forall_cons in Ht' as [Ht' _]. unfold is_u in Ht'; change (2 ^ 8) with 256 in Ht'.
  pose proof (le_decode_range d Hd) as Bd. fold (zlen d) in Bd.
  assert (0 < 256 ^ zlen d) by (apply Z.pow_pos_nonneg; lia).
  pose proof (serialize_repr d t (v <? 0) Hok Ht Hld) as Es. rewrite <- E in Es.
  replace (if v <? 0 then - Z.abs v else Z.abs v) with v in Es by (destruct (Z.ltb_spec v 0); lia).
  rewrite Es. pose proof (le_decode_app d [t]) as Em. fold (zlen d) in Em.
  cbn [le_decode] in Em. rewrite Z.mul_0_r, Z.add_0_r in Em. rewrite <- E in Em.
  destruct (Z.ltb_spec t 128).
  - split; [apply bytes_ok_app; split; [done|]; constructor; [unfold is_u; destruct (v <? 0); lia|constructor]|].
    rewrite zlen_app. change (zlen [_]) with 1. split; [lia|]. intros Hmx.
    rewrite from_bytes_snoc; [|apply bytes_ok_app; split; [done|]; constructor; [unfold is_u; destruct (v <? 0); lia|constructor]|lia].
    destruct (Z.ltb_spec v 0).
    + replace (t + 128 =? 0) with false by lia. replace (t + 128 =? 128) with false by lia.
      rewrite andb_false_r. cbn [andb]. replace (t + 128 <? 128) with false by lia. f_equal. lia.
    + replace (t =? 0) with false by lia. replace (t =? 128) with false by lia.
      rewrite andb_false_r. cbn [andb]. replace (t <? 128) with true by lia. f_equal. lia.
  - assert (zlen d <= 5) as Hld5.
    { assert (zlen d = 6 -> False); [|lia]. intros E6. rewrite E6 in *.
      change (256 ^ 6) with (2 ^ 48) in *. lia. }
    assert (d ++ [t; if v <? 0 then 128 else 0] = (d ++ [t]) ++ [if v <? 0 then 128 else 0]) as Ea
      by (by rewrite <- app_assoc).
    assert (bytes_ok ((d ++ [t]) ++ [if v <? 0 then 128 else 0])) as Hok2.
    { apply bytes_ok_app; split; [done|]. constructor; [unfold is_u; destruct (v <? 0); lia|constructor]. }
    rewrite Ea. split; [done|]. rewrite !zlen_app. change (zlen [_]) with 1. split; [lia|]. intros Hmx.
    rewrite from_bytes_snoc by (rewrite ?zlen_app; done || lia).
    rewrite zlen_app, lookup_last_app. change (zlen [t]) with 1.
    replace (zlen d + 1 =? 0) with false by lia. replace (t <? 128) with false by lia. cbn [orb].
    rewrite andb_false_r. rewrite <- E. destruct (Z.ltb_spec v 0); simpl; f_equal; lia.
Qed.

Lemma script_num_decode_encode b v mx : bytes_ok b -> 0 <= mx <= 7 ->
  script_num_from_bytes b true mx = Some v -> script_num_serialize v SCRIPT_NUM_MAX_SIZE = b.
Proof.
  intros Hok Hmx E. destruct (from_bytes_bound b true mx v Hok Hmx E) as [Hle _].
  destruct (snoc_case b) as [->|(t & d & ->)].
  { rewrite from_bytes_nil in E by lia. by simplify_eq. }
  rewrite zlen_app in Hle. change (zlen [t]) with 1 in Hle. pose proof (zlen_nonneg d).
  rewrite from_bytes_snoc in E by (done || lia). case_if; [done|]. cbn [andb] in Hif.
  apply bytes_ok_app in Hok as Hok'. destruct Hok' as [Hd Ht].
  apply Forall_cons in Ht as [Ht _]. unfold is_u in Ht; change (2 ^ 8) with 256 in Ht.
  destruct (decide (t = 0 \/ t = 128)) as [Htz|Htz].
  - (* a bare sign byte: the magnitude is [d], whose top bit is set *)
    replace ((t =? 0) || (t =? 128)) with true in Hif by lia. cbn [andb] in Hif. zbool.
    destruct (snoc_case d) as [->|(u & d' & ->)]; [done|]. rewrite lookup_last_app in *.
    rewrite zlen_app in *. change (zlen [u]) with 1 in *.
    pose proof (serialize_repr d' u (t =? 128) Hd ltac:(lia) ltac:(lia)) as Es.
    replace (u <? 128) with false in Es by lia. rewrite <- app_assoc.
    replace v with (if t =? 128 then - le_decode (d' ++ [u]) else le_decode (d' ++ [u])).
    + rewrite Es. destruct Htz as [->| ->]; done.
    + destruct Htz as [->| ->]; simpl in *; simplify_eq; lia.
  - assert (bytes_ok (d ++ [if t <? 128 then t else t - 128])) as Hok2.
    { apply bytes_ok_app; split; [done|]. constructor; [unfold is_u; destruct (t <? 128) eqn:?; lia|constructor]. }
    pose proof (serialize_repr d (if t <? 128 then t else t - 128) (negb (t <? 128)) Hok2
      ltac:(destruct (t <? 128) eqn:?; lia) ltac:(lia)) as Es.
    rewrite le_decode_app in Es. fold (zlen d) in Es. cbn [le_decode] in Es.
    rewrite Z.mul_0_r, Z.add_0_r in Es. destruct (Z.ltb_spec t 128); cbn [negb] in Es; simplify_eq.
    + rewrite Es. by replace (t <? 128) with true by lia.
    + rewrite Es. replace (t - 128 <? 128) with true by lia. do 2 f_equal. lia.
Qed.

(** ** Signature-operation counting *)

Lemma sigop_weight_bound flags acc last op : 0 <= sigop_weight flags acc last op <= 20.
Proof. unfold sigop_weight, OP_1, OP_16. repeat case_if; lia. Qed.

Lemma sig_op_loop_bound fuel flags acc n last l : 0 <= n -> n + 20 * Z.of_nat fuel < 2 ^ 32 ->
  n <= sig_op_loop fuel flags acc n last l <= n + 20 * Z.of_nat fuel.
Proof.
  revert n last l; induction fuel as [|fuel IH]; intros n last l Hn Hb; [simpl; lia|].
  cbn [sig_op_loop]. destruct (script_get_op l) as [[[op d] l']|]; [|lia].
  pose proof (sigop_weight_bound flags acc last op).
  rewrite uwrap_small by (unfold is_u; lia).
  specialize (IH (n + sigop_weight flags acc last op) op l' ltac:(lia) ltac:(lia)). lia.
Qed.

Lemma sig_op_loop_accurate fuel flags n m last l :
  0 <= n <= m -> m + 20 * Z.of_nat fuel < 2 ^ 32 ->
  sig_op_loop fuel flags true n last l <= sig_op_loop fuel flags false m last l.
Proof.
  revert n m last l; induction fuel as [|fuel IH]; intros n m last l Hn Hb; [simpl; lia|].
  cbn [sig_op_loop]. destruct (script_get_op l) as [[[op d] l']|]; [|lia].
  pose proof (sigop_weight_bound flags true last op).
  pose proof (sigop_weight_bound flags false last op).
  rewrite !uwrap_small by (unfold is_u; lia).
  apply IH; [|lia].
  assert (sigop_weight flags true last op <= sigop_weight flags false last op); [|lia].
  unfold sigop_weight, OP_1, OP_16 in *. cbn [andb].
  repeat (destruct (_ || _); [lia|]). repeat case_if; lia.
Qed.

(** ** Properties *)

(** script numbers are a bijection between integers and minimal byte
    strings: every value below 2^55 in magnitude is encoded in at most seven bytes that
    decode to it under every size limit that admits them, minimal or not; and whenever
    decoding with the minimality rule on succeeds, re-encoding the number gives back the
    very same bytes. *)
Theorem script_num_bijection :
  (forall v mx minimal, - 2 ^ 55 < v < 2 ^ 55 ->
     let b := script_num_serialize v SCRIPT_NUM_MAX_SIZE in
     bytes_ok b /\ zlen b <= 7 /\
     (zlen b <= mx <= 7 -> script_num_from_bytes b minimal mx = Some v)) /\
  (forall b v mx, bytes_ok b -> 0 <= mx <= 7 ->
     script_num_from_bytes b true mx = Some v ->
     script_num_serialize v SCRIPT_NUM_MAX_SIZE = b).
Proof. split; [apply script_num_encode_decode|apply script_num_decode_encode]. Qed.

(** a data push is read back by the element fetcher: when
    [script_push_data] succeeds on at most 520 bytes the script stays within 10,000
    bytes, is the old script followed by one element, and [script_get_op] at that element
    returns a push opcode, exactly the data, and the position after it, whatever
    follows. *)
Theorem push_data_fetched s data s' :
  script_push_data s data = Some s' -> zlen data <= MAX_SCRIPT_ELEMENT_SIZE ->
  exists e op, s' = s ++ e /\ zlen s' <= MAX_SCRIPT_SIZE /\ op <= OP_PUSHDATA4 /\
    forall rest, script_get_op (e ++ rest) = Some (op, data, rest).
Proof. apply push_data_get_op. Qed.

Lemma push_data_fetched_witness :
  exists s', script_push_data [OP_DUP] (replicate 300 7) = Some s' /\
    exists e op, s' = [OP_DUP] ++ e /\ forall rest, script_get_op (e ++ rest) = Some (op, replicate 300 7, rest).
Proof.
  eexists. split; [reflexivity|].
  destruct (push_data_fetched [OP_DUP] (replicate 300 7) _ eq_refl ltac:(done)) as (e & op & E & _ & _ & F).
  exists e, op. split; [exact E|exact F].
Defined.

(** the inaccurate sigop count never under-counts: on any script within
    the size limit the accurate count is at most the inaccurate one, which is at most
    twenty per byte, and neither 32-bit counter wraps around. *)
Theorem sig_op_count_conservative s flags :
  zlen s <= MAX_SCRIPT_SIZE ->
  0 <= script_get_sig_op_count s flags true <= script_get_sig_op_count s flags false /\
  script_get_sig_op_count s flags false <= 20 * zlen s.
Proof.
  unfold MAX_SCRIPT_SIZE, script_get_sig_op_count. intros Hs. unfold zlen in *.
  pose proof (sig_op_loop_bound (length s) flags true 0 OP_INVALIDOPCODE s ltac:(lia) ltac:(lia)).
  pose proof (sig_op_loop_bound (length s) flags false 0 OP_INVALIDOPCODE s ltac:(lia) ltac:(lia)).
  pose proof (sig_op_loop_accurate (length s) flags 0 0 OP_INVALIDOPCODE s ltac:(lia) ltac:(lia)). lia.
Qed.

Lemma sig_op_count_conservative_witness :
  0 <= script_get_sig_op_count [0x52; OP_CHECKMULTISIG; OP_CHECKSIG] 0 true <= 21 /\
  script_get_sig_op_count [0x52; OP_CHECKMULTISIG; OP_CHECKSIG] 0 true = 3.
Proof.
  destruct (sig_op_count_conservative [0x52; OP_CHECKMULTISIG; OP_CHECKSIG] 0 ltac:(done)) as [H _].
  split; [exact H|vm_compute; reflexivity].
Defined.
