(* ===== verification/ScriptInterp.v ===== *)
(** * The script interpreter

    Models domain/consensus/src/script_interp.c (the opcode loop and verify_script),
    the script stack of lib/script/include/script/interpreter.h and the signature and key
    encoding checks of lib/script/src/sigencoding.c.  The stack is the list of the items
    [items[0]] .. [items[count - 1]], top of the stack last, as in the source.  A C
    execution either ends with a [ScriptError], or reads outside the stack or trips an
    [assert], which the model makes explicit as [VmUndefined].  Hash functions and the
    signature checker are parameters: the checker is a table of caller-supplied function
    pointers (each may be NULL).  Allocation of the two stacks is assumed to succeed. *)

From S2P Require Import Prelude Hash Script.

(** ** Errors, environment, state *)

Inductive ScriptError :=
  | SCRIPT_ERR_UNKNOWN_ERROR | SCRIPT_ERR_EVAL_FALSE | SCRIPT_ERR_OP_RETURN
  | SCRIPT_ERR_SCRIPT_SIZE | SCRIPT_ERR_PUSH_SIZE | SCRIPT_ERR_OP_COUNT | SCRIPT_ERR_STACK_SIZE
  | SCRIPT_ERR_SIG_COUNT | SCRIPT_ERR_PUBKEY_COUNT | SCRIPT_ERR_VERIFY | SCRIPT_ERR_EQUALVERIFY
  | SCRIPT_ERR_CHECKMULTISIGVERIFY | SCRIPT_ERR_CHECKSIGVERIFY | SCRIPT_ERR_CHECKDATASIGVERIFY
  | SCRIPT_ERR_NUMEQUALVERIFY | SCRIPT_ERR_BAD_OPCODE | SCRIPT_ERR_DISABLED_OPCODE
  | SCRIPT_ERR_INVALID_STACK_OPERATION | SCRIPT_ERR_INVALID_ALTSTACK_OPERATION
  | SCRIPT_ERR_UNBALANCED_CONDITIONAL | SCRIPT_ERR_NEGATIVE_LOCKTIME
  | SCRIPT_ERR_UNSATISFIED_LOCKTIME | SCRIPT_ERR_SIG_HASHTYPE | SCRIPT_ERR_SIG_DER
  | SCRIPT_ERR_MINIMALDATA | SCRIPT_ERR_SIG_PUSHONLY | SCRIPT_ERR_SIG_HIGH_S
  | SCRIPT_ERR_SIG_NULLDUMMY | SCRIPT_ERR_PUBKEYTYPE | SCRIPT_ERR_CLEANSTACK
  | SCRIPT_ERR_SIG_NULLFAIL | SCRIPT_ERR_DISCOURAGE_UPGRADABLE_NOPS.

Inductive vm_fault :=
  | VmError (e : ScriptError)
  | VmUndefined.

Abbreviation vm_result := (result vm_fault).

Definition set_script_error {A} (e : ScriptError) : vm_result A := Err (VmError e).

(** [struct sig_checker]; [None] is a NULL callback.  [pubkey_check_low_s] belongs
    to the elliptic-curve library. *)
Record sig_checker := SigChecker {
  check_sig : option (bytes -> bytes -> script -> Z -> bool);
  check_lock_time : option (Z -> bool);
  verify_signature : option (bytes -> bytes -> bytes -> bool);
  pubkey_check_low_s : bytes -> bool;
}.

Definition MAX_STACK_ITEMS : Z := 1000.

Abbreviation stack := (list bytes).

(** The locals of the interpreter loop. *)
Record vm := Vm {
  vm_stack : stack;
  vm_alt : stack;
  vm_exec : list bool;
  vm_nop : Z;
}.

Definition with_stack (st : vm) (s : stack) : vm :=
  {| vm_stack := s; vm_alt := vm_alt st; vm_exec := vm_exec st; vm_nop := vm_nop st |}.

Definition with_exec (st : vm) (e : list bool) : vm :=
  {| vm_stack := vm_stack st; vm_alt := vm_alt st; vm_exec := e; vm_nop := vm_nop st |}.

(** ** The stack (interpreter.h) *)

Definition stack_push (s : stack) (d : bytes) : option stack :=
  if (zlen s >=? MAX_STACK_ITEMS) || (zlen d >? MAX_SCRIPT_ELEMENT_SIZE) then None else Some (s ++ [d]).

(** [&s->items[(int)s->count + i]] *)
Definition stack_top (s : stack) (i : Z) : vm_result bytes :=
  let k := zlen s + i in
  if k <? 0 then Err VmUndefined
  else match s !! Z.to_nat k with Some d => Ok d | None => Err VmUndefined end.

Definition stack_pop (s : stack) : stack := take (length s - 1) s.

Definition stack_erase_at (s : stack) (idx : Z) : stack :=
  if idx >=? zlen s then s else take (Z.to_nat idx) s ++ drop (Z.to_nat idx + 1) s.

Definition stack_erase_range (s : stack) (from to : Z) : stack :=
  if (from >? to) || (to >? zlen s) then s else take (Z.to_nat from) s ++ drop (Z.to_nat to) s.

Definition stack_insert_at (s : stack) (idx : Z) (item : bytes) : option stack :=
  if (zlen s >=? MAX_STACK_ITEMS) || (idx >? zlen s) then None
  else Some (take (Z.to_nat idx) s ++ item :: drop (Z.to_nat idx) s).

(** [stack_swap_items(stack_top(s, i), stack_top(s, j))] *)
Definition stack_swap_tops (s : stack) (i j : Z) : vm_result stack :=
  a ← stack_top s i;
  b ← stack_top s j;
  Ok (<[Z.to_nat (zlen s + j) := a]> (<[Z.to_nat (zlen s + i) := b]> s)).

Fixpoint cast_to_bool (d : bytes) : bool :=
  match d with
  | [] => false
  | b :: d' =>
      if negb (b =? 0) then negb ((match d' with [] => true | _ => false end) && (b =? 0x80))
      else cast_to_bool d'
  end.

Definition PUSH_OR_FAIL (s : stack) (d : bytes) : vm_result stack :=
  match stack_push s d with Some s' => Ok s' | None => set_script_error SCRIPT_ERR_STACK_SIZE end.

Definition INSERT_OR_FAIL (s : stack) (idx : Z) (d : bytes) : vm_result stack :=
  match stack_insert_at s idx d with Some s' => Ok s' | None => set_script_error SCRIPT_ERR_STACK_SIZE end.

(** [sn_serialize_push] with its error *)
Definition SN_PUSH_OR_FAIL (s : stack) (n : Z) : vm_result stack :=
  PUSH_OR_FAIL s (script_num_serialize n SCRIPT_NUM_MAX_SIZE).

Definition push_bool (s : stack) (b : bool) : vm_result stack :=
  PUSH_OR_FAIL s (if b then [1] else []).

(** [if (stack->count < n) return set_script_error(...)] *)
Definition need (n : Z) (s : stack) (e : ScriptError) : vm_result unit :=
  ensure (negb (zlen s <? n)) (VmError e).

(** ** Encoding checks (sigencoding.c) *)

(** Reading [sig[i]]; out of range is undefined. *)
Definition byte_at (d : bytes) (i : Z) : vm_result Z :=
  if i <? 0 then Err VmUndefined
  else match d !! Z.to_nat i with Some b => Ok b | None => Err VmUndefined end.

Definition is_valid_signature_encoding (sig : bytes) : vm_result bool :=
  let len := zlen sig in
  if (len <? 8) || (len >? 72) then Ok false
  else
    s0 ← byte_at sig 0;
    if negb (s0 =? 0x30) then Ok false else
    s1 ← byte_at sig 1;
    if negb (s1 =? len - 2) then Ok false else
    s2 ← byte_at sig 2;
    if negb (s2 =? 0x02) then Ok false else
    lenR ← byte_at sig 3;
    if lenR =? 0 then Ok false else
    s4 ← byte_at sig 4;
    if negb (s4 .& 0x80 =? 0) then Ok false else
    if lenR >? len - 7 then Ok false else
    s5 ← byte_at sig 5;
    if (lenR >? 1) && (s4 =? 0x00) && (s5 .& 0x80 =? 0) then Ok false else
    let startS := lenR + 4 in
    m ← byte_at sig startS;
    if negb (m =? 0x02) then Ok false else
    lenS ← byte_at sig (startS + 1);
    if lenS =? 0 then Ok false else
    t ← byte_at sig (startS + 2);
    if negb (t .& 0x80 =? 0) then Ok false else
    if negb (startS + lenS + 2 =? len) then Ok false else
    if (lenS >? 1) && (t =? 0x00) then
      t3 ← byte_at sig (startS + 3);
      Ok (negb (t3 .& 0x80 =? 0))
    else Ok true.

Definition sighash_is_defined (raw : Z) : bool :=
  let base := raw .& u32 (Z.lnot 0x80) in (base >=? 1) && (base <=? 3).

(** Script instructions: the cases of the interpreter's [switch]. *)
Inductive unop := U_1ADD | U_1SUB | U_NEGATE | U_ABS | U_NOT | U_0NOTEQUAL.

Inductive binop :=
  | B_ADD | B_SUB | B_BOOLAND | B_BOOLOR | B_NUMEQUAL | B_NUMEQUALVERIFY | B_NUMNOTEQUAL
  | B_LESSTHAN | B_GREATERTHAN | B_LESSTHANOREQUAL | B_GREATERTHANOREQUAL | B_MIN | B_MAX.

Inductive hashop := H_RIPEMD160 | H_SHA1 | H_SHA256 | H_HASH160 | H_HASH256.

Inductive instr :=
  | I_N (n : Z) | I_NOP | I_CHECKLOCKTIMEVERIFY | I_NOPx | I_IF (notif : bool) | I_ELSE | I_ENDIF
  | I_VERIFY | I_RETURN | I_TOALTSTACK | I_FROMALTSTACK | I_2DROP | I_2DUP | I_3DUP | I_2OVER
  | I_2ROT | I_2SWAP | I_IFDUP | I_DEPTH | I_DROP | I_DUP | I_NIP | I_OVER | I_PICK (roll : bool)
  | I_ROT | I_SWAP | I_TUCK | I_SIZE | I_EQUAL (verify : bool) | I_UNARY (u : unop)
  | I_BINARY (b : binop) | I_WITHIN | I_HASH (h : hashop) | I_CHECKSIG (verify : bool)
  | I_CHECKDATASIG (verify : bool) | I_CHECKMULTISIG (verify : bool) | I_BAD.

Definition decode_instr (op : Z) : instr :=
  if (op =? OP_1NEGATE) || ((OP_1 <=? op) && (op <=? OP_16)) then I_N (op - (OP_1 - 1))
  else match op with
  | 0x61 => I_NOP | 0xb1 => I_CHECKLOCKTIMEVERIFY
  | 0xb0 | 0xb2 | 0xb3 | 0xb4 | 0xb5 | 0xb6 | 0xb7 | 0xb8 | 0xb9 => I_NOPx
  | 0x63 => I_IF false | 0x64 => I_IF true | 0x67 => I_ELSE | 0x68 => I_ENDIF
  | 0x69 => I_VERIFY | 0x6a => I_RETURN | 0x6b => I_TOALTSTACK | 0x6c => I_FROMALTSTACK
  | 0x6d => I_2DROP | 0x6e => I_2DUP | 0x6f => I_3DUP | 0x70 => I_2OVER | 0x71 => I_2ROT
  | 0x72 => I_2SWAP | 0x73 => I_IFDUP | 0x74 => I_DEPTH | 0x75 => I_DROP | 0x76 => I_DUP
  | 0x77 => I_NIP | 0x78 => I_OVER | 0x79 => I_PICK false | 0x7a => I_PICK true | 0x7b => I_ROT
  | 0x7c => I_SWAP | 0x7d => I_TUCK | 0x82 => I_SIZE | 0x87 => I_EQUAL false | 0x88 => I_EQUAL true
  | 0x8b => I_UNARY U_1ADD | 0x8c => I_UNARY U_1SUB | 0x8f => I_UNARY U_NEGATE | 0x90 => I_UNARY U_ABS
  | 0x91 => I_UNARY U_NOT | 0x92 => I_UNARY U_0NOTEQUAL
  | 0x93 => I_BINARY B_ADD | 0x94 => I_BINARY B_SUB | 0x9a => I_BINARY B_BOOLAND
  | 0x9b => I_BINARY B_BOOLOR | 0x9c => I_BINARY B_NUMEQUAL | 0x9d => I_BINARY B_NUMEQUALVERIFY
  | 0x9e => I_BINARY B_NUMNOTEQUAL | 0x9f => I_BINARY B_LESSTHAN | 0xa0 => I_BINARY B_GREATERTHAN
  | 0xa1 => I_BINARY B_LESSTHANOREQUAL | 0xa2 => I_BINARY B_GREATERTHANOREQUAL
  | 0xa3 => I_BINARY B_MIN | 0xa4 => I_BINARY B_MAX | 0xa5 => I_WITHIN
  | 0xa6 => I_HASH H_RIPEMD160 | 0xa7 => I_HASH H_SHA1 | 0xa8 => I_HASH H_SHA256
  | 0xa9 => I_HASH H_HASH160 | 0xaa => I_HASH H_HASH256
  | 0xac => I_CHECKSIG false | 0xad => I_CHECKSIG true
  | 0xae => I_CHECKMULTISIG false | 0xaf => I_CHECKMULTISIG true
  | 0xba => I_CHECKDATASIG false | 0xbb => I_CHECKDATASIG true
  | _ => I_BAD
  end.

(** OP_CAT, OP_SUBSTR, OP_LEFT, OP_RIGHT, OP_INVERT, OP_AND, OP_OR, OP_XOR, OP_2MUL,
    OP_2DIV, OP_MUL, OP_DIV, OP_MOD, OP_LSHIFT, OP_RSHIFT, OP_CODESEPARATOR *)
Definition disabled_opcodes : list Z :=
  [0x7e; 0x7f; 0x80; 0x81; 0x83; 0x84; 0x85; 0x86; 0x8d; 0x8e; 0x95; 0x96; 0x97; 0x98; 0x99; 0xab].

Definition is_disabled (op : Z) : bool := existsb (Z.eqb op) disabled_opcodes.

Definition check_minimal_push (data : bytes) (opcode : Z) : bool :=
  let len := zlen data in
  let b := data !!! 0%nat in
  if len =? 0 then opcode =? OP_0
  else if (len =? 1) && (b >=? 1) && (b <=? 16) then opcode =? OP_1 + (b - 1)
  else if (len =? 1) && (b =? 0x81) then opcode =? OP_1NEGATE
  else if len <=? 75 then opcode =? len
  else if len <=? 255 then opcode =? OP_PUSHDATA1
  else if len <=? 65535 then opcode =? OP_PUSHDATA2
  else true.

(** ** The interpreter *)

Section Interp.
Context `{HashFunctions}.
Variable checker : sig_checker.
Variable branch_id : Z.
Variable flags : Z.

Definition fRequireMinimal : bool := has_flag flags SCRIPT_VERIFY_MINIMALDATA.

Definition check_raw_signature_encoding (sig : bytes) : vm_result unit :=
  valid ← is_valid_signature_encoding sig;
  if negb valid then set_script_error SCRIPT_ERR_SIG_DER
  else if has_flag flags SCRIPT_VERIFY_LOW_S && negb (pubkey_check_low_s checker sig)
  then set_script_error SCRIPT_ERR_SIG_HIGH_S
  else Ok tt.

Definition check_data_signature_encoding (sig : bytes) : vm_result unit :=
  if zlen sig =? 0 then Ok tt else check_raw_signature_encoding sig.

Definition check_transaction_signature_encoding (sig : bytes) : vm_result unit :=
  if zlen sig =? 0 then Ok tt
  else
    check_raw_signature_encoding (take (length sig - 1) sig);;
    if has_flag flags SCRIPT_VERIFY_STRICTENC &&
       negb (sighash_is_defined (sig !!! (length sig - 1)%nat))
    then set_script_error SCRIPT_ERR_SIG_HASHTYPE
    else Ok tt.

Definition check_pubkey_encoding (pubkey : bytes) : vm_result unit :=
  let len := zlen pubkey in
  let b := pubkey !!! 0%nat in
  if has_flag flags SCRIPT_VERIFY_STRICTENC then
    if len =? 33 then
      if negb (b =? 0x02) && negb (b =? 0x03) then set_script_error SCRIPT_ERR_PUBKEYTYPE else Ok tt
    else if len =? 65 then
      if negb (b =? 0x04) then set_script_error SCRIPT_ERR_PUBKEYTYPE else Ok tt
    else set_script_error SCRIPT_ERR_PUBKEYTYPE
  else Ok tt.

(** [SN_FROM_TOP_N] *)
Definition SN_FROM_TOP (s : stack) (i max_size : Z) : vm_result Z :=
  d ← stack_top s i;
  match script_num_from_bytes d fRequireMinimal max_size with
  | Some v => Ok v
  | None => set_script_error SCRIPT_ERR_UNKNOWN_ERROR
  end.

Definition op_checklocktimeverify (s : stack) : vm_result unit :=
  if negb (has_flag flags SCRIPT_VERIFY_CHECKLOCKTIMEVERIFY) then
    if has_flag flags SCRIPT_VERIFY_DISCOURAGE_UPGRADABLE_NOPS
    then set_script_error SCRIPT_ERR_DISCOURAGE_UPGRADABLE_NOPS else Ok tt
  else
    need 1 s SCRIPT_ERR_INVALID_STACK_OPERATION;;
    nLockTime ← SN_FROM_TOP s (-1) 5;
    if nLockTime <? 0 then set_script_error SCRIPT_ERR_NEGATIVE_LOCKTIME
    else match check_lock_time checker with
    | Some f => if negb (f nLockTime) then set_script_error SCRIPT_ERR_UNSATISFIED_LOCKTIME else Ok tt
    | None => Ok tt
    end.

Definition op_nop_reserved : vm_result unit :=
  if has_flag flags SCRIPT_VERIFY_DISCOURAGE_UPGRADABLE_NOPS
  then set_script_error SCRIPT_ERR_DISCOURAGE_UPGRADABLE_NOPS else Ok tt.

Definition op_if (fExec notif : bool) (st : vm) : vm_result vm :=
  '(fValue, s) ←
    (if fExec then
       need 1 (vm_stack st) SCRIPT_ERR_UNBALANCED_CONDITIONAL;;
       d ← stack_top (vm_stack st) (-1);
       let v := cast_to_bool d in
       Ok (if notif then negb v else v, stack_pop (vm_stack st))
     else Ok (false, vm_stack st));
  if zlen (vm_exec st) >=? MAX_STACK_ITEMS then set_script_error SCRIPT_ERR_STACK_SIZE
  else Ok (with_exec (with_stack st s) (vm_exec st ++ [fValue])).

Definition op_else (st : vm) : vm_result vm :=
  if zlen (vm_exec st) =? 0 then set_script_error SCRIPT_ERR_UNBALANCED_CONDITIONAL
  else Ok (with_exec st (alter negb (length (vm_exec st) - 1)%nat (vm_exec st))).

Definition op_endif (st : vm) : vm_result vm :=
  if zlen (vm_exec st) =? 0 then set_script_error SCRIPT_ERR_UNBALANCED_CONDITIONAL
  else Ok (with_exec st (take (length (vm_exec st) - 1) (vm_exec st))).

Definition op_verify (s : stack) : vm_result stack :=
  need 1 s SCRIPT_ERR_INVALID_STACK_OPERATION;;
  d ← stack_top s (-1);
  if cast_to_bool d then Ok (stack_pop s) else set_script_error SCRIPT_ERR_VERIFY.

Definition op_toaltstack (st : vm) : vm_result vm :=
  need 1 (vm_stack st) SCRIPT_ERR_INVALID_STACK_OPERATION;;
  d ← stack_top (vm_stack st) (-1);
  a ← PUSH_OR_FAIL (vm_alt st) d;
  Ok {| vm_stack := stack_pop (vm_stack st); vm_alt := a; vm_exec := vm_exec st; vm_nop := vm_nop st |}.

Definition op_fromaltstack (st : vm) : vm_result vm :=
  need 1 (vm_alt st) SCRIPT_ERR_INVALID_ALTSTACK_OPERATION;;
  d ← stack_top (vm_alt st) (-1);
  s ← PUSH_OR_FAIL (vm_stack st) d;
  Ok {| vm_stack := s; vm_alt := stack_pop (vm_alt st); vm_exec := vm_exec st; vm_nop := vm_nop st |}.

Definition op_2drop (s : stack) : vm_result stack :=
  need 2 s SCRIPT_ERR_INVALID_STACK_OPERATION;; Ok (stack_pop (stack_pop s)).

Definition op_2dup (s : stack) : vm_result stack :=
  need 2 s SCRIPT_ERR_INVALID_STACK_OPERATION;;
  v1 ← stack_top s (-2); v2 ← stack_top s (-1);
  s1 ← PUSH_OR_FAIL s v1; PUSH_OR_FAIL s1 v2.

Definition op_3dup (s : stack) : vm_result stack :=
  need 3 s SCRIPT_ERR_INVALID_STACK_OPERATION;;
  v1 ← stack_top s (-3); v2 ← stack_top s (-2); v3 ← stack_top s (-1);
  s1 ← PUSH_OR_FAIL s v1; s2 ← PUSH_OR_FAIL s1 v2; PUSH_OR_FAIL s2 v3.

Definition op_2over (s : stack) : vm_result stack :=
  need 4 s SCRIPT_ERR_INVALID_STACK_OPERATION;;
  v1 ← stack_top s (-4); v2 ← stack_top s (-3);
  s1 ← PUSH_OR_FAIL s v1; PUSH_OR_FAIL s1 v2.

Definition op_2rot (s : stack) : vm_result stack :=
  need 6 s SCRIPT_ERR_INVALID_STACK_OPERATION;;
  v1 ← stack_top s (-6); v2 ← stack_top s (-5);
  let s0 := stack_erase_range s (zlen s - 6) (zlen s - 4) in
  s1 ← PUSH_OR_FAIL s0 v1; PUSH_OR_FAIL s1 v2.

Definition op_2swap (s : stack) : vm_result stack :=
  need 4 s SCRIPT_ERR_INVALID_STACK_OPERATION;;
  s1 ← stack_swap_tops s (-4) (-2); stack_swap_tops s1 (-3) (-1).

Definition op_ifdup (s : stack) : vm_result stack :=
  need 1 s SCRIPT_ERR_INVALID_STACK_OPERATION;;
  v ← stack_top s (-1);
  if cast_to_bool v then PUSH_OR_FAIL s v else Ok s.

Definition op_depth (s : stack) : vm_result stack := SN_PUSH_OR_FAIL s (zlen s).

Definition op_drop (s : stack) : vm_result stack :=
  need 1 s SCRIPT_ERR_INVALID_STACK_OPERATION;; Ok (stack_pop s).

Definition op_dup (s : stack) : vm_result stack :=
  need 1 s SCRIPT_ERR_INVALID_STACK_OPERATION;; v ← stack_top s (-1); PUSH_OR_FAIL s v.

Definition op_nip (s : stack) : vm_result stack :=
  need 2 s SCRIPT_ERR_INVALID_STACK_OPERATION;; Ok (stack_erase_at s (zlen s - 2)).

Definition op_over (s : stack) : vm_result stack :=
  need 2 s SCRIPT_ERR_INVALID_STACK_OPERATION;; v ← stack_top s (-2); PUSH_OR_FAIL s v.

Definition op_pick_roll (roll : bool) (s : stack) : vm_result stack :=
  need 2 s SCRIPT_ERR_INVALID_STACK_OPERATION;;
  bn ← SN_FROM_TOP s (-1) SCRIPT_NUM_DEFAULT_MAX_SIZE;
  let n := script_num_get_int bn in
  let s1 := stack_pop s in
  if (n <? 0) || (n >=? zlen s1) then set_script_error SCRIPT_ERR_INVALID_STACK_OPERATION
  else
    v ← stack_top s1 (- n - 1);
    let s2 := if roll then stack_erase_at s1 (zlen s1 - n - 1) else s1 in
    PUSH_OR_FAIL s2 v.

Definition op_rot (s : stack) : vm_result stack :=
  need 3 s SCRIPT_ERR_INVALID_STACK_OPERATION;;
  s1 ← stack_swap_tops s (-3) (-2); stack_swap_tops s1 (-2) (-1).

Definition op_swap (s : stack) : vm_result stack :=
  need 2 s SCRIPT_ERR_INVALID_STACK_OPERATION;; stack_swap_tops s (-2) (-1).

Definition op_tuck (s : stack) : vm_result stack :=
  need 2 s SCRIPT_ERR_INVALID_STACK_OPERATION;;
  v ← stack_top s (-1); INSERT_OR_FAIL s (zlen s - 2) v.

Definition op_size (s : stack) : vm_result stack :=
  need 1 s SCRIPT_ERR_INVALID_STACK_OPERATION;;
  v ← stack_top s (-1); SN_PUSH_OR_FAIL s (zlen v).

Definition op_equal (verify : bool) (s : stack) : vm_result stack :=
  need 2 s SCRIPT_ERR_INVALID_STACK_OPERATION;;
  v1 ← stack_top s (-2); v2 ← stack_top s (-1);
  let fEqual := bool_decide (v1 = v2) in
  s1 ← push_bool (stack_pop (stack_pop s)) fEqual;
  if verify then
    if fEqual then Ok (stack_pop s1) else set_script_error SCRIPT_ERR_EQUALVERIFY
  else Ok s1.

Definition unop_value (u : unop) (v : Z) : Z :=
  match u with
  | U_1ADD => v + 1
  | U_1SUB => v - 1
  | U_NEGATE => - v
  | U_ABS => if v <? 0 then - v else v
  | U_NOT => Z.b2z (v =? 0)
  | U_0NOTEQUAL => Z.b2z (negb (v =? 0))
  end.

Definition op_unary (u : unop) (s : stack) : vm_result stack :=
  need 1 s SCRIPT_ERR_INVALID_STACK_OPERATION;;
  bn ← SN_FROM_TOP s (-1) SCRIPT_NUM_DEFAULT_MAX_SIZE;
  SN_PUSH_OR_FAIL (stack_pop s) (unop_value u bn).

Definition binop_value (b : binop) (v1 v2 : Z) : Z :=
  match b with
  | B_ADD => v1 + v2
  | B_SUB => v1 - v2
  | B_BOOLAND => Z.b2z (negb (v1 =? 0) && negb (v2 =? 0))
  | B_BOOLOR => Z.b2z (negb (v1 =? 0) || negb (v2 =? 0))
  | B_NUMEQUAL | B_NUMEQUALVERIFY => Z.b2z (v1 =? v2)
  | B_NUMNOTEQUAL => Z.b2z (negb (v1 =? v2))
  | B_LESSTHAN => Z.b2z (v1 <? v2)
  | B_GREATERTHAN => Z.b2z (v1 >? v2)
  | B_LESSTHANOREQUAL => Z.b2z (v1 <=? v2)
  | B_GREATERTHANOREQUAL => Z.b2z (v1 >=? v2)
  | B_MIN => if v1 <? v2 then v1 else v2
  | B_MAX => if v1 >? v2 then v1 else v2
  end.

Definition op_binary (b : binop) (s : stack) : vm_result stack :=
  need 2 s SCRIPT_ERR_INVALID_STACK_OPERATION;;
  bn1 ← SN_FROM_TOP s (-2) SCRIPT_NUM_DEFAULT_MAX_SIZE;
  bn2 ← SN_FROM_TOP s (-1) SCRIPT_NUM_DEFAULT_MAX_SIZE;
  s1 ← SN_PUSH_OR_FAIL (stack_pop (stack_pop s)) (binop_value b bn1 bn2);
  match b with
  | B_NUMEQUALVERIFY =>
      d ← stack_top s1 (-1);
      if cast_to_bool d then Ok (stack_pop s1) else set_script_error SCRIPT_ERR_NUMEQUALVERIFY
  | _ => Ok s1
  end.

Definition op_within (s : stack) : vm_result stack :=
  need 3 s SCRIPT_ERR_INVALID_STACK_OPERATION;;
  bn1 ← SN_FROM_TOP s (-3) SCRIPT_NUM_DEFAULT_MAX_SIZE;
  bn2 ← SN_FROM_TOP s (-2) SCRIPT_NUM_DEFAULT_MAX_SIZE;
  bn3 ← SN_FROM_TOP s (-1) SCRIPT_NUM_DEFAULT_MAX_SIZE;
  push_bool (stack_pop (stack_pop (stack_pop s))) ((bn2 <=? bn1) && (bn1 <? bn3)).

Definition hash_value (h : hashop) (d : bytes) : bytes :=
  match h with
  | H_RIPEMD160 => h_ripemd160 d
  | H_SHA1 => h_sha1 d
  | H_SHA256 => h_sha256 d
  | H_HASH160 => h_hash160 d
  | H_HASH256 => h_hash256 d
  end.

Definition op_hash (h : hashop) (s : stack) : vm_result stack :=
  need 1 s SCRIPT_ERR_INVALID_STACK_OPERATION;;
  d ← stack_top s (-1); PUSH_OR_FAIL (stack_pop s) (hash_value h d).

Variable code : script.

(** [checker && checker->check_sig && checker->check_sig(...)] *)
Definition run_check_sig (sig pk : bytes) : bool :=
  match check_sig checker with Some f => f sig pk code branch_id | None => false end.

(** The final pop of the [...VERIFY] variants. *)
Definition verify_result (verify fSuccess : bool) (s : stack) (e : ScriptError) : vm_result stack :=
  if verify then if fSuccess then Ok (stack_pop s) else set_script_error e else Ok s.

Definition op_checksig (verify : bool) (s : stack) : vm_result stack :=
  need 2 s SCRIPT_ERR_INVALID_STACK_OPERATION;;
  sig ← stack_top s (-2); pk ← stack_top s (-1);
  check_transaction_signature_encoding sig;;
  check_pubkey_encoding pk;;
  let fSuccess := run_check_sig sig pk in
  if negb fSuccess && has_flag flags SCRIPT_VERIFY_NULLFAIL && (zlen sig >? 0)
  then set_script_error SCRIPT_ERR_SIG_NULLFAIL
  else
    s1 ← push_bool (stack_pop (stack_pop s)) fSuccess;
    verify_result verify fSuccess s1 SCRIPT_ERR_CHECKSIGVERIFY.

Definition op_checkdatasig (verify : bool) (s : stack) : vm_result stack :=
  need 3 s SCRIPT_ERR_INVALID_STACK_OPERATION;;
  sig ← stack_top s (-3); msg ← stack_top s (-2); pk ← stack_top s (-1);
  check_data_signature_encoding sig;;
  check_pubkey_encoding pk;;
  let fSuccess :=
    (zlen sig >? 0) &&
    match verify_signature checker with Some f => f sig pk (h_sha256 msg) | None => false end in
  if negb fSuccess && has_flag flags SCRIPT_VERIFY_NULLFAIL && (zlen sig >? 0)
  then set_script_error SCRIPT_ERR_SIG_NULLFAIL
  else
    s1 ← push_bool (stack_pop (stack_pop (stack_pop s))) fSuccess;
    verify_result verify fSuccess s1 SCRIPT_ERR_CHECKDATASIGVERIFY.

(** [while (fSuccess && nSigsCount > 0)]; every iteration consumes a key. *)
Fixpoint multisig_loop (fuel : nat) (s : stack) (isig ikey nSigs nKeys : Z) : vm_result bool :=
  match fuel with
  | O => Err VmUndefined
  | S fuel' =>
      if nSigs >? 0 then
        sig ← stack_top s (- isig); pk ← stack_top s (- ikey);
        check_transaction_signature_encoding sig;;
        check_pubkey_encoding pk;;
        let fOk := run_check_sig sig pk in
        let isig' := if fOk then isig + 1 else isig in
        let nSigs' := if fOk then nSigs - 1 else nSigs in
        if nSigs' >? nKeys - 1 then Ok false
        else multisig_loop fuel' s isig' (ikey + 1) nSigs' (nKeys - 1)
      else Ok true
  end.

(** [while (i-- > 1)]: [n] items are popped; [ikey2] reaches 0 when the signatures
    are on top. *)
Fixpoint multisig_pop (n : nat) (fSuccess : bool) (ikey2 : Z) (s : stack) : vm_result stack :=
  match n with
  | O => Ok s
  | S n' =>
      (if negb fSuccess && has_flag flags SCRIPT_VERIFY_NULLFAIL && (ikey2 =? 0) then
         d ← stack_top s (-1);
         if zlen d >? 0 then set_script_error SCRIPT_ERR_SIG_NULLFAIL else Ok tt
       else Ok tt);;
      multisig_pop n' fSuccess (if ikey2 >? 0 then ikey2 - 1 else ikey2) (stack_pop s)
  end.

Definition op_checkmultisig (verify : bool) (st : vm) : vm_result vm :=
  let s := vm_stack st in
  need 1 s SCRIPT_ERR_INVALID_STACK_OPERATION;;
  bnKeys ← SN_FROM_TOP s (-1) SCRIPT_NUM_DEFAULT_MAX_SIZE;
  let nKeys := script_num_get_int bnKeys in
  if (nKeys <? 0) || (nKeys >? 20) then set_script_error SCRIPT_ERR_PUBKEY_COUNT else
  let nop := vm_nop st + nKeys in
  if nop >? 201 then set_script_error SCRIPT_ERR_OP_COUNT else
  let ikey := 2 in
  let ikey2 := nKeys + 2 in
  let i := 2 + nKeys in
  need i s SCRIPT_ERR_INVALID_STACK_OPERATION;;
  bnSigs ← SN_FROM_TOP s (- i) SCRIPT_NUM_DEFAULT_MAX_SIZE;
  let nSigs := script_num_get_int bnSigs in
  if (nSigs <? 0) || (nSigs >? nKeys) then set_script_error SCRIPT_ERR_SIG_COUNT else
  let isig := i + 1 in
  let i := isig + nSigs in
  need i s SCRIPT_ERR_INVALID_STACK_OPERATION;;
  fSuccess ← multisig_loop (S (Z.to_nat nKeys)) s isig ikey nSigs nKeys;
  s1 ← multisig_pop (Z.to_nat (i - 1)) fSuccess ikey2 s;
  need 1 s1 SCRIPT_ERR_INVALID_STACK_OPERATION;;
  dummy ← stack_top s1 (-1);
  if has_flag flags SCRIPT_VERIFY_NULLDUMMY && (zlen dummy >? 0)
  then set_script_error SCRIPT_ERR_SIG_NULLDUMMY
  else
    s2 ← push_bool (stack_pop s1) fSuccess;
    s3 ← verify_result verify fSuccess s2 SCRIPT_ERR_CHECKMULTISIGVERIFY;
    Ok {| vm_stack := s3; vm_alt := vm_alt st; vm_exec := vm_exec st; vm_nop := nop |}.

Definition on_stack (st : vm) (m : vm_result stack) : vm_result vm :=
  s ← m; Ok (with_stack st s).

(** The [switch (opcode)]. *)
Definition exec_instr (fExec : bool) (i : instr) (st : vm) : vm_result vm :=
  let s := vm_stack st in
  match i with
  | I_N n => on_stack st (SN_PUSH_OR_FAIL s n)
  | I_NOP => Ok st
  | I_CHECKLOCKTIMEVERIFY => op_checklocktimeverify s;; Ok st
  | I_NOPx => op_nop_reserved;; Ok st
  | I_IF notif => op_if fExec notif st
  | I_ELSE => op_else st
  | I_ENDIF => op_endif st
  | I_VERIFY => on_stack st (op_verify s)
  | I_RETURN => set_script_error SCRIPT_ERR_OP_RETURN
  | I_TOALTSTACK => op_toaltstack st
  | I_FROMALTSTACK => op_fromaltstack st
  | I_2DROP => on_stack st (op_2drop s)
  | I_2DUP => on_stack st (op_2dup s)
  | I_3DUP => on_stack st (op_3dup s)
  | I_2OVER => on_stack st (op_2over s)
  | I_2ROT => on_stack st (op_2rot s)
  | I_2SWAP => on_stack st (op_2swap s)
  | I_IFDUP => on_stack st (op_ifdup s)
  | I_DEPTH => on_stack st (op_depth s)
  | I_DROP => on_stack st (op_drop s)
  | I_DUP => on_stack st (op_dup s)
  | I_NIP => on_stack st (op_nip s)
  | I_OVER => on_stack st (op_over s)
  | I_PICK roll => on_stack st (op_pick_roll roll s)
  | I_ROT => on_stack st (op_rot s)
  | I_SWAP => on_stack st (op_swap s)
  | I_TUCK => on_stack st (op_tuck s)
  | I_SIZE => on_stack st (op_size s)
  | I_EQUAL verify => on_stack st (op_equal verify s)
  | I_UNARY u => on_stack st (op_unary u s)
  | I_BINARY b => on_stack st (op_binary b s)
  | I_WITHIN => on_stack st (op_within s)
  | I_HASH h => on_stack st (op_hash h s)
  | I_CHECKSIG verify => on_stack st (op_checksig verify s)
  | I_CHECKDATASIG verify => on_stack st (op_checkdatasig verify s)
  | I_CHECKMULTISIG verify => op_checkmultisig verify st
  | I_BAD => set_script_error SCRIPT_ERR_BAD_OPCODE
  end.

Definition count_op (opcode : Z) (st : vm) : vm_result vm :=
  if opcode >? OP_16 then
    if vm_nop st + 1 >? 201 then set_script_error SCRIPT_ERR_OP_COUNT
    else Ok {| vm_stack := vm_stack st; vm_alt := vm_alt st; vm_exec := vm_exec st; vm_nop := vm_nop st + 1 |}
  else Ok st.

(** One iteration of [while (pc < script->size)]. *)
Definition eval_step (st : vm) (pc : script) : vm_result (vm * script) :=
  let fExec := forallb id (vm_exec st) in
  match script_get_op pc with
  | None => set_script_error SCRIPT_ERR_BAD_OPCODE
  | Some (opcode, push_data, pc') =>
      if zlen push_data >? MAX_SCRIPT_ELEMENT_SIZE then set_script_error SCRIPT_ERR_PUSH_SIZE else
      st0 ← count_op opcode st;
      if is_disabled opcode then set_script_error SCRIPT_ERR_DISABLED_OPCODE else
      st1 ←
        (if fExec && (0 <=? opcode) && (opcode <=? OP_PUSHDATA4) then
           if fRequireMinimal && negb (check_minimal_push push_data opcode)
           then set_script_error SCRIPT_ERR_MINIMALDATA
           else on_stack st0 (PUSH_OR_FAIL (vm_stack st0) push_data)
         else if fExec || ((OP_IF <=? opcode) && (opcode <=? OP_ENDIF))
         then exec_instr fExec (decode_instr opcode) st0
         else Ok st0);
      if zlen (vm_stack st1) + zlen (vm_alt st1) >? 1000 then set_script_error SCRIPT_ERR_STACK_SIZE
      else Ok (st1, pc')
  end.

Fixpoint eval_loop (fuel : nat) (st : vm) (pc : script) : vm_result vm :=
  match pc, fuel with
  | [], _ => Ok st
  | _, O => Err VmUndefined
  | _, S fuel' => '(st', pc') ← eval_step st pc; eval_loop fuel' st' pc'
  end.

(** Every iteration consumes at least one byte, so the script's size is enough fuel. *)
Definition domain_consensus_eval_script (s : stack) : vm_result stack :=
  if zlen code >? MAX_SCRIPT_SIZE then set_script_error SCRIPT_ERR_SCRIPT_SIZE
  else
    st ← eval_loop (length code)
           {| vm_stack := s; vm_alt := []; vm_exec := []; vm_nop := 0 |} code;
    if negb (zlen (vm_exec st) =? 0) then set_script_error SCRIPT_ERR_UNBALANCED_CONDITIONAL
    else Ok (vm_stack st).

End Interp.

Definition stack_copy_active (src : stack) : vm_result stack :=
  if zlen src >? MAX_STACK_ITEMS then set_script_error SCRIPT_ERR_UNKNOWN_ERROR else Ok src.

(** [if (stack.count == 0) ...; if (!cast_to_bool(stack_top(&stack, -1))) ...] *)
Definition require_true (s : stack) : vm_result unit :=
  if zlen s =? 0 then set_script_error SCRIPT_ERR_EVAL_FALSE
  else
    d ← stack_top s (-1);
    if negb (cast_to_bool d) then set_script_error SCRIPT_ERR_EVAL_FALSE else Ok tt.

Section Verify.
Context `{HashFunctions}.
Variable checker : sig_checker.
Variable branch_id : Z.
Variable flags : Z.

Abbreviation eval := (domain_consensus_eval_script checker branch_id flags).

(** The BIP16 branch: evaluate the redeem script on the saved stack. *)
Definition eval_p2sh (script_sig : script) (saved : stack) : vm_result stack :=
  if negb (script_is_push_only script_sig) then set_script_error SCRIPT_ERR_SIG_PUSHONLY
  else
    s ← stack_copy_active saved;
    ensure (zlen s >? 0) VmUndefined;;   (* assert(stack.count > 0) *)
    serialized ← stack_top s (-1);
    s' ← eval (script_set serialized) (stack_pop s);
    require_true s';;
    Ok s'.

Definition domain_consensus_verify_script (script_sig script_pub_key : script) : vm_result unit :=
  if has_flag flags SCRIPT_VERIFY_SIGPUSHONLY && negb (script_is_push_only script_sig)
  then set_script_error SCRIPT_ERR_SIG_PUSHONLY
  else
    s1 ← eval script_sig [];
    saved ← (if has_flag flags SCRIPT_VERIFY_P2SH then stack_copy_active s1 else Ok []);
    s2 ← eval script_pub_key s1;
    require_true s2;;
    s3 ← (if has_flag flags SCRIPT_VERIFY_P2SH && script_is_p2sh script_pub_key
          then eval_p2sh script_sig saved else Ok s2);
    if has_flag flags SCRIPT_VERIFY_CLEANSTACK then
      ensure (has_flag flags SCRIPT_VERIFY_P2SH) VmUndefined;;   (* assert *)
      if negb (zlen s3 =? 1) then set_script_error SCRIPT_ERR_CLEANSTACK else Ok tt
    else Ok tt.

End Verify.

(** ** Safety: no execution is undefined *)

Definition item_ok (d : bytes) : Prop := bytes_ok d /\ zlen d <= MAX_SCRIPT_ELEMENT_SIZE.

Definition stack_ok (s : stack) : Prop := zlen s <= MAX_STACK_ITEMS /\ Forall item_ok s.

#[export] Instance item_ok_dec d : Decision (item_ok d).
Proof. unfold item_ok. apply _. Defined.

#[export] Instance stack_ok_dec s : Decision (stack_ok s).
Proof. unfold stack_ok. apply _. Defined.

Definition vm_ok (st : vm) : Prop :=
  stack_ok (vm_stack st) /\ stack_ok (vm_alt st) /\ zlen (vm_exec st) <= MAX_STACK_ITEMS.

(** [m] is defined, and its result satisfies [P]. *)
Definition safe {A} (P : A -> Prop) (m : vm_result A) : Prop :=
  match m with Ok a => P a | Err (VmError _) => True | Err VmUndefined => False end.

Create HintDb vm discriminated.

Lemma safe_ok {A} (P : A -> Prop) a : P a -> safe P (Ok a).
Proof. done. Qed.

Lemma safe_err {A} (P : A -> Prop) e : safe P (@set_script_error A e).
Proof. done. Qed.

Lemma safe_bind {A B} (P : A -> Prop) (Q : B -> Prop) m k :
  safe P m -> (forall a, P a -> safe Q (k a)) -> safe Q (m ≫= k).
Proof. destruct m as [a|[]]; simpl; eauto. Qed.

Lemma safe_mono {A} (P Q : A -> Prop) m : safe P m -> (forall a, P a -> Q a) -> safe Q m.
Proof. destruct m as [a|[]]; simpl; eauto. Qed.

Lemma safe_need {A} n s e (Q : A -> Prop) k :
  (n <= zlen s -> safe Q k) -> safe Q (need n s e;; k).
Proof.
  intros Hk. unfold need, ensure. destruct (Z.ltb_spec (zlen s) n); [done|]. apply Hk. lia.
Qed.

Lemma stack_top_ok s i : - zlen s <= i < 0 ->
  exists d, stack_top s i = Ok d /\ s !! Z.to_nat (zlen s + i) = Some d.
Proof.
  intros Hi. unfold stack_top. replace (zlen s + i <? 0) with false by lia.
  destruct (lookup_lt_is_Some_2 s (Z.to_nat (zlen s + i))) as [d Hd]; [unfold zlen in *; lia|].
  rewrite Hd. eauto.
Qed.

Lemma safe_top s i : stack_ok s -> - zlen s <= i < 0 -> safe item_ok (stack_top s i).
Proof.
  intros [_ Hs] Hi. destruct (stack_top_ok s i Hi) as (d & -> & Hd).
  exact (Forall_lookup_1 _ _ _ _ Hs Hd).
Qed.

Lemma safe_push s d : stack_ok s -> bytes_ok d -> safe stack_ok (PUSH_OR_FAIL s d).
Proof.
  intros [Hl Hs] Hd. unfold PUSH_OR_FAIL, stack_push. destruct (_ || _) eqn:E; [done|].
  split; [rewrite zlen_app; change (zlen [d]) with 1; lia|].
  apply Forall_app. split; [done|]. constructor; [|constructor]. split; [done|lia].
Qed.

Lemma push_eq s d s' : PUSH_OR_FAIL s d = Ok s' -> s' = s ++ [d].
Proof. unfold PUSH_OR_FAIL, stack_push. destruct (_ || _); intros; by simplify_eq/=. Qed.

Lemma num_magnitude_ok fuel m : bytes_ok (num_magnitude fuel m).
Proof.
  revert m; induction fuel as [|fuel IH]; intros m; [constructor|].
  cbn [num_magnitude]. case_if; constructor; [|apply IH]. rewrite land_ff. by apply Z.mod_pos_bound.
Qed.

Lemma script_num_serialize_ok v n : bytes_ok (script_num_serialize v n).
Proof.
  unfold script_num_serialize. cbv zeta. case_if; [constructor|]. case_if; [constructor|].
  set (mag := num_magnitude 8 _). assert (bytes_ok mag) as Hmag by apply num_magnitude_ok.
  destruct (negb (mag !!! _ .& _ =? 0)) eqn:E.
  { apply bytes_ok_app; split; [done|]. constructor; [|constructor]. by destruct (v <? 0). }
  case_if; [|done]. unfold set_last. apply Forall_alter; [done|]. intros b Hlook Hb.
  apply list_lookup_total_correct in Hlook. rewrite Hlook in E.
  unfold is_u in *. change (2 ^ 8) with 256 in *. rewrite byte_land_80 in E by lia.
  rewrite byte_lor_80 by lia. lia.
Qed.

Lemma safe_push_num s n : stack_ok s -> safe stack_ok (SN_PUSH_OR_FAIL s n).
Proof. intros. apply safe_push; [done|apply script_num_serialize_ok]. Qed.

Lemma safe_push_bool s b : stack_ok s -> safe stack_ok (push_bool s b).
Proof. intros. apply safe_push; [done|]. by destruct b; repeat constructor. Qed.

Lemma zlen_pop s : zlen (stack_pop s) = Z.max 0 (zlen s - 1).
Proof. unfold stack_pop, zlen. rewrite length_take. lia. Qed.

Lemma stack_ok_sub s s' : stack_ok s -> zlen s' <= zlen s -> s' ⊆ s -> stack_ok s'.
Proof.
  intros [Hl Hs] Hlen Hsub. split; [lia|]. rewrite Forall_forall in *. auto.
Qed.

Lemma stack_ok_pop s : stack_ok s -> stack_ok (stack_pop s).
Proof.
  intros [Hl Hs]. split; [rewrite zlen_pop; pose proof (zlen_nonneg s); lia|]. by apply Forall_take.
Qed.

Lemma stack_ok_erase_at s i : stack_ok s -> 0 <= i -> stack_ok (stack_erase_at s i).
Proof.
  intros [Hl Hs] Hi. unfold stack_erase_at. case_if; [done|]. split.
  - unfold zlen in *. rewrite length_app, length_take, length_drop. lia.
  - apply Forall_app. split; [by apply Forall_take|by apply Forall_drop].
Qed.

Lemma stack_ok_erase_range s i j : stack_ok s -> 0 <= i -> stack_ok (stack_erase_range s i j).
Proof.
  intros [Hl Hs] Hi. unfold stack_erase_range. case_if; [done|]. split.
  - unfold zlen in *. rewrite length_app, length_take, length_drop. lia.
  - apply Forall_app. split; [by apply Forall_take|by apply Forall_drop].
Qed.

Lemma safe_insert s i d : stack_ok s -> item_ok d -> safe stack_ok (INSERT_OR_FAIL s i d).
Proof.
  intros [Hl Hs] Hd. unfold INSERT_OR_FAIL, stack_insert_at. destruct (_ || _) eqn:E; [done|]. split.
  - unfold zlen, MAX_STACK_ITEMS in *. rewrite length_app, length_take. cbn [length].
    rewrite length_drop. lia.
  - apply Forall_app. split; [by apply Forall_take|]. constructor; [done|by apply Forall_drop].
Qed.

Lemma safe_swap s i j : stack_ok s -> - zlen s <= i < 0 -> - zlen s <= j < 0 ->
  safe (fun s' => stack_ok s' /\ zlen s' = zlen s) (stack_swap_tops s i j).
Proof.
  intros Hs Hi Hj. unfold stack_swap_tops.
  eapply safe_bind; [by apply safe_top|]. intros a Ha.
  eapply safe_bind; [by apply safe_top|]. intros b Hb.
  destruct Hs as [Hl Hs]. cbn. unfold stack_ok, zlen in *. rewrite !length_insert.
  split; [|done]. split; [done|]. apply Forall_insert; [by apply Forall_insert|done].
Qed.

#[export] Hint Resolve safe_ok safe_err safe_push safe_push_num safe_push_bool stack_ok_pop
  stack_ok_erase_at stack_ok_erase_range safe_insert script_num_serialize_ok : vm.

(** Bytes read by the signature parser are in range. *)
Lemma safe_byte_at d i : bytes_ok d -> 0 <= i < zlen d -> safe (fun b => 0 <= b < 256) (byte_at d i).
Proof.
  intros Hd Hi. unfold byte_at. replace (i <? 0) with false by lia.
  destruct (lookup_lt_is_Some_2 d (Z.to_nat i)) as [b Hb]; [unfold zlen in *; lia|].
  rewrite Hb. by eapply bytes_ok_lookup.
Qed.

Lemma safe_signature_encoding sig : bytes_ok sig -> safe (fun _ => True) (is_valid_signature_encoding sig).
Proof.
  intros Hsig. unfold is_valid_signature_encoding. cbv zeta.
  destruct (_ || _) eqn:Hlen; [done|].
  repeat first
    [ apply safe_ok; exact I
    | match goal with |- safe _ (byte_at _ _ ≫= _) =>
        eapply safe_bind; [apply safe_byte_at; [done|lia]|intros ? ?; cbv beta in *] end
    | match goal with |- safe _ (if ?b then _ else _) => destruct b eqn:? end ].
Qed.

Ltac safe_step :=
  lazymatch goal with
  | |- safe _ (need _ _ _ ≫= _) => apply safe_need; intros ?
  | |- safe _ (stack_top _ _ ≫= _) =>
      eapply safe_bind; [apply safe_top; [eauto with vm|rewrite ?zlen_pop; lia]|intros ? ?]
  | |- safe _ (stack_swap_tops _ _ _ ≫= _) =>
      eapply safe_bind; [apply safe_swap; [eauto with vm|lia|lia]|intros ? [? ?]]
  | |- safe _ (_ ≫= _) => eapply safe_bind; [|intros ? ?]
  | |- safe _ (if ?b then _ else _) => destruct b eqn:?
  | |- safe _ (match ?x with _ => _ end) => destruct x eqn:?
  | |- safe _ (Ok _) => apply safe_ok; eauto with vm
  | |- safe _ (set_script_error _) => apply safe_err
  | |- safe _ (let _ := _ in _) => cbv zeta
  end.

Ltac safe_all := repeat safe_step; eauto with vm.

Lemma safe_on_stack st (m : vm_result stack) :
  vm_ok st -> safe stack_ok m -> safe vm_ok (on_stack st m).
Proof.
  intros (Hs & Ha & He) Hm. unfold on_stack. eapply safe_bind; [exact Hm|]. intros s Hok.
  by apply safe_ok.
Qed.

Section Safety.
Context `{HashFunctionsOk}.
Variable checker : sig_checker.
Variable branch_id : Z.
Variable flags : Z.
Variable code : script.

Lemma safe_check_raw sig : bytes_ok sig ->
  safe (fun _ => True) (check_raw_signature_encoding checker flags sig).
Proof.
  intros. unfold check_raw_signature_encoding.
  eapply safe_bind; [by apply safe_signature_encoding|]. intros. safe_all.
Qed.

Lemma safe_check_sig_encoding sig : item_ok sig ->
  safe (fun _ => True) (check_transaction_signature_encoding checker flags sig).
Proof.
  intros [Hb _]. unfold check_transaction_signature_encoding. safe_step; [by apply safe_ok|].
  eapply safe_bind; [apply safe_check_raw; by apply Forall_take|]. intros. by safe_all.
Qed.

Lemma safe_check_data_encoding sig : item_ok sig ->
  safe (fun _ => True) (check_data_signature_encoding checker flags sig).
Proof. intros [Hb _]. unfold check_data_signature_encoding. safe_step; [done|by apply safe_check_raw]. Qed.

Lemma safe_check_pubkey pk : safe (fun _ => True) (check_pubkey_encoding flags pk).
Proof. unfold check_pubkey_encoding. by safe_all. Qed.

Lemma safe_num s i mx : stack_ok s -> - zlen s <= i < 0 ->
  safe (fun _ => True) (SN_FROM_TOP flags s i mx).
Proof. intros. unfold SN_FROM_TOP. by safe_all. Qed.

Lemma safe_num_bind {A} s i mx (Q : A -> Prop) k : stack_ok s -> - zlen s <= i < 0 ->
  (forall v, safe Q (k v)) -> safe Q (SN_FROM_TOP flags s i mx ≫= k).
Proof. intros Hs Hi Hk. eapply safe_bind; [by apply safe_num|auto]. Qed.

Lemma hash_value_ok h d : bytes_ok (hash_value h d).
Proof.
  destruct h; simpl; [apply ripemd160_ok|apply sha1_ok|apply sha256_ok|apply hash160_ok|apply hash256_ok].
Qed.

Lemma safe_multisig_loop fuel s isig ikey nSigs nKeys :
  stack_ok s -> 0 < isig -> 0 < ikey -> isig + nSigs <= zlen s + 1 -> ikey + nKeys <= zlen s + 1 ->
  0 <= nSigs <= nKeys -> nKeys < Z.of_nat fuel ->
  safe (fun _ => True) (multisig_loop checker branch_id flags code fuel s isig ikey nSigs nKeys).
Proof.
  intros Hs. revert isig ikey nSigs nKeys.
  induction fuel as [|fuel IH]; intros isig ikey nSigs nKeys Hi Hk Hi' Hk' Hn Hf; [lia|].
  cbn [multisig_loop]. safe_step; [|done]. do 2 safe_step.
  eapply safe_bind; [by apply safe_check_sig_encoding|]. intros _ _.
  eapply safe_bind; [by apply safe_check_pubkey|]. intros _ _. cbv zeta.
  destruct (run_check_sig _ _ _ _ _); (safe_step; [done|]); apply IH; lia.
Qed.

Lemma safe_multisig_pop n fSuccess ikey2 s : stack_ok s -> Z.of_nat n <= zlen s ->
  safe stack_ok (multisig_pop flags n fSuccess ikey2 s).
Proof.
  revert ikey2 s; induction n as [|n IH]; intros ikey2 s Hs Hn; [done|].
  cbn [multisig_pop]. eapply (safe_bind (fun _ => True)); [by safe_all|]. intros _ _.
  apply IH; [by apply stack_ok_pop|]. rewrite zlen_pop. lia.
Qed.

Lemma safe_verify_result verify b s e : stack_ok s -> safe stack_ok (verify_result verify b s e).
Proof. intros. unfold verify_result. safe_all. Qed.

Lemma safe_checksig verify s : stack_ok s ->
  safe stack_ok (op_checksig checker branch_id flags code verify s).
Proof.
  intros Hs. unfold op_checksig. do 3 safe_step.
  eapply safe_bind; [by apply safe_check_sig_encoding|]. intros _ _.
  eapply safe_bind; [by apply safe_check_pubkey|]. intros _ _.
  cbv zeta. safe_step; [done|]. eapply safe_bind; [by eauto with vm|]. intros. by apply safe_verify_result.
Qed.

Lemma safe_checkdatasig verify s : stack_ok s ->
  safe stack_ok (op_checkdatasig checker flags verify s).
Proof.
  intros Hs. unfold op_checkdatasig. do 4 safe_step.
  eapply safe_bind; [by apply safe_check_data_encoding|]. intros _ _.
  eapply safe_bind; [by apply safe_check_pubkey|]. intros _ _.
  cbv zeta. safe_step; [done|]. eapply safe_bind; [by eauto with vm|]. intros. by apply safe_verify_result.
Qed.

Lemma safe_checkmultisig verify st : vm_ok st ->
  safe vm_ok (op_checkmultisig checker branch_id flags code verify st).
Proof.
  intros (Hs & Ha & He). unfold op_checkmultisig. cbv zeta. safe_step.
  apply safe_num_bind; [done|lia|]. intros nk. safe_step; [done|]. safe_step; [done|]. safe_step.
  apply safe_num_bind; [done|lia|]. intros ns. safe_step; [done|]. safe_step.
  eapply safe_bind; [apply safe_multisig_loop; [done|lia..]|]. intros b _.
  eapply safe_bind; [apply safe_multisig_pop; [done|lia]|]. intros s1 Hs1.
  do 2 safe_step. safe_step; [done|].
  eapply safe_bind; [by eauto with vm|]. intros s2 Hs2.
  eapply safe_bind; [by apply safe_verify_result|]. intros s3 Hs3. done.
Qed.

Lemma safe_stack_ops s : stack_ok s ->
  safe stack_ok (op_verify s) /\ safe stack_ok (op_2drop s) /\ safe stack_ok (op_2dup s) /\
  safe stack_ok (op_3dup s) /\ safe stack_ok (op_2over s) /\ safe stack_ok (op_2rot s) /\
  safe stack_ok (op_2swap s) /\ safe stack_ok (op_ifdup s) /\ safe stack_ok (op_depth s) /\
  safe stack_ok (op_drop s) /\ safe stack_ok (op_dup s) /\ safe stack_ok (op_nip s) /\
  safe stack_ok (op_over s) /\ safe stack_ok (op_rot s) /\ safe stack_ok (op_swap s) /\
  safe stack_ok (op_tuck s) /\ safe stack_ok (op_size s).
Proof.
  intros Hs. split_and!.
  - unfold op_verify. safe_all.
  - unfold op_2drop. safe_all.
  - unfold op_2dup. do 3 safe_step. destruct H2, H3. safe_all.
  - unfold op_3dup. do 4 safe_step. destruct H2, H3, H4. safe_all.
  - unfold op_2over. do 3 safe_step. destruct H2, H3. safe_all.
  - unfold op_2rot. do 3 safe_step. destruct H2, H3. cbv zeta.
    eapply safe_bind; [apply safe_push; [apply stack_ok_erase_range; [done|lia]|done]|]. safe_all.
  - unfold op_2swap. do 2 safe_step. eapply safe_mono; [apply safe_swap; [done|lia|lia]|]. naive_solver.
  - unfold op_ifdup. do 2 safe_step. destruct H2. safe_all.
  - unfold op_depth. safe_all.
  - unfold op_drop. safe_all.
  - unfold op_dup. do 2 safe_step. destruct H2. safe_all.
  - unfold op_nip. safe_step. apply safe_ok, stack_ok_erase_at; [done|lia].
  - unfold op_over. do 2 safe_step. destruct H2. safe_all.
  - unfold op_rot. do 2 safe_step. eapply safe_mono; [apply safe_swap; [done|lia|lia]|]. naive_solver.
  - unfold op_swap. safe_step. eapply safe_mono; [apply safe_swap; [done|lia|lia]|]. naive_solver.
  - unfold op_tuck. do 2 safe_step. by apply safe_insert.
  - unfold op_size. safe_all.
Qed.

Lemma safe_equal verify s : stack_ok s -> safe stack_ok (op_equal verify s).
Proof. intros. unfold op_equal. do 3 safe_step. cbv zeta. safe_all. Qed.

Lemma safe_pick roll s : stack_ok s -> safe stack_ok (op_pick_roll flags roll s).
Proof.
  intros Hs. unfold op_pick_roll. safe_step. apply safe_num_bind; [done|lia|]. intros v. cbv zeta.
  safe_step; [done|]. eapply safe_bind; [apply safe_top; [by apply stack_ok_pop|lia]|]. intros d [Hd _].
  apply safe_push; [|done]. destruct roll; [|by apply stack_ok_pop].
  apply stack_ok_erase_at; [by apply stack_ok_pop|lia].
Qed.

Lemma safe_arith s : stack_ok s ->
  (forall u, safe stack_ok (op_unary flags u s)) /\ (forall b, safe stack_ok (op_binary flags b s)) /\
  safe stack_ok (op_within flags s) /\ (forall h, safe stack_ok (op_hash h s)).
Proof.
  intros Hs. split_and!; [intros u|intros b| |intros h].
  - unfold op_unary. safe_step. apply safe_num_bind; [done|lia|]. intros. safe_all.
  - unfold op_binary. safe_step. do 2 (apply safe_num_bind; [done|lia|]; intros).
    destruct (SN_PUSH_OR_FAIL _ _) as [s1|[]] eqn:E; [|done|].
    + pose proof (safe_push_num _ _ (stack_ok_pop _ (stack_ok_pop _ Hs)) : safe _ (SN_PUSH_OR_FAIL _ (binop_value b v v0))) as Hp.
      rewrite E in Hp. apply push_eq in E. cbn [mbind result_bind] in *.
      destruct b; try exact Hp. eapply safe_bind; [apply safe_top; [exact Hp|]|].
      * rewrite E, zlen_app. change (zlen [_]) with 1. pose proof (zlen_nonneg (stack_pop (stack_pop s))). lia.
      * intros. safe_all.
    + exfalso. pose proof (safe_push_num _ _ (stack_ok_pop _ (stack_ok_pop _ Hs)) : safe _ (SN_PUSH_OR_FAIL _ (binop_value b v v0))) as Hp.
      by rewrite E in Hp.
  - unfold op_within. safe_step. do 3 (apply safe_num_bind; [done|lia|]; intros). safe_all.
  - unfold op_hash. do 2 safe_step. apply safe_push; [by apply stack_ok_pop|apply hash_value_ok].
Qed.

Lemma safe_control st fExec : vm_ok st ->
  (forall notif, safe vm_ok (op_if fExec notif st)) /\ safe vm_ok (op_else st) /\ safe vm_ok (op_endif st) /\
  safe vm_ok (op_toaltstack st) /\ safe vm_ok (op_fromaltstack st).
Proof.
  intros (Hs & Ha & He). split_and!; [intros notif|..].
  - unfold op_if. eapply (safe_bind (fun '(_, s) => stack_ok s)); [safe_all|]. intros [v s] Hok.
    safe_step; [done|]. apply safe_ok. split; [done|]. split; [done|]. cbn [with_exec vm_exec].
    rewrite zlen_app. change (zlen [v]) with 1. lia.
  - unfold op_else. safe_step; [done|]. apply safe_ok. split; [done|]. split; [done|].
    cbn [with_exec vm_exec]. unfold zlen in *. by rewrite length_alter.
  - unfold op_endif. safe_step; [done|]. apply safe_ok. split; [done|]. split; [done|].
    cbn [with_exec vm_exec]. unfold zlen in *. rewrite length_take. lia.
  - unfold op_toaltstack. do 2 safe_step. destruct H2. eapply safe_bind; [by apply safe_push|].
    intros a' Ha'. apply safe_ok. split; [by apply stack_ok_pop|done].
  - unfold op_fromaltstack. do 2 safe_step. destruct H2. eapply safe_bind; [by apply safe_push|].
    intros s' Hs'. apply safe_ok. split; [done|]. split; [by apply stack_ok_pop|done].
Qed.

Lemma safe_exec_instr fExec i st : vm_ok st ->
  safe vm_ok (exec_instr checker branch_id flags code fExec i st).
Proof.
  intros Hst. pose proof Hst as (Hs & _). pose proof (safe_stack_ops _ Hs) as Hops.
  pose proof (safe_arith _ Hs) as (? & ? & ? & ?). pose proof (safe_control st fExec Hst) as (? & ? & ? & ? & ?).
  destruct i; cbn [exec_instr]; try apply safe_on_stack; try done; try apply Hops; auto with vm.
  - eapply (safe_bind (fun _ => True)); [|done]. unfold op_checklocktimeverify.
    safe_step; [by safe_all|]. safe_step. apply safe_num_bind; [done|lia|]. intros. by safe_all.
  - unfold op_nop_reserved. by destruct (has_flag _ _).
  - by apply safe_pick.
  - by apply safe_equal.
  - by apply safe_checksig.
  - by apply safe_checkdatasig.
  - by apply safe_checkmultisig.
Qed.

Lemma safe_eval_step st pc : vm_ok st -> bytes_ok pc ->
  safe (fun '(st', pc') => vm_ok st' /\ zlen (vm_stack st') + zlen (vm_alt st') <= 1000 /\
          bytes_ok pc' /\ (length pc' < length pc)%nat)
       (eval_step checker branch_id flags code st pc).
Proof.
  intros Hst Hpc. unfold eval_step. cbv zeta.
  destruct (script_get_op pc) as [[[op d] pc']|] eqn:E; [|done].
  apply script_get_op_spec in E as (_ & Hlen & Hpc' & Hd & Hdl); [|done].
  safe_step; [done|]. eapply (safe_bind vm_ok).
  { unfold count_op. destruct (op >? OP_16); [destruct (_ >? 201); [done|]|]; exact Hst. }
  intros st0 Hst0. safe_step; [done|]. eapply (safe_bind vm_ok).
  { safe_step; [safe_step; [done|]|].
    - apply safe_on_stack; [done|]. apply safe_push; [apply Hst0|done].
    - safe_step; [by apply safe_exec_instr|done]. }
  intros st1 Hst1. safe_step; [done|]. apply safe_ok. split_and!; [done..|lia|done|done].
Qed.

Lemma safe_eval_loop fuel st pc : vm_ok st -> bytes_ok pc -> (length pc <= fuel)%nat ->
  safe vm_ok (eval_loop checker branch_id flags code fuel st pc).
Proof.
  revert st pc; induction fuel as [|fuel IH]; intros st pc Hst Hpc Hf.
  { destruct pc; [done|]. simpl in Hf. lia. }
  destruct pc as [|b pc]; [done|]. cbn [eval_loop].
  eapply safe_bind; [by apply safe_eval_step|]. intros [st' pc'] (Hst' & _ & Hpc' & Hl).
  apply IH; [done|done|]. simpl in *. lia.
Qed.

Lemma safe_eval s : stack_ok s -> bytes_ok code ->
  safe stack_ok (domain_consensus_eval_script checker branch_id flags code s).
Proof.
  intros Hs Hc. unfold domain_consensus_eval_script. safe_step; [done|].
  eapply safe_bind; [apply safe_eval_loop; [|done|done]|].
  - split; [done|]. split; [|done]. split; [done|constructor].
  - intros st (Hst & _). safe_step; [done|]. by apply safe_ok.
Qed.

End Safety.

(** The [assert] of the BIP16 branch: a P2SH script fails on an empty stack. *)
Lemma p2sh_needs_item `{HashFunctions} checker branch_id flags spk s :
  script_is_p2sh spk = true ->
  domain_consensus_eval_script checker branch_id flags spk [] <> Ok s.
Proof.
  intros Hp. unfold script_is_p2sh in Hp. zbool. destruct spk as [|op spk]; [done|].
  simpl (_ !!! 0%nat) in *. assert (op = OP_HASH160) as -> by lia.
  unfold domain_consensus_eval_script. case_if; [done|]. cbn. intros ?. done.
Qed.

Lemma safe_require_true s : stack_ok s -> safe (fun _ => 0 < zlen s) (require_true s).
Proof.
  intros Hs. unfold require_true. pose proof (zlen_nonneg s). safe_step; [done|].
  eapply safe_bind; [apply safe_top; [done|lia]|]. intros d Hd. safe_step; [done|]. apply safe_ok. lia.
Qed.

Lemma bytes_ok_script_set d : bytes_ok d -> bytes_ok (script_set d).
Proof. intros. unfold script_set. case_if; [by apply Forall_take|done]. Qed.

Section VerifySafety.
Context `{HashFunctionsOk}.
Variable checker : sig_checker.
Variable branch_id : Z.
Variable flags : Z.

Lemma safe_eval_p2sh sig saved : bytes_ok sig -> stack_ok saved -> 0 < zlen saved ->
  safe stack_ok (eval_p2sh checker branch_id flags sig saved).
Proof.
  intros Hsig Hs Hpos. unfold eval_p2sh. safe_step; [done|].
  unfold stack_copy_active. destruct (zlen saved >? MAX_STACK_ITEMS); [done|]. cbn [mbind result_bind].
  unfold ensure. replace (zlen saved >? 0) with true by lia. cbn [mbind result_bind].
  eapply safe_bind; [apply safe_top; [done|lia]|]. intros d [Hd _].
  eapply safe_bind; [apply safe_eval; [by apply stack_ok_pop|by apply bytes_ok_script_set]|]. intros s' Hs'.
  eapply safe_bind; [by apply safe_require_true|]. intros. by apply safe_ok.
Qed.

Lemma safe_verify sig spk : bytes_ok sig -> bytes_ok spk ->
  (has_flag flags SCRIPT_VERIFY_CLEANSTACK = true -> has_flag flags SCRIPT_VERIFY_P2SH = true) ->
  safe (fun _ => True) (domain_consensus_verify_script checker branch_id flags sig spk).
Proof.
  intros Hsig Hspk Hclean. unfold domain_consensus_verify_script. safe_step; [done|].
  eapply safe_bind; [apply safe_eval; [split; [done|constructor]|done]|]. intros s1 Hs1.
  set (P2SH := has_flag flags SCRIPT_VERIFY_P2SH) in *.
  eapply (safe_bind (fun saved => stack_ok saved /\ (P2SH = true -> saved = s1))).
  { destruct P2SH; [|by repeat constructor]. unfold stack_copy_active. safe_step; [done|]. by apply safe_ok. }
  intros saved [Hsaved Eq].
  pose proof (safe_eval checker branch_id flags spk s1 Hs1 Hspk) as Hev.
  destruct (domain_consensus_eval_script checker branch_id flags spk s1) as [s2|[]] eqn:Espk; [|done|done].
  cbn [mbind result_bind safe] in Hev |- *.
  eapply safe_bind; [by apply safe_require_true|]. intros _ _.
  eapply (safe_bind stack_ok).
  { destruct (P2SH && script_is_p2sh spk)%bool eqn:Ep; [|done]. zbool.
    apply safe_eval_p2sh; [done|done|]. rewrite Eq by done. pose proof (zlen_nonneg s1).
    destruct (decide (s1 = [])) as [->|Hne]; [by apply p2sh_needs_item in Espk|].
    destruct s1; [done|]. rewrite zlen_cons in *. pose proof (zlen_nonneg s1). lia. }
  intros s3 Hs3. destruct (has_flag flags SCRIPT_VERIFY_CLEANSTACK) eqn:Ec; [|done].
  rewrite Hclean by done. cbn [mbind result_bind ensure]. by safe_all.
Qed.

End VerifySafety.

(** ** Soft-fork monotonicity: fewer flags accept more *)

(** Whatever [m'] computes, [m] computes. *)
Definition accepts_more {A} (m' m : vm_result A) : Prop := forall a, m' = Ok a -> m = Ok a.

Lemma more_refl {A} (m : vm_result A) : accepts_more m m.
Proof. by intros a. Qed.

Lemma more_err {A} e (m : vm_result A) : accepts_more (set_script_error e) m.
Proof. by intros a. Qed.

Lemma more_bind {A B} (m' m : vm_result A) (k' k : A -> vm_result B) :
  accepts_more m' m -> (forall a, accepts_more (k' a) (k a)) -> accepts_more (m' ≫= k') (m ≫= k).
Proof.
  intros Hm Hk b E. apply bind_ok in E as (a & Ea & Eb). apply bind_ok. exists a.
  split; [by apply Hm|by apply Hk].
Qed.

Definition flags_sub (f f' : Z) : Prop := f .& f' = f.

Lemma flags_sub_has f f' b : flags_sub f f' -> has_flag f (1 ≪ b) = true -> has_flag f' (1 ≪ b) = true.
Proof.
  unfold flags_sub, has_flag. intros E Hf. apply negb_true_iff, Z.eqb_neq in Hf.
  apply negb_true_iff, Z.eqb_neq. intros Z0. apply Hf.
  rewrite <- E, <- Z.land_assoc, Z0. apply Z.land_0_r.
Qed.

Lemma script_num_relaxed d m m' mx v :
  (m = true -> m' = true) -> script_num_from_bytes d m' mx = Some v -> script_num_from_bytes d m mx = Some v.
Proof.
  intros Hm. destruct m, m'; try done; [by specialize (Hm eq_refl)|].
  unfold script_num_from_bytes. destruct (zlen d >? mx); [done|]. by destruct (true && _ && _ && _)%bool.
Qed.

(** A check guarded by a flag: turning the flag off skips the error. *)
Lemma more_check {A} (c' c : bool) e (x : vm_result A) (k' k : vm_result A) :
  (c = true -> c' = true) -> accepts_more k' k ->
  accepts_more (if c' then set_script_error e else k') (if c then x else k).
Proof.
  intros Hc Hk. destruct c'; [apply more_err|]. destruct c; [by specialize (Hc eq_refl)|done].
Qed.

Ltac more_step :=
  lazymatch goal with
  | |- accepts_more ?m ?m => apply more_refl
  | |- accepts_more (set_script_error _) _ => apply more_err
  | |- accepts_more (_ ≫= _) (_ ≫= _) => apply more_bind; [|intros ?]
  | |- accepts_more (on_stack _ _) (on_stack _ _) => apply more_bind; [|intros ?]
  | |- accepts_more (if ?b then _ else _) (if ?b then _ else _) => destruct b
  | |- accepts_more (match ?x with _ => _ end) (match ?x with _ => _ end) => destruct x
  end.

Section Softfork.
Context `{HashFunctions}.
Variable checker : sig_checker.
Variable branch_id : Z.
Variables f f' : Z.
Hypothesis Hsub : flags_sub f f'.
Hypothesis Hnops : has_flag f SCRIPT_VERIFY_DISCOURAGE_UPGRADABLE_NOPS = false.
Variable code : script.

Lemma flag_mono b : has_flag f (1 ≪ b) = true -> has_flag f' (1 ≪ b) = true.
Proof. by apply flags_sub_has. Qed.

Lemma flag_mono_and b c c' : (c = true -> c' = true) ->
  has_flag f (1 ≪ b) && c = true -> has_flag f' (1 ≪ b) && c' = true.
Proof. intros Hc E. zbool. rewrite (flag_mono b) by done. simpl. auto. Qed.

Lemma flag_mono_mid b c d : c && has_flag f (1 ≪ b) && d = true -> c && has_flag f' (1 ≪ b) && d = true.
Proof. intros E. zbool. subst. rewrite (flag_mono b) by done. done. Qed.

Lemma more_num s i mx : accepts_more (SN_FROM_TOP f' s i mx) (SN_FROM_TOP f s i mx).
Proof.
  unfold SN_FROM_TOP. more_step; [more_step|]. intros v E.
  destruct (script_num_from_bytes a (fRequireMinimal f') mx) as [w|] eqn:Ew; [|done].
  apply (script_num_relaxed _ (fRequireMinimal f)) in Ew; [by rewrite Ew|apply (flag_mono 6)].
Qed.

Lemma more_raw sig :
  accepts_more (check_raw_signature_encoding checker f' sig) (check_raw_signature_encoding checker f sig).
Proof.
  unfold check_raw_signature_encoding. repeat more_step.
  apply more_check; [by apply (flag_mono_and 3)|apply more_refl].
Qed.

Lemma more_tx_sig sig :
  accepts_more (check_transaction_signature_encoding checker f' sig)
               (check_transaction_signature_encoding checker f sig).
Proof.
  unfold check_transaction_signature_encoding. more_step; [more_step|]. more_step; [apply more_raw|].
  apply more_check; [by apply (flag_mono_and 1)|apply more_refl].
Qed.

Lemma more_data_sig sig :
  accepts_more (check_data_signature_encoding checker f' sig) (check_data_signature_encoding checker f sig).
Proof. unfold check_data_signature_encoding. more_step; [more_step|apply more_raw]. Qed.

Lemma more_pubkey pk : accepts_more (check_pubkey_encoding f' pk) (check_pubkey_encoding f pk).
Proof.
  unfold check_pubkey_encoding. cbv zeta.
  destruct (has_flag f SCRIPT_VERIFY_STRICTENC) eqn:E.
  - assert (has_flag f' SCRIPT_VERIFY_STRICTENC = true) as -> by (by apply (flag_mono 1)). apply more_refl.
  - intros []. repeat case_if; done.
Qed.

Lemma more_cltv s : accepts_more (op_checklocktimeverify checker f' s) (op_checklocktimeverify checker f s).
Proof.
  unfold op_checklocktimeverify. destruct (has_flag f SCRIPT_VERIFY_CHECKLOCKTIMEVERIFY) eqn:E.
  - assert (has_flag f' SCRIPT_VERIFY_CHECKLOCKTIMEVERIFY = true) as -> by (by apply (flag_mono 9)). cbn [negb].
    more_step; [more_step|]. more_step; [apply more_num|]. repeat more_step.
  - cbn [negb]. rewrite Hnops. intros []; done.
Qed.

Lemma more_multisig_loop fuel s isig ikey nSigs nKeys :
  accepts_more (multisig_loop checker branch_id f' code fuel s isig ikey nSigs nKeys)
               (multisig_loop checker branch_id f code fuel s isig ikey nSigs nKeys).
Proof.
  revert isig ikey nSigs nKeys; induction fuel as [|fuel IH]; intros; [apply more_refl|].
  cbn [multisig_loop]. more_step; [|more_step]. do 2 (more_step; [more_step|]).
  more_step; [apply more_tx_sig|]. more_step; [apply more_pubkey|].
  cbv zeta. more_step; [more_step|apply IH].
Qed.

Lemma more_multisig_pop n b ikey2 s :
  accepts_more (multisig_pop f' n b ikey2 s) (multisig_pop f n b ikey2 s).
Proof.
  revert ikey2 s; induction n as [|n IH]; intros; [apply more_refl|].
  cbn [multisig_pop]. more_step; [|apply IH].
  destruct (negb b && has_flag f SCRIPT_VERIFY_NULLFAIL && (ikey2 =? 0)) eqn:E.
  - assert (negb b && has_flag f' SCRIPT_VERIFY_NULLFAIL && (ikey2 =? 0) = true) as ->
      by (by apply (flag_mono_mid 10)). apply more_refl.
  - intros []. by case_if.
Qed.

Lemma more_exec fExec i st :
  accepts_more (exec_instr checker branch_id f' code fExec i st)
               (exec_instr checker branch_id f code fExec i st).
Proof.
  destruct i; cbn [exec_instr]; try apply more_refl; try more_step; try apply more_refl.
  - apply more_cltv.
  - unfold op_nop_reserved. rewrite Hnops. intros []; by destruct (has_flag f' _).
  - unfold op_pick_roll. more_step; [more_step|]. more_step; [apply more_num|]. more_step.
  - unfold op_unary. more_step; [more_step|]. more_step; [apply more_num|]. more_step.
  - unfold op_binary. more_step; [more_step|]. do 2 (more_step; [apply more_num|]). more_step.
  - unfold op_within. more_step; [more_step|]. do 3 (more_step; [apply more_num|]). more_step.
  - unfold op_checksig. do 3 (more_step; [more_step|]). more_step; [apply more_tx_sig|].
    more_step; [apply more_pubkey|]. cbv zeta. apply more_check; [apply (flag_mono_mid 10)|apply more_refl].
  - unfold op_checkdatasig. do 4 (more_step; [more_step|]). more_step; [apply more_data_sig|].
    more_step; [apply more_pubkey|]. cbv zeta. apply more_check; [apply (flag_mono_mid 10)|apply more_refl].
  - unfold op_checkmultisig. cbv zeta. more_step; [more_step|].
    more_step; [apply more_num|]. more_step; [more_step|]. more_step; [more_step|].
    more_step; [more_step|]. more_step; [apply more_num|]. more_step; [more_step|].
    more_step; [more_step|]. more_step; [apply more_multisig_loop|].
    more_step; [apply more_multisig_pop|]. do 2 (more_step; [more_step|]).
    apply more_check; [by apply (flag_mono_and 4)|apply more_refl].
Qed.

Lemma more_eval_step st pc :
  accepts_more (eval_step checker branch_id f' code st pc) (eval_step checker branch_id f code st pc).
Proof.
  unfold eval_step. cbv zeta. more_step; [|more_step]. destruct p as [[op d] pc'].
  more_step; [more_step|]. more_step; [more_step|]. more_step; [more_step|].
  more_step; [|more_step; more_step]. more_step; [|more_step; [apply more_exec|more_step]].
  apply more_check; [by apply (flag_mono_and 6)|apply more_refl].
Qed.

Lemma more_eval_loop fuel st pc :
  accepts_more (eval_loop checker branch_id f' code fuel st pc) (eval_loop checker branch_id f code fuel st pc).
Proof.
  revert st pc; induction fuel as [|fuel IH]; intros st [|b pc]; try apply more_refl.
  cbn [eval_loop]. more_step; [apply more_eval_step|]. destruct a. apply IH.
Qed.

End Softfork.

Lemma more_eval `{HashFunctions} checker branch_id f f' code s :
  flags_sub f f' -> has_flag f SCRIPT_VERIFY_DISCOURAGE_UPGRADABLE_NOPS = false ->
  accepts_more (domain_consensus_eval_script checker branch_id f' code s)
               (domain_consensus_eval_script checker branch_id f code s).
Proof.
  intros. unfold domain_consensus_eval_script. more_step; [more_step|].
  more_step; [by apply more_eval_loop|]. more_step; more_step.
Qed.

Lemma more_verify `{HashFunctions} checker branch_id f f' sig spk :
  flags_sub f f' -> has_flag f SCRIPT_VERIFY_DISCOURAGE_UPGRADABLE_NOPS = false ->
  (has_flag f SCRIPT_VERIFY_CLEANSTACK = true -> has_flag f SCRIPT_VERIFY_P2SH = true) ->
  accepts_more (domain_consensus_verify_script checker branch_id f' sig spk)
               (domain_consensus_verify_script checker branch_id f sig spk).
Proof.
  intros Hsub Hnops Hclean. unfold domain_consensus_verify_script.
  apply more_check; [by apply (flag_mono_and f f' Hsub 5)|]. more_step; [by apply more_eval|].
  assert (has_flag f SCRIPT_VERIFY_P2SH = true -> has_flag f' SCRIPT_VERIFY_P2SH = true) as HP
    by (by apply (flags_sub_has f f' 0)).
  destruct (has_flag f SCRIPT_VERIFY_P2SH) eqn:EP.
  - rewrite HP by done. cbn [andb]. more_step; [more_step|]. more_step; [by apply more_eval|].
    more_step; [more_step|]. more_step.
    + more_step; [|more_step]. unfold eval_p2sh. more_step; [more_step|]. do 3 (more_step; [more_step|]).
      more_step; [by apply more_eval|]. more_step.
    + destruct (has_flag f SCRIPT_VERIFY_CLEANSTACK) eqn:Ec.
      * assert (has_flag f' SCRIPT_VERIFY_CLEANSTACK = true) as -> by (by apply (flags_sub_has f f' 8)).
        more_step.
      * intros []. repeat case_if; done.
  - (* without P2SH neither the redeem script nor the clean-stack rule runs *)
    destruct (has_flag f SCRIPT_VERIFY_CLEANSTACK) eqn:Ec; [by specialize (Hclean eq_refl)|].
    cbn [andb]. intros [] E. apply bind_ok in E as (saved & _ & E). apply bind_ok in E as (s2 & E2 & E).
    apply bind_ok in E as ([] & E3 & _). cbn [mbind result_bind].
    rewrite (more_eval _ _ f f' spk a Hsub Hnops s2 E2). cbn [mbind result_bind]. by rewrite E3.
Qed.

(** ** Pay-to-public-key-hash *)

Section P2pkh.
Context `{HashFunctions}.
Variable checker : sig_checker.
Variable branch_id : Z.
Variable flags : Z.

Lemma eval_loop_fuel code n m st pc r : (n <= m)%nat ->
  eval_loop checker branch_id flags code n st pc = r -> r <> Err VmUndefined ->
  eval_loop checker branch_id flags code m st pc = r.
Proof.
  intros Hle <- Hr. revert m st pc Hle Hr.
  induction n as [|n IH]; intros m st pc Hle Hr; destruct pc as [|b pc]; [by destruct m|done|by destruct m|].
  destruct m as [|m]; [lia|]. cbn [eval_loop] in *. destruct (eval_step _ _ _ _ _ _) as [[st' pc']|]; [|done].
  cbn in *. apply IH; [lia|done].
Qed.

Lemma eval_step_push code s d rest nop : 2 <= zlen d <= 75 -> zlen s < 1000 ->
  eval_step checker branch_id flags code (Vm s [] [] nop) (zlen d :: d ++ rest) =
  Ok (Vm (s ++ [d]) [] [] nop, rest).
Proof.
  intros Hd Hs. unfold eval_step. change (zlen d :: d ++ rest) with (zlen d :: [] ++ d ++ rest).
  rewrite (get_op_push (zlen d) d rest []);
    [|unfold OP_PUSHDATA4; lia|apply push_size_direct; unfold OP_PUSHDATA1; lia|unfold MAX_SCRIPT_ELEMENT_SIZE; lia].
  cbv zeta. replace (zlen d >? MAX_SCRIPT_ELEMENT_SIZE) with false by (unfold MAX_SCRIPT_ELEMENT_SIZE; lia).
  unfold count_op. replace (zlen d >? OP_16) with false by (unfold OP_16; lia). cbn [mbind result_bind].
  assert (is_disabled (zlen d) = false) as ->.
  { unfold is_disabled, disabled_opcodes. cbn [existsb]. lia. }
  cbn [vm_exec forallb andb]. replace (0 <=? zlen d) with true by lia.
  replace (zlen d <=? OP_PUSHDATA4) with true by (unfold OP_PUSHDATA4; lia). cbn [andb].
  assert (check_minimal_push d (zlen d) = true) as ->.
  { unfold check_minimal_push. replace (zlen d =? 0) with false by lia. replace (zlen d =? 1) with false by lia.
    cbn [andb]. replace (zlen d <=? 75) with true by lia. lia. }
  rewrite andb_false_r. unfold on_stack, PUSH_OR_FAIL, stack_push. cbn [vm_stack].
  unfold MAX_STACK_ITEMS, MAX_SCRIPT_ELEMENT_SIZE.
  replace (zlen s >=? 1000) with false by lia. replace (zlen d >? 520) with false by lia. cbn [orb mbind result_bind].
  unfold with_stack. cbn [vm_stack vm_alt vm_exec vm_nop]. rewrite zlen_app. change (zlen [d]) with 1.
  change (zlen []) with 0. replace (zlen s + 1 + 0 >? 1000) with false by lia. done.
Qed.

(** The scriptSig of a key-hash spend leaves signature and key on the stack. *)
Lemma eval_two_pushes a b : 2 <= zlen a <= 75 -> 2 <= zlen b <= 75 ->
  domain_consensus_eval_script checker branch_id flags (zlen a :: a ++ zlen b :: b) [] = Ok [a; b].
Proof.
  intros Ha Hb. unfold domain_consensus_eval_script. set (code := zlen a :: _).
  assert (zlen code = zlen a + zlen b + 2) as Hl.
  { unfold code. rewrite zlen_cons, zlen_app, zlen_cons. lia. }
  replace (zlen code >? MAX_SCRIPT_SIZE) with false by (unfold MAX_SCRIPT_SIZE; lia).
  rewrite (eval_loop_fuel code 2 (length code) _ code (Ok (Vm [a; b] [] [] 0))); [done| | |done].
  { unfold zlen in Hl. lia. }
  unfold code at 2. cbn [eval_loop]. rewrite eval_step_push by (done || unfold zlen; simpl; lia).
  cbn [mbind result_bind app eval_loop]. rewrite <- (app_nil_r b) at 2.
  by rewrite eval_step_push by (done || unfold zlen; simpl; lia).
Qed.

Definition p2pkh_script (h : bytes) : script :=
  [OP_DUP; OP_HASH160; 20] ++ h ++ [OP_EQUALVERIFY; OP_CHECKSIG].

Lemma eval_loop_S code n st pc st' pc' :
  eval_step checker branch_id flags code st pc = Ok (st', pc') ->
  eval_loop checker branch_id flags code (S n) st pc = eval_loop checker branch_id flags code n st' pc'.
Proof. intros E. destruct pc as [|b pc]; [done|]. cbn [eval_loop]. by rewrite E. Qed.

Lemma eval_loop_S_err code n st pc e :
  eval_step checker branch_id flags code st pc = Err e -> pc <> [] ->
  eval_loop checker branch_id flags code (S n) st pc = Err e.
Proof. intros E Hne. destruct pc as [|b pc]; [done|]. cbn [eval_loop]. by rewrite E. Qed.

(** A non-push opcode outside any conditional. *)
Lemma eval_step_exec code s a nop op rest : OP_16 < op -> is_disabled op = false -> nop < 201 ->
  eval_step checker branch_id flags code (Vm s a [] nop) (op :: rest) =
  (st1 ← exec_instr checker branch_id flags code true (decode_instr op) (Vm s a [] (nop + 1));
   if zlen (vm_stack st1) + zlen (vm_alt st1) >? 1000 then set_script_error SCRIPT_ERR_STACK_SIZE
   else Ok (st1, rest)).
Proof.
  unfold OP_16. intros Hop Hdis Hn. unfold eval_step, script_get_op, count_op, OP_16, OP_PUSHDATA4.
  replace (op <=? 0x4e) with false by lia. cbv zeta. change (zlen [] >? MAX_SCRIPT_ELEMENT_SIZE) with false.
  replace (op >? 0x60) with true by lia. cbn [vm_nop vm_exec vm_stack vm_alt].
  replace (nop + 1 >? 201) with false by lia. cbn [mbind result_bind]. rewrite Hdis.
  replace (0 <=? op) with true by lia. by replace (op <=? 78) with false by lia.
Qed.

Lemma push_ok s d : zlen s < 1000 -> zlen d <= 520 -> PUSH_OR_FAIL s d = Ok (s ++ [d]).
Proof.
  intros Hs Hd. unfold PUSH_OR_FAIL, stack_push, MAX_STACK_ITEMS, MAX_SCRIPT_ELEMENT_SIZE.
  replace (zlen s >=? 1000) with false by lia. by replace (zlen d >? 520) with false by lia.
Qed.

Lemma p2pkh_prefix code sig pk rest : length (h_hash160 pk) = 20%nat -> zlen pk <= 520 ->
  eval_step checker branch_id flags code (Vm [sig; pk] [] [] 0) (OP_DUP :: rest) =
    Ok (Vm [sig; pk; pk] [] [] 1, rest) /\
  eval_step checker branch_id flags code (Vm [sig; pk; pk] [] [] 1) (OP_HASH160 :: rest) =
    Ok (Vm [sig; pk; h_hash160 pk] [] [] 2, rest).
Proof.
  intros Hph Hpk. split; rewrite eval_step_exec by done.
  - change (exec_instr _ _ _ _ _ _ _) with (on_stack (Vm [sig; pk] [] [] 1) (PUSH_OR_FAIL [sig; pk] pk)).
    by rewrite push_ok.
  - change (exec_instr _ _ _ _ _ _ _)
      with (on_stack (Vm [sig; pk; pk] [] [] 2) (PUSH_OR_FAIL [sig; pk] (h_hash160 pk))).
    rewrite push_ok; [done|done|]. unfold zlen. lia.
Qed.

Lemma p2pkh_suffix code sig pk h1 h2 rest :
  eval_step checker branch_id flags code (Vm [sig; pk; h1; h2] [] [] 2) (OP_EQUALVERIFY :: rest) =
    (if bool_decide (h1 = h2) then Ok (Vm [sig; pk] [] [] 3, rest)
     else set_script_error SCRIPT_ERR_EQUALVERIFY) /\
  eval_step checker branch_id flags code (Vm [sig; pk] [] [] 3) (OP_CHECKSIG :: rest) =
    (s ← op_checksig checker branch_id flags code false [sig; pk];
     if zlen s + 0 >? 1000 then set_script_error SCRIPT_ERR_STACK_SIZE else Ok (Vm s [] [] 4, rest)).
Proof.
  split; rewrite eval_step_exec by done.
  - change (exec_instr _ _ _ _ _ _ _)
      with (on_stack (Vm [sig; pk; h1; h2] [] [] 3)
        (s1 ← push_bool [sig; pk] (bool_decide (h1 = h2));
         if bool_decide (h1 = h2) then Ok (stack_pop s1) else set_script_error SCRIPT_ERR_EQUALVERIFY)).
    unfold push_bool. destruct (bool_decide (h1 = h2)); by rewrite push_ok.
  - change (exec_instr _ _ _ _ _ _ _)
      with (on_stack (Vm [sig; pk] [] [] 4) (op_checksig checker branch_id flags code false [sig; pk])).
    by destruct (op_checksig _ _ _ _ _ _).
Qed.

(** CHECKSIG with exactly a signature and a key on the stack. *)
Lemma checksig_two code sig pk :
  op_checksig checker branch_id flags code false [sig; pk] =
  (check_transaction_signature_encoding checker flags sig;;
   check_pubkey_encoding flags pk;;
   let ok := run_check_sig checker branch_id code sig pk in
   if negb ok && has_flag flags SCRIPT_VERIFY_NULLFAIL && (zlen sig >? 0)
   then set_script_error SCRIPT_ERR_SIG_NULLFAIL
   else Ok [if ok then [1] else []]).
Proof.
  transitivity (check_transaction_signature_encoding checker flags sig;;
   check_pubkey_encoding flags pk;;
   let ok := run_check_sig checker branch_id code sig pk in
   if negb ok && has_flag flags SCRIPT_VERIFY_NULLFAIL && (zlen sig >? 0)
   then set_script_error SCRIPT_ERR_SIG_NULLFAIL
   else s1 ← push_bool [] ok; Ok s1); [reflexivity|].
  destruct (check_transaction_signature_encoding _ _ _); [|done]. cbn.
  destruct (check_pubkey_encoding _ _); [|done]. cbn. case_if; [done|].
  by destruct (run_check_sig _ _ _ _ _).
Qed.

(** The template run on a signature and a key: hash comparison, then CHECKSIG. *)
Lemma eval_p2pkh h sig pk : length h = 20%nat -> length (h_hash160 pk) = 20%nat ->
  2 <= zlen sig <= 75 -> 2 <= zlen pk <= 75 ->
  domain_consensus_eval_script checker branch_id flags (p2pkh_script h) [sig; pk] =
  if bool_decide (h_hash160 pk = h)
  then op_checksig checker branch_id flags (p2pkh_script h) false [sig; pk]
  else set_script_error SCRIPT_ERR_EQUALVERIFY.
Proof.
  intros Hh Hph Hsig Hpk. unfold domain_consensus_eval_script. set (code := p2pkh_script h).
  assert (length code = 25%nat) as Hl.
  { unfold code, p2pkh_script. rewrite !length_app. simpl. lia. }
  unfold zlen at 1. rewrite Hl. change (Z.of_nat 25 >? MAX_SCRIPT_SIZE) with false. cbv iota.
  unfold code at 2. unfold p2pkh_script. cbn [app].
  destruct (p2pkh_prefix code sig pk (OP_HASH160 :: 20 :: h ++ [OP_EQUALVERIFY; OP_CHECKSIG]) Hph) as [E1 _]; [lia|].
  destruct (p2pkh_prefix code sig pk (20 :: h ++ [OP_EQUALVERIFY; OP_CHECKSIG]) Hph) as [_ E2]; [lia|].
  pose proof (eval_step_push code [sig; pk; h_hash160 pk] h [OP_EQUALVERIFY; OP_CHECKSIG] 2) as E3.
  replace (zlen h) with 20 in E3 by (unfold zlen; lia). specialize (E3 ltac:(lia) ltac:(done)).
  destruct (p2pkh_suffix code sig pk (h_hash160 pk) h [OP_CHECKSIG]) as [E4 _].
  destruct (p2pkh_suffix code sig pk (h_hash160 pk) h []) as [_ E5].
  rewrite (eval_loop_S _ _ _ _ _ _ E1), (eval_loop_S _ _ _ _ _ _ E2), (eval_loop_S _ _ _ _ _ _ E3).
  cbn [app]. destruct (bool_decide (h_hash160 pk = h)).
  - rewrite (eval_loop_S _ _ _ _ _ _ E4).
    destruct (op_checksig checker branch_id flags code false [sig; pk]) as [s|e] eqn:Ec.
    + assert (zlen s = 1) as Hs.
      { rewrite checksig_two in Ec. apply bind_ok in Ec as (? & _ & Ec). apply bind_ok in Ec as (? & _ & Ec).
        cbv zeta in Ec. case_if; by simplify_eq. }
      cbn [mbind result_bind] in E5. rewrite Hs in E5. change (1 + 0 >? 1000) with false in E5.
      by rewrite (eval_loop_S _ _ _ _ _ _ E5).
    + by rewrite (eval_loop_S_err _ _ _ _ _ E5).
  - by rewrite (eval_loop_S_err _ _ _ _ _ E4).
Qed.

Lemma p2pkh_not_p2sh h : length h = 20%nat -> script_is_p2sh (p2pkh_script h) = false.
Proof.
  intros Hh. unfold script_is_p2sh. replace (zlen (p2pkh_script h) =? 23) with false; [done|].
  unfold p2pkh_script. rewrite !zlen_app. unfold zlen. simpl. lia.
Qed.

Lemma two_pushes_push_only a b : 2 <= zlen a <= 75 -> 2 <= zlen b <= 75 ->
  script_is_push_only (zlen a :: a ++ zlen b :: b) = true.
Proof.
  intros Ha Hb. unfold script_is_push_only.
  assert (forall n (d : bytes) rest, 2 <= zlen d <= 75 ->
    push_only_loop (S n) (zlen d :: d ++ rest) = push_only_loop n rest) as Hstep.
  { intros n d rest Hd. cbn [push_only_loop].
    replace (zlen d >? OP_16) with false by (unfold OP_16; lia).
    replace (zlen d <=? OP_PUSHDATA4) with true by (unfold OP_PUSHDATA4; lia).
    rewrite push_size_direct by (unfold OP_PUSHDATA1; lia). unfold zlen. by rewrite Nat2Z.id, drop_app_length. }
  cbn [length]. rewrite Hstep by done. rewrite length_app. cbn [length].
  destruct a as [|x a]; [unfold zlen in Ha; simpl in Ha; lia|]. cbn [length Nat.add].
  rewrite <- (app_nil_r b) at 3. rewrite Hstep by done.
  by destruct (length a + S (length b))%nat.
Qed.

End P2pkh.

(** ** Multisignatures *)

(** The signatures are matched, in order, with a subsequence of the keys. *)
Inductive sig_matching (ok : bytes -> bytes -> bool) : list bytes -> list bytes -> Prop :=
  | matching_nil keys : sig_matching ok [] keys
  | matching_skip sigs key keys : sig_matching ok sigs keys -> sig_matching ok sigs (key :: keys)
  | matching_use sig sigs key keys :
      ok sig key = true -> sig_matching ok sigs keys -> sig_matching ok (sig :: sigs) (key :: keys).

Lemma matching_drop ok sig sigs keys : sig_matching ok (sig :: sigs) keys -> sig_matching ok sigs keys.
Proof.
  remember (sig :: sigs) as l eqn:El. induction 1; simplify_eq; [by constructor; apply IHsig_matching|by constructor].
Qed.

(** Taking the first key that verifies is no loss. *)
Lemma matching_greedy ok sig sigs key keys :
  sig_matching ok (sig :: sigs) (key :: keys) <->
  if ok sig key then sig_matching ok sigs keys else sig_matching ok (sig :: sigs) keys.
Proof.
  destruct (ok sig key) eqn:E.
  - split; [|by constructor]. intros M. inv M; [by eapply matching_drop|done].
  - split; [|by constructor]. intros M. inv M; [done|congruence].
Qed.

Lemma matching_length ok sigs keys : sig_matching ok sigs keys -> (length sigs <= length keys)%nat.
Proof. induction 1; simpl; lia. Qed.

(** The items at depth [i], [i + 1], ... of the stack. *)
Definition tops (s : stack) (i : Z) (items : list bytes) : Prop :=
  forall j d, items !! j = Some d -> stack_top s (- (i + Z.of_nat j)) = Ok d.

Lemma tops_cons s i d items : tops s i (d :: items) -> stack_top s (- i) = Ok d /\ tops s (i + 1) items.
Proof.
  intros Ht. split; [replace (- i) with (- (i + Z.of_nat 0)) by lia; by apply Ht|].
  intros j e He. replace (- (i + 1 + Z.of_nat j)) with (- (i + Z.of_nat (S j))) by lia. by apply Ht.
Qed.

Section Multisig.
Context `{HashFunctions}.
Variable checker : sig_checker.
Variable branch_id : Z.
Variable flags : Z.
Variable code : script.

Abbreviation sig_ok := (fun sig => check_transaction_signature_encoding checker flags sig = Ok tt).
Abbreviation key_ok := (fun key => check_pubkey_encoding flags key = Ok tt).

Lemma multisig_loop_matching fuel s isig ikey sigs keys :
  tops s isig sigs -> tops s ikey keys -> Forall sig_ok sigs -> Forall key_ok keys ->
  (length sigs <= length keys < fuel)%nat ->
  exists b, multisig_loop checker branch_id flags code fuel s isig ikey (zlen sigs) (zlen keys) = Ok b /\
    (b = true <-> sig_matching (run_check_sig checker branch_id code) sigs keys).
Proof.
  revert isig ikey sigs keys; induction fuel as [|fuel IH]; intros isig ikey sigs keys Ts Tk Hs Hk Hlen; [lia|].
  cbn [multisig_loop]. destruct sigs as [|sig sigs].
  { exists true. split; [done|]. split; [constructor|done]. }
  destruct keys as [|key keys]; [simpl in Hlen; lia|]. rewrite !zlen_cons.
  pose proof (zlen_nonneg sigs). replace (zlen sigs + 1 >? 0) with true by lia.
  apply tops_cons in Ts as Ts'. destruct Ts' as [E1 Ts']. apply tops_cons in Tk as [E2 Tk'].
  apply Forall_cons in Hs as Hs'. destruct Hs' as [Es Hs']. apply Forall_cons in Hk as [Ek Hk'].
  rewrite E1, E2. cbn [mbind result_bind]. rewrite Es, Ek. cbn [mbind result_bind]. cbv zeta.
  setoid_rewrite matching_greedy. replace (zlen keys + 1 - 1) with (zlen keys) by lia. simpl in Hlen.
  destruct (run_check_sig checker branch_id code sig key).
  - replace (zlen sigs + 1 - 1) with (zlen sigs) by lia. replace (zlen sigs >? zlen keys) with false by (unfold zlen; lia).
    apply IH; [done..|lia].
  - destruct (zlen sigs + 1 >? zlen keys) eqn:Egt.
    + exists false. split; [done|]. split; [done|]. intros M. apply matching_length in M. unfold zlen in *. simpl in M. lia.
    + rewrite <- (zlen_cons sig). apply IH; [done..|]. unfold zlen in *. simpl. lia.
Qed.

Lemma multisig_pop_spec n b ikey2 s : has_flag flags SCRIPT_VERIFY_NULLFAIL = false \/ b = true ->
  multisig_pop flags n b ikey2 s = Ok (take (length s - n) s).
Proof.
  intros Hf. revert ikey2 s; induction n as [|n IH]; intros ikey2 s.
  { cbn. f_equal. symmetry. apply take_ge. lia. }
  cbn [multisig_pop]. replace (negb b && has_flag flags SCRIPT_VERIFY_NULLFAIL && (ikey2 =? 0)) with false
    by (destruct Hf as [->| ->]; [by rewrite andb_false_r|done]).
  cbn [mbind result_bind]. rewrite IH. f_equal. unfold stack_pop. rewrite length_take, take_take.
  f_equal. lia.
Qed.

End Multisig.

Lemma tops_app_rev s items rest i : i = zlen rest + 1 -> tops (s ++ reverse items ++ rest) i items.
Proof.
  intros -> j d Hj. pose proof (lookup_lt_Some _ _ _ Hj) as Hlt. unfold stack_top.
  rewrite !zlen_app. assert (zlen (reverse items) = zlen items) as -> by (unfold zlen; by rewrite length_reverse).
  pose proof (zlen_nonneg s). assert (Z.of_nat j < zlen items) by (unfold zlen; lia).
  replace (_ <? 0) with false by lia.
  assert ((s ++ reverse items ++ rest) !!
    Z.to_nat (zlen s + (zlen items + zlen rest) + - (zlen rest + 1 + Z.of_nat j)) = Some d) as ->; [|done].
  rewrite lookup_app_r by (unfold zlen in *; lia). rewrite lookup_app_l by (rewrite length_reverse; unfold zlen in *; lia).
  replace (Z.to_nat _ - length s)%nat with (length items - S j)%nat by (unfold zlen in *; lia).
  rewrite reverse_lookup by lia.
  by replace (length items - S (length items - S j))%nat with j by lia.
Qed.

(** The stack in front of CHECKMULTISIG, bottom to top. *)
Definition multisig_stack (base sigs keys : list bytes) : stack :=
  base ++ [[]] ++ reverse sigs ++ [script_num_serialize (zlen sigs) SCRIPT_NUM_MAX_SIZE] ++
  reverse keys ++ [script_num_serialize (zlen keys) SCRIPT_NUM_MAX_SIZE].

Lemma sn_from_top_num flags s i n : 0 <= n <= 20 ->
  stack_top s i = Ok (script_num_serialize n SCRIPT_NUM_MAX_SIZE) -> SN_FROM_TOP flags s i 4 = Ok n.
Proof.
  intros Hn E. unfold SN_FROM_TOP. rewrite E. cbn [mbind result_bind].
  destruct (script_num_encode_decode n 4 (fRequireMinimal flags)) as (_ & _ & D); [lia|].
  rewrite D; [done|]. split; [|lia].
  assert (n = 0 \/ 0 < n <= 20) as [->|Hp] by lia; [done|].
  pose proof (serialize_repr [] n false) as Er. cbn [app le_decode] in Er.
  rewrite Z.mul_0_r, Z.add_0_r in Er. rewrite Er; [|by repeat constructor; unfold is_u; lia|lia|done].
  replace (n <? 128) with true by lia. done.
Qed.

Lemma multisig_stack_top base sigs keys :
  let s := multisig_stack base sigs keys in
  zlen s = zlen base + zlen sigs + zlen keys + 3 /\
  stack_top s (-1) = Ok (script_num_serialize (zlen keys) SCRIPT_NUM_MAX_SIZE) /\
  stack_top s (- (2 + zlen keys)) = Ok (script_num_serialize (zlen sigs) SCRIPT_NUM_MAX_SIZE) /\
  tops s 2 keys /\ tops s (zlen keys + 3) sigs /\
  take (length s - (length sigs + length keys + 2)) s = base ++ [[]].
Proof.
  intros s. set (ns := script_num_serialize (zlen sigs) SCRIPT_NUM_MAX_SIZE).
  set (nk := script_num_serialize (zlen keys) SCRIPT_NUM_MAX_SIZE).
  assert (s = (base ++ [[]] ++ reverse sigs ++ [ns]) ++ reverse keys ++ [nk]) as E1.
  { unfold s, multisig_stack. by rewrite !app_assoc. }
  assert (s = (base ++ [[]]) ++ reverse sigs ++ ([ns] ++ reverse keys ++ [nk])) as E2.
  { unfold s, multisig_stack. by rewrite !app_assoc. }
  assert (s = (base ++ [[]] ++ reverse sigs) ++ reverse [ns] ++ (reverse keys ++ [nk])) as E3.
  { unfold s, multisig_stack. by rewrite !app_assoc. }
  assert (s = (base ++ [[]] ++ reverse sigs ++ [ns] ++ reverse keys) ++ reverse [nk] ++ []) as E4.
  { unfold s, multisig_stack. rewrite app_nil_r. by rewrite !app_assoc. }
  assert (forall l : list bytes, zlen (reverse l) = zlen l) as Er by (intros; unfold zlen; by rewrite length_reverse).
  split_and!.
  - rewrite E1. rewrite !zlen_app, !Er. change (zlen [_]) with 1. lia.
  - pose proof (tops_app_rev (base ++ [[]] ++ reverse sigs ++ [ns] ++ reverse keys) [nk] [] 1 eq_refl) as T.
    rewrite <- E4 in T. by apply tops_cons in T as [T _].
  - pose proof (tops_app_rev (base ++ [[]] ++ reverse sigs) [ns] (reverse keys ++ [nk]) (2 + zlen keys)) as T.
    rewrite <- E3 in T. rewrite zlen_app, Er in T. change (zlen [nk]) with 1 in T.
    apply (tops_cons _ _ _ []). apply T. lia.
  - rewrite E1. by apply tops_app_rev.
  - rewrite E2. apply tops_app_rev. rewrite !zlen_app, Er. change (zlen [_]) with 1. lia.
  - rewrite E2. rewrite !length_app, !length_reverse. cbn [length].
    replace (_ - _)%nat with (length (base ++ [[]])) by (rewrite length_app; cbn [length]; lia).
    apply take_app_length.
Qed.

Lemma checkmultisig_matching checker branch_id flags code base sigs keys alt exec nop :
  zlen base < 1000 -> (length sigs <= length keys)%nat -> zlen keys <= 20 -> nop + zlen keys <= 201 ->
  Forall (fun sig => check_transaction_signature_encoding checker flags sig = Ok tt) sigs ->
  Forall (fun key => check_pubkey_encoding flags key = Ok tt) keys ->
  exists b,
    (has_flag flags SCRIPT_VERIFY_NULLFAIL = false \/ b = true ->
     op_checkmultisig checker branch_id flags code false (Vm (multisig_stack base sigs keys) alt exec nop) =
     Ok (Vm (base ++ [if b then [1] else []]) alt exec (nop + zlen keys))) /\
    (b = true <-> sig_matching (run_check_sig checker branch_id code) sigs keys).
Proof.
  intros Hbase Hlen Hk Hnop Hsigs Hkeys.
  destruct (multisig_stack_top base sigs keys) as (Ez & Et1 & Et2 & Tk & Ts & Etake).
  set (s := multisig_stack base sigs keys) in *.
  pose proof (zlen_nonneg keys). pose proof (zlen_nonneg sigs). pose proof (zlen_nonneg base).
  assert (zlen sigs <= zlen keys) by (unfold zlen; lia).
  destruct (multisig_loop_matching checker branch_id flags code (S (length keys)) s (zlen keys + 3) 2 sigs keys)
    as (b & El & Hb); [done..|lia|].
  exists b. split; [|done]. intros Hnull. unfold op_checkmultisig, need, ensure. cbn [vm_stack vm_nop vm_alt vm_exec].
  assert (forall n, 0 <= n <= 20 -> script_num_get_int n = n) as Hint.
  { intros n Hn. unfold script_num_get_int, INT32_MAX, INT32_MIN.
    replace (n >? _) with false by lia. by replace (n <? _) with false by lia. }
  cbv zeta. replace (zlen s <? 1) with false by lia. cbn [negb mbind result_bind].
  rewrite (sn_from_top_num _ _ _ (zlen keys)) by (done || lia). cbn [mbind result_bind].
  rewrite Hint by lia. replace (zlen keys <? 0) with false by lia. replace (zlen keys >? 20) with false by lia.
  cbn [orb]. replace (nop + zlen keys >? 201) with false by lia.
  replace (zlen s <? 2 + zlen keys) with false by lia. cbn [negb mbind result_bind].
  rewrite (sn_from_top_num _ _ _ (zlen sigs)) by (done || lia). cbn [mbind result_bind].
  rewrite Hint by lia. replace (zlen sigs <? 0) with false by lia. replace (zlen sigs >? zlen keys) with false by lia.
  cbn [orb]. replace (zlen s <? _) with false by lia. cbn [negb mbind result_bind].
  replace (2 + zlen keys + 1) with (zlen keys + 3) by lia.
  replace (Z.to_nat (zlen keys)) with (length keys) by (unfold zlen; lia). rewrite El. cbn [mbind result_bind].
  rewrite multisig_pop_spec by done. cbn [mbind result_bind].
  replace (Z.to_nat (zlen keys + 3 + zlen sigs - 1)) with (length sigs + length keys + 2)%nat by (unfold zlen; lia).
  rewrite Etake, zlen_app. change (zlen [[]]) with 1. replace (zlen base + 1 <? 1) with false by lia.
  cbn [negb mbind result_bind].
  assert (stack_top (base ++ [[]]) (-1) = Ok []) as ->.
  { pose proof (tops_app_rev base [[]] [] 1 eq_refl) as T. cbn [app] in T. by apply tops_cons in T as [T _]. }
  cbn [mbind result_bind]. change (zlen [] >? 0) with false. rewrite andb_false_r.
  unfold stack_pop. rewrite length_app. cbn [length]. replace (length base + 1 - 1)%nat with (length base) by lia.
  rewrite take_app_length. unfold push_bool, PUSH_OR_FAIL, stack_push, MAX_STACK_ITEMS.
  replace (zlen base >=? 1000) with false by lia.
  by destruct b.
Qed.

(** ** Properties *)

(** Constant digests: a concrete hash environment for the witnesses. *)
Definition zero_hashes : HashFunctions := {|
  h_sha256 := fun _ => replicate 32 0; h_sha1 := fun _ => replicate 20 0;
  h_ripemd160 := fun _ => replicate 20 0; h_hash160 := fun _ => replicate 20 0;
  h_hash256 := fun _ => replicate 32 0 |}.

Lemma zero_hashes_ok : @HashFunctionsOk zero_hashes.
Proof. split; (split; [done|by apply Forall_replicate]). Qed.

(** A checker that accepts the signature equal to [good]. *)
Definition toy_checker (good : bytes) : sig_checker := {|
  check_sig := Some (fun sig _ _ _ => bool_decide (sig = good));
  check_lock_time := None; verify_signature := None; pubkey_check_low_s := fun _ => true |}.

(** C10: memory safety and termination of the interpreter: whatever bytes a script
    holds, whatever the flags and the signature checker, evaluation from a well-formed
    stack ends within one iteration per script byte, never reads outside the stacks, the
    condition stack or a signature buffer, and on success leaves at most 1000 items of at
    most 520 bytes each. *)
Theorem eval_script_safe `{HashFunctionsOk} checker branch_id flags code s :
  stack_ok s -> bytes_ok code ->
  match domain_consensus_eval_script checker branch_id flags code s with
  | Ok s' => stack_ok s'
  | Err (VmError _) => True
  | Err VmUndefined => False
  end.
Proof. apply safe_eval. Qed.

Lemma eval_script_safe_witness :
  stack_ok [[1]; [2]] /\
  match @domain_consensus_eval_script zero_hashes (toy_checker []) 0 0 [OP_DUP; 0x93] [[1]; [2]] with
  | Ok s' => stack_ok s' | Err (VmError _) => True | Err VmUndefined => False end.
Proof.
  assert (stack_ok [[1]; [2]]) as Hs by compute_decide.
  split; [exact Hs|].
  apply (@eval_script_safe zero_hashes zero_hashes_ok (toy_checker []) 0 0 [OP_DUP; 0x93] [[1]; [2]] Hs).
  compute_decide.
Defined.

(** script verification is defined: unless CLEANSTACK is requested without
    P2SH (which the source asserts against), verifying any pair of scripts ends with
    success or a script error; in particular the assertion of the BIP16 branch, that the
    saved stack is not empty, cannot fail. *)
Theorem verify_script_defined `{HashFunctionsOk} checker branch_id flags sig spk :
  bytes_ok sig -> bytes_ok spk ->
  (has_flag flags SCRIPT_VERIFY_CLEANSTACK = true -> has_flag flags SCRIPT_VERIFY_P2SH = true) ->
  domain_consensus_verify_script checker branch_id flags sig spk <> Err VmUndefined.
Proof.
  intros H1 H2 H3. pose proof (safe_verify checker branch_id flags sig spk H1 H2 H3) as Hs.
  intros E. by rewrite E in Hs.
Qed.

Lemma verify_script_defined_witness :
  @domain_consensus_verify_script zero_hashes (toy_checker []) 0 SCRIPT_VERIFY_P2SH
    [] ([OP_HASH160; 20] ++ replicate 20 0 ++ [OP_EQUAL]) <> Err VmUndefined.
Proof.
  apply (@verify_script_defined zero_hashes zero_hashes_ok (toy_checker []) 0 SCRIPT_VERIFY_P2SH
    [] ([OP_HASH160; 20] ++ replicate 20 0 ++ [OP_EQUAL])).
  - constructor.
  - compute_decide.
  - vm_compute. discriminate.
Defined.

(** verification flags only tighten: a spend accepted under a set of flags is
    accepted under every subset of them (soft-fork safety), provided the subset does not
    discourage upgradable NOPs and does not ask for CLEANSTACK without P2SH. *)
Theorem softfork_monotone `{HashFunctions} checker branch_id f f' sig spk :
  flags_sub f f' ->
  has_flag f SCRIPT_VERIFY_DISCOURAGE_UPGRADABLE_NOPS = false ->
  (has_flag f SCRIPT_VERIFY_CLEANSTACK = true -> has_flag f SCRIPT_VERIFY_P2SH = true) ->
  domain_consensus_verify_script checker branch_id f' sig spk = Ok tt ->
  domain_consensus_verify_script checker branch_id f sig spk = Ok tt.
Proof. intros. by eapply more_verify. Qed.

Lemma softfork_monotone_witness :
  @domain_consensus_verify_script zero_hashes (toy_checker []) 0 0 [OP_1] [0x61] = Ok tt.
Proof.
  apply (@softfork_monotone zero_hashes (toy_checker []) 0 0
    (SCRIPT_VERIFY_P2SH .| SCRIPT_VERIFY_MINIMALDATA .| SCRIPT_VERIFY_CLEANSTACK) [OP_1] [0x61]);
    vm_compute; try reflexivity. discriminate.
Defined.

Lemma p2pkh_spend `{HashFunctionsOk} checker branch_id flags h sig pk :
  length h = 20%nat -> 2 <= zlen sig <= 75 -> 2 <= zlen pk <= 75 ->
  (has_flag flags SCRIPT_VERIFY_CLEANSTACK = true -> has_flag flags SCRIPT_VERIFY_P2SH = true) ->
  domain_consensus_verify_script checker branch_id flags
    (zlen sig :: sig ++ zlen pk :: pk) (p2pkh_script h) = Ok tt <->
  h_hash160 pk = h /\ check_transaction_signature_encoding checker flags sig = Ok tt /\
  check_pubkey_encoding flags pk = Ok tt /\
  run_check_sig checker branch_id (p2pkh_script h) sig pk = true.
Proof.
  intros Hh Hsig Hpk Hclean. destruct (hash160_ok pk) as [Hlen _].
  unfold domain_consensus_verify_script. rewrite two_pushes_push_only by done. rewrite andb_false_r.
  rewrite eval_two_pushes by done. rewrite p2pkh_not_p2sh by done. rewrite andb_false_r.
  cbn [mbind result_bind].
  assert ((if has_flag flags SCRIPT_VERIFY_P2SH then stack_copy_active [sig; pk] else Ok []) =
    Ok (if has_flag flags SCRIPT_VERIFY_P2SH then [sig; pk] else [])) as ->
    by (by destruct (has_flag flags SCRIPT_VERIFY_P2SH)).
  cbn [mbind result_bind]. rewrite eval_p2pkh by done. rewrite checksig_two.
  case_bool_decide as Eh; [|split; [done|by intros [? _]]].
  destruct (check_transaction_signature_encoding checker flags sig) as [[]|]; [|split; [done|by intros (_ & ? & _)]].
  destruct (check_pubkey_encoding flags pk) as [[]|]; [|split; [done|by intros (_ & _ & ? & _)]].
  cbn [mbind result_bind]. cbv zeta.
  destruct (run_check_sig checker branch_id (p2pkh_script h) sig pk).
  - split; [done|intros _]. cbn. destruct (has_flag flags SCRIPT_VERIFY_CLEANSTACK); [|done].
    by rewrite Hclean.
  - split; [|by intros (_ & _ & _ & ?)]. cbn [negb]. intros E. exfalso. revert E. destruct (_ && _)%bool; discriminate.
Qed.

(** a key-hash output is spent exactly by a valid signature of the committed
    key: for every flag set (CLEANSTACK only together with P2SH) the scriptSig pushing
    [sig] and [pk] satisfies the P2PKH template for [h] if and only if [pk] hashes to
    [h], both encodings pass the flag-dependent checks and the checker accepts the
    signature for this script. *)
Theorem p2pkh_spend_iff `{HashFunctionsOk} checker branch_id flags h sig pk :
  length h = 20%nat -> 2 <= zlen sig <= 75 -> 2 <= zlen pk <= 75 ->
  (has_flag flags SCRIPT_VERIFY_CLEANSTACK = true -> has_flag flags SCRIPT_VERIFY_P2SH = true) ->
  domain_consensus_verify_script checker branch_id flags
    (zlen sig :: sig ++ zlen pk :: pk) (p2pkh_script h) = Ok tt <->
  h_hash160 pk = h /\ check_transaction_signature_encoding checker flags sig = Ok tt /\
  check_pubkey_encoding flags pk = Ok tt /\
  run_check_sig checker branch_id (p2pkh_script h) sig pk = true.
Proof. apply p2pkh_spend. Qed.

Lemma p2pkh_spend_iff_witness :
  let sig := [0x30; 6; 2; 1; 1; 2; 1; 1; 1] in
  @domain_consensus_verify_script zero_hashes (toy_checker sig) 0 (SCRIPT_VERIFY_P2SH .| SCRIPT_VERIFY_STRICTENC)
    (zlen sig :: sig ++ zlen (2 :: replicate 32 9) :: (2 :: replicate 32 9))
    (p2pkh_script (replicate 20 0)) = Ok tt.
Proof.
  intros sig. apply (@p2pkh_spend_iff zero_hashes zero_hashes_ok (toy_checker sig) 0
    (SCRIPT_VERIFY_P2SH .| SCRIPT_VERIFY_STRICTENC) (replicate 20 0) sig (2 :: replicate 32 9)).
  - reflexivity.
  - vm_compute. split; discriminate.
  - vm_compute. split; discriminate.
  - vm_compute. discriminate.
  - vm_compute. repeat split; reflexivity.
Defined.

(** m-of-n multisignature: with well-encoded signatures and keys on the stack,
    CHECKMULTISIG consumes the dummy, the counts, the keys and the signatures and pushes
    true exactly when the signatures can be matched, in order, with distinct keys of the
    list (the greedy loop misses no matching); the false outcome is stated for NULLFAIL
    off, where it is not an error. *)
Theorem checkmultisig_complete checker branch_id flags code base sigs keys alt exec nop :
  zlen base < 1000 -> (length sigs <= length keys)%nat -> zlen keys <= 20 -> nop + zlen keys <= 201 ->
  Forall (fun sig => check_transaction_signature_encoding checker flags sig = Ok tt) sigs ->
  Forall (fun key => check_pubkey_encoding flags key = Ok tt) keys ->
  exists b,
    (has_flag flags SCRIPT_VERIFY_NULLFAIL = false \/ b = true ->
     op_checkmultisig checker branch_id flags code false (Vm (multisig_stack base sigs keys) alt exec nop) =
     Ok (Vm (base ++ [if b then [1] else []]) alt exec (nop + zlen keys))) /\
    (b = true <-> sig_matching (run_check_sig checker branch_id code) sigs keys).
Proof. apply checkmultisig_matching. Qed.

Lemma checkmultisig_complete_witness :
  exists b : bool,
    op_checkmultisig (toy_checker []) 0 0 [] false
      (Vm (multisig_stack [] [[]] [[2]; [3]]) [] [] 1) = Ok (Vm [if b then [1] else []] [] [] 3) /\
    (b = true <-> sig_matching (fun _ _ => true) [[]] [[2]; [3]]).
Proof.
  destruct (checkmultisig_complete (toy_checker []) 0 0 [] [] [[]] [[2]; [3]] [] [] 1)
    as (b & Hb & Hm).
  - done.
  - simpl; lia.
  - done.
  - done.
  - repeat constructor.
  - repeat constructor.
  - exists b. split; [apply Hb; left; reflexivity|].
    rewrite Hm. split; intros _; (apply matching_use; [reflexivity|apply matching_nil]).
Defined.

(** one flag is not a pure tightening: with DISCOURAGE_UPGRADABLE_NOPS set,
    adding CHECKLOCKTIMEVERIFY turns the rejected opcode NOP2 into an accepted
    CHECKLOCKTIMEVERIFY, so a larger flag set accepts a spend the smaller one rejects. *)
Theorem cltv_flag_loosens `{HashFunctions} :
  exists checker f f' sig spk,
    flags_sub f f' /\
    domain_consensus_verify_script checker 0 f sig spk =
      Err (VmError SCRIPT_ERR_DISCOURAGE_UPGRADABLE_NOPS) /\
    domain_consensus_verify_script checker 0 f' sig spk = Ok tt.
Proof.
  exists (toy_checker []), SCRIPT_VERIFY_DISCOURAGE_UPGRADABLE_NOPS,
    (SCRIPT_VERIFY_DISCOURAGE_UPGRADABLE_NOPS .| SCRIPT_VERIFY_CHECKLOCKTIMEVERIFY), [OP_1], [0xb1].
  done.
Qed.
