(* ===== verification/Transaction.v ===== *)
(** * Transactions

    Models lib/primitives (transaction.h, transaction.c) and lib/core/include/core/amount.h:
    the transaction structure with its transparent, Sprout and Sapling parts, its wire
    format in both directions, the transaction id and the value totals.  A fixed-size C
    array is a list whose length is part of [tx_ok]; a (pointer, count) pair is a list.
    Array allocations during parsing are assumed to succeed; the stream's own growth is
    governed by the [Allocator] parameter of Serialize. *)

From S2P Require Import Prelude Hash Serialize Script.

(** ** Amounts (amount.h) *)

Definition COIN : Z := 100000000.
Definition MAX_MONEY : Z := 21000000 * COIN.
Definition MoneyRange (nValue : Z) : bool := (nValue >=? 0) && (nValue <=? MAX_MONEY).

(** ** Data *)

Abbreviation uint256_t := (list Z).

Definition OVERWINTER_TX_VERSION : Z := 3.
Definition SAPLING_TX_VERSION : Z := 4.
Definition OVERWINTER_VERSION_GROUP_ID : Z := 0x03C48270.
Definition SAPLING_VERSION_GROUP_ID : Z := 0x892F2085.
Definition UINT32_MAX : Z := 2 ^ 32 - 1.
Definition INT64_MAX : Z := 2 ^ 63 - 1.

Definition ZC_NUM_JS_INPUTS : nat := 2.
Definition ZC_NUM_JS_OUTPUTS : nat := 2.
Definition GROTH_PROOF_SIZE : Z := 48 + 96 + 48.
Definition PHGR_PROOF_SIZE : Z := 296.
(** leading byte, diversifier, value, r, memo, and the authentication tag *)
Definition ZC_SAPLING_ENCCIPHERTEXT_SIZE : Z := (1 + 11 + 8 + 32 + 512) + 16.
Definition ZC_SAPLING_OUTCIPHERTEXT_SIZE : Z := (32 + 32) + 16.
Definition ZC_SPROUT_CIPHERTEXT_SIZE : Z := (1 + 8 + 32 + 32 + 512) + 16.

Definition MAX_TX_INPUTS : Z := 65536.
Definition MAX_TX_OUTPUTS : Z := 65536.
Definition MAX_SHIELDED_SPENDS : Z := 4096.
Definition MAX_SHIELDED_OUTPUTS : Z := 4096.
Definition MAX_JOINSPLITS : Z := 4096.

Record outpoint := OutPoint { op_hash : uint256_t; op_n : Z }.

#[export] Instance outpoint_eq_dec : EqDecision outpoint.
Proof. solve_decision. Defined.

Record tx_in := TxIn { prevout : outpoint; script_sig : script; sequence : Z }.

Record tx_out := TxOut { value : Z; script_pub_key : script }.

#[export] Instance tx_out_eq_dec : EqDecision tx_out.
Proof. solve_decision. Defined.

Record spend_description := SpendDescription {
  sd_cv : uint256_t;
  sd_anchor : uint256_t;
  sd_nullifier : uint256_t;
  sd_rk : uint256_t;
  sd_zkproof : bytes;
  sd_spend_auth_sig : bytes;
}.

Record output_description := OutputDescription {
  od_cv : uint256_t;
  od_cm : uint256_t;
  od_ephemeral_key : uint256_t;
  od_enc_ciphertext : bytes;
  od_out_ciphertext : bytes;
  od_zkproof : bytes;
}.

Record js_description := JsDescription {
  vpub_old : Z;
  vpub_new : Z;
  js_anchor : uint256_t;
  js_nullifiers : list uint256_t;
  js_commitments : list uint256_t;
  js_ephemeral_key : uint256_t;
  js_random_seed : uint256_t;
  js_macs : list uint256_t;
  js_use_groth : bool;
  js_proof : bytes;
  js_ciphertexts : list bytes;
}.

Record transaction := Transaction {
  overwintered : bool;
  version : Z;
  version_group_id : Z;
  vin : list tx_in;
  vout : list tx_out;
  lock_time : Z;
  expiry_height : Z;
  value_balance : Z;
  v_shielded_spend : list spend_description;
  v_shielded_output : list output_description;
  v_joinsplit : list js_description;
  joinsplit_pubkey : uint256_t;
  joinsplit_sig : bytes;
  binding_sig : bytes;
  tx_hash : uint256_t;
}.

Definition uint256_null : uint256_t := replicate 32 0.

Definition uint256_is_null (v : uint256_t) : bool := forallb (fun b => b =? 0) v.

Definition outpoint_set_null : outpoint := {| op_hash := uint256_null; op_n := UINT32_MAX |}.

Definition outpoint_is_null (op : outpoint) : bool :=
  uint256_is_null (op_hash op) && (op_n op =? UINT32_MAX).

Definition tx_in_init : tx_in :=
  {| prevout := outpoint_set_null; script_sig := []; sequence := UINT32_MAX |}.

Definition tx_in_is_final (i : tx_in) : bool := sequence i =? UINT32_MAX.

Definition tx_out_set_null : tx_out := {| value := -1; script_pub_key := [] |}.

Definition tx_out_is_null (o : tx_out) : bool := value o =? -1.

(** [memcmp]: the sign of the first difference *)
Fixpoint memcmp (a b : bytes) : Z :=
  match a, b with
  | x :: a', y :: b' => if x =? y then memcmp a' b' else if x <? y then -1 else 1
  | _, _ => 0
  end.

Definition uint256_cmp (a b : uint256_t) : Z := memcmp a b.

Definition uint256_eq (a b : uint256_t) : bool := memcmp a b =? 0.

Definition outpoint_cmp (a b : outpoint) : Z :=
  let r := uint256_cmp (op_hash a) (op_hash b) in
  if negb (r =? 0) then r
  else if op_n a <? op_n b then -1 else if op_n a >? op_n b then 1 else 0.

Definition transaction_is_coinbase (tx : transaction) : bool :=
  match vin tx with [i] => outpoint_is_null (prevout i) | _ => false end.

Definition transaction_init : transaction := {|
  overwintered := false; version := 1; version_group_id := 0; vin := []; vout := [];
  lock_time := 0; expiry_height := 0; value_balance := 0; v_shielded_spend := [];
  v_shielded_output := []; v_joinsplit := []; joinsplit_pubkey := uint256_null;
  joinsplit_sig := replicate 64 0; binding_sig := replicate 64 0; tx_hash := uint256_null |}.

(** ** Value totals *)

(** One accumulation loop: add each amount in int64, rejecting as soon as the amount or
    the running total leaves the money range. *)
Fixpoint sum_amounts (total : Z) (amounts : list Z) : option Z :=
  match amounts with
  | [] => Some total
  | a :: rest =>
      let total := i64 (total + a) in
      if negb (MoneyRange a) || negb (MoneyRange total) then None else sum_amounts total rest
  end.

Definition transaction_get_value_out (tx : transaction) : Z :=
  default (-1) (
    total ← sum_amounts 0 (map value (vout tx));
    total ← (if value_balance tx <=? 0 then sum_amounts total [i64 (- value_balance tx)]
             else Some total);
    sum_amounts total (map vpub_old (v_joinsplit tx))).

Definition transaction_get_shielded_value_in (tx : transaction) : Z :=
  default (-1) (
    total ← (if value_balance tx >=? 0 then sum_amounts 0 [value_balance tx] else Some 0);
    sum_amounts total (map vpub_new (v_joinsplit tx))).

(** ** Wire format *)

Section Serialize.
Context `{Allocator}.

Definition outpoint_serialize (op : outpoint) : stream_m unit :=
  stream_write (op_hash op);;
  stream_write_u32_le (op_n op).

(** A script: its length, then its bytes unless it is empty *)
Definition write_script (sc : script) : stream_m unit :=
  stream_write_compact_size (zlen sc);;
  if zlen sc >? 0 then stream_write sc else mret tt.

Definition tx_in_serialize (i : tx_in) : stream_m unit :=
  outpoint_serialize (prevout i);;
  write_script (script_sig i);;
  stream_write_u32_le (sequence i).

Definition tx_out_serialize (o : tx_out) : stream_m unit :=
  stream_write_i64_le (value o);;
  write_script (script_pub_key o).

Definition spend_description_serialize (sd : spend_description) : stream_m unit :=
  stream_write (sd_cv sd);;
  stream_write (sd_anchor sd);;
  stream_write (sd_nullifier sd);;
  stream_write (sd_rk sd);;
  stream_write (sd_zkproof sd);;
  stream_write (sd_spend_auth_sig sd).

Definition output_description_serialize (od : output_description) : stream_m unit :=
  stream_write (od_cv od);;
  stream_write (od_cm od);;
  stream_write (od_ephemeral_key od);;
  stream_write (od_enc_ciphertext od);;
  stream_write (od_out_ciphertext od);;
  stream_write (od_zkproof od).

Definition js_description_serialize (jsd : js_description) : stream_m unit :=
  stream_write_i64_le (vpub_old jsd);;
  stream_write_i64_le (vpub_new jsd);;
  stream_write (js_anchor jsd);;
  write_items stream_write (js_nullifiers jsd);;
  write_items stream_write (js_commitments jsd);;
  stream_write (js_ephemeral_key jsd);;
  stream_write (js_random_seed jsd);;
  write_items stream_write (js_macs jsd);;
  stream_write (take (Z.to_nat (if js_use_groth jsd then GROTH_PROOF_SIZE else PHGR_PROOF_SIZE))
                     (js_proof jsd));;
  write_items stream_write (js_ciphertexts jsd).

Definition is_overwinter_v3 (ow : bool) (group_id ver : Z) : bool :=
  ow && (group_id =? OVERWINTER_VERSION_GROUP_ID) && (ver =? OVERWINTER_TX_VERSION).

Definition is_sapling_v4 (ow : bool) (group_id ver : Z) : bool :=
  ow && (group_id =? SAPLING_VERSION_GROUP_ID) && (ver =? SAPLING_TX_VERSION).

Definition write_vector {A} (w : A -> stream_m unit) (l : list A) : stream_m unit :=
  stream_write_compact_size (zlen l);;
  write_items w l.

Definition tx_header (tx : transaction) : Z :=
  let header := u32 (version tx) in
  if overwintered tx then header .| Z.shiftl 1 31 else header.

Definition transaction_serialize (tx : transaction) : stream_m unit :=
  let v3 := is_overwinter_v3 (overwintered tx) (version_group_id tx) (version tx) in
  let v4 := is_sapling_v4 (overwintered tx) (version_group_id tx) (version tx) in
  stream_write_u32_le (tx_header tx);;
  (if overwintered tx then stream_write_u32_le (version_group_id tx) else mret tt);;
  write_vector tx_in_serialize (vin tx);;
  write_vector tx_out_serialize (vout tx);;
  stream_write_u32_le (lock_time tx);;
  (if v3 || v4 then stream_write_u32_le (expiry_height tx) else mret tt);;
  (if v4 then
     stream_write_i64_le (value_balance tx);;
     write_vector spend_description_serialize (v_shielded_spend tx);;
     write_vector output_description_serialize (v_shielded_output tx)
   else mret tt);;
  (if version tx >=? 2 then
     write_vector js_description_serialize (v_joinsplit tx);;
     (if zlen (v_joinsplit tx) >? 0 then
        stream_write (joinsplit_pubkey tx);;
        stream_write (joinsplit_sig tx)
      else mret tt)
   else mret tt);;
  (if v4 && ((zlen (v_shielded_spend tx) >? 0) || (zlen (v_shielded_output tx) >? 0))
   then stream_write (binding_sig tx)
   else mret tt).

(** The scratch buffer of [transaction_compute_hash] and [transaction_serialize_size];
    the serialiser's return value is ignored there. *)
Definition transaction_scratch (tx : transaction) : bytes :=
  bs_data (snd (transaction_serialize tx (stream_init 4096))).

Definition transaction_serialize_size (tx : transaction) : Z := zlen (transaction_scratch tx).

Definition with_hash (tx : transaction) (h : uint256_t) : transaction := {|
  overwintered := overwintered tx; version := version tx; version_group_id := version_group_id tx;
  vin := vin tx; vout := vout tx; lock_time := lock_time tx; expiry_height := expiry_height tx;
  value_balance := value_balance tx; v_shielded_spend := v_shielded_spend tx;
  v_shielded_output := v_shielded_output tx; v_joinsplit := v_joinsplit tx;
  joinsplit_pubkey := joinsplit_pubkey tx; joinsplit_sig := joinsplit_sig tx;
  binding_sig := binding_sig tx; tx_hash := h |}.

Definition transaction_compute_hash `{HashFunctions} (tx : transaction) : transaction :=
  with_hash tx (h_hash256 (transaction_scratch tx)).

End Serialize.

Definition outpoint_deserialize : stream_m outpoint :=
  h ← stream_read 32;
  n ← stream_read_u32_le;
  mret {| op_hash := h; op_n := n |}.

Definition read_script : stream_m script :=
  script_len ← stream_read_compact_size;
  stream_guard (negb (script_len >? MAX_SCRIPT_SIZE));;
  if script_len >? 0 then stream_read script_len else mret [].

Definition tx_in_deserialize : stream_m tx_in :=
  p ← outpoint_deserialize;
  sc ← read_script;
  q ← stream_read_u32_le;
  mret {| prevout := p; script_sig := sc; sequence := q |}.

Definition tx_out_deserialize : stream_m tx_out :=
  v ← stream_read_i64_le;
  sc ← read_script;
  mret {| value := v; script_pub_key := sc |}.

Definition spend_description_deserialize : stream_m spend_description :=
  cv ← stream_read 32;
  anchor ← stream_read 32;
  nullifier ← stream_read 32;
  rk ← stream_read 32;
  zkproof ← stream_read GROTH_PROOF_SIZE;
  sig ← stream_read 64;
  mret {| sd_cv := cv; sd_anchor := anchor; sd_nullifier := nullifier; sd_rk := rk;
          sd_zkproof := zkproof; sd_spend_auth_sig := sig |}.

Definition output_description_deserialize : stream_m output_description :=
  cv ← stream_read 32;
  cm ← stream_read 32;
  epk ← stream_read 32;
  enc ← stream_read ZC_SAPLING_ENCCIPHERTEXT_SIZE;
  out ← stream_read ZC_SAPLING_OUTCIPHERTEXT_SIZE;
  zkproof ← stream_read GROTH_PROOF_SIZE;
  mret {| od_cv := cv; od_cm := cm; od_ephemeral_key := epk; od_enc_ciphertext := enc;
          od_out_ciphertext := out; od_zkproof := zkproof |}.

Definition js_description_deserialize (use_groth : bool) : stream_m js_description :=
  vold ← stream_read_i64_le;
  vnew ← stream_read_i64_le;
  anchor ← stream_read 32;
  nullifiers ← read_items (stream_read 32) ZC_NUM_JS_INPUTS;
  commitments ← read_items (stream_read 32) ZC_NUM_JS_OUTPUTS;
  epk ← stream_read 32;
  seed ← stream_read 32;
  macs ← read_items (stream_read 32) ZC_NUM_JS_INPUTS;
  let proof_size := if use_groth then GROTH_PROOF_SIZE else PHGR_PROOF_SIZE in
  proof ← stream_read proof_size;
  ciphertexts ← read_items (stream_read ZC_SPROUT_CIPHERTEXT_SIZE) ZC_NUM_JS_OUTPUTS;
  mret {| vpub_old := vold; vpub_new := vnew; js_anchor := anchor; js_nullifiers := nullifiers;
          js_commitments := commitments; js_ephemeral_key := epk; js_random_seed := seed;
          js_macs := macs; js_use_groth := use_groth;
          js_proof := proof ++ replicate (Z.to_nat (PHGR_PROOF_SIZE - proof_size)) 0;
          js_ciphertexts := ciphertexts |}.

Definition read_vector {A} (max : Z) (r : stream_m A) : stream_m (list A) :=
  n ← stream_read_compact_size;
  stream_guard (negb (n >? max));;
  read_items r (Z.to_nat n).

(** The Sapling part: value balance, spends and outputs *)
Definition read_sapling (v4 : bool)
    : stream_m (Z * list spend_description * list output_description) :=
  if v4 then
    vb ← stream_read_i64_le;
    spends ← read_vector MAX_SHIELDED_SPENDS spend_description_deserialize;
    outputs ← read_vector MAX_SHIELDED_OUTPUTS output_description_deserialize;
    mret (vb, spends, outputs)
  else mret (0, [], []).

(** The Sprout part: joinsplits with their key and signature *)
Definition read_joinsplits (ow : bool) (ver : Z) : stream_m (list js_description * uint256_t * bytes) :=
  if ver >=? 2 then
    js ← read_vector MAX_JOINSPLITS
           (js_description_deserialize (ow && (ver >=? SAPLING_TX_VERSION)));
    if zlen js >? 0 then
      pk ← stream_read 32;
      sig ← stream_read 64;
      mret (js, pk, sig)
    else mret (js, uint256_null, replicate 64 0)
  else mret ([], uint256_null, replicate 64 0).

Definition transaction_deserialize `{Allocator} `{HashFunctions} : stream_m transaction :=
  header ← stream_read_u32_le;
  let ow := negb (Z.shiftr header 31 =? 0) in
  let ver := i32 (header .& 0x7FFFFFFF) in
  group_id ← (if ow then stream_read_u32_le else mret 0);
  let v3 := is_overwinter_v3 ow group_id ver in
  let v4 := is_sapling_v4 ow group_id ver in
  stream_guard (negb (ow && negb (v3 || v4)));;
  ins ← read_vector MAX_TX_INPUTS tx_in_deserialize;
  outs ← read_vector MAX_TX_OUTPUTS tx_out_deserialize;
  lt ← stream_read_u32_le;
  expiry ← (if v3 || v4 then stream_read_u32_le else mret 0);
  '(vb, spends, outputs) ← read_sapling v4;
  '(js, pk, sig) ← read_joinsplits ow ver;
  binding ← (if v4 && ((zlen spends >? 0) || (zlen outputs >? 0))
             then stream_read 64 else mret (replicate 64 0));
  mret (transaction_compute_hash
    {| overwintered := ow; version := ver; version_group_id := group_id; vin := ins; vout := outs;
       lock_time := lt; expiry_height := expiry; value_balance := vb; v_shielded_spend := spends;
       v_shielded_output := outputs; v_joinsplit := js; joinsplit_pubkey := pk;
       joinsplit_sig := sig; binding_sig := binding; tx_hash := uint256_null |}).

(** ** Well-formed values: the types and sizes of the C structures, and the limits *)

Definition script_ok (sc : script) : Prop := zlen sc <= MAX_SCRIPT_SIZE /\ bytes_ok sc.

Definition outpoint_ok (op : outpoint) : Prop := fixed 32 (op_hash op) /\ is_u 32 (op_n op).

Definition tx_in_ok (i : tx_in) : Prop :=
  outpoint_ok (prevout i) /\ script_ok (script_sig i) /\ is_u 32 (sequence i).

Definition tx_out_ok (o : tx_out) : Prop := is_s 64 (value o) /\ script_ok (script_pub_key o).

Definition spend_ok (sd : spend_description) : Prop :=
  fixed 32 (sd_cv sd) /\ fixed 32 (sd_anchor sd) /\ fixed 32 (sd_nullifier sd) /\
  fixed 32 (sd_rk sd) /\ fixed GROTH_PROOF_SIZE (sd_zkproof sd) /\ fixed 64 (sd_spend_auth_sig sd).

Definition output_ok (od : output_description) : Prop :=
  fixed 32 (od_cv od) /\ fixed 32 (od_cm od) /\ fixed 32 (od_ephemeral_key od) /\
  fixed ZC_SAPLING_ENCCIPHERTEXT_SIZE (od_enc_ciphertext od) /\
  fixed ZC_SAPLING_OUTCIPHERTEXT_SIZE (od_out_ciphertext od) /\
  fixed GROTH_PROOF_SIZE (od_zkproof od).

Definition array_ok {A} (n : nat) (P : A -> Prop) (l : list A) : Prop := length l = n /\ Forall P l.

Definition proof_size (use_groth : bool) : Z :=
  if use_groth then GROTH_PROOF_SIZE else PHGR_PROOF_SIZE.

(** A Groth16 proof occupies the front of the larger PHGR13 buffer, zero-padded. *)
Definition js_ok (use_groth : bool) (js : js_description) : Prop :=
  is_s 64 (vpub_old js) /\ is_s 64 (vpub_new js) /\ fixed 32 (js_anchor js) /\
  array_ok ZC_NUM_JS_INPUTS (fixed 32) (js_nullifiers js) /\
  array_ok ZC_NUM_JS_OUTPUTS (fixed 32) (js_commitments js) /\
  fixed 32 (js_ephemeral_key js) /\ fixed 32 (js_random_seed js) /\
  array_ok ZC_NUM_JS_INPUTS (fixed 32) (js_macs js) /\
  js_use_groth js = use_groth /\
  (exists p, fixed (proof_size use_groth) p /\
     js_proof js = p ++ replicate (Z.to_nat (PHGR_PROOF_SIZE - proof_size use_groth)) 0) /\
  array_ok ZC_NUM_JS_OUTPUTS (fixed ZC_SPROUT_CIPHERTEXT_SIZE) (js_ciphertexts js).

Definition vector_ok {A} (max : Z) (P : A -> Prop) (l : list A) : Prop :=
  zlen l <= max /\ Forall P l.

(** The parts of a transaction that the version does not carry have their initial value. *)
Definition tx_ok (tx : transaction) : Prop :=
  let ow := overwintered tx in
  let v3 := is_overwinter_v3 ow (version_group_id tx) (version tx) in
  let v4 := is_sapling_v4 ow (version_group_id tx) (version tx) in
  0 <= version tx < 2 ^ 31 /\
  (if ow then v3 || v4 = true else version_group_id tx = 0) /\
  vector_ok MAX_TX_INPUTS tx_in_ok (vin tx) /\
  vector_ok MAX_TX_OUTPUTS tx_out_ok (vout tx) /\
  is_u 32 (lock_time tx) /\
  (if v3 || v4 then is_u 32 (expiry_height tx) else expiry_height tx = 0) /\
  (if v4 then is_s 64 (value_balance tx) /\
              vector_ok MAX_SHIELDED_SPENDS spend_ok (v_shielded_spend tx) /\
              vector_ok MAX_SHIELDED_OUTPUTS output_ok (v_shielded_output tx)
   else value_balance tx = 0 /\ v_shielded_spend tx = [] /\ v_shielded_output tx = []) /\
  (if version tx >=? 2
   then vector_ok MAX_JOINSPLITS (js_ok (ow && (version tx >=? SAPLING_TX_VERSION))) (v_joinsplit tx)
   else v_joinsplit tx = []) /\
  (if zlen (v_joinsplit tx) >? 0
   then fixed 32 (joinsplit_pubkey tx) /\ fixed 64 (joinsplit_sig tx)
   else joinsplit_pubkey tx = uint256_null /\ joinsplit_sig tx = replicate 64 0) /\
  (if (zlen (v_shielded_spend tx) >? 0) || (zlen (v_shielded_output tx) >? 0)
   then fixed 64 (binding_sig tx) else binding_sig tx = replicate 64 0).

Lemma memcmp_eq a b : length a = length b -> memcmp a b = 0 <-> a = b.
Proof.
  revert b. induction a as [|x a IH]; intros [|y b]; try done. simpl. intros [= Hl].
  destruct (Z.eqb_spec x y) as [->|Hne].
  - rewrite (IH b Hl). naive_solver.
  - split; [by case_if|naive_solver].
Qed.

Lemma uint256_eq_spec n a b : fixed n a -> fixed n b -> uint256_eq a b = true <-> a = b.
Proof. intros [Ha _] [Hb _]. unfold uint256_eq. rewrite Z.eqb_eq. apply memcmp_eq. lia. Qed.

(** ** The encodings *)

Definition outpoint_bytes (op : outpoint) : bytes := op_hash op ++ le_encode 4 (op_n op).

Definition script_bytes (sc : script) : bytes := compact_size_bytes (zlen sc) ++ sc.

Definition tx_in_bytes (i : tx_in) : bytes :=
  outpoint_bytes (prevout i) ++ script_bytes (script_sig i) ++ le_encode 4 (sequence i).

Definition tx_out_bytes (o : tx_out) : bytes :=
  le_encode 8 (u64 (value o)) ++ script_bytes (script_pub_key o).

Definition spend_bytes (sd : spend_description) : bytes :=
  sd_cv sd ++ sd_anchor sd ++ sd_nullifier sd ++ sd_rk sd ++ sd_zkproof sd ++ sd_spend_auth_sig sd.

Definition output_bytes (od : output_description) : bytes :=
  od_cv od ++ od_cm od ++ od_ephemeral_key od ++ od_enc_ciphertext od ++ od_out_ciphertext od ++
  od_zkproof od.

Definition js_bytes (js : js_description) : bytes :=
  le_encode 8 (u64 (vpub_old js)) ++ le_encode 8 (u64 (vpub_new js)) ++ js_anchor js ++
  mjoin (map id (js_nullifiers js)) ++ mjoin (map id (js_commitments js)) ++
  js_ephemeral_key js ++ js_random_seed js ++ mjoin (map id (js_macs js)) ++
  take (Z.to_nat (proof_size (js_use_groth js))) (js_proof js) ++
  mjoin (map id (js_ciphertexts js)).

Definition vector_bytes {A} (enc : A -> bytes) (l : list A) : bytes :=
  compact_size_bytes (zlen l) ++ mjoin (map enc l).

Definition tx_bytes (tx : transaction) : bytes :=
  let v3 := is_overwinter_v3 (overwintered tx) (version_group_id tx) (version tx) in
  let v4 := is_sapling_v4 (overwintered tx) (version_group_id tx) (version tx) in
  le_encode 4 (tx_header tx) ++
  (if overwintered tx then le_encode 4 (version_group_id tx) else []) ++
  vector_bytes tx_in_bytes (vin tx) ++
  vector_bytes tx_out_bytes (vout tx) ++
  le_encode 4 (lock_time tx) ++
  (if v3 || v4 then le_encode 4 (expiry_height tx) else []) ++
  (if v4 then le_encode 8 (u64 (value_balance tx)) ++
              vector_bytes spend_bytes (v_shielded_spend tx) ++
              vector_bytes output_bytes (v_shielded_output tx) else []) ++
  (if version tx >=? 2
   then vector_bytes js_bytes (v_joinsplit tx) ++
        (if zlen (v_joinsplit tx) >? 0 then joinsplit_pubkey tx ++ joinsplit_sig tx else [])
   else []) ++
  (if v4 && ((zlen (v_shielded_spend tx) >? 0) || (zlen (v_shielded_output tx) >? 0))
   then binding_sig tx else []).

(** ** The serialisers emit the encodings *)

Create HintDb codec discriminated.
#[export] Hint Resolve emits_bind emits_write emits_ret : codec.
#[export] Hint Extern 1 (emits (stream_write_u32_le _) _) => apply emits_write : codec.
#[export] Hint Extern 1 (emits (stream_write_i64_le _) _) => apply emits_write : codec.

Lemma emits_if `{Allocator} (b : bool) m1 m2 l1 l2 :
  (b = true -> emits m1 l1) -> (b = false -> emits m2 l2) ->
  emits (if b then m1 else m2) (if b then l1 else l2).
Proof. destruct b; auto. Qed.

#[export] Hint Resolve emits_if : codec.

Lemma zlen_u64 {A} (l : list A) max : max < 2 ^ 64 -> zlen l <= max -> is_u 64 (zlen l).
Proof. unfold is_u, zlen. lia. Qed.

Section Emit.
Context `{AllocatorTotal}.

Lemma emits_script sc : script_ok sc -> emits (write_script sc) (script_bytes sc).
Proof.
  intros [Hl _]. apply emits_bind; [apply emits_compact_size; by eapply zlen_u64; [|exact Hl]|].
  destruct sc; [apply emits_ret|apply emits_write].
Qed.

Lemma emits_blobs l : emits (write_items stream_write l) (mjoin (map id l)).
Proof. apply emits_items, Forall_forall. intros. apply emits_write. Qed.

Lemma emits_vector {A} (w : A -> stream_m unit) enc (P : A -> Prop) max l :
  max < 2 ^ 64 -> (forall a, P a -> emits (w a) (enc a)) -> vector_ok max P l ->
  emits (write_vector w l) (vector_bytes enc l).
Proof.
  intros Hmax Hw [Hl HP]. apply emits_bind; [by eapply emits_compact_size, zlen_u64|].
  apply emits_items. eapply Forall_impl; eauto.
Qed.

Hint Resolve emits_script emits_blobs : codec.

Lemma emits_tx_in i : tx_in_ok i -> emits (tx_in_serialize i) (tx_in_bytes i).
Proof. intros (? & ? & ?). unfold tx_in_serialize, tx_in_bytes, outpoint_serialize, outpoint_bytes. auto with codec. Qed.

Lemma emits_tx_out o : tx_out_ok o -> emits (tx_out_serialize o) (tx_out_bytes o).
Proof. intros (? & ?). unfold tx_out_serialize, tx_out_bytes. auto with codec. Qed.

Lemma emits_spend sd : emits (spend_description_serialize sd) (spend_bytes sd).
Proof. unfold spend_description_serialize, spend_bytes. auto 10 with codec. Qed.

Lemma emits_output od : emits (output_description_serialize od) (output_bytes od).
Proof. unfold output_description_serialize, output_bytes. auto 10 with codec. Qed.

Lemma emits_js js : emits (js_description_serialize js) (js_bytes js).
Proof. unfold js_description_serialize, js_bytes, proof_size. auto 20 with codec. Qed.

Lemma emits_tx tx : tx_ok tx -> emits (transaction_serialize tx) (tx_bytes tx).
Proof.
  intros (Hv & Hg & Hin & Hout & Hlt & Hex & Hsap & Hjs & Hpk & Hb).
  unfold transaction_serialize, tx_bytes. cbv zeta.
  apply emits_bind; [auto with codec|]. apply emits_bind; [auto with codec|].
  apply emits_bind; [by eapply emits_vector, Hin; [|apply emits_tx_in]|].
  apply emits_bind; [by eapply emits_vector, Hout; [|apply emits_tx_out]|].
  apply emits_bind; [auto with codec|]. apply emits_bind; [auto with codec|].
  apply emits_bind; [|apply emits_bind; [|auto with codec]].
  - apply emits_if; [|auto with codec]. intros E. cbv zeta in Hsap. rewrite E in Hsap. destruct Hsap as (_ & Hs & Ho).
    apply emits_bind; [auto with codec|].
    apply emits_bind; [by eapply emits_vector, Hs; [|intros; apply emits_spend]|].
    by eapply emits_vector, Ho; [|intros; apply emits_output].
  - apply emits_if; [|auto with codec]. intros E. rewrite E in Hjs.
    apply emits_bind; [by eapply emits_vector, Hjs; [|intros; apply emits_js]|].
    auto with codec.
Qed.

End Emit.

(** ** The deserialisers invert them *)

#[export] Hint Resolve parses_u32 parses_i64 : codec.

Lemma parses_fixed n l : fixed n l -> parses (stream_read n) l l.
Proof. intros [Hl _]. by apply parses_read. Qed.

Lemma parses_if {A} (b : bool) (m1 m2 : stream_m A) l1 l2 a :
  (b = true -> parses m1 l1 a) -> (b = false -> parses m2 l2 a) ->
  parses (if b then m1 else m2) (if b then l1 else l2) a.
Proof. destruct b; auto. Qed.

Lemma parses_ret_eq {A} (a b : A) : a = b -> parses (mret a) [] b.
Proof. intros ->. apply parses_ret. Qed.

Lemma parses_script sc : script_ok sc -> parses read_script (script_bytes sc) sc.
Proof.
  intros [Hl _]. eapply parses_bind; [apply parses_compact_size; by eapply zlen_u64; [|exact Hl]|].
  apply parses_guard; [lia|].
  destruct sc; [apply parses_ret|by apply parses_read].
Qed.

Lemma parses_blobs n k l : array_ok n (fixed k) l ->
  parses (read_items (stream_read k) n) (mjoin (map id l)) l.
Proof.
  intros [Hn Hl]. apply parses_items; [done|]. eapply Forall_impl; [exact Hl|].
  intros. by apply parses_fixed.
Qed.

Lemma parses_vector {A} (r : stream_m A) enc (P : A -> Prop) max l :
  max < 2 ^ 64 -> (forall a, P a -> parses r (enc a) a) -> vector_ok max P l ->
  parses (read_vector max r) (vector_bytes enc l) l.
Proof.
  intros Hmax Hr [Hl HP]. eapply parses_bind; [by eapply parses_compact_size, zlen_u64|].
  apply parses_guard; [lia|]. apply parses_items; [unfold zlen; lia|]. eapply Forall_impl; eauto.
Qed.

#[export] Hint Resolve parses_fixed parses_script parses_blobs : codec.

(** Read the next field, or build the result from the last one. *)
Ltac read_fields :=
  repeat (eapply parses_bind; [solve [eauto with codec]|]; cbv beta);
  (eapply parses_map; [solve [eauto with codec]|]); try done.

Lemma parses_outpoint op : outpoint_ok op -> parses outpoint_deserialize (outpoint_bytes op) op.
Proof. destruct op. intros [??]; simpl in *. read_fields. Qed.

#[export] Hint Resolve parses_outpoint : codec.

Lemma parses_tx_in i : tx_in_ok i -> parses tx_in_deserialize (tx_in_bytes i) i.
Proof. destruct i. intros (? & ? & ?); simpl in *. read_fields. Qed.

Lemma parses_tx_out o : tx_out_ok o -> parses tx_out_deserialize (tx_out_bytes o) o.
Proof. destruct o. intros (? & ?); simpl in *. read_fields. Qed.

Lemma parses_spend sd : spend_ok sd -> parses spend_description_deserialize (spend_bytes sd) sd.
Proof. destruct sd. intros (? & ? & ? & ? & ? & ?); simpl in *. read_fields. Qed.

Lemma parses_output od : output_ok od -> parses output_description_deserialize (output_bytes od) od.
Proof. destruct od. intros (? & ? & ? & ? & ? & ?); simpl in *. read_fields. Qed.

Lemma parses_js g js : js_ok g js -> parses (js_description_deserialize g) (js_bytes js) js.
Proof.
  destruct js. intros (? & ? & ? & ? & ? & ? & ? & ? & Hg & (p & Hp & Ep) & ?); simpl in *.
  subst js_use_groth0 js_proof0. unfold js_description_deserialize, js_bytes. cbn [vpub_old vpub_new js_anchor js_nullifiers
    js_commitments js_ephemeral_key js_random_seed js_macs js_use_groth js_proof js_ciphertexts].
  rewrite take_app_length' by (destruct Hp; lia). cbv zeta.
  fold (proof_size g). read_fields.
Qed.

Lemma parses_sapling (v4 : bool) vb spends outs :
  (if v4 then is_s 64 vb /\ vector_ok MAX_SHIELDED_SPENDS spend_ok spends /\
              vector_ok MAX_SHIELDED_OUTPUTS output_ok outs
   else vb = 0 /\ spends = [] /\ outs = []) ->
  parses (read_sapling v4)
    (if v4 then le_encode 8 (u64 vb) ++ vector_bytes spend_bytes spends ++ vector_bytes output_bytes outs
     else []) (vb, spends, outs).
Proof.
  intros Hok. apply parses_if; intros ->.
  - destruct Hok as (? & Hs & Ho). eapply parses_bind; [auto with codec|].
    eapply parses_bind; [by eapply parses_vector, Hs; [|apply parses_spend]|].
    eapply parses_map; [by eapply parses_vector, Ho; [|apply parses_output]|done].
  - destruct Hok as (-> & -> & ->). apply parses_ret.
Qed.

Lemma parses_joinsplits ow ver js pk sig :
  (if ver >=? 2 then vector_ok MAX_JOINSPLITS (js_ok (ow && (ver >=? SAPLING_TX_VERSION))) js
   else js = []) ->
  (if zlen js >? 0 then fixed 32 pk /\ fixed 64 sig
   else pk = uint256_null /\ sig = replicate 64 0) ->
  parses (read_joinsplits ow ver)
    (if ver >=? 2 then vector_bytes js_bytes js ++ (if zlen js >? 0 then pk ++ sig else []) else [])
    (js, pk, sig).
Proof.
  intros Hjs Hpk. apply parses_if; intros E; rewrite E in Hjs.
  - eapply parses_bind; [by eapply parses_vector, Hjs; [|apply parses_js]|].
    apply parses_if; intros E'; rewrite E' in Hpk; destruct Hpk.
    + read_fields.
    + apply parses_ret_eq. congruence.
  - subst js. destruct Hpk as [-> ->]. apply parses_ret.
Qed.

(** The header word carries the overwintered bit above a 31-bit version. *)
Lemma tx_header_fields tx : 0 <= version tx < 2 ^ 31 ->
  is_u 32 (tx_header tx) /\ negb (Z.shiftr (tx_header tx) 31 =? 0) = overwintered tx /\
  i32 (tx_header tx .& 0x7FFFFFFF) = version tx.
Proof.
  intros Hv. unfold tx_header. change 0x7FFFFFFF with (Z.ones 31).
  rewrite Z.land_ones, Z.shiftr_div_pow2 by lia.
  rewrite (uwrap_small 32) by (unfold is_u; lia).
  assert (is_s 32 (version tx)) as Hs by (unfold is_s; lia).
  destruct (overwintered tx).
  - rewrite Z.shiftl_mul_pow2 by lia.
    rewrite lor_disjoint_add by lia.
    rewrite Z_mod_plus, Z.mod_small, Z.div_add, Z.div_small by lia.
    rewrite swrap_small by (done || lia). unfold is_u. split_and!; [lia|lia|done|done].
  - rewrite Z.mod_small, Z.div_small by lia. rewrite swrap_small by (done || lia).
    unfold is_u. split_and!; [lia|lia|done|done].
Qed.

(** ** Sizes: no well-formed transaction comes near the address space *)

Lemma compact_size_bytes_le n : zlen (compact_size_bytes n) <= 9.
Proof. unfold zlen. rewrite compact_size_bytes_length. unfold compact_size_sizeof. by repeat case_if. Qed.

Lemma zlen_mjoin {A} (enc : A -> bytes) k l :
  Forall (fun a => zlen (enc a) <= k) l -> zlen (mjoin (map enc l)) <= k * zlen l.
Proof.
  induction 1 as [|a l Ha Hl IH]; [unfold zlen; simpl; lia|].
  change (mjoin (map enc (a :: l))) with (enc a ++ mjoin (map enc l)).
  rewrite zlen_app, zlen_cons. lia.
Qed.

Lemma zlen_vector_bytes {A} (enc : A -> bytes) (P : A -> Prop) max k l :
  0 <= k -> (forall a, P a -> zlen (enc a) <= k) -> vector_ok max P l ->
  zlen (vector_bytes enc l) <= 9 + k * max.
Proof.
  intros Hk Henc [Hl HP]. unfold vector_bytes. rewrite zlen_app.
  pose proof (compact_size_bytes_le (zlen l)).
  pose proof (zlen_mjoin enc k l (Forall_impl _ _ _ HP Henc)). nia.
Qed.

Lemma zlen_script_bytes sc : script_ok sc -> zlen (script_bytes sc) <= 10009.
Proof.
  intros [Hl _]. unfold script_bytes, MAX_SCRIPT_SIZE in *. rewrite zlen_app.
  pose proof (compact_size_bytes_le (zlen sc)). lia.
Qed.

Lemma fixed_zlen n l : fixed n l -> zlen l = n.
Proof. by intros [? _]. Qed.

Lemma zlen_blobs n k l : array_ok n (fixed k) l -> zlen (mjoin (map id l)) <= k * Z.of_nat n.
Proof.
  intros [Hn Hl]. rewrite <- Hn. apply zlen_mjoin. eapply Forall_impl; [exact Hl|].
  intros a Ha. unfold id. by rewrite (fixed_zlen _ _ Ha).
Qed.

Lemma zlen_tx_in_bytes i : tx_in_ok i -> zlen (tx_in_bytes i) <= 10049.
Proof.
  intros ((Hh & _) & Hs & _). unfold tx_in_bytes, outpoint_bytes.
  rewrite !zlen_app, !zlen_le_encode, (fixed_zlen _ _ Hh).
  pose proof (zlen_script_bytes _ Hs). lia.
Qed.

Lemma zlen_tx_out_bytes o : tx_out_ok o -> zlen (tx_out_bytes o) <= 10017.
Proof.
  intros (_ & Hs). unfold tx_out_bytes. rewrite !zlen_app, !zlen_le_encode.
  pose proof (zlen_script_bytes _ Hs). lia.
Qed.

Lemma zlen_spend_bytes sd : spend_ok sd -> zlen (spend_bytes sd) <= 384.
Proof.
  intros (H1 & H2 & H3 & H4 & H5 & H6). unfold spend_bytes. rewrite !zlen_app.
  rewrite (fixed_zlen _ _ H1), (fixed_zlen _ _ H2), (fixed_zlen _ _ H3), (fixed_zlen _ _ H4),
    (fixed_zlen _ _ H5), (fixed_zlen _ _ H6). done.
Qed.

Lemma zlen_output_bytes od : output_ok od -> zlen (output_bytes od) <= 948.
Proof.
  intros (H1 & H2 & H3 & H4 & H5 & H6). unfold output_bytes. rewrite !zlen_app.
  rewrite (fixed_zlen _ _ H1), (fixed_zlen _ _ H2), (fixed_zlen _ _ H3), (fixed_zlen _ _ H4),
    (fixed_zlen _ _ H5), (fixed_zlen _ _ H6). done.
Qed.

Lemma zlen_js_bytes g js : js_ok g js -> zlen (js_bytes js) <= 2000.
Proof.
  intros (_ & _ & H1 & H2 & H3 & H4 & H5 & H6 & Hg & (p & Hp & Ep) & H7). unfold js_bytes.
  rewrite !zlen_app, !zlen_le_encode.
  rewrite (fixed_zlen _ _ H1), (fixed_zlen _ _ H4), (fixed_zlen _ _ H5).
  pose proof (zlen_blobs _ _ _ H2). pose proof (zlen_blobs _ _ _ H3).
  pose proof (zlen_blobs _ _ _ H6). pose proof (zlen_blobs _ _ _ H7).
  assert (zlen (take (Z.to_nat (proof_size (js_use_groth js))) (js_proof js)) <= PHGR_PROOF_SIZE).
  { unfold zlen. rewrite length_take. unfold proof_size, GROTH_PROOF_SIZE, PHGR_PROOF_SIZE. case_if; lia. }
  unfold ZC_NUM_JS_INPUTS, ZC_NUM_JS_OUTPUTS, ZC_SPROUT_CIPHERTEXT_SIZE, PHGR_PROOF_SIZE in *. lia.
Qed.

Lemma zlen_if (b : bool) (l : bytes) k :
  0 <= k -> (b = true -> zlen l <= k) -> zlen (if b then l else []) <= k.
Proof. destruct b; intros ? Hl; [auto|done]. Qed.

Lemma zlen_if_le_encode (b : bool) n v : zlen (if b then le_encode n v else []) <= Z.of_nat n.
Proof. apply zlen_if; [lia|]. rewrite zlen_le_encode. lia. Qed.

Lemma sapling_part_size vb spends outs :
  vector_ok MAX_SHIELDED_SPENDS spend_ok spends -> vector_ok MAX_SHIELDED_OUTPUTS output_ok outs ->
  zlen (le_encode 8 (u64 vb) ++ vector_bytes spend_bytes spends ++ vector_bytes output_bytes outs)
  <= 5500000.
Proof.
  intros Hs Ho. rewrite !zlen_app, zlen_le_encode.
  pose proof (zlen_vector_bytes _ _ _ 384 _ ltac:(done) zlen_spend_bytes Hs).
  pose proof (zlen_vector_bytes _ _ _ 948 _ ltac:(done) zlen_output_bytes Ho).
  unfold MAX_SHIELDED_OUTPUTS, MAX_SHIELDED_SPENDS in *. lia.
Qed.

Lemma joinsplit_part_size g js pk sig :
  vector_ok MAX_JOINSPLITS (js_ok g) js ->
  (if zlen js >? 0 then fixed 32 pk /\ fixed 64 sig
   else pk = uint256_null /\ sig = replicate 64 0) ->
  zlen (vector_bytes js_bytes js ++ (if zlen js >? 0 then pk ++ sig else [])) <= 8200000.
Proof.
  intros Hjs Hpk. rewrite zlen_app.
  pose proof (zlen_vector_bytes _ _ _ 2000 _ ltac:(done) (zlen_js_bytes _) Hjs).
  enough (zlen (if zlen js >? 0 then pk ++ sig else []) <= 96)
    by (unfold MAX_JOINSPLITS in *; lia).
  apply zlen_if; [done|]. intros E. rewrite E in Hpk. destruct Hpk as [H1 H2].
  rewrite zlen_app, (fixed_zlen _ _ H1), (fixed_zlen _ _ H2). done.
Qed.

Lemma tx_bytes_size tx : tx_ok tx -> zlen (tx_bytes tx) < 2 ^ 31.
Proof.
  intros (Hv & Hg & Hin & Hout & Hlt & Hex & Hsap & Hjs & Hpk & Hb). unfold tx_bytes. cbv zeta in *.
  rewrite !(zlen_app _ _), !zlen_le_encode.
  pose proof (zlen_vector_bytes _ _ _ 10049 _ ltac:(done) zlen_tx_in_bytes Hin).
  pose proof (zlen_vector_bytes _ _ _ 10017 _ ltac:(done) zlen_tx_out_bytes Hout).
  set (v4 := is_sapling_v4 _ _ _) in *. set (v3 := is_overwinter_v3 _ _ _) in *.
  pose proof (zlen_if_le_encode (overwintered tx) 4 (version_group_id tx)).
  pose proof (zlen_if_le_encode (v3 || v4) 4 (expiry_height tx)).
  epose proof (zlen_if v4 _ 5500000 ltac:(done)
    (fun E => sapling_part_size (value_balance tx) (v_shielded_spend tx) (v_shielded_output tx) _ _)).
  epose proof (zlen_if (version tx >=? 2) _ 8200000 ltac:(done)
    (fun E => joinsplit_part_size (overwintered tx && (version tx >=? SAPLING_TX_VERSION))
       (v_joinsplit tx) (joinsplit_pubkey tx) (joinsplit_sig tx) _ Hpk)).
  epose proof (zlen_if (v4 && ((zlen (v_shielded_spend tx) >? 0) || (zlen (v_shielded_output tx) >? 0)))
    (binding_sig tx) 64 ltac:(done) _).
  unfold MAX_TX_INPUTS, MAX_TX_OUTPUTS in *. lia.
  Unshelve.
  - rewrite E in Hsap. by destruct Hsap as (_ & ? & _).
  - rewrite E in Hsap. by destruct Hsap as (_ & _ & ?).
  - by rewrite E in Hjs.
  - intros [_ E]%andb_prop. rewrite E in Hb. by rewrite (fixed_zlen _ _ Hb).
Qed.

(** ** Whole transactions *)

Section Parse.
Context `{AllocatorTotal} `{HashFunctions}.

Lemma stream_init_writable cap n : 0 <= cap <= SIZE_MAX -> n <= SIZE_MAX ->
  writable n (stream_init cap).
Proof.
  intros ? ?. unfold writable, stream_ok, stream_init, bs_size. rewrite alloc_total, orb_true_r.
  simpl. split_and!; try done; lia.
Qed.

Lemma transaction_scratch_bytes tx : tx_ok tx -> transaction_scratch tx = tx_bytes tx.
Proof.
  intros Hok. pose proof (tx_bytes_size tx Hok). unfold transaction_scratch.
  destruct (emits_tx tx Hok (stream_init 4096)) as (s & E & Hd & _).
  - apply stream_init_writable; unfold zlen, SIZE_MAX in *; lia.
  - rewrite E. simpl. by rewrite Hd.
Qed.

Lemma parses_tx tx : tx_ok tx ->
  parses transaction_deserialize (tx_bytes tx) (with_hash tx (h_hash256 (tx_bytes tx))).
Proof.
  intros Hok. pose proof (transaction_scratch_bytes (with_hash tx uint256_null) Hok) as Hsc.
  destruct Hok as (Hv & Hg & Hin & Hout & Hlt & Hex & Hsap & Hjs & Hpk & Hb). cbv zeta in *.
  destruct (tx_header_fields tx Hv) as (Hh & How & Hver).
  unfold transaction_deserialize, tx_bytes at 1. cbv zeta.
  eapply parses_bind; [auto with codec|]. rewrite How, Hver.
  eapply parses_bind with (a := version_group_id tx).
  { apply parses_if; intros E; rewrite E in Hg; [|by apply parses_ret_eq].
    apply parses_u32. unfold is_overwinter_v3, is_sapling_v4, OVERWINTER_VERSION_GROUP_ID,
      SAPLING_VERSION_GROUP_ID in Hg. unfold is_u. zbool; lia. }
  apply parses_guard.
  { destruct (overwintered tx); [by rewrite Hg|done]. }
  eapply parses_bind; [by eapply parses_vector, Hin; [|apply parses_tx_in]|].
  eapply parses_bind; [by eapply parses_vector, Hout; [|apply parses_tx_out]|].
  eapply parses_bind; [auto with codec|].
  eapply parses_bind with (a := expiry_height tx).
  { apply parses_if; intros E; rewrite E in Hex; [auto with codec|by apply parses_ret_eq]. }
  eapply parses_bind; [by apply parses_sapling|]. cbv iota.
  eapply parses_bind; [by apply parses_joinsplits|]. cbv iota.
  eapply parses_map with (a := binding_sig tx).
  - apply parses_if; intros E.
    + apply andb_prop in E as [_ E]. rewrite E in Hb. auto with codec.
    + apply parses_ret_eq. destruct (is_sapling_v4 _ _ _).
      * simpl in E. by rewrite E in Hb.
      * destruct Hsap as (_ & E1 & E2). by rewrite E1, E2 in Hb.
  - unfold transaction_compute_hash. change (tx_bytes tx) with (tx_bytes (with_hash tx uint256_null)).
    rewrite <- Hsc. by destruct tx.
Qed.

(** *** Whatever the parser accepts is well-formed *)

Lemma yields_script : yields read_script script_ok.
Proof.
  eapply yields_bind; [apply yields_compact_size|]. intros n Hn.
  eapply yields_bind; [apply yields_guard|]. intros [] Hle.
  case_if.
  - eapply yields_weaken; [apply yields_read; lia|]. intros sc [Hl Hb].
    split; [unfold zlen; lia|done].
  - apply yields_ret. by split; [|constructor].
Qed.

Lemma yields_vector {A} (r : stream_m A) (P : A -> Prop) max :
  yields r P -> yields (read_vector max r) (vector_ok max P).
Proof.
  intros Hr. eapply yields_bind; [apply yields_compact_size|]. intros n Hn.
  eapply yields_bind; [apply yields_guard|]. intros [] Hle.
  eapply yields_weaken; [by apply yields_items|]. intros l [Hl HP].
  split; [unfold zlen, is_u in *; lia|done].
Qed.

Hint Resolve yields_u32 yields_i64 yields_script yields_vector yields_items : codec.
Hint Extern 1 (yields (stream_read _) _) => apply yields_read : codec.
Hint Extern 1 (0 <= _) => done : codec.

Ltac yield_fields :=
  repeat (eapply yields_bind; [solve [eauto with codec]|]; intros ? ?; cbv beta);
  apply yields_ret.

Lemma yields_tx_in : yields tx_in_deserialize tx_in_ok.
Proof.
  eapply yields_bind with (P := outpoint_ok); [yield_fields; done|]. intros p Hp. by yield_fields.
Qed.

Lemma yields_tx_out : yields tx_out_deserialize tx_out_ok.
Proof. by yield_fields. Qed.

Lemma yields_spend : yields spend_description_deserialize spend_ok.
Proof. yield_fields. unfold spend_ok. simpl. auto 10. Qed.

Lemma yields_output : yields output_description_deserialize output_ok.
Proof. yield_fields. unfold output_ok. simpl. auto 10. Qed.

Lemma yields_js g : yields (js_description_deserialize g) (js_ok g).
Proof.
  unfold js_description_deserialize. cbv zeta. fold (proof_size g).
  assert (0 <= proof_size g) by (by destruct g).
  yield_fields. unfold js_ok. simpl. split_and!; eauto.
Qed.

Hint Resolve yields_tx_in yields_tx_out yields_spend yields_output yields_js : codec.

Lemma yields_if {A} (b : bool) (m1 m2 : stream_m A) P :
  (b = true -> yields m1 P) -> (b = false -> yields m2 P) -> yields (if b then m1 else m2) P.
Proof. destruct b; auto. Qed.

Lemma yields_sapling v4 : yields (read_sapling v4) (fun '(vb, spends, outs) =>
  if v4 then is_s 64 vb /\ vector_ok MAX_SHIELDED_SPENDS spend_ok spends /\
             vector_ok MAX_SHIELDED_OUTPUTS output_ok outs
  else vb = 0 /\ spends = [] /\ outs = []).
Proof. destruct v4; [by yield_fields|by apply yields_ret]. Qed.

Lemma yields_joinsplits ow ver : yields (read_joinsplits ow ver) (fun '(js, pk, sig) =>
  (if ver >=? 2 then vector_ok MAX_JOINSPLITS (js_ok (ow && (ver >=? SAPLING_TX_VERSION))) js
   else js = []) /\
  (if zlen js >? 0 then fixed 32 pk /\ fixed 64 sig
   else pk = uint256_null /\ sig = replicate 64 0)).
Proof.
  unfold read_joinsplits. apply yields_if; intros E; rewrite E; [|by apply yields_ret].
  eapply yields_bind; [eauto with codec|]. intros js Hjs.
  apply yields_if; intros E'; [yield_fields|apply yields_ret]; by rewrite E'.
Qed.

Lemma header_version_range header : 0 <= i32 (header .& 0x7FFFFFFF) < 2 ^ 31.
Proof.
  change 0x7FFFFFFF with (Z.ones 31). rewrite Z.land_ones by lia.
  pose proof (Z.mod_pos_bound header (2 ^ 31) ltac:(lia)).
  rewrite swrap_small; [lia|lia|unfold is_s; lia].
Qed.

Lemma yields_tx : yields transaction_deserialize
  (fun tx => tx_ok tx /\ tx_hash tx = h_hash256 (tx_bytes tx)).
Proof.
  unfold transaction_deserialize. eapply yields_bind; [apply yields_u32|]. intros header _. cbv zeta.
  pose proof (header_version_range header) as Hver.
  set (ow := negb _). set (ver := i32 _) in *. clearbody ow ver.
  apply yields_bind with (P := fun g => is_u 32 g /\ (ow = false -> g = 0)).
  { apply yields_if; intros ->; [|by apply yields_ret].
    eapply yields_weaken; [apply yields_u32|done]. }
  intros gid [_ Hgid]. eapply yields_bind; [apply yields_guard|]. intros [] Hrec.
  eapply yields_bind; [eauto with codec|]. intros ins Hin.
  eapply yields_bind; [eauto with codec|]. intros outs Hout.
  eapply yields_bind; [eauto with codec|]. intros lt Hlt.
  apply yields_bind with (P := fun e =>
    if is_overwinter_v3 ow gid ver || is_sapling_v4 ow gid ver then is_u 32 e else e = 0).
  { apply yields_if; intros ->; [apply yields_u32|by apply yields_ret]. }
  intros ex Hex. eapply yields_bind; [apply yields_sapling|]. intros [[vb sp] os] Hsap.
  eapply yields_bind; [apply yields_joinsplits|]. intros [[js pk] sig] [Hjs Hpk].
  apply yields_bind with (P := fun b =>
    if (zlen sp >? 0) || (zlen os >? 0) then fixed 64 b else b = replicate 64 0).
  { apply yields_if; [intros [_ ->]%andb_prop; by apply yields_read|].
    destruct (is_sapling_v4 ow gid ver); simpl; [intros ->; by apply yields_ret|].
    destruct Hsap as (_ & -> & ->). intros _. by apply yields_ret. }
  intros bs Hbs. apply yields_ret.
  match goal with |- tx_ok (transaction_compute_hash ?t) /\ _ => assert (tx_ok t) as Hok end.
  { unfold tx_ok. simpl. split_and!; try done; [lia|lia|].
    destruct ow; [|auto]. by destruct (is_overwinter_v3 _ _ _ || is_sapling_v4 _ _ _). }
  split; [exact Hok|]. unfold transaction_compute_hash. by rewrite transaction_scratch_bytes.
Qed.

End Parse.

(** ** Amount lemmas *)

Definition sum_Z (l : list Z) : Z := foldr Z.add 0 l.

Lemma MoneyRange_spec v : MoneyRange v = true <-> 0 <= v <= MAX_MONEY.
Proof. unfold MoneyRange. rewrite andb_true_iff. lia. Qed.

Lemma sum_Z_nonneg l : forallb MoneyRange l = true -> 0 <= sum_Z l.
Proof.
  induction l as [|a l IH]; simpl; [done|]. rewrite andb_true_iff, MoneyRange_spec.
  intros [? ?]. specialize (IH ltac:(done)). lia.
Qed.

Lemma sum_Z_app l1 l2 : sum_Z (l1 ++ l2) = sum_Z l1 + sum_Z l2.
Proof. unfold sum_Z. induction l1; simpl; lia. Qed.

(** The early-exit loop in int64 computes the exact sum, or reports that an amount or the
    sum leaves the money range; no intermediate addition can hide an overflow. *)
Lemma sum_amounts_spec l total : 0 <= total <= MAX_MONEY ->
  sum_amounts total l =
    if forallb MoneyRange l && (total + sum_Z l <=? MAX_MONEY) then Some (total + sum_Z l) else None.
Proof.
  revert total. induction l as [|a l IH]; intros total Ht.
  { simpl. replace (total + 0 <=? MAX_MONEY) with true by lia. by rewrite Z.add_0_r. }
  cbn [sum_amounts forallb sum_Z foldr]. fold (sum_Z l).
  destruct (MoneyRange a) eqn:Ea; [|done].
  apply MoneyRange_spec in Ea.
  rewrite swrap_small by (lia || unfold is_s, MAX_MONEY, COIN in *; lia). cbn [negb orb].
  rewrite andb_true_l. destruct (MoneyRange (total + a)) eqn:Et; cbn [negb].
  - apply MoneyRange_spec in Et. rewrite IH by done. by rewrite Z.add_assoc.
  - destruct (forallb MoneyRange l) eqn:El; [|done].
    pose proof (sum_Z_nonneg l El). simpl.
    replace (total + (a + sum_Z l) <=? MAX_MONEY) with false; [done|].
    unfold MoneyRange in Et. lia.
Qed.

Lemma sum_amounts_app total l1 l2 :
  sum_amounts total (l1 ++ l2) = t ← sum_amounts total l1; sum_amounts t l2.
Proof.
  revert total. induction l1 as [|a l1 IH]; intros total; [done|]. simpl. case_if; [done|]. apply IH.
Qed.

(** The transparent and shielded amounts a transaction pays out, respectively takes from
    the shielded pools. *)
Definition amounts_out (tx : transaction) : list Z :=
  map value (vout tx) ++ (if value_balance tx <=? 0 then [- value_balance tx] else []) ++
  map vpub_old (v_joinsplit tx).

Definition amounts_in (tx : transaction) : list Z :=
  (if value_balance tx >=? 0 then [value_balance tx] else []) ++ map vpub_new (v_joinsplit tx).

Definition checked_sum (l : list Z) : Z :=
  if forallb MoneyRange l && (sum_Z l <=? MAX_MONEY) then sum_Z l else -1.

Lemma checked_sum_amounts l : default (-1) (sum_amounts 0 l) = checked_sum l.
Proof. rewrite sum_amounts_spec by done. unfold checked_sum. rewrite Z.add_0_l. by case_if. Qed.

(** Value leaving the shielded pools, less value entering them *)
Definition net_unshielded (tx : transaction) : Z := sum_Z (amounts_in tx) - (sum_Z (amounts_out tx) - sum_Z (map value (vout tx))).

Lemma checked_sum_nonneg l : 0 <= checked_sum l ->
  Forall (fun v => 0 <= v) l /\ checked_sum l = sum_Z l /\ sum_Z l <= MAX_MONEY.
Proof.
  unfold checked_sum. destruct (forallb MoneyRange l) eqn:E; cbn [andb]; [|lia].
  case_if; [|lia]. intros _. split; [|lia]. apply Forall_forall. intros v Hv.
  apply list_elem_of_In in Hv. rewrite forallb_forall in E. apply E, MoneyRange_spec in Hv. lia.
Qed.

(** Negating the least int64 does not produce an amount. *)
Lemma sum_amounts_neg total v : is_s 64 v -> sum_amounts total [i64 (- v)] = sum_amounts total [- v].
Proof.
  intros Hv. destruct (decide (v = - 2 ^ 63)) as [->|Hne]; [done|].
  by rewrite (swrap_small 64 (- v)) by (unfold is_s in *; lia).
Qed.

Lemma value_out_sum tx : is_s 64 (value_balance tx) ->
  transaction_get_value_out tx = default (-1) (sum_amounts 0 (amounts_out tx)).
Proof.
  intros Hb. unfold transaction_get_value_out, amounts_out. f_equal. rewrite sum_amounts_app.
  destruct (sum_amounts 0 _) as [t|]; [|done]. cbn [mbind option_bind].
  rewrite sum_amounts_app, sum_amounts_neg by done. by case_if.
Qed.

Lemma value_in_sum tx : transaction_get_shielded_value_in tx = default (-1) (sum_amounts 0 (amounts_in tx)).
Proof.
  unfold transaction_get_shielded_value_in, amounts_in. f_equal. rewrite sum_amounts_app. by case_if.
Qed.

(** ** Properties *)

(** A one-input, one-output transaction. *)
Definition sample_tx : transaction := {|
  overwintered := true; version := 4; version_group_id := SAPLING_VERSION_GROUP_ID;
  vin := [{| prevout := {| op_hash := replicate 32 7; op_n := 1 |}; script_sig := [1; 42];
             sequence := UINT32_MAX |}];
  vout := [{| value := 5000; script_pub_key := [0x51] |}];
  lock_time := 9; expiry_height := 100; value_balance := -3; v_shielded_spend := [];
  v_shielded_output := []; v_joinsplit := []; joinsplit_pubkey := uint256_null;
  joinsplit_sig := replicate 64 0; binding_sig := replicate 64 0; tx_hash := uint256_null |}.

Lemma sample_tx_ok : tx_ok sample_tx.
Proof.
  unfold tx_ok, vector_ok, tx_in_ok, tx_out_ok, outpoint_ok, script_ok, fixed, bytes_ok, is_u, is_s.
  simpl. repeat (split || constructor || lia || done).
Qed.

(** C19: the transaction wire format is lossless: every well-formed transaction (of any
    of the three formats: legacy, Overwinter v3, Sapling v4) is written successfully, and
    reading the bytes back, whatever follows them, returns the same transaction, with its
    id set to the double hash of exactly those bytes, and stops right after them. *)
Theorem transaction_roundtrip `{AllocatorTotal} `{HashFunctions} tx rest :
  tx_ok tx ->
  exists b, written (transaction_serialize tx) = Some b /\
            transaction_serialize_size tx = zlen b /\
            parsed transaction_deserialize (b ++ rest) = Some (with_hash tx (h_hash256 b), rest).
Proof.
  intros Hok. exists (tx_bytes tx). pose proof (tx_bytes_size tx Hok). split_and!.
  - apply emits_written; [by apply emits_tx|]. unfold zlen, SIZE_MAX in *. lia.
  - unfold transaction_serialize_size. by rewrite transaction_scratch_bytes.
  - by apply parses_parsed, parses_tx.
Qed.

Lemma transaction_roundtrip_witness :
  let A : Allocator := fun _ => true in
  let h : HashFunctions := {| h_sha256 := id; h_sha1 := id; h_ripemd160 := id;
                              h_hash160 := id; h_hash256 := id |} in
  exists b, written (transaction_serialize sample_tx) = Some b /\
            parsed transaction_deserialize (b ++ [1; 2]) = Some (with_hash sample_tx b, [1; 2]).
Proof.
  intros A h.
  destruct (@transaction_roundtrip A (fun _ => eq_refl) h sample_tx [1; 2] sample_tx_ok)
    as (b & Hw & _ & Hp). eauto.
Defined.

(** C33: what the parser accepts is canonical up to length prefixes: any byte string
    that parses yields a well-formed transaction (sizes, limits, recognised version), whose
    id is the double hash of its canonical encoding, and that encoding parses back to the
    very same transaction. *)
Theorem transaction_parse_wellformed `{AllocatorTotal} `{HashFunctions} l tx rest :
  bytes_ok l -> parsed transaction_deserialize l = Some (tx, rest) ->
  tx_ok tx /\
  exists b, written (transaction_serialize tx) = Some b /\ tx_hash tx = h_hash256 b /\
            parsed transaction_deserialize b = Some (tx, []).
Proof.
  intros Hl. unfold parsed at 1. destruct (transaction_deserialize _) as [[t|] s] eqn:E; [|done].
  intros [= -> _].
  destruct (yields_tx (stream_init_from_data l) _ _ ltac:(split; [exact Hl|done]) E) as [[Hok Hh] _].
  split; [done|]. exists (tx_bytes tx). pose proof (tx_bytes_size tx Hok). split_and!; [|done|].
  - apply emits_written; [by apply emits_tx|]. unfold zlen, SIZE_MAX in *. lia.
  - rewrite <- (app_nil_r (tx_bytes tx)). rewrite (parses_parsed _ _ _ [] (parses_tx tx Hok)).
    rewrite <- Hh. by destruct tx.
Qed.

Lemma transaction_parse_wellformed_witness :
  let A : Allocator := fun _ => true in
  let h : HashFunctions := {| h_sha256 := id; h_sha1 := id; h_ripemd160 := id;
                              h_hash160 := id; h_hash256 := id |} in
  exists tx, parsed transaction_deserialize [1; 0; 0; 0; 253; 0; 0; 0; 5; 0; 0; 0; 77] = Some (tx, [77])
    /\ tx_ok tx /\ tx_hash tx = [1; 0; 0; 0; 0; 0; 5; 0; 0; 0].
Proof.
  intros A h. eexists. split; [vm_compute; reflexivity|].
  split; [|reflexivity].
  refine (proj1 (@transaction_parse_wellformed A (fun _ => eq_refl) h
    [1; 0; 0; 0; 253; 0; 0; 0; 5; 0; 0; 0; 77] _ [77] _ _)).
  - repeat constructor; by unfold is_u.
  - vm_compute. reflexivity.
Defined.

Lemma tx_bytes_inj `{AllocatorTotal} `{HashFunctions} tx1 tx2 :
  tx_ok tx1 -> tx_ok tx2 -> tx_bytes tx1 = tx_bytes tx2 ->
  with_hash tx1 uint256_null = with_hash tx2 uint256_null.
Proof.
  intros Hok1 Hok2 E. pose proof (parses_parsed _ _ _ [] (parses_tx tx1 Hok1)) as P1.
  pose proof (parses_parsed _ _ _ [] (parses_tx tx2 Hok2)) as P2.
  rewrite E, P2 in P1. injection P1. destruct tx1, tx2; simpl. by intros; simplify_eq.
Qed.

(** C20: a transaction id commits to the whole transaction: two well-formed
    transactions with the same id are equal (up to the cached id itself), unless their
    encodings are an explicit collision of the double hash. *)
Theorem txid_commits `{AllocatorTotal} `{HashFunctions} tx1 tx2 :
  tx_ok tx1 -> tx_ok tx2 ->
  tx_hash (transaction_compute_hash tx1) = tx_hash (transaction_compute_hash tx2) ->
  with_hash tx1 uint256_null = with_hash tx2 uint256_null \/
  collision h_hash256 (tx_bytes tx1) (tx_bytes tx2).
Proof.
  intros Hok1 Hok2. unfold transaction_compute_hash. simpl. rewrite !transaction_scratch_bytes by done.
  intros Hh. destruct (decide (tx_bytes tx1 = tx_bytes tx2)) as [E|Hne]; [left|by right].
  by apply tx_bytes_inj.
Qed.

Lemma txid_commits_witness :
  let A : Allocator := fun _ => true in
  let h : HashFunctions := {| h_sha256 := id; h_sha1 := id; h_ripemd160 := id;
                              h_hash160 := id; h_hash256 := id |} in
  with_hash sample_tx uint256_null = with_hash (with_hash sample_tx [3]) uint256_null.
Proof.
  intros A h.
  destruct (@txid_commits A (fun _ => eq_refl) h sample_tx (with_hash sample_tx [3])
    sample_tx_ok sample_tx_ok eq_refl) as [E|[N _]]; [exact E|]. destruct (N eq_refl).
Defined.

(** the value totals cannot be inflated by 64-bit overflow: whatever the field
    values, the two accumulation loops return the exact integer total when every amount
    and the total lie in the money range, and -1 otherwise. *)
Theorem value_totals_exact tx :
  is_s 64 (value_balance tx) ->
  transaction_get_value_out tx = checked_sum (amounts_out tx) /\
  transaction_get_shielded_value_in tx = checked_sum (amounts_in tx).
Proof. intros Hb. rewrite value_out_sum, value_in_sum by done. split; apply checked_sum_amounts. Qed.

Lemma value_totals_exact_witness :
  transaction_get_value_out sample_tx = 5003 /\ transaction_get_shielded_value_in sample_tx = 0.
Proof.
  destruct (value_totals_exact sample_tx) as [E1 E2]; [done|]. rewrite E1, E2. split; reflexivity.
Defined.
