(* ===== verification/Params.v ===== *)
(** * Consensus parameters, network upgrades, block subsidy

    Models lib/consensus (params.h, params.c, upgrades.c), domain/consensus/src/upgrades.c
    and subsidy.c, and the consensus fields of the main network in
    lib/chain/src/chainparams.c.  [vUpgrades] is a function of the upgrade index; an
    epoch is an upgrade index.  Heights are C ints; the differences taken here are of
    non-negative ints and cannot overflow.  C's integer division is [Z.quot]. *)

From Stdlib Require Import Sorted.
From S2P Require Import Prelude Arith256 Serialize Script Transaction.

(** ** Data *)

Inductive upgrade_index :=
  | BASE_SPROUT | UPGRADE_TESTDUMMY | UPGRADE_OVERWINTER | UPGRADE_SAPLING
  | UPGRADE_BUBBLES | UPGRADE_DIFFADJ | UPGRADE_BUTTERCUP.

#[export] Instance upgrade_index_eq_dec : EqDecision upgrade_index.
Proof. solve_decision. Defined.

(** The indices in enum order, and the ordinal of each *)
Definition upgrades : list upgrade_index :=
  [BASE_SPROUT; UPGRADE_TESTDUMMY; UPGRADE_OVERWINTER; UPGRADE_SAPLING; UPGRADE_BUBBLES;
   UPGRADE_DIFFADJ; UPGRADE_BUTTERCUP].

Definition ordinal (idx : upgrade_index) : Z :=
  match idx with
  | BASE_SPROUT => 0 | UPGRADE_TESTDUMMY => 1 | UPGRADE_OVERWINTER => 2 | UPGRADE_SAPLING => 3
  | UPGRADE_BUBBLES => 4 | UPGRADE_DIFFADJ => 5 | UPGRADE_BUTTERCUP => 6
  end.

Definition NETWORK_UPGRADE_ALWAYS_ACTIVE : Z := 0.
Definition NETWORK_UPGRADE_NO_ACTIVATION : Z := -1.

Record network_upgrade := NetworkUpgrade { nProtocolVersion : Z; nActivationHeight : Z }.

Definition PRE_BUTTERCUP_POW_TARGET_SPACING : Z := 150.
Definition POST_BUTTERCUP_POW_TARGET_SPACING : Z := 75.
Definition PRE_BUTTERCUP_HALVING_INTERVAL : Z := 840000.
Definition BUTTERCUP_POW_TARGET_SPACING_RATIO : Z :=
  PRE_BUTTERCUP_POW_TARGET_SPACING ÷ POST_BUTTERCUP_POW_TARGET_SPACING.
Definition POST_BUTTERCUP_HALVING_INTERVAL : Z :=
  PRE_BUTTERCUP_HALVING_INTERVAL * BUTTERCUP_POW_TARGET_SPACING_RATIO.

Record consensus_params := ConsensusParams {
  hashGenesisBlock : uint256_t;
  fCoinbaseMustBeProtected : bool;
  nSubsidySlowStartInterval : Z;
  nPreButtercupSubsidyHalvingInterval : Z;
  nPostButtercupSubsidyHalvingInterval : Z;
  nMajorityEnforceBlockUpgrade : Z;
  nMajorityRejectBlockOutdated : Z;
  nMajorityWindow : Z;
  vUpgrades : upgrade_index -> network_upgrade;
  powLimit : uint256_t;
  nPowAllowMinDifficultyBlocksAfterHeight : Z;
  nPowAllowMinDifficultyEnabled : bool;
  scaleDifficultyAtUpgradeFork : bool;
  nPowAveragingWindow : Z;
  nPowMaxAdjustDown : Z;
  nPowMaxAdjustUp : Z;
  nPreButtercupPowTargetSpacing : Z;
  nPostButtercupPowTargetSpacing : Z;
  nMinimumChainWork : uint256_t;
}.

Inductive upgrade_state := UPGRADE_DISABLED | UPGRADE_PENDING | UPGRADE_ACTIVE.

#[export] Instance upgrade_state_eq_dec : EqDecision upgrade_state.
Proof. solve_decision. Defined.

Inductive upgrades_err := UPGRADES_ERR_NEG_HEIGHT | UPGRADES_ERR_NO_PENDING.

(** ** Upgrade schedule (domain/consensus/src/upgrades.c) *)

Section Upgrades.
Context (params : consensus_params).

Definition activation_height (idx : upgrade_index) : Z := nActivationHeight (vUpgrades params idx).

Definition dcu_is_active (n_height : Z) (idx : upgrade_index) : bool :=
  if activation_height idx =? NETWORK_UPGRADE_NO_ACTIVATION then false
  else n_height >=? activation_height idx.

Definition domain_consensus_upgrade_state (n_height : Z) (idx : upgrade_index)
    : result upgrades_err upgrade_state :=
  ensure (negb (n_height <? 0)) UPGRADES_ERR_NEG_HEIGHT;;
  Ok (if activation_height idx =? NETWORK_UPGRADE_NO_ACTIVATION then UPGRADE_DISABLED
      else if n_height >=? activation_height idx then UPGRADE_ACTIVE else UPGRADE_PENDING).

(** The loops scan the enum, downwards respectively upwards. *)
Fixpoint scan (p : upgrade_index -> bool) (l : list upgrade_index) : option upgrade_index :=
  match l with
  | [] => None
  | i :: l' => if p i then Some i else scan p l'
  end.

Definition domain_consensus_current_epoch (n_height : Z) : result upgrades_err upgrade_index :=
  ensure (negb (n_height <? 0)) UPGRADES_ERR_NEG_HEIGHT;;
  Ok (default BASE_SPROUT (scan (dcu_is_active n_height) (reverse upgrades))).

(** [NetworkUpgradeInfo[..].nBranchId] *)
Definition nBranchId (idx : upgrade_index) : Z :=
  match idx with
  | BASE_SPROUT => 0 | UPGRADE_TESTDUMMY => 0x74736554 | UPGRADE_OVERWINTER => 0x5ba81b19
  | UPGRADE_SAPLING => 0x76b809bb | UPGRADE_BUBBLES => 0x821a451c
  | UPGRADE_DIFFADJ => 0x930b540d | UPGRADE_BUTTERCUP => 0x930b540d
  end.

Definition domain_consensus_current_epoch_branch_id (n_height : Z) : result upgrades_err Z :=
  ensure (negb (n_height <? 0)) UPGRADES_ERR_NEG_HEIGHT;;
  epoch ← domain_consensus_current_epoch n_height;
  Ok (nBranchId epoch).

Definition domain_consensus_is_branch_id (branch_id : Z) : bool :=
  match scan (fun i => branch_id =? nBranchId i) upgrades with Some _ => true | None => false end.

Definition domain_consensus_is_activation_height (n_height : Z) (idx : upgrade_index) : bool :=
  if decide (idx = BASE_SPROUT) then false
  else (n_height >=? 0) && (n_height =? activation_height idx).

Definition domain_consensus_is_activation_height_any (n_height : Z) : result upgrades_err bool :=
  ensure (negb (n_height <? 0)) UPGRADES_ERR_NEG_HEIGHT;;
  Ok (match scan (fun i => n_height =? activation_height i) (tail upgrades) with
      | Some _ => true | None => false end).

Definition domain_consensus_next_epoch (n_height : Z) : result upgrades_err upgrade_index :=
  ensure (negb (n_height <? 0)) UPGRADES_ERR_NEG_HEIGHT;;
  match scan (fun i => negb (activation_height i =? NETWORK_UPGRADE_NO_ACTIVATION) &&
                       (n_height <? activation_height i)) (tail upgrades) with
  | Some i => Ok i
  | None => Err UPGRADES_ERR_NO_PENDING
  end.

Definition domain_consensus_next_activation_height (n_height : Z) : result upgrades_err Z :=
  ensure (negb (n_height <? 0)) UPGRADES_ERR_NEG_HEIGHT;;
  idx ← domain_consensus_next_epoch n_height;
  Ok (activation_height idx).

(** ** The lib/consensus wrappers: the out value keeps its initial value on error *)

Definition ok_or {E A} (a : A) (r : result E A) : A := match r with Ok x => x | Err _ => a end.

Definition consensus_upgrade_state (nHeight : Z) (idx : upgrade_index) : upgrade_state :=
  ok_or UPGRADE_DISABLED (domain_consensus_upgrade_state nHeight idx).

Definition consensus_current_epoch (nHeight : Z) : upgrade_index :=
  ok_or BASE_SPROUT (domain_consensus_current_epoch nHeight).

Definition consensus_current_epoch_branch_id (nHeight : Z) : Z :=
  ok_or 0 (domain_consensus_current_epoch_branch_id nHeight).

(** [LOG_FAIL] logs and returns false; [LOG_ERR] logs and returns -1. *)
Definition consensus_is_branch_id (branchId : Z) : bool :=
  let known := domain_consensus_is_branch_id (u32 branchId) in
  if negb known then false else true.

Definition consensus_is_activation_height (nHeight : Z) (idx : upgrade_index) : bool :=
  if decide (idx = BASE_SPROUT) then false else domain_consensus_is_activation_height nHeight idx.

Definition consensus_is_activation_height_any (nHeight : Z) : bool :=
  if nHeight <? 0 then false
  else match domain_consensus_is_activation_height_any nHeight with
       | Err _ => false
       | Ok m => if negb m then false else true
       end.

Definition consensus_next_epoch (nHeight : Z) : Z :=
  if nHeight <? 0 then -1
  else match domain_consensus_next_epoch nHeight with Ok e => ordinal e | Err _ => -1 end.

Definition consensus_next_activation_height (nHeight : Z) : Z :=
  match domain_consensus_next_activation_height nHeight with Ok a => a | Err _ => -1 end.

(** ** Parameters derived from the schedule (params.c) *)

Definition consensus_network_upgrade_active (nHeight : Z) (idx : upgrade_index) : bool :=
  bool_decide (consensus_upgrade_state nHeight idx = UPGRADE_ACTIVE).

Definition consensus_subsidy_slow_start_shift : Z := nSubsidySlowStartInterval params ÷ 2.

Definition consensus_halving (nHeight : Z) : Z :=
  if consensus_network_upgrade_active nHeight UPGRADE_BUTTERCUP then
    let buttercup_height := activation_height UPGRADE_BUTTERCUP in
    let halvings := (nHeight - consensus_subsidy_slow_start_shift - buttercup_height) ÷
                    nPostButtercupSubsidyHalvingInterval params in
    halvings + 3
  else (nHeight - consensus_subsidy_slow_start_shift) ÷ nPreButtercupSubsidyHalvingInterval params.

Definition consensus_pow_target_spacing (nHeight : Z) : Z :=
  if consensus_network_upgrade_active nHeight UPGRADE_BUTTERCUP
  then nPostButtercupPowTargetSpacing params else nPreButtercupPowTargetSpacing params.

Definition consensus_averaging_window_timespan (nHeight : Z) : Z :=
  nPowAveragingWindow params * consensus_pow_target_spacing nHeight.

Definition consensus_min_actual_timespan (nHeight : Z) : Z :=
  (consensus_averaging_window_timespan nHeight * (100 - nPowMaxAdjustUp params)) ÷ 100.

Definition consensus_max_actual_timespan (nHeight : Z) : Z :=
  (consensus_averaging_window_timespan nHeight * (100 + nPowMaxAdjustDown params)) ÷ 100.

(** ** Block subsidy (subsidy.c) *)

(** [(int64_t)(12.5 * COIN)] *)
Definition initial_subsidy : Z := 25 * COIN ÷ 2.

Definition domain_consensus_block_subsidy (n_height : Z) : result unit Z :=
  ensure (negb (n_height <? 0)) tt;;
  let interval := nSubsidySlowStartInterval params in
  if n_height <? interval ÷ 2 then Ok ((initial_subsidy ÷ interval) * n_height)
  else if n_height <? interval then Ok ((initial_subsidy ÷ interval) * (n_height + 1))
  else
    let halvings := consensus_halving n_height in
    if halvings >=? 64 then Ok 0
    else if consensus_network_upgrade_active n_height UPGRADE_BUTTERCUP
    then Ok (Z.shiftr (initial_subsidy ÷ BUTTERCUP_POW_TARGET_SPACING_RATIO) halvings)
    else Ok (Z.shiftr initial_subsidy halvings).

(** lib/chain/src/subsidy.c *)
Definition get_block_subsidy (nHeight : Z) : Z :=
  match domain_consensus_block_subsidy nHeight with Ok s => s | Err _ => 0 end.

End Upgrades.

(** consensus.h *)
Definition COINBASE_MATURITY : Z := 100.

(** ** The networks (chainparams.c) *)

(** [uint256_set_hex]: the hexadecimal digits are the big-endian number. *)
Definition uint256_hex (v : Z) : uint256_t := le_encode 32 v.

Definition schedule (dummy overwinter sapling bubbles diffadj buttercup : Z * Z)
    : upgrade_index -> network_upgrade := fun idx =>
  let row p := NetworkUpgrade (fst p) (snd p) in
  match idx with
  | BASE_SPROUT => row (170002, NETWORK_UPGRADE_ALWAYS_ACTIVE)
  | UPGRADE_TESTDUMMY => row dummy
  | UPGRADE_OVERWINTER => row overwinter
  | UPGRADE_SAPLING => row sapling
  | UPGRADE_BUBBLES => row bubbles
  | UPGRADE_DIFFADJ => row diffadj
  | UPGRADE_BUTTERCUP => row buttercup
  end.

Definition init_main_params : consensus_params := {|
  hashGenesisBlock := uint256_hex 0x0007104ccda289427919efc39dc9e4d499804b7bebc22df55f8b834301260602;
  fCoinbaseMustBeProtected := true;
  nSubsidySlowStartInterval := 2;
  nPreButtercupSubsidyHalvingInterval := PRE_BUTTERCUP_HALVING_INTERVAL;
  nPostButtercupSubsidyHalvingInterval := POST_BUTTERCUP_HALVING_INTERVAL;
  nMajorityEnforceBlockUpgrade := 750;
  nMajorityRejectBlockOutdated := 950;
  nMajorityWindow := 4000;
  vUpgrades := schedule (170002, NETWORK_UPGRADE_NO_ACTIVATION) (170005, 476969) (170007, 476969)
                 (170009, 585318) (170010, 585322) (170011, 707000);
  powLimit := uint256_hex 0x0007ffffffffffffffffffffffffffffffffffffffffffffffffffffffffffff;
  nPowAllowMinDifficultyBlocksAfterHeight := -1;
  nPowAllowMinDifficultyEnabled := false;
  scaleDifficultyAtUpgradeFork := true;
  nPowAveragingWindow := 17;
  nPowMaxAdjustDown := 32;
  nPowMaxAdjustUp := 16;
  nPreButtercupPowTargetSpacing := PRE_BUTTERCUP_POW_TARGET_SPACING;
  nPostButtercupPowTargetSpacing := POST_BUTTERCUP_POW_TARGET_SPACING;
  nMinimumChainWork := uint256_hex 0x000000000000000000000000000000000000000000000000000af996bfd8e482;
|}.

(** ** Lemmas on the schedule *)

Section Schedule.
Context (params : consensus_params).

Lemma scan_Some p l i : scan p l = Some i -> p i = true /\ i ∈ l.
Proof.
  induction l as [|j l IH]; simpl; [done|]. case_if; [intros [= <-]|intros E; apply IH in E];
    rewrite elem_of_cons; naive_solver.
Qed.

Lemma scan_None p l : scan p l = None -> forall i, i ∈ l -> p i = false.
Proof.
  induction l as [|j l IH]; simpl; [by intros _ i ?%elem_of_nil|]. case_if; [done|].
  intros E i [->|Hi]%elem_of_cons; [by destruct (p j)|auto].
Qed.

Lemma elem_of_upgrades i : i ∈ upgrades.
Proof. apply list_elem_of_In. destruct i; simpl; tauto. Qed.

Lemma elem_of_later_upgrades i : i <> BASE_SPROUT -> i ∈ tail upgrades.
Proof. intros. apply list_elem_of_In. destruct i; simpl; tauto. Qed.

Lemma ordinal_inj i j : ordinal i = ordinal j -> i = j.
Proof. by destruct i, j. Qed.

(** Scanning a list whose ordinals decrease finds the largest index satisfying [p]. *)
Lemma scan_down_max p l i : scan p l = Some i ->
  StronglySorted (fun a b => ordinal b < ordinal a) l ->
  forall j, j ∈ l -> p j = true -> ordinal j <= ordinal i.
Proof.
  induction l as [|k l IH]; simpl; [done|]. intros E Hs j Hj Hp.
  apply StronglySorted_inv in Hs as [Hs Hk]. apply elem_of_cons in Hj. destruct (p k) eqn:Ek.
  - injection E as <-. destruct Hj as [->|Hj]; [lia|].
    pose proof (proj1 (Forall_forall _ _) Hk j Hj) as Hlt. simpl in Hlt. lia.
  - destruct Hj as [->|Hj]; [congruence|]. by apply IH.
Qed.

Lemma upgrades_sorted : StronglySorted (fun a b => ordinal b < ordinal a) (reverse upgrades).
Proof. vm_compute. repeat constructor. Qed.

Definition is_active (h : Z) (i : upgrade_index) : Prop := dcu_is_active params h i = true.

(** The epoch is the highest-numbered active upgrade, or the base epoch. *)
Lemma current_epoch_spec h e : 0 <= h -> domain_consensus_current_epoch params h = Ok e ->
  (is_active h e \/ e = BASE_SPROUT) /\ forall i, is_active h i -> ordinal i <= ordinal e.
Proof.
  intros Hh E0.
  assert (default BASE_SPROUT (scan (dcu_is_active params h) (reverse upgrades)) = e) as <-.
  { revert E0. unfold domain_consensus_current_epoch.
    replace (h <? 0) with false by lia. by intros [= <-]. }
  clear E0. destruct (scan (dcu_is_active params h) (reverse upgrades)) as [e|] eqn:E; simpl.
  - split; [left; by apply (scan_Some _ _ _ E)|]. intros i Hi.
    eapply scan_down_max; [exact E|apply upgrades_sorted| |exact Hi].
    by apply elem_of_reverse, elem_of_upgrades.
  - split; [by right|]. intros i Hi.
    pose proof (scan_None _ _ E i ltac:(by apply elem_of_reverse, elem_of_upgrades)).
    unfold is_active in Hi. congruence.
Qed.

Lemma current_epoch_total h : 0 <= h -> exists e, domain_consensus_current_epoch params h = Ok e.
Proof.
  intros. unfold domain_consensus_current_epoch. replace (h <? 0) with false by lia. by eexists.
Qed.

Lemma is_active_spec h i : is_active h i <->
  activation_height params i <> NETWORK_UPGRADE_NO_ACTIVATION /\ activation_height params i <= h.
Proof.
  unfold is_active, dcu_is_active. destruct (Z.eqb_spec (activation_height params i) NETWORK_UPGRADE_NO_ACTIVATION).
  - naive_solver.
  - rewrite Z.geb_le. tauto.
Qed.

Lemma is_active_mono h h' i : h <= h' -> is_active h i -> is_active h' i.
Proof. intros ?. rewrite !is_active_spec. intros [? ?]. split; [done|lia]. Qed.

(** The state query and the predicate agree. *)
Lemma network_upgrade_active_spec h i : 0 <= h ->
  consensus_network_upgrade_active params h i = dcu_is_active params h i.
Proof.
  intros Hh. unfold consensus_network_upgrade_active, consensus_upgrade_state,
    domain_consensus_upgrade_state, dcu_is_active.
  replace (h <? 0) with false by lia. simpl. repeat case_if; done.
Qed.

Lemma epoch_mono h h' e e' : 0 <= h <= h' ->
  domain_consensus_current_epoch params h = Ok e ->
  domain_consensus_current_epoch params h' = Ok e' -> ordinal e <= ordinal e'.
Proof.
  intros Hh E E'. destruct (current_epoch_spec h e ltac:(lia) E) as [He _].
  destruct (current_epoch_spec h' e' ltac:(lia) E') as [_ Hmax].
  destruct He as [He| ->]; [|simpl; by destruct e'].
  apply Hmax. eapply is_active_mono; [|exact He]. lia.
Qed.

(** An epoch change happens exactly at the activation height of the new epoch. *)
Lemma epoch_change h e e' : 0 <= h ->
  domain_consensus_current_epoch params h = Ok e ->
  domain_consensus_current_epoch params (h + 1) = Ok e' -> e <> e' ->
  e' <> BASE_SPROUT /\ activation_height params e' = h + 1.
Proof.
  intros Hh E E' Hne. destruct (current_epoch_spec h e ltac:(lia) E) as [_ Hmax].
  destruct (current_epoch_spec (h + 1) e' ltac:(lia) E') as [He' _].
  pose proof (epoch_mono h (h + 1) e e' ltac:(lia) E E') as Hle.
  assert (e' <> BASE_SPROUT) as Hb.
  { intros ->. apply Hne, ordinal_inj. simpl in *. destruct e; simpl in *; lia. }
  destruct He' as [He'|]; [|done]. split; [done|].
  rewrite is_active_spec in He'. destruct (Z_le_gt_dec (activation_height params e') h); [|lia].
  exfalso. apply Hne, ordinal_inj. enough (ordinal e' <= ordinal e) by lia.
  apply Hmax, is_active_spec. destruct He'. split; [done|lia].
Qed.

Lemma activation_any_intro h i : 0 <= h -> i <> BASE_SPROUT -> activation_height params i = h ->
  domain_consensus_is_activation_height_any params h = Ok true.
Proof.
  intros Hh Hi Ha. unfold domain_consensus_is_activation_height_any.
  replace (h <? 0) with false by lia.
  destruct (scan (fun i => h =? activation_height params i) (tail upgrades)) eqn:E; [done|].
  pose proof (scan_None _ _ E i (elem_of_later_upgrades i Hi)) as Hf. simpl in Hf. lia.
Qed.

(** Later upgrades activate no earlier: the assumption the enum order stands for. *)
Definition schedule_ordered : Prop := forall i j,
  ordinal i < ordinal j ->
  activation_height params i <> NETWORK_UPGRADE_NO_ACTIVATION ->
  activation_height params j <> NETWORK_UPGRADE_NO_ACTIVATION ->
  activation_height params i <= activation_height params j.

Definition pending (h : Z) (i : upgrade_index) : bool :=
  negb (activation_height params i =? NETWORK_UPGRADE_NO_ACTIVATION) && (h <? activation_height params i).

(** Scanning a list whose ordinals increase finds the smallest index satisfying [p]. *)
Lemma scan_up_min p l i : scan p l = Some i ->
  StronglySorted (fun a b => ordinal a < ordinal b) l ->
  forall j, j ∈ l -> p j = true -> ordinal i <= ordinal j.
Proof.
  induction l as [|k l IH]; simpl; [done|]. intros E Hs j Hj Hp.
  apply StronglySorted_inv in Hs as [Hs Hk]. apply elem_of_cons in Hj. destruct (p k) eqn:Ek.
  - injection E as <-. destruct Hj as [->|Hj]; [lia|].
    pose proof (proj1 (Forall_forall _ _) Hk j Hj) as Hlt. simpl in Hlt. lia.
  - destruct Hj as [->|Hj]; [congruence|]. by apply IH.
Qed.

Lemma later_upgrades_sorted : StronglySorted (fun a b => ordinal a < ordinal b) (tail upgrades).
Proof. vm_compute. repeat constructor. Qed.

(** The next activation height is the least activation height above [h]. *)
Lemma next_activation_spec h a : schedule_ordered -> 0 <= h ->
  domain_consensus_next_activation_height params h = Ok a ->
  h < a /\ forall i, i <> BASE_SPROUT -> pending h i = true -> a <= activation_height params i.
Proof.
  intros Hord Hh. unfold domain_consensus_next_activation_height, domain_consensus_next_epoch.
  replace (h <? 0) with false by lia. fold (pending h).
  destruct (scan (pending h) (tail upgrades)) as [i|] eqn:E; [|done]. intros [= <-].
  destruct (scan_Some _ _ _ E) as [Hp _]. unfold pending in Hp. zbool.
  split; [lia|]. intros j Hj Hpj.
  pose proof (scan_up_min _ _ _ E later_upgrades_sorted j (elem_of_later_upgrades j Hj) Hpj) as Hle.
  unfold pending in Hpj. zbool. destruct (decide (ordinal i = ordinal j)) as [Heq|Hne].
  - apply ordinal_inj in Heq as ->. lia.
  - apply Hord; lia.
Qed.

(** No epoch change before the next activation height. *)
Lemma epoch_stable h h' a e : schedule_ordered -> 0 <= h ->
  domain_consensus_next_activation_height params h = Ok a ->
  domain_consensus_current_epoch params h = Ok e -> h <= h' < a ->
  domain_consensus_current_epoch params h' = Ok e.
Proof.
  intros Hord Hh Ha He. destruct (next_activation_spec h a Hord Hh Ha) as [_ Hmin].
  intros [Hle Hlt]. revert Hlt. pattern h'. apply Zlt_lower_bound_ind with (z := h); [|done].
  clear h' Hle. intros h' IH Hle Hlt. destruct (decide (h' = h)) as [->|Hne]; [done|].
  specialize (IH (h' - 1) ltac:(lia) ltac:(lia)).
  destruct (current_epoch_total h' ltac:(lia)) as [e' He']. rewrite He'. f_equal.
  destruct (decide (e = e')) as [|Hd]; [done|]. exfalso.
  replace h' with (h' - 1 + 1) in He' by lia.
  destruct (epoch_change (h' - 1) e e' ltac:(lia) IH He' Hd) as [Hb Hact].
  assert (pending h e' = true) as Hp by (unfold pending, NETWORK_UPGRADE_NO_ACTIVATION; lia).
  specialize (Hmin e' Hb Hp). lia.
Qed.

End Schedule.

(** ** Issuance on the main network *)

Lemma main_buttercup_active h : 0 <= h ->
  consensus_network_upgrade_active init_main_params h UPGRADE_BUTTERCUP = (707000 <=? h).
Proof.
  intros. rewrite network_upgrade_active_spec by done. unfold dcu_is_active, activation_height. simpl.
  unfold NETWORK_UPGRADE_NO_ACTIVATION. lia.
Qed.

(** The subsidy in closed form *)
Definition main_subsidy (h : Z) : Z :=
  if h <? 1 then 0
  else if h <? 707000 then 1250000000
  else Z.shiftr 78125000 (Z.max 0 (h - 707001) / 1680000).

Lemma shiftr_large v k : 0 <= v < 2 ^ k -> 0 <= k -> Z.shiftr v k = 0.
Proof. intros. rewrite Z.shiftr_div_pow2 by lia. apply Z.div_small. lia. Qed.

Lemma main_block_subsidy h : 0 <= h ->
  domain_consensus_block_subsidy init_main_params h = Ok (main_subsidy h).
Proof.
  intros Hh. unfold domain_consensus_block_subsidy, consensus_halving.
  rewrite main_buttercup_active by done. replace (h <? 0) with false by lia. cbn [ensure negb mbind result_bind].
  unfold main_subsidy, consensus_subsidy_slow_start_shift, initial_subsidy, activation_height,
    BUTTERCUP_POW_TARGET_SPACING_RATIO, PRE_BUTTERCUP_POW_TARGET_SPACING,
    POST_BUTTERCUP_POW_TARGET_SPACING, COIN.
  cbn [init_main_params nSubsidySlowStartInterval nPreButtercupSubsidyHalvingInterval
    nPostButtercupSubsidyHalvingInterval vUpgrades schedule nActivationHeight snd].
  change (25 * 100000000 ÷ 2) with 1250000000. change (2 ÷ 2) with 1. change (150 ÷ 75) with 2.
  change (1250000000 ÷ 2) with 625000000. change POST_BUTTERCUP_HALVING_INTERVAL with 1680000.
  change PRE_BUTTERCUP_HALVING_INTERVAL with 840000.
  destruct (Z.ltb_spec h 1); [by replace h with 0 by lia|].
  destruct (Z.ltb_spec h 2); [by replace h with 1 by lia|].
  destruct (Z.leb_spec 707000 h).
  - replace (h <? 707000) with false by lia. set (k := Z.max 0 (h - 707001) / 1680000).
    assert (0 <= k) by (apply Z.div_pos; lia).
    replace ((h - 1 - 707000) ÷ 1680000) with k.
    2:{ unfold k. destruct (decide (h = 707000)) as [->|]; [done|].
        rewrite Z.max_r by lia. rewrite Z.quot_div_nonneg by lia. f_equal. lia. }
    change 78125000 with (Z.shiftr 625000000 3). rewrite Z.shiftr_shiftr by lia.
    destruct (Z.geb_spec (k + 3) 64); [|by rewrite Z.add_comm].
    f_equal. symmetry. apply shiftr_large; [|lia]. split; [done|].
    eapply Z.lt_le_trans with (2 ^ 64); [done|]. apply Z.pow_le_mono_r; lia.
  - replace (h <? 707000) with true by lia. rewrite Z.quot_small by lia. done.
Qed.

(** Coins created by the blocks below height [n] *)
Fixpoint total_issued (params : consensus_params) (n : nat) : Z :=
  match n with
  | O => 0
  | S m => total_issued params m + ok_or 0 (domain_consensus_block_subsidy params (Z.of_nat m))
  end.

(** An upper bound on the coins still to be created from height [h] on: the rest of the
    current halving period, and as much again for all later periods together. *)
Definition issuance_left (h : Z) : Z :=
  if h <? 707001 then
    1250000000 * (707000 - Z.max 1 h) + 78125000 + 2 * 1680000 * 78125000
  else (2 * 1680000 - (h - 707001) mod 1680000) * Z.shiftr 78125000 ((h - 707001) / 1680000).

Lemma shiftr_succ_half v k : 0 <= k -> 0 <= v -> 2 * Z.shiftr v (k + 1) <= Z.shiftr v k.
Proof.
  intros. rewrite <- Z.shiftr_shiftr by lia. rewrite (Z.shiftr_div_pow2 _ 1) by lia.
  change (2 ^ 1) with 2. assert (0 <= Z.shiftr v k) by (by apply Z.shiftr_nonneg). div_mod_lia.
Qed.

Lemma issuance_left_late h : 707001 <= h ->
  main_subsidy h + issuance_left (h + 1) <= issuance_left h.
Proof.
  intros Hh. unfold main_subsidy, issuance_left.
  replace (h <? 1) with false by lia. replace (h <? 707000) with false by lia.
  replace (h <? 707001) with false by lia. replace (h + 1 <? 707001) with false by lia.
  rewrite Z.max_r by lia. replace (h + 1 - 707001) with (h - 707001 + 1) by lia.
  set (d := h - 707001). set (k := d / 1680000).
  assert (0 <= k) by (apply Z.div_pos; lia).
  assert (0 <= Z.shiftr 78125000 k) by (by apply Z.shiftr_nonneg).
  destruct (decide (d mod 1680000 = 1680000 - 1)) as [Hlast|Hin].
  - replace ((d + 1) / 1680000) with (k + 1) by (subst k; div_mod_lia).
    replace ((d + 1) mod 1680000) with 0 by (subst k; div_mod_lia).
    pose proof (shiftr_succ_half 78125000 k ltac:(lia) ltac:(lia)). rewrite Hlast. lia.
  - replace ((d + 1) / 1680000) with k by (subst k; div_mod_lia).
    replace ((d + 1) mod 1680000) with (d mod 1680000 + 1) by (subst k; div_mod_lia). lia.
Qed.

Lemma issuance_left_step h : 0 <= h -> main_subsidy h + issuance_left (h + 1) <= issuance_left h.
Proof.
  intros Hh. destruct (Z_lt_le_dec h 707001); [|by apply issuance_left_late].
  destruct (decide (h = 707000)) as [->|]; [by vm_compute|].
  unfold main_subsidy, issuance_left. replace (h + 1 <? 707001) with true by lia.
  replace (h <? 707001) with true by lia. replace (h <? 707000) with true by lia.
  destruct (Z.ltb_spec h 1); lia.
Qed.

Lemma issuance_left_nonneg h : 0 <= h -> 0 <= issuance_left h.
Proof.
  intros. unfold issuance_left. destruct (Z.ltb_spec h 707001); [lia|].
  apply Z.mul_nonneg_nonneg; [|by apply Z.shiftr_nonneg].
  pose proof (Z.mod_pos_bound (h - 707001) 1680000 ltac:(lia)). lia.
Qed.

Lemma total_issued_bound n :
  total_issued init_main_params n + issuance_left (Z.of_nat n) <= 1146248828125000.
Proof.
  induction n as [|n IH]; [by vm_compute|]. cbn [total_issued].
  rewrite main_block_subsidy by lia. cbn [ok_or]. rewrite Nat2Z.inj_succ. unfold Z.succ.
  pose proof (issuance_left_step (Z.of_nat n) ltac:(lia)). lia.
Qed.

(** ** Properties *)

(** the coin supply of the main network is capped: however many blocks are mined,
    the subsidies of all blocks below any height sum to at most 11,462,488.28125 coins,
    well inside the 21 million of [MAX_MONEY]; every single subsidy is between zero and
    12.5 coins. *)
Theorem supply_capped n :
  total_issued init_main_params n <= 1146248828125000 /\ 1146248828125000 < MAX_MONEY /\
  exists s, domain_consensus_block_subsidy init_main_params (Z.of_nat n) = Ok s /\
            0 <= s <= initial_subsidy.
Proof.
  pose proof (total_issued_bound n). pose proof (issuance_left_nonneg (Z.of_nat n) ltac:(lia)).
  split; [lia|]. split; [done|]. eexists. split; [apply main_block_subsidy; lia|].
  change initial_subsidy with 1250000000. unfold main_subsidy. repeat case_if; try lia.
  split; [by apply Z.shiftr_nonneg|]. rewrite Z.shiftr_div_pow2 by (apply Z.div_pos; lia).
  assert (0 < 2 ^ (Z.max 0 (Z.of_nat n - 707001) / 1680000)) by
    (apply Z.pow_pos_nonneg; [lia|apply Z.div_pos; lia]).
  apply Z.div_le_upper_bound; nia.
Qed.

(** upgrade epochs only move forward and only at announced heights: from one
    block to the next the epoch number never decreases; when it changes, the new height
    is the activation height of the new epoch and the activation queries report it. *)
Theorem epoch_transitions params h e e' :
  0 <= h ->
  domain_consensus_current_epoch params h = Ok e ->
  domain_consensus_current_epoch params (h + 1) = Ok e' ->
  ordinal e <= ordinal e' /\
  (e <> e' -> domain_consensus_is_activation_height params (h + 1) e' = true /\
              domain_consensus_is_activation_height_any params (h + 1) = Ok true).
Proof.
  intros Hh E E'. split; [eapply epoch_mono; [|exact E|exact E']; lia|]. intros Hne.
  destruct (epoch_change params h e e' Hh E E' Hne) as [Hb Ha].
  unfold domain_consensus_is_activation_height. rewrite decide_False by done.
  split; [lia|]. eapply activation_any_intro; [lia|exact Hb|done].
Qed.

Lemma epoch_transitions_witness :
  ordinal UPGRADE_DIFFADJ <= ordinal UPGRADE_BUTTERCUP /\
  domain_consensus_is_activation_height_any init_main_params (706999 + 1) = Ok true.
Proof.
  destruct (epoch_transitions init_main_params 706999 UPGRADE_DIFFADJ UPGRADE_BUTTERCUP
    ltac:(lia) eq_refl eq_refl) as [H1 H2].
  split; [exact H1|]. apply H2. discriminate.
Defined.

(** [next_activation_height] is a faithful look-ahead: when the schedule lists
    upgrades in activation order, the epoch (and with it the branch id that signatures
    commit to) is the same at every height from [h] up to, but not including, the height
    it returns. *)
Theorem epoch_stable_until_next_activation params h h' a b :
  schedule_ordered params -> 0 <= h ->
  domain_consensus_next_activation_height params h = Ok a -> h <= h' < a ->
  domain_consensus_current_epoch_branch_id params h = Ok b ->
  domain_consensus_current_epoch_branch_id params h' = Ok b.
Proof.
  intros Hord Hh Ha Hh' Hb. unfold domain_consensus_current_epoch_branch_id in *.
  replace (h <? 0) with false in Hb by lia. replace (h' <? 0) with false by lia.
  destruct (current_epoch_total params h Hh) as [e He]. rewrite He in Hb.
  by rewrite (epoch_stable params h h' a e Hord Hh Ha He Hh').
Qed.

Lemma epoch_stable_until_next_activation_witness :
  domain_consensus_current_epoch_branch_id init_main_params 500000 = Ok 0x76b809bb.
Proof.
  apply (epoch_stable_until_next_activation init_main_params 476969 500000 585318 0x76b809bb).
  - intros i j Hij Hi Hj. destruct i, j; vm_compute in *;
      first [discriminate | by destruct Hi | by destruct Hj].
  - lia.
  - reflexivity.
  - lia.
  - reflexivity.
Defined.

(** the halving counter jumps at Buttercup: on the main network no halving has
    happened at the last block before the upgrade, and three are counted at its first
    block, so that the subsidy drops from 12.5 coins by a factor of sixteen (three
    halvings and the halved block spacing). *)
Theorem buttercup_halving_jump :
  consensus_halving init_main_params 706999 = 0 /\
  consensus_halving init_main_params 707000 = 3 /\
  domain_consensus_block_subsidy init_main_params 706999 = Ok 1250000000 /\
  domain_consensus_block_subsidy init_main_params 707000 = Ok 78125000 /\
  1250000000 = 16 * 78125000 /\
  nPostButtercupSubsidyHalvingInterval init_main_params >
  nPreButtercupSubsidyHalvingInterval init_main_params.
Proof. repeat split. Qed.

(** the legacy predicates do report failure through their result: an unknown
    branch id and a height that activates nothing both give false, and the look-ahead
    gives -1 once every upgrade is active. *)
Theorem upgrade_wrappers_report_failure :
  consensus_is_branch_id 1 = false /\
  consensus_is_activation_height_any init_main_params 1 = false /\
  consensus_next_epoch init_main_params 707000 = -1 /\
  consensus_next_activation_height init_main_params 707000 = -1.
Proof. repeat split. Qed.
