(* ===== verification/TxCheck.v ===== *)
(** * Context-free and height-dependent transaction checks

    Models domain/consensus/src/tx_structural.c, sapling_structural.c and locktime.c.
    A failing check is the value of its error code; [tx_reject] and [sapling_reject] give
    the reject reason and the misbehaviour score the source stamps for it. *)

From stdpp Require Import strings.
From S2P Require Import Prelude Hash Serialize Script Transaction Params.

(** ** Constants (consensus.h, locktime.h) *)

Definition SPROUT_MIN_TX_VERSION : Z := 1.
Definition OVERWINTER_MIN_TX_VERSION : Z := 3.
Definition OVERWINTER_MAX_TX_VERSION : Z := 3.
Definition SAPLING_MIN_TX_VERSION : Z := 4.
Definition SAPLING_MAX_TX_VERSION : Z := 4.
Definition MAX_TX_SIZE_BEFORE_SAPLING : Z := 100000.
Definition MAX_TX_SIZE_AFTER_SAPLING : Z := 2000000.
Definition TX_EXPIRY_HEIGHT_THRESHOLD : Z := 500000000.
Definition DOMAIN_CONSENSUS_LOCKTIME_THRESHOLD : Z := 500000000.
Definition DOMAIN_CONSENSUS_TX_EXPIRING_SOON_THRESHOLD : Z := 3.

(** ** Structural checks (tx_structural.c) *)

Inductive tx_err :=
  | VERSION_TOO_LOW | OVERWINTER_VERSION_TOO_LOW | VERSION_GROUP_ID | EXPIRY_HEIGHT_TOO_HIGH
  | VIN_EMPTY | VOUT_EMPTY | OVERSIZE | VOUT_NEGATIVE | VOUT_TOOLARGE | VOUT_TOTAL_TOOLARGE
  | VALUEBALANCE_NONZERO | VALUEBALANCE_TOOLARGE | VPUB_OLD_NEGATIVE | VPUB_NEW_NEGATIVE
  | VPUB_OLD_TOOLARGE | VPUB_NEW_TOOLARGE | VPUBS_BOTH_NONZERO | TXINTOTAL_TOOLARGE
  | INPUTS_DUPLICATE | JS_NULLIFIERS_DUPLICATE | SPEND_NULLIFIERS_DUPLICATE
  | CB_HAS_JOINSPLITS | CB_HAS_SPEND_DESC | CB_HAS_OUTPUT_DESC | CB_LENGTH | PREVOUT_NULL.

Definition tx_reject (e : tx_err) : string * Z :=
  match e with
  | VERSION_TOO_LOW => ("bad-txns-version-too-low", 100)
  | OVERWINTER_VERSION_TOO_LOW => ("bad-tx-overwinter-version-too-low", 100)
  | VERSION_GROUP_ID => ("bad-tx-version-group-id", 100)
  | EXPIRY_HEIGHT_TOO_HIGH => ("bad-tx-expiry-height-too-high", 100)
  | VIN_EMPTY => ("bad-txns-vin-empty", 10)
  | VOUT_EMPTY => ("bad-txns-vout-empty", 10)
  | OVERSIZE => ("bad-txns-oversize", 100)
  | VOUT_NEGATIVE => ("bad-txns-vout-negative", 100)
  | VOUT_TOOLARGE => ("bad-txns-vout-toolarge", 100)
  | VOUT_TOTAL_TOOLARGE => ("bad-txns-txouttotal-toolarge", 100)
  | VALUEBALANCE_NONZERO => ("bad-txns-valuebalance-nonzero", 100)
  | VALUEBALANCE_TOOLARGE => ("bad-txns-valuebalance-toolarge", 100)
  | VPUB_OLD_NEGATIVE => ("bad-txns-vpub_old-negative", 100)
  | VPUB_NEW_NEGATIVE => ("bad-txns-vpub_new-negative", 100)
  | VPUB_OLD_TOOLARGE => ("bad-txns-vpub_old-toolarge", 100)
  | VPUB_NEW_TOOLARGE => ("bad-txns-vpub_new-toolarge", 100)
  | VPUBS_BOTH_NONZERO => ("bad-txns-vpubs-both-nonzero", 100)
  | TXINTOTAL_TOOLARGE => ("bad-txns-txintotal-toolarge", 100)
  | INPUTS_DUPLICATE => ("bad-txns-inputs-duplicate", 100)
  | JS_NULLIFIERS_DUPLICATE => ("bad-joinsplits-nullifiers-duplicate", 100)
  | SPEND_NULLIFIERS_DUPLICATE => ("bad-spend-description-nullifiers-duplicate", 100)
  | CB_HAS_JOINSPLITS => ("bad-cb-has-joinsplits", 100)
  | CB_HAS_SPEND_DESC => ("bad-cb-has-spend-description", 100)
  | CB_HAS_OUTPUT_DESC => ("bad-cb-has-output-description", 100)
  | CB_LENGTH => ("bad-cb-length", 100)
  | PREVOUT_NULL => ("bad-txns-prevout-null", 10)
  end.

Abbreviation tx_result := (result tx_err).

Definition fail_if (b : bool) (e : tx_err) : tx_result unit := ensure (negb b) e.

Definition check_version (tx : transaction) : tx_result unit :=
  fail_if (negb (overwintered tx) && (version tx <? SPROUT_MIN_TX_VERSION)) VERSION_TOO_LOW;;
  if overwintered tx then
    fail_if (version tx <? OVERWINTER_MIN_TX_VERSION) OVERWINTER_VERSION_TOO_LOW;;
    fail_if (negb (version_group_id tx =? OVERWINTER_VERSION_GROUP_ID) &&
             negb (version_group_id tx =? SAPLING_VERSION_GROUP_ID)) VERSION_GROUP_ID;;
    fail_if (expiry_height tx >=? TX_EXPIRY_HEIGHT_THRESHOLD) EXPIRY_HEIGHT_TOO_HIGH
  else mret tt.

Fixpoint check_vouts (value_out : Z) (outs : list tx_out) : tx_result Z :=
  match outs with
  | [] => Ok value_out
  | o :: rest =>
      fail_if (value o <? 0) VOUT_NEGATIVE;;
      fail_if (value o >? MAX_MONEY) VOUT_TOOLARGE;;
      let value_out := i64 (value_out + value o) in
      fail_if (negb (MoneyRange value_out)) VOUT_TOTAL_TOOLARGE;;
      check_vouts value_out rest
  end.

Definition check_value_balance (tx : transaction) (value_out : Z) : tx_result Z :=
  fail_if ((zlen (v_shielded_spend tx) =? 0) && (zlen (v_shielded_output tx) =? 0) &&
           negb (value_balance tx =? 0)) VALUEBALANCE_NONZERO;;
  fail_if ((value_balance tx >? MAX_MONEY) || (value_balance tx <? - MAX_MONEY)) VALUEBALANCE_TOOLARGE;;
  if value_balance tx <=? 0 then
    let value_out := i64 (value_out + - value_balance tx) in
    fail_if (negb (MoneyRange value_out)) VOUT_TOTAL_TOOLARGE;;
    Ok value_out
  else Ok value_out.

Fixpoint check_joinsplits (value_out : Z) (l : list js_description) : tx_result Z :=
  match l with
  | [] => Ok value_out
  | js :: rest =>
      fail_if (vpub_old js <? 0) VPUB_OLD_NEGATIVE;;
      fail_if (vpub_new js <? 0) VPUB_NEW_NEGATIVE;;
      fail_if (vpub_old js >? MAX_MONEY) VPUB_OLD_TOOLARGE;;
      fail_if (vpub_new js >? MAX_MONEY) VPUB_NEW_TOOLARGE;;
      fail_if (negb (vpub_new js =? 0) && negb (vpub_old js =? 0)) VPUBS_BOTH_NONZERO;;
      let value_out := i64 (value_out + vpub_old js) in
      fail_if (negb (MoneyRange value_out)) VOUT_TOTAL_TOOLARGE;;
      check_joinsplits value_out rest
  end.

Fixpoint check_vpub_new (value_in : Z) (l : list js_description) : tx_result Z :=
  match l with
  | [] => Ok value_in
  | js :: rest =>
      let value_in := i64 (value_in + vpub_new js) in
      fail_if (negb (MoneyRange (vpub_new js)) || negb (MoneyRange value_in)) TXINTOTAL_TOOLARGE;;
      check_vpub_new value_in rest
  end.

Definition check_value_in (tx : transaction) : tx_result unit :=
  value_in ← check_vpub_new 0 (v_joinsplit tx);
  if value_balance tx >=? 0
  then fail_if (negb (MoneyRange (i64 (value_in + value_balance tx)))) TXINTOTAL_TOOLARGE
  else mret tt.

(** [for i, for j > i: same l[i] l[j]] *)
Fixpoint any_pair {A} (same : A -> A -> bool) (l : list A) : bool :=
  match l with
  | [] => false
  | a :: rest => existsb (same a) rest || any_pair same rest
  end.

Definition uint256_same (a b : uint256_t) : bool := uint256_cmp a b =? 0.

Definition outpoint_same (a b : outpoint) : bool := outpoint_cmp a b =? 0.

(** Within one joinsplit, each nullifier is compared with those of the earlier joinsplits
    and with the ones before it in its own. *)
Fixpoint js_dup_in (earlier : list uint256_t) (before nfs : list uint256_t) : bool :=
  match nfs with
  | [] => false
  | nf :: rest =>
      existsb (uint256_same nf) earlier || existsb (uint256_same nf) before ||
      js_dup_in earlier (before ++ [nf]) rest
  end.

Fixpoint js_nullifiers_dup (earlier : list uint256_t) (l : list js_description) : bool :=
  match l with
  | [] => false
  | js :: rest =>
      js_dup_in earlier [] (js_nullifiers js) ||
      js_nullifiers_dup (earlier ++ js_nullifiers js) rest
  end.

Definition check_coinbase (tx : transaction) : tx_result unit :=
  match vin tx with
  | i :: _ =>
    if transaction_is_coinbase tx then
      fail_if (zlen (v_joinsplit tx) >? 0) CB_HAS_JOINSPLITS;;
      fail_if (zlen (v_shielded_spend tx) >? 0) CB_HAS_SPEND_DESC;;
      fail_if (zlen (v_shielded_output tx) >? 0) CB_HAS_OUTPUT_DESC;;
      fail_if ((zlen (script_sig i) <? 2) || (zlen (script_sig i) >? 100)) CB_LENGTH
    else fail_if (existsb (fun i => outpoint_is_null (prevout i)) (vin tx)) PREVOUT_NULL
  | [] => mret tt
  end.

Definition domain_consensus_check_transaction_structural `{Allocator} (tx : transaction)
    : tx_result unit :=
  check_version tx;;
  fail_if ((zlen (vin tx) =? 0) && (zlen (v_joinsplit tx) =? 0) &&
           (zlen (v_shielded_spend tx) =? 0)) VIN_EMPTY;;
  fail_if ((zlen (vout tx) =? 0) && (zlen (v_joinsplit tx) =? 0) &&
           (zlen (v_shielded_output tx) =? 0)) VOUT_EMPTY;;
  fail_if (transaction_serialize_size tx >? MAX_TX_SIZE_AFTER_SAPLING) OVERSIZE;;
  value_out ← check_vouts 0 (vout tx);
  value_out ← check_value_balance tx value_out;
  check_joinsplits value_out (v_joinsplit tx);;
  check_value_in tx;;
  fail_if (any_pair outpoint_same (map prevout (vin tx))) INPUTS_DUPLICATE;;
  fail_if (js_nullifiers_dup [] (v_joinsplit tx)) JS_NULLIFIERS_DUPLICATE;;
  fail_if (any_pair uint256_same (map sd_nullifier (v_shielded_spend tx))) SPEND_NULLIFIERS_DUPLICATE;;
  check_coinbase tx.

(** ** Height-dependent checks (sapling_structural.c) *)

Inductive sapling_err :=
  | SAP_NEG_HEIGHT | OVERWINTER_NOT_ACTIVE | SAPLING_OVERWINTERED_FLAG | SAPLING_GROUP_ID
  | SAPLING_VERSION_TOO_LOW | SAPLING_VERSION_TOO_HIGH | OVERWINTER_FLAG_NOT_SET
  | OVERWINTER_GROUP_ID | OVERWINTER_VERSION_TOO_HIGH | OVERWINTER_ACTIVE | SAP_OVERSIZE.

Definition sapling_reject (dos_level : Z) (e : sapling_err) : option (string * Z) :=
  match e with
  | SAP_NEG_HEIGHT => None
  | OVERWINTER_NOT_ACTIVE => Some ("tx-overwinter-not-active", dos_level)
  | SAPLING_OVERWINTERED_FLAG => Some ("tx-overwintered-flag-not-set", dos_level)
  | SAPLING_GROUP_ID => Some ("bad-sapling-tx-version-group-id", dos_level)
  | SAPLING_VERSION_TOO_LOW => Some ("bad-tx-sapling-version-too-low", 100)
  | SAPLING_VERSION_TOO_HIGH => Some ("bad-tx-sapling-version-too-high", 100)
  | OVERWINTER_FLAG_NOT_SET => Some ("tx-overwinter-flag-not-set", dos_level)
  | OVERWINTER_GROUP_ID => Some ("bad-overwinter-tx-version-group-id", dos_level)
  | OVERWINTER_VERSION_TOO_HIGH => Some ("bad-tx-overwinter-version-too-high", 100)
  | OVERWINTER_ACTIVE => Some ("tx-overwinter-active", dos_level)
  | SAP_OVERSIZE => Some ("bad-txns-oversize", 100)
  end.

Definition domain_consensus_check_transaction_sapling_structural `{Allocator} (tx : transaction)
    (params : consensus_params) (n_height : Z) : result sapling_err unit :=
  let reject_if b e := ensure (negb b) e in
  reject_if (n_height <? 0) SAP_NEG_HEIGHT;;
  let overwinterActive := consensus_network_upgrade_active params n_height UPGRADE_OVERWINTER in
  let saplingActive := consensus_network_upgrade_active params n_height UPGRADE_SAPLING in
  let isSprout := negb overwinterActive in
  reject_if (isSprout && overwintered tx) OVERWINTER_NOT_ACTIVE;;
  (if saplingActive then
     reject_if ((version tx >=? SAPLING_MIN_TX_VERSION) && negb (overwintered tx)) SAPLING_OVERWINTERED_FLAG;;
     reject_if (overwintered tx && negb (version_group_id tx =? SAPLING_VERSION_GROUP_ID)) SAPLING_GROUP_ID;;
     reject_if (overwintered tx && (version tx <? SAPLING_MIN_TX_VERSION)) SAPLING_VERSION_TOO_LOW;;
     reject_if (overwintered tx && (version tx >? SAPLING_MAX_TX_VERSION)) SAPLING_VERSION_TOO_HIGH
   else if overwinterActive then
     reject_if ((version tx >=? OVERWINTER_MIN_TX_VERSION) && negb (overwintered tx)) OVERWINTER_FLAG_NOT_SET;;
     reject_if (overwintered tx && negb (version_group_id tx =? OVERWINTER_VERSION_GROUP_ID)) OVERWINTER_GROUP_ID;;
     reject_if (overwintered tx && (version tx >? OVERWINTER_MAX_TX_VERSION)) OVERWINTER_VERSION_TOO_HIGH
   else mret tt);;
  reject_if (overwinterActive && negb (overwintered tx)) OVERWINTER_ACTIVE;;
  if negb saplingActive
  then reject_if (transaction_serialize_size tx >? MAX_TX_SIZE_BEFORE_SAPLING) SAP_OVERSIZE
  else mret tt.

(** ** Lock time and expiry (locktime.c) *)

Definition domain_consensus_tx_is_final (tx : transaction) (n_block_height n_block_time : Z) : bool :=
  if lock_time tx =? 0 then true
  else
    let lt := lock_time tx in
    let cutoff := if lt <? DOMAIN_CONSENSUS_LOCKTIME_THRESHOLD then n_block_height else n_block_time in
    if lt <? cutoff then true else forallb tx_in_is_final (vin tx).

Definition domain_consensus_tx_is_expired (tx : transaction) (n_height : Z) : bool :=
  if (expiry_height tx =? 0) || transaction_is_coinbase tx then false
  else u32 n_height >=? expiry_height tx.

Definition domain_consensus_tx_is_expiring_soon (tx : transaction) (n_next_block_height : Z) : bool :=
  domain_consensus_tx_is_expired tx
    (n_next_block_height + DOMAIN_CONSENSUS_TX_EXPIRING_SOON_THRESHOLD).

(** ** What the checks mean *)

Definition version_valid (tx : transaction) : Prop :=
  if overwintered tx then
    3 <= version tx /\
    (version_group_id tx = OVERWINTER_VERSION_GROUP_ID \/ version_group_id tx = SAPLING_VERSION_GROUP_ID) /\
    expiry_height tx < TX_EXPIRY_HEIGHT_THRESHOLD
  else 1 <= version tx.

Definition money (v : Z) : Prop := 0 <= v <= MAX_MONEY.

Definition js_value_valid (js : js_description) : Prop :=
  money (vpub_old js) /\ money (vpub_new js) /\ (vpub_new js = 0 \/ vpub_old js = 0).

(** The amounts are in range, and so are the exact totals paid out and taken in. *)
Definition values_valid (tx : transaction) : Prop :=
  Forall (fun o => money (value o)) (vout tx) /\
  - MAX_MONEY <= value_balance tx <= MAX_MONEY /\
  (v_shielded_spend tx = [] -> v_shielded_output tx = [] -> value_balance tx = 0) /\
  Forall js_value_valid (v_joinsplit tx) /\
  sum_Z (amounts_out tx) <= MAX_MONEY /\ sum_Z (amounts_in tx) <= MAX_MONEY.

(** Nothing is spent twice inside the transaction. *)
Definition spends_distinct (tx : transaction) : Prop :=
  NoDup (map prevout (vin tx)) /\
  NoDup (mjoin (map js_nullifiers (v_joinsplit tx))) /\
  NoDup (map sd_nullifier (v_shielded_spend tx)).

Definition coinbase_valid (tx : transaction) : Prop :=
  match vin tx with
  | [i] =>
      prevout i = outpoint_set_null ->
      v_joinsplit tx = [] /\ v_shielded_spend tx = [] /\ v_shielded_output tx = [] /\
      2 <= zlen (script_sig i) <= 100
  | ins => Forall (fun i => prevout i <> outpoint_set_null) ins
  end.

Definition structurally_valid (tx : transaction) : Prop :=
  version_valid tx /\
  ~ (vin tx = [] /\ v_joinsplit tx = [] /\ v_shielded_spend tx = []) /\
  ~ (vout tx = [] /\ v_joinsplit tx = [] /\ v_shielded_output tx = []) /\
  zlen (tx_bytes tx) <= MAX_TX_SIZE_AFTER_SAPLING /\
  values_valid tx /\ spends_distinct tx /\ coinbase_valid tx.

(** ** Lemmas *)

Lemma fail_if_ok b e u : fail_if b e = Ok u <-> b = false.
Proof. unfold fail_if. by rewrite ensure_ok, negb_true_iff. Qed.

Lemma fail_if_bind {A} b e (k : tx_result A) x : (fail_if b e;; k) = Ok x <-> b = false /\ k = Ok x.
Proof. destruct b; simpl; naive_solver. Qed.

Lemma zlen_zero {A} (l : list A) : (zlen l =? 0) = true <-> l = [].
Proof. destruct l; [done|]. rewrite zlen_cons. pose proof (zlen_nonneg l). split; [lia|done]. Qed.

Lemma MoneyRange_money v : MoneyRange v = true <-> money v.
Proof. apply MoneyRange_spec. Qed.

Lemma check_version_ok tx : check_version tx = Ok tt <-> version_valid tx.
Proof.
  unfold check_version, version_valid. rewrite fail_if_bind.
  destruct (overwintered tx); simpl.
  - rewrite !fail_if_bind, fail_if_ok. unfold OVERWINTER_MIN_TX_VERSION.
    rewrite andb_false_iff, !negb_false_iff. lia.
  - unfold SPROUT_MIN_TX_VERSION. split; [lia|]. intros. split; [lia|done].
Qed.

(** Adding an amount in range to a total in range does not wrap. *)
Lemma add_money t v : money t -> money v -> i64 (t + v) = t + v.
Proof. unfold money, MAX_MONEY, COIN. intros. apply swrap_small; [lia|unfold is_s; lia]. Qed.

Lemma add_money_range t v : money t -> money v ->
  (negb (MoneyRange (i64 (t + v))) = false <-> t + v <= MAX_MONEY).
Proof.
  intros Ht Hv. rewrite add_money by done. rewrite negb_false_iff, MoneyRange_money. unfold money in *. lia.
Qed.

Lemma money_nonneg_sum l : Forall money l -> 0 <= sum_Z l.
Proof. induction 1 as [|a l Ha Hl IH]; simpl; [lia|]. unfold money in *. unfold sum_Z in *. lia. Qed.

(** The output loop *)
Lemma check_vouts_ok outs t v : money t ->
  check_vouts t outs = Ok v <->
  Forall (fun o => money (value o)) outs /\ t + sum_Z (map value outs) <= MAX_MONEY /\
  v = t + sum_Z (map value outs).
Proof.
  revert t. induction outs as [|o outs IH]; intros t Ht.
  { simpl. rewrite Z.add_0_r. unfold money in *. split; [intros [= ->]|intros (_ & _ & ->)]; auto using Forall_nil with lia. }
  cbn [check_vouts map sum_Z foldr]. rewrite Forall_cons, !fail_if_bind. fold (sum_Z (map value outs)).
  destruct (decide (money (value o))) as [Ho|Ho]; [|unfold money in *; lia].
  rewrite add_money_range by done.
  split.
  - intros (_ & _ & Hle & Hk). rewrite add_money in Hk by done.
    apply IH in Hk; [|unfold money in *; lia]. destruct Hk as (Hf & Hs & ->).
    split_and!; [done|done|lia|lia].
  - intros ((_ & Hf) & Hs & ->).
    assert (0 <= sum_Z (map value outs)) by (by apply money_nonneg_sum, Forall_map).
    rewrite add_money by done. unfold money in *. split_and!; [lia|lia|lia|].
    apply IH; [lia|]. split_and!; [done|lia|lia].
Qed.

Lemma check_joinsplits_ok l t v : money t ->
  check_joinsplits t l = Ok v <->
  Forall js_value_valid l /\ t + sum_Z (map vpub_old l) <= MAX_MONEY /\ v = t + sum_Z (map vpub_old l).
Proof.
  revert t. induction l as [|js l IH]; intros t Ht.
  { simpl. rewrite Z.add_0_r. unfold money in *. split; [intros [= ->]|intros (_ & _ & ->)]; auto using Forall_nil with lia. }
  cbn [check_joinsplits map sum_Z foldr]. rewrite Forall_cons, !fail_if_bind. fold (sum_Z (map vpub_old l)).
  destruct (decide (money (vpub_old js))) as [Ho|Ho]; [|unfold js_value_valid, money in *; lia].
  rewrite add_money_range by done.
  split.
  - intros (_ & Hn & _ & Hn' & Hb & Hle & Hk). rewrite add_money in Hk by done.
    apply IH in Hk; [|unfold money in *; lia]. destruct Hk as (Hf & Hs & ->).
    unfold js_value_valid, money in *. split_and!; try done; lia.
  - intros ((Hj & Hf) & Hs & ->).
    assert (0 <= sum_Z (map vpub_old l)).
    { apply money_nonneg_sum, Forall_map. eapply Forall_impl; [exact Hf|]. by intros ? []. }
    rewrite add_money by done. unfold js_value_valid, money in *. split_and!; try lia.
    apply IH; [lia|]. split_and!; [done|lia|lia].
Qed.

Lemma check_vpub_new_ok l t v : money t -> Forall (fun js => money (vpub_new js)) l ->
  check_vpub_new t l = Ok v <->
  t + sum_Z (map vpub_new l) <= MAX_MONEY /\ v = t + sum_Z (map vpub_new l).
Proof.
  intros Ht Hl. revert t Ht. induction Hl as [|js l Hj Hl IH]; intros t Ht.
  { simpl. rewrite Z.add_0_r. unfold money in *. split; [intros [= ->]|intros (_ & ->)]; auto with lia. }
  cbn [check_vpub_new map sum_Z foldr]. rewrite fail_if_bind, orb_false_iff, add_money_range by done.
  fold (sum_Z (map vpub_new l)). rewrite negb_false_iff, MoneyRange_money.
  assert (0 <= sum_Z (map vpub_new l)) by (by apply money_nonneg_sum, Forall_map).
  rewrite add_money by done. split.
  - intros ((_ & Hle) & Hk). apply IH in Hk; unfold money in *; lia.
  - intros (Hs & ->). unfold money in *. split_and!; [lia|lia|lia|]. apply IH; lia.
Qed.

(** The amount a negative value balance moves into the shielded pool *)
Definition balance_out (tx : transaction) : Z :=
  sum_Z (if value_balance tx <=? 0 then [- value_balance tx] else []).

Lemma check_value_balance_ok tx t v : money t ->
  check_value_balance tx t = Ok v <->
  (v_shielded_spend tx = [] -> v_shielded_output tx = [] -> value_balance tx = 0) /\
  - MAX_MONEY <= value_balance tx <= MAX_MONEY /\
  t + balance_out tx <= MAX_MONEY /\ v = t + balance_out tx.
Proof.
  intros Ht. unfold check_value_balance, balance_out. rewrite !fail_if_bind.
  set (b := value_balance tx).
  assert ((zlen (v_shielded_spend tx) =? 0) && (zlen (v_shielded_output tx) =? 0) && negb (b =? 0) = false <->
    (v_shielded_spend tx = [] -> v_shielded_output tx = [] -> b = 0)) as ->.
  { rewrite <- not_true_iff_false, !andb_true_iff, !zlen_zero, negb_true_iff, Z.eqb_neq.
    destruct (decide (b = 0)); tauto. }
  assert ((b >? MAX_MONEY) || (b <? - MAX_MONEY) = false <-> - MAX_MONEY <= b <= MAX_MONEY) as -> by lia.
  apply and_iff_compat_l. split; intros [Hr Hk]; (split; [done|]).
  - destruct (Z.leb_spec b 0).
    + rewrite fail_if_bind, add_money_range, add_money in Hk by (done || (unfold money; lia)).
      destruct Hk as [? [= <-]]. simpl. lia.
    + injection Hk as <-. unfold money in *. simpl. lia.
  - destruct Hk as [Hle ->]. destruct (Z.leb_spec b 0); simpl in *; [|f_equal; lia].
    rewrite fail_if_bind, add_money_range, add_money by (done || (unfold money; lia)).
    split; [lia|]. f_equal. lia.
Qed.

Lemma check_value_in_ok tx :
  Forall (fun js => money (vpub_new js)) (v_joinsplit tx) -> - MAX_MONEY <= value_balance tx <= MAX_MONEY ->
  check_value_in tx = Ok tt <-> sum_Z (amounts_in tx) <= MAX_MONEY.
Proof.
  intros Hn Hb. assert (money 0) as H0 by done. unfold check_value_in, amounts_in.
  rewrite sum_Z_app, bind_ok. setoid_rewrite (check_vpub_new_ok _ 0 _ H0 Hn). rewrite Z.add_0_l.
  set (b := value_balance tx) in *. set (s := sum_Z (map vpub_new (v_joinsplit tx))).
  assert (0 <= s) by (by apply money_nonneg_sum, Forall_map).
  destruct (Z.geb_spec b 0); simpl.
  - setoid_rewrite fail_if_ok. split.
    + intros (v & [Hs ->] & Hv). rewrite add_money_range in Hv by (unfold money; lia). lia.
    + intros Hs. exists s. split; [split; [lia|done]|]. rewrite add_money_range by (unfold money; lia). lia.
  - split; [intros (v & [Hs ->] & _); lia|]. intros. exists s. split; [split; [lia|done]|done].
Qed.

Lemma check_values_ok tx :
  (exists v1, check_vouts 0 (vout tx) = Ok v1 /\
   exists v2, check_value_balance tx v1 = Ok v2 /\
   exists v3, check_joinsplits v2 (v_joinsplit tx) = Ok v3 /\ check_value_in tx = Ok tt) <->
  values_valid tx.
Proof.
  assert (money 0) as H0 by done. unfold values_valid, amounts_out. rewrite !sum_Z_app.
  fold (balance_out tx). set (vs := sum_Z (map value (vout tx))).
  assert (0 <= balance_out tx) by (unfold balance_out; destruct (Z.leb_spec (value_balance tx) 0); simpl; lia).
  assert (forall l, Forall js_value_valid l ->
    Forall (fun js => money (vpub_new js)) l /\ 0 <= sum_Z (map vpub_old l)) as Hjs.
  { intros l Hl. split; [eapply Forall_impl; [exact Hl|]; by intros ? (_ & ? & _)|].
    apply money_nonneg_sum, Forall_map. eapply Forall_impl; [exact Hl|]. by intros ? (? & _). }
  setoid_rewrite (check_vouts_ok _ 0 _ H0). rewrite Z.add_0_l. fold vs. split.
  - intros (v1 & (Hf & Hs & ->) & v2 & Hv2 & v3 & Hj & Hin).
    assert (0 <= vs) by (by apply money_nonneg_sum, Forall_map).
    rewrite check_value_balance_ok in Hv2 by (unfold money; lia). destruct Hv2 as (Hz & Hr & Hle & ->).
    rewrite check_joinsplits_ok in Hj by (unfold money; lia). destruct Hj as (Hj & Hle' & _).
    rewrite check_value_in_ok in Hin by (apply Hjs in Hj as []; done).
    split_and!; try done; lia.
  - intros (Hf & Hr & Hz & Hj & Ho & Hi). destruct (Hjs _ Hj) as [Hn Hold].
    assert (0 <= vs) by (by apply money_nonneg_sum, Forall_map).
    exists vs. split; [split_and!; [done|lia|done]|]. exists (vs + balance_out tx).
    rewrite check_value_balance_ok by (unfold money; lia). split; [split_and!; try done; lia|].
    eexists. rewrite check_joinsplits_ok by (unfold money; lia). split; [split_and!; [done|lia|done]|].
    by rewrite check_value_in_ok.
Qed.

(** *** Duplicates *)

Lemma fixed_same n a b : fixed n a -> fixed n b -> uint256_same a b = true <-> a = b.
Proof. apply uint256_eq_spec. Qed.

Lemma outpoint_same_eq a b : outpoint_ok a -> outpoint_ok b -> outpoint_same a b = true <-> a = b.
Proof.
  destruct a as [ha na], b as [hb nb]. intros [Ha _] [Hb _]. simpl in *.
  pose proof (fixed_same 32 ha hb Ha Hb) as Hs. unfold outpoint_same, outpoint_cmp, uint256_same, uint256_cmp in *. simpl in *.
  destruct (memcmp ha hb =? 0) eqn:E; simpl.
  - assert (ha = hb) as <- by (by apply Hs). repeat case_if; split; try done; try lia; try (intros [=]; lia).
    intros _. f_equal. lia.
  - rewrite E. split; [done|]. intros [= -> ->]. by apply Hs.
Qed.

Lemma any_pair_NoDup {A} (same : A -> A -> bool) (P : A -> Prop) l :
  (forall a b, P a -> P b -> same a b = true <-> a = b) -> Forall P l ->
  any_pair same l = false <-> NoDup l.
Proof.
  intros Hsame. induction 1 as [|a l Ha Hl IH]; [split; [by constructor|done]|].
  cbn [any_pair]. rewrite orb_false_iff, NoDup_cons, IH. apply and_iff_compat_r.
  rewrite <- not_true_iff_false, existsb_exists. apply not_iff_compat.
  rewrite list_elem_of_In. split.
  - intros (x & Hx & E). apply Hsame in E as ->; [done|done|].
    by eapply (proj1 (List.Forall_forall _ _)).
  - intros Hin. exists a. split; [done|]. by apply Hsame.
Qed.

Lemma existsb_same n x l : fixed n x -> Forall (fixed n) l -> existsb (uint256_same x) l = false <-> x ∉ l.
Proof.
  intros Hx Hl. rewrite <- not_true_iff_false, existsb_exists. apply not_iff_compat.
  rewrite list_elem_of_In. split.
  - intros (y & Hy & E). apply (fixed_same n) in E as ->; [done|done|].
    by eapply (proj1 (List.Forall_forall _ _)).
  - intros Hin. exists x. split; [done|]. by apply (fixed_same n).
Qed.

Lemma js_dup_in_NoDup n earlier nfs before :
  Forall (fixed n) earlier -> Forall (fixed n) before -> Forall (fixed n) nfs ->
  NoDup (earlier ++ before) ->
  js_dup_in earlier before nfs = false <-> NoDup ((earlier ++ before) ++ nfs).
Proof.
  intros He. revert before. induction nfs as [|x nfs IH]; intros before Hb Hn Hd.
  { simpl. rewrite app_nil_r. done. }
  apply Forall_cons in Hn as [Hx Hn]. cbn [js_dup_in].
  rewrite !orb_false_iff, (existsb_same n), (existsb_same n) by done.
  replace ((earlier ++ before) ++ x :: nfs) with ((earlier ++ before ++ [x]) ++ nfs) by (by rewrite <- !app_assoc).
  assert (NoDup (earlier ++ before ++ [x]) <-> (x ∉ earlier) /\ (x ∉ before)) as Hx'.
  { rewrite app_assoc, NoDup_app, <- not_elem_of_app. split.
    - intros (_ & Hdis & _) Hin. by apply (Hdis x Hin), list_elem_of_singleton.
    - intros Hni. split_and!; [done| |apply NoDup_singleton].
      intros y Hy ->%list_elem_of_singleton. done. }
  rewrite <- Hx'. split.
  - intros [H1 H2]. apply IH; [by apply Forall_app; split; [|apply Forall_singleton]|done|done|done].
  - intros H1. assert (NoDup (earlier ++ before ++ [x])) as H2 by (by apply NoDup_app in H1 as (? & _)).
    split; [done|]. apply IH; [by apply Forall_app; split; [|apply Forall_singleton]|done|done|done].
Qed.

Lemma js_nullifiers_dup_NoDup n l earlier :
  Forall (fixed n) earlier -> Forall (fun js => Forall (fixed n) (js_nullifiers js)) l -> NoDup earlier ->
  js_nullifiers_dup earlier l = false <-> NoDup (earlier ++ mjoin (map js_nullifiers l)).
Proof.
  intros He Hl. revert earlier He. induction Hl as [|js l Hj Hl IH]; intros earlier He Hd.
  { simpl. by rewrite app_nil_r. }
  cbn [js_nullifiers_dup].
  change (mjoin (map js_nullifiers (js :: l))) with (js_nullifiers js ++ mjoin (map js_nullifiers l)).
  rewrite orb_false_iff, (js_dup_in_NoDup n), app_nil_r by (done || (by rewrite app_nil_r)).
  rewrite app_assoc. split.
  - intros [H1 H2]. apply IH; [by apply Forall_app|done|done].
  - intros H1. assert (NoDup (earlier ++ js_nullifiers js)) by (by apply NoDup_app in H1 as (? & _)).
    split; [done|]. apply IH; [by apply Forall_app|done|done].
Qed.

Lemma outpoint_is_null_spec op : outpoint_ok op -> outpoint_is_null op = true <-> op = outpoint_set_null.
Proof.
  destruct op as [h n]. intros [[Hl _] _]. unfold outpoint_is_null, outpoint_set_null, uint256_is_null. simpl in *.
  rewrite andb_true_iff, Z.eqb_eq. split.
  - intros [Hz ->]. f_equal. unfold uint256_null. replace 32%nat with (length h) by lia.
    clear Hl. induction h as [|b h IH]; [done|]. simpl in *. apply andb_prop in Hz as [Hb Hz].
    f_equal; [lia|auto].
  - intros [= -> ->]. done.
Qed.

Lemma check_coinbase_ok tx : Forall tx_in_ok (vin tx) ->
  check_coinbase tx = Ok tt <-> coinbase_valid tx.
Proof.
  intros Hin. unfold check_coinbase, coinbase_valid, transaction_is_coinbase.
  assert (forall l, Forall tx_in_ok l -> existsb (fun i => outpoint_is_null (prevout i)) l = false <->
    Forall (fun i => prevout i <> outpoint_set_null) l) as Hex.
  { induction 1 as [|i l [Hi _] Hl IH]; simpl; [split; [by constructor|done]|].
    rewrite orb_false_iff, Forall_cons, IH, <- not_true_iff_false, outpoint_is_null_spec; done. }
  assert (forall {A} (l : list A), (zlen l >? 0) = false <-> l = []) as Hz.
  { intros A l. rewrite <- zlen_zero. pose proof (zlen_nonneg l). lia. }
  destruct (vin tx) as [|i [|i' rest]]; [split; [by constructor|done]| |].
  - apply Forall_singleton in Hin as [Hi _]. pose proof (outpoint_is_null_spec _ Hi) as Hn.
    destruct (outpoint_is_null (prevout i)) eqn:E.
    + rewrite !fail_if_bind, fail_if_ok, !Hz, orb_false_iff. split.
      * intros (-> & -> & -> & Hs) _. split_and!; try done; lia.
      * intros H. destruct H as (-> & -> & -> & Hs); [by apply Hn|]. split_and!; try done; lia.
    + rewrite fail_if_ok. simpl. rewrite E. split; [|done]. intros _ He. apply Hn in He. done.
  - by rewrite fail_if_ok, Hex.
Qed.

Lemma js_ok_nullifiers g js : js_ok g js -> Forall (fixed 32) (js_nullifiers js).
Proof. by intros (_ & _ & _ & [_ ?] & _). Qed.

(** The typed parts of a well-formed transaction, whatever its version *)
Lemma tx_ok_parts tx : tx_ok tx ->
  Forall tx_in_ok (vin tx) /\
  Forall (fun js => Forall (fixed 32) (js_nullifiers js)) (v_joinsplit tx) /\
  Forall (fixed 32) (map sd_nullifier (v_shielded_spend tx)).
Proof.
  intros (_ & _ & [_ Hin] & _ & _ & _ & Hsap & Hjs & _). cbv zeta in *. split_and!; [done| |].
  - destruct (version tx >=? 2); [|by rewrite Hjs].
    destruct Hjs as [_ Hjs]. eapply Forall_impl; [exact Hjs|]. apply js_ok_nullifiers.
  - destruct (is_sapling_v4 _ _ _); [|by destruct Hsap as (_ & -> & _)].
    destruct Hsap as (_ & [_ Hs] & _). apply Forall_map. eapply Forall_impl; [exact Hs|].
    by intros ? (_ & _ & ? & _).
Qed.

Lemma check_distinct_ok tx : tx_ok tx ->
  any_pair outpoint_same (map prevout (vin tx)) = false /\
  js_nullifiers_dup [] (v_joinsplit tx) = false /\
  any_pair uint256_same (map sd_nullifier (v_shielded_spend tx)) = false <-> spends_distinct tx.
Proof.
  intros Hok. destruct (tx_ok_parts tx Hok) as (Hin & Hjs & Hsp). unfold spends_distinct.
  rewrite (any_pair_NoDup outpoint_same outpoint_ok), (any_pair_NoDup uint256_same (fixed 32)),
    (js_nullifiers_dup_NoDup 32); try done; [by constructor|intros; by apply (fixed_same 32)|
    intros; by apply outpoint_same_eq|].
  apply Forall_map. eapply Forall_impl; [exact Hin|]. by intros ? [? _].
Qed.

Lemma check_structural_iff `{AllocatorTotal} tx : tx_ok tx ->
  domain_consensus_check_transaction_structural tx = Ok tt <-> structurally_valid tx.
Proof.
  intros Hok. unfold domain_consensus_check_transaction_structural, structurally_valid.
  rewrite <- check_version_ok, <- check_values_ok, <- (check_distinct_ok tx Hok),
    <- check_coinbase_ok by (by apply tx_ok_parts).
  unfold transaction_serialize_size. rewrite transaction_scratch_bytes by done.
  assert (forall {A B C} (a : list A) (b : list B) (c : list C),
    (zlen a =? 0) && (zlen b =? 0) && (zlen c =? 0) = false <-> ~ (a = [] /\ b = [] /\ c = [])) as He.
  { intros. rewrite <- not_true_iff_false, !andb_true_iff, !zlen_zero. tauto. }
  rewrite bind_unit_ok, !fail_if_bind, !He. split.
  - intros (Hv & Hi & Ho & Hs & E).
    apply bind_ok in E as (v1 & H1 & E). apply bind_ok in E as (v2 & H2 & E).
    apply bind_ok in E as (v3 & H3 & E). apply bind_unit_ok in E as [H4 E].
    rewrite !fail_if_bind in E. destruct E as (Hd1 & Hd2 & Hd3 & Hc).
    split_and!; try done; [lia|]. eauto 10.
  - intros (Hv & Hi & Ho & Hs & (v1 & H1 & v2 & H2 & v3 & H3 & H4) & (Hd1 & Hd2 & Hd3) & Hc).
    split_and!; try done; [lia|]. rewrite H1; cbn [mbind result_bind]. rewrite H2; cbn [mbind result_bind].
    rewrite H3; cbn [mbind result_bind]. by rewrite H4, Hd1, Hd2, Hd3.
Qed.

(** The one transaction format an epoch admits *)
Definition epoch_format (params : consensus_params) (h : Z) (tx : transaction) : Prop :=
  if consensus_network_upgrade_active params h UPGRADE_SAPLING then
    overwintered tx = true /\ version_group_id tx = SAPLING_VERSION_GROUP_ID /\ version tx = 4
  else
    (if consensus_network_upgrade_active params h UPGRADE_OVERWINTER then
       overwintered tx = true /\ version_group_id tx = OVERWINTER_VERSION_GROUP_ID /\ version tx <= 3
     else overwintered tx = false) /\
    zlen (tx_bytes tx) <= MAX_TX_SIZE_BEFORE_SAPLING.

Lemma reject_if_bind {A} b (e : sapling_err) (k : result sapling_err A) x :
  (ensure (negb b) e;; k) = Ok x <-> b = false /\ k = Ok x.
Proof. destruct b; simpl; naive_solver. Qed.

Lemma check_sapling_iff `{AllocatorTotal} tx params h :
  tx_ok tx -> 0 <= h ->
  (consensus_network_upgrade_active params h UPGRADE_SAPLING = true ->
   consensus_network_upgrade_active params h UPGRADE_OVERWINTER = true) ->
  domain_consensus_check_transaction_sapling_structural tx params h = Ok tt <-> epoch_format params h tx.
Proof.
  intros Hok Hh Himp. unfold domain_consensus_check_transaction_sapling_structural, epoch_format. cbv zeta.
  rewrite !reject_if_bind. replace (h <? 0) with false by lia.
  unfold transaction_serialize_size. rewrite transaction_scratch_bytes by done.
  unfold SAPLING_MIN_TX_VERSION, SAPLING_MAX_TX_VERSION, OVERWINTER_MIN_TX_VERSION, OVERWINTER_MAX_TX_VERSION.
  destruct (consensus_network_upgrade_active params h UPGRADE_SAPLING).
  - rewrite Himp by done. rewrite bind_unit_ok, !reject_if_bind, ensure_ok.
    destruct (overwintered tx); simpl; [|intuition (discriminate || lia)].
    rewrite negb_false_iff, negb_true_iff. split; [intros; split_and!; lia|].
    intros (_ & -> & ->). done.
  - destruct (consensus_network_upgrade_active params h UPGRADE_OVERWINTER).
    + rewrite bind_unit_ok, !reject_if_bind, ensure_ok. simpl. rewrite ensure_ok.
      destruct (overwintered tx); simpl; [|intuition (discriminate || lia)].
      rewrite negb_false_iff, !negb_true_iff. split; [intros; split_and!; lia|].
      intros ((_ & -> & ?) & ?). split_and!; try done; lia.
    + rewrite bind_unit_ok, reject_if_bind. simpl. rewrite ensure_ok.
      destruct (overwintered tx); simpl; [intuition discriminate|]. rewrite negb_true_iff.
      split; [intros; split_and!; try done; lia|]. intros []. split_and!; try done; lia.
Qed.

(** ** Properties *)

(** A transparent payment in the Sapling format *)
Definition sample_payment : transaction := {|
  overwintered := true; version := 4; version_group_id := SAPLING_VERSION_GROUP_ID;
  vin := vin sample_tx; vout := vout sample_tx; lock_time := 0; expiry_height := 600000;
  value_balance := 0; v_shielded_spend := []; v_shielded_output := []; v_joinsplit := [];
  joinsplit_pubkey := uint256_null; joinsplit_sig := replicate 64 0;
  binding_sig := replicate 64 0; tx_hash := uint256_null |}.

Lemma sample_payment_ok : tx_ok sample_payment.
Proof.
  unfold tx_ok, vector_ok, tx_in_ok, tx_out_ok, outpoint_ok, script_ok, fixed, bytes_ok, is_u, is_s.
  simpl. repeat (split || constructor || lia || done).
Qed.

(** the structural transaction check is exact: on a well-formed transaction it
    succeeds if and only if the declarative rules hold -- version and group id, presence of
    inputs and outputs, size, every amount and both exact totals in the money range (with
    no 64-bit overflow), no outpoint and no nullifier spent twice, and the coinbase shape. *)
Theorem structural_check_exact `{AllocatorTotal} tx :
  tx_ok tx ->
  domain_consensus_check_transaction_structural tx = Ok tt <-> structurally_valid tx.
Proof. apply check_structural_iff. Qed.

Lemma structural_check_exact_witness : structurally_valid sample_payment.
Proof.
  apply (@structural_check_exact (fun _ => true) (fun _ => eq_refl) sample_payment sample_payment_ok).
  vm_compute. reflexivity.
Defined.

(** every upgrade epoch admits exactly one transaction format, so no transaction
    crosses the Sapling activation: where Sapling implies Overwinter, the height-dependent
    check accepts exactly the format of the epoch, and a transaction accepted at a height
    before Sapling is rejected at every height after it. *)
Theorem epoch_format_exact `{AllocatorTotal} tx params h h' :
  tx_ok tx -> 0 <= h -> 0 <= h' ->
  (forall k, consensus_network_upgrade_active params k UPGRADE_SAPLING = true ->
             consensus_network_upgrade_active params k UPGRADE_OVERWINTER = true) ->
  (domain_consensus_check_transaction_sapling_structural tx params h = Ok tt <-> epoch_format params h tx) /\
  (consensus_network_upgrade_active params h UPGRADE_SAPLING = false ->
   consensus_network_upgrade_active params h' UPGRADE_SAPLING = true ->
   domain_consensus_check_transaction_sapling_structural tx params h = Ok tt ->
   domain_consensus_check_transaction_sapling_structural tx params h' <> Ok tt).
Proof.
  intros Hok Hh Hh' Himp. split; [apply check_sapling_iff; auto|]. intros E E' Hc Hc'.
  rewrite check_sapling_iff in Hc by auto. rewrite check_sapling_iff in Hc' by auto.
  unfold epoch_format in *. rewrite E in Hc. rewrite E' in Hc'.
  destruct Hc' as (How & _ & Hv). destruct Hc as [Hc _].
  destruct (consensus_network_upgrade_active params h UPGRADE_OVERWINTER); [|congruence].
  destruct Hc as (_ & _ & ?). lia.
Qed.

Lemma epoch_format_exact_witness : epoch_format init_main_params 500000 sample_payment.
Proof.
  apply (@epoch_format_exact (fun _ => true) (fun _ => eq_refl) sample_payment init_main_params 500000 0
    sample_payment_ok ltac:(lia) ltac:(lia)).
  - intros k. destruct (Z_lt_le_dec k 0).
    + unfold consensus_network_upgrade_active, consensus_upgrade_state, domain_consensus_upgrade_state.
      replace (k <? 0) with true by lia. intros E. exact E.
    + rewrite !network_upgrade_active_spec by done. intros E. exact E.
  - vm_compute. reflexivity.
Defined.

(** finality and expiry never revert: a transaction final at some height and time
    stays final at every later height and time, and one expired at a height stays expired
    at every later height (heights being non-negative C ints); in particular a transaction
    reported as expiring soon is expired three blocks later. *)
Theorem finality_and_expiry_monotone tx h h' t t' :
  0 <= h <= h' -> h' < 2 ^ 31 -> t <= t' ->
  (domain_consensus_tx_is_final tx h t = true -> domain_consensus_tx_is_final tx h' t' = true) /\
  (domain_consensus_tx_is_expired tx h = true -> domain_consensus_tx_is_expired tx h' = true) /\
  (domain_consensus_tx_is_expiring_soon tx h = true -> h + 3 <= h' ->
   domain_consensus_tx_is_expired tx h' = true).
Proof.
  intros Hh Hmax Ht.
  assert (forall k, 0 <= k <= h' -> domain_consensus_tx_is_expired tx k = true ->
    domain_consensus_tx_is_expired tx h' = true) as Hexp.
  { intros k Hk. unfold domain_consensus_tx_is_expired. case_if; [done|].
    rewrite !(uwrap_small 32) by (unfold is_u; lia). lia. }
  split_and!.
  - unfold domain_consensus_tx_is_final. destruct (lock_time tx =? 0); [done|]. cbv zeta.
    destruct (lock_time tx <? DOMAIN_CONSENSUS_LOCKTIME_THRESHOLD);
      repeat case_if; done || (exfalso; lia).
  - apply Hexp. lia.
  - unfold domain_consensus_tx_is_expiring_soon, DOMAIN_CONSENSUS_TX_EXPIRING_SOON_THRESHOLD.
    intros E Hle. eapply Hexp; [|exact E]. lia.
Qed.

Lemma finality_and_expiry_monotone_witness :
  domain_consensus_tx_is_expired sample_payment 700000 = true.
Proof.
  destruct (finality_and_expiry_monotone sample_payment 600000 700000 0 0) as (_ & H & _);
    [lia|lia|lia|]. apply H. reflexivity.
Defined.
