(* ===== verification/Pow.v ===== *)
(** * Proof of work

    Models domain/consensus/src/verify.c and pow.c and lib/chain/src/pow.c, with the median
    time past of lib/chain/include/chain/chain.h.  The chain ending in a block is the list
    of its block-index entries, tip first; following [pprev] is taking the tail.
    Times are 32-bit header fields widened to int64, so their differences are exact. *)

From Stdlib Require Import Sorted.
From S2P Require Import Prelude Arith256 Serialize Script Transaction Params.

(** ** Verifying a solution (verify.c) *)

Inductive pow_err := POW_TARGET_INVALID | POW_TARGET_BELOW_MIN | POW_HASH_ABOVE_TARGET.

Definition domain_consensus_verify_pow_solution (block_hash : uint256_t) (n_bits : Z)
    (params : consensus_params) : result pow_err unit :=
  let r := arith_uint256_set_compact n_bits in
  let target := cr_value r in
  ensure (negb (cr_negative r || cr_overflow r || arith_uint256_is_zero target)) POW_TARGET_INVALID;;
  let pow_limit := uint256_to_arith (powLimit params) in
  ensure (negb (arith_uint256_compare target pow_limit >? 0)) POW_TARGET_BELOW_MIN;;
  let hash_arith := uint256_to_arith block_hash in
  ensure (negb (arith_uint256_compare hash_arith target >? 0)) POW_HASH_ABOVE_TARGET.

Definition CheckProofOfWork (hash : uint256_t) (nBits : Z) (params : consensus_params) : bool :=
  match domain_consensus_verify_pow_solution hash nBits params with Ok _ => true | Err _ => false end.

(** ** Chain work (pow.c) *)

Definition domain_consensus_block_proof (n_bits : Z) : arith_uint256 :=
  let r := arith_uint256_set_compact n_bits in
  let bnTarget := cr_value r in
  if cr_negative r || cr_overflow r || arith_uint256_is_zero bnTarget then arith_uint256_set_zero
  else
    let notTarget := arith_uint256_complement bnTarget in
    let one := arith_uint256_set_u64 1 in
    let targetPlusOne := arith_uint256_add bnTarget one in
    arith_uint256_add (arith_uint256_div notTarget targetPlusOne) one.

(** ** Difficulty adjustment.  [None]: an assertion of [arith_uint256_get_compact] fails. *)

Definition domain_consensus_increase_difficulty_by (n_bits multiplier : Z) (params : consensus_params)
    : result unit (option Z) :=
  ensure (negb (multiplier =? 0)) tt;;
  let target := cr_value (arith_uint256_set_compact n_bits) in
  let target := arith_uint256_div target (arith_uint256_set_u64 (u64 multiplier)) in
  let pow_limit := uint256_to_arith (powLimit params) in
  let target := if arith_uint256_compare target pow_limit >? 0 then pow_limit else target in
  Ok (arith_uint256_get_compact target false).

(** The clamped timespan *)
Definition adjusted_timespan (params : consensus_params) (next_height nActualTimespan : Z) : Z :=
  let avgTimespan := consensus_averaging_window_timespan params next_height in
  let minTimespan := consensus_min_actual_timespan params next_height in
  let maxTimespan := consensus_max_actual_timespan params next_height in
  let nActualTimespan := avgTimespan + (nActualTimespan - avgTimespan) ÷ 4 in
  let nActualTimespan := if nActualTimespan <? minTimespan then minTimespan else nActualTimespan in
  if nActualTimespan >? maxTimespan then maxTimespan else nActualTimespan.

Definition domain_consensus_calculate_next_work_required (bn_avg : arith_uint256)
    (last_block_time first_block_time : Z) (params : consensus_params) (next_height : Z) : option Z :=
  let avgTimespan := consensus_averaging_window_timespan params next_height in
  let nActualTimespan := adjusted_timespan params next_height (last_block_time - first_block_time) in
  let bnPowLimit := uint256_to_arith (powLimit params) in
  let avgTs := arith_uint256_set_u64 (u64 avgTimespan) in
  let actTs := arith_uint256_set_u64 (u64 nActualTimespan) in
  let bnNew := arith_uint256_mul (arith_uint256_div bn_avg avgTs) actTs in
  let bnNew := if arith_uint256_compare bnNew bnPowLimit >? 0 then bnPowLimit else bnNew in
  arith_uint256_get_compact bnNew false.

(** ** The block index (chain.h) *)

Record block_index := BlockIndex {
  bi_nHeight : Z;
  bi_nTime : Z;
  bi_nBits : Z;
  bi_nChainWork : arith_uint256;
}.

Definition MEDIAN_TIME_SPAN : nat := 11.

(** One round of the insertion sort: the sorted prefix is kept in reverse, so that the
    [while] loop moves from its end towards its start. *)
Fixpoint insert_key (key : Z) (prefix_rev : list Z) : list Z :=
  match prefix_rev with
  | [] => [key]
  | x :: rest => if x >? key then x :: insert_key key rest else key :: x :: rest
  end.

Definition insertion_sort (l : list Z) : list Z :=
  reverse (foldl (fun prefix_rev key => insert_key key prefix_rev) [] l).

(** [chain] is not empty where the source calls this. *)
Definition block_index_get_median_time_past (chain : list block_index) : Z :=
  let pmedian := map bi_nTime (take MEDIAN_TIME_SPAN chain) in
  insertion_sort pmedian !!! (length pmedian / 2)%nat.

(** ** Required work (lib/chain/src/pow.c) *)

Definition IncreaseDifficultyBy (nBits multiplier : Z) (params : consensus_params) : option Z :=
  match domain_consensus_increase_difficulty_by nBits multiplier params with
  | Ok out => out
  | Err _ => Some nBits
  end.

(** The averaging loop: the sum of the window's targets and the rest of the chain. *)
Fixpoint sum_targets (n : nat) (bnTot : arith_uint256) (chain : list block_index)
    : arith_uint256 * list block_index :=
  match n, chain with
  | S n', b :: rest =>
      sum_targets n' (arith_uint256_add bnTot (cr_value (arith_uint256_set_compact (bi_nBits b)))) rest
  | _, _ => (bnTot, chain)
  end.

(** [pblock_time] is [None] when [pblock] is NULL. *)
Definition time_exceeds (pblock_time : option Z) (limit : Z) : bool :=
  match pblock_time with Some t => t >? limit | None => false end.

Definition GetNextWorkRequired (chain : list block_index) (pblock_time : option Z)
    (params : consensus_params) : option Z :=
  nProofOfWorkLimit ← arith_uint256_get_compact (uint256_to_arith (powLimit params)) false;
  match chain with
  | [] => Some nProofOfWorkLimit
  | pindexLast :: _ =>
    let nHeight := bi_nHeight pindexLast + 1 in
    let spacing := consensus_pow_target_spacing params nHeight in
    let late k := time_exceeds pblock_time (bi_nTime pindexLast + spacing * k) in
    let in_window idx :=
      (nHeight >=? activation_height params idx) &&
      (nHeight <? activation_height params idx + nPowAveragingWindow params) in
    let scaled := scaleDifficultyAtUpgradeFork params &&
                  (in_window UPGRADE_DIFFADJ || in_window UPGRADE_BUTTERCUP) in
    if scaled && late 12 then Some nProofOfWorkLimit
    else if scaled && late 6 then IncreaseDifficultyBy nProofOfWorkLimit 128 params
    else if scaled && late 2 then IncreaseDifficultyBy nProofOfWorkLimit 256 params
    else if nPowAllowMinDifficultyEnabled params &&
            (bi_nHeight pindexLast >=? nPowAllowMinDifficultyBlocksAfterHeight params) && late 6
    then Some nProofOfWorkLimit
    else if nPowAveragingWindow params <=? 0 then Some nProofOfWorkLimit
    else
      let '(bnTot, pindexFirst) :=
        sum_targets (Z.to_nat (nPowAveragingWindow params)) arith_uint256_set_zero chain in
      match pindexFirst with
      | [] => Some nProofOfWorkLimit
      | _ =>
        let bnAvg := arith_uint256_div bnTot (arith_uint256_set_u64 (u64 (nPowAveragingWindow params))) in
        domain_consensus_calculate_next_work_required bnAvg
          (block_index_get_median_time_past chain) (block_index_get_median_time_past pindexFirst)
          params nHeight
      end
  end.

Definition GetBlockProofEquivalentTime (to from tip : block_index) (params : consensus_params) : Z :=
  let greater := arith_uint256_compare (bi_nChainWork to) (bi_nChainWork from) >? 0 in
  let r := if greater then arith_uint256_sub (bi_nChainWork to) (bi_nChainWork from)
           else arith_uint256_sub (bi_nChainWork from) (bi_nChainWork to) in
  let sign := if greater then 1 else -1 in
  let spacing := arith_uint256_set_u64 (u64 (consensus_pow_target_spacing params (bi_nHeight tip))) in
  let tmp := arith_uint256_mul r spacing in
  let r := arith_uint256_div tmp (domain_consensus_block_proof (bi_nBits tip)) in
  if arith_uint256_bits r >? 63 then sign * (2 ^ 63 - 1) else sign * arith_uint256_get_low64 r.

(** ** Lemmas *)

(** [n_bits] denotes a usable target *)
Definition target_usable (n_bits : Z) : Prop :=
  cr_negative (arith_uint256_set_compact n_bits) = false /\ 0 < compact_value n_bits < R256.

Lemma compact_value_nonneg c : is_u 32 c -> 0 <= compact_value c.
Proof.
  unfold is_u, compact_value. intros Hc. pose proof (Z.mod_pos_bound c (2 ^ 23) ltac:(lia)).
  assert (0 <= c / 2 ^ 24) by (apply Z.div_pos; lia).
  destruct (Z.leb_spec (c / 2 ^ 24) 3); [apply Z.div_pos; [lia|apply Z.pow_pos_nonneg; lia]|].
  apply Z.mul_nonneg_nonneg; [lia|apply Z.pow_nonneg; lia].
Qed.

Lemma target_checks c : is_u 32 c ->
  let r := arith_uint256_set_compact c in
  (cr_negative r || cr_overflow r || arith_uint256_is_zero (cr_value r) = false <-> target_usable c) /\
  (target_usable c -> limbs_Z (cr_value r) = compact_value c).
Proof.
  intros Hc r. pose proof (compact_value_nonneg c Hc).
  assert (limbs_Z (cr_value r) = compact_value c mod R256) as Ev by (by apply set_compact_value).
  assert (target_usable c -> limbs_Z (cr_value r) = compact_value c) as Hsmall.
  { intros [_ Ht]. rewrite Ev. apply Z.mod_small. lia. }
  split; [|done]. rewrite !orb_false_iff, is_zero_spec by (by apply set_compact_ok).
  unfold r. rewrite set_compact_overflow by done. fold r. unfold target_usable. fold r. split.
  - intros [[Hn Ho] Hz]. split; [done|]. rewrite Ev, Z.mod_small in Hz by lia. lia.
  - intros Ht. rewrite (Hsmall Ht). destruct Ht as [Hn Ht]. split_and!; [done|lia|lia].
Qed.

Lemma pow_limit_ok params : uint256_ok (powLimit params) ->
  arith_ok (uint256_to_arith (powLimit params)) /\
  limbs_Z (uint256_to_arith (powLimit params)) = le_decode (powLimit params).
Proof. apply uint256_to_arith_ok. Qed.

Lemma verify_pow_iff hash n_bits params :
  uint256_ok hash -> is_u 32 n_bits -> uint256_ok (powLimit params) ->
  domain_consensus_verify_pow_solution hash n_bits params = Ok tt <->
  target_usable n_bits /\ compact_value n_bits <= le_decode (powLimit params) /\
  le_decode hash <= compact_value n_bits.
Proof.
  intros Hh Hb Hl. destruct (target_checks n_bits Hb) as [Hu Hv].
  destruct (pow_limit_ok params Hl) as [Lok Lv]. destruct (uint256_to_arith_ok hash Hh) as [Hok Hhv].
  pose proof (set_compact_ok n_bits Hb) as Tok.
  unfold domain_consensus_verify_pow_solution. cbv zeta.
  rewrite !bind_unit_ok, !ensure_ok, !negb_true_iff, Hu, !compare_gt, Lv, Hhv by done.
  split; intros (Ht & H1 & H2); rewrite (Hv Ht) in *; split_and!; try done; lia.
Qed.

(** The identity that avoids a 257-bit intermediate *)
Lemma work_identity t : 0 < t < R256 - 1 -> (R256 - 1 - t) / (t + 1) + 1 = R256 / (t + 1).
Proof.
  intros. rewrite <- (Z.div_add (R256 - 1 - t) 1 (t + 1)) by lia. f_equal. lia.
Qed.

Lemma compact_value_lt_max c : is_u 32 c -> compact_value c < R256 -> compact_value c < R256 - 1.
Proof.
  intros Hc Hlt. unfold is_u in Hc. unfold compact_value in *.
  pose proof (Z.mod_pos_bound c (2 ^ 23) ltac:(lia)).
  destruct (Z.leb_spec (c / 2 ^ 24) 3).
  - assert (c mod 2 ^ 23 / 256 ^ (3 - c / 2 ^ 24) <= c mod 2 ^ 23).
    { assert (0 < 256 ^ (3 - c / 2 ^ 24)) by (apply Z.pow_pos_nonneg; lia).
      apply Z.div_le_upper_bound; nia. }
    unfold R256. lia.
  - assert (256 ^ (c / 2 ^ 24 - 3) = 256 * 256 ^ (c / 2 ^ 24 - 4)) as E.
    { replace (c / 2 ^ 24 - 3) with (1 + (c / 2 ^ 24 - 4)) by lia. rewrite Z.pow_add_r by lia. done. }
    rewrite E in *. set (w := 256 ^ (c / 2 ^ 24 - 4)) in *. unfold R256 in *.
    enough ((c mod 2 ^ 23 * (256 * w)) mod 256 = 0) by div_mod_lia.
    replace (c mod 2 ^ 23 * (256 * w)) with ((c mod 2 ^ 23 * w) * 256) by lia. by apply Z.mod_mul.
Qed.

Lemma block_proof_spec n_bits : is_u 32 n_bits ->
  arith_ok (domain_consensus_block_proof n_bits) /\
  (target_usable n_bits ->
   limbs_Z (domain_consensus_block_proof n_bits) = R256 / (compact_value n_bits + 1)) /\
  (~ target_usable n_bits -> limbs_Z (domain_consensus_block_proof n_bits) = 0).
Proof.
  intros Hb. destruct (target_checks n_bits Hb) as [Hu Hv].
  pose proof (set_compact_ok n_bits Hb) as Tok. unfold domain_consensus_block_proof. cbv zeta in *.
  set (r := arith_uint256_set_compact n_bits) in *.
  destruct (cr_negative r || cr_overflow r || arith_uint256_is_zero (cr_value r)) eqn:E.
  { split; [apply limbs_ok_zero|]. split; [intros Ht; by apply Hu in Ht|]. done. }
  assert (target_usable n_bits) as Ht by (by apply Hu). specialize (Hv Ht).
  set (one := arith_uint256_set_u64 1). assert (arith_ok one) as Oone by apply set_u64_ok.
  assert (limbs_Z one = 1) as Vone by (unfold one; by rewrite set_u64_spec).
  assert (arith_ok (arith_uint256_complement (cr_value r))) as Cok by auto with zcl.
  assert (arith_ok (arith_uint256_add (cr_value r) one)) as Pok by auto with zcl.
  destruct (div_correct _ _ Cok Pok) as [Dok Dv]. split; [auto with zcl|]. split; [|done].
  intros _. destruct Ht as [_ Ht]. pose proof (compact_value_lt_max n_bits Hb ltac:(lia)).
  rewrite add_spec, Dv, complement_spec, add_spec, Vone, Hv by done.
  rewrite (Z.mod_small (compact_value n_bits + 1)) by lia. replace (compact_value n_bits + 1 =? 0) with false by lia.
  rewrite work_identity by lia. apply Z.mod_small. split; [apply Z.div_pos; [done|lia]|].
  apply Z.div_lt; [done|lia].
Qed.

(** *** Retargeting *)

(** [out] is the compact form of [x]: rounded towards zero by less than one part in
    2^15, and decodes without the negative or overflow flag. *)
Definition compact_of (out : option Z) (x : Z) : Prop :=
  exists c, out = Some c /\ is_u 32 c /\ cr_negative (arith_uint256_set_compact c) = false /\
    compact_value c <= x /\ x < R256 /\ 2 ^ 15 * (x - compact_value c) <= compact_value c.

Lemma get_compact_of a : arith_ok a -> compact_of (arith_uint256_get_compact a false) (limbs_Z a).
Proof.
  intros Ha. destruct (get_compact_correct a Ha) as (c & E & Hc & Hn & Ho & _ & Ev & Hr).
  pose proof (arith_bound a Ha) as Hb.
  rewrite set_compact_overflow in Ho by done. pose proof (compact_value_nonneg c Hc).
  assert (limbs_Z (cr_value (arith_uint256_set_compact c)) = compact_value c) as Es.
  { rewrite set_compact_value by done. apply Z.mod_small. lia. }
  rewrite Es in Ev, Hr.
  exists c. split_and!; try done; [|lia].
  rewrite Ev. apply truncate_bytes_bound; lia.
Qed.

Lemma clamp_target a params : arith_ok a -> uint256_ok (powLimit params) ->
  let L := uint256_to_arith (powLimit params) in
  let t := if arith_uint256_compare a L >? 0 then L else a in
  arith_ok t /\ limbs_Z t = Z.min (limbs_Z a) (le_decode (powLimit params)).
Proof.
  intros Ha Hl L t. destruct (pow_limit_ok params Hl) as [Lok Lv]. unfold t, L.
  rewrite compare_gt, Lv by done. destruct (Z.ltb_spec (le_decode (powLimit params)) (limbs_Z a)).
  - split; [done|]. rewrite Lv. lia.
  - split; [done|lia].
Qed.

Lemma adjusted_timespan_bounds params h t :
  consensus_min_actual_timespan params h <= consensus_max_actual_timespan params h ->
  consensus_min_actual_timespan params h <= adjusted_timespan params h t
    <= consensus_max_actual_timespan params h.
Proof. intros. unfold adjusted_timespan. repeat case_if; lia. Qed.

(** The parameters make sense at a height: a positive window, ordered clamps. *)
Definition timespans_ok (params : consensus_params) (h : Z) : Prop :=
  0 < consensus_averaging_window_timespan params h < 2 ^ 63 /\
  0 <= consensus_min_actual_timespan params h <= consensus_max_actual_timespan params h /\
  consensus_max_actual_timespan params h < 2 ^ 63.

Lemma next_work_spec avg t1 t0 params h :
  arith_ok avg -> uint256_ok (powLimit params) -> timespans_ok params h ->
  let T := consensus_averaging_window_timespan params h in
  let A := adjusted_timespan params h (t1 - t0) in
  limbs_Z avg / T * A < R256 ->
  compact_of (domain_consensus_calculate_next_work_required avg t1 t0 params h)
    (Z.min (limbs_Z avg / T * A) (le_decode (powLimit params))).
Proof.
  intros Ha Hl (HT & Hmm & Hmax) T A Hfit.
  pose proof (adjusted_timespan_bounds params h (t1 - t0) ltac:(lia)) as HA. fold A in HA.
  unfold domain_consensus_calculate_next_work_required. cbv zeta. fold T A.
  rewrite !(uwrap_small 64) by (unfold is_u, T; lia).
  set (avgTs := arith_uint256_set_u64 T). set (actTs := arith_uint256_set_u64 A).
  assert (arith_ok avgTs) as Ok1 by apply set_u64_ok. assert (arith_ok actTs) as Ok2 by apply set_u64_ok.
  destruct (div_correct avg avgTs Ha Ok1) as [Dok Dv].
  assert (limbs_Z avgTs = T) as V1 by (unfold avgTs; rewrite set_u64_spec, uwrap_small; unfold is_u, T; lia).
  assert (limbs_Z actTs = A) as V2 by (unfold actTs; rewrite set_u64_spec, uwrap_small; unfold is_u; lia).
  rewrite V1 in Dv. replace (T =? 0) with false in Dv by (unfold T; lia).
  assert (arith_ok (arith_uint256_mul (arith_uint256_div avg avgTs) actTs)) as Mok by auto with zcl.
  pose proof (arith_bound avg Ha).
  assert (limbs_Z (arith_uint256_mul (arith_uint256_div avg avgTs) actTs) = limbs_Z avg / T * A) as Mv.
  { rewrite mul_spec, Dv, V2 by done. apply Z.mod_small. split; [|done].
    apply Z.mul_nonneg_nonneg; [apply Z.div_pos; unfold T; lia|lia]. }
  destruct (clamp_target _ params Mok Hl) as [Cok Cv]. rewrite Mv in Cv. rewrite <- Cv.
  by apply get_compact_of.
Qed.

Lemma increase_difficulty_spec n_bits m params :
  is_u 32 n_bits -> is_s 64 m -> m <> 0 -> uint256_ok (powLimit params) ->
  exists x, compact_of (IncreaseDifficultyBy n_bits m params) x /\ x <= le_decode (powLimit params).
Proof.
  intros Hb Hm Hm0 Hl. unfold IncreaseDifficultyBy, domain_consensus_increase_difficulty_by.
  replace (m =? 0) with false by lia. cbn [negb ensure mbind result_bind]. cbv zeta.
  destruct (div_correct (cr_value (arith_uint256_set_compact n_bits)) (arith_uint256_set_u64 (u64 m))
    (set_compact_ok _ Hb) (set_u64_ok _)) as [Dok _].
  destruct (clamp_target _ params Dok Hl) as [Cok Cv]. eexists. split; [by apply get_compact_of|].
  rewrite Cv. lia.
Qed.

(** *** The averaging window *)

(** The exact sum of the targets of the first [n] entries *)
Definition targets_sum (n : nat) (chain : list block_index) : Z :=
  sum_Z (map (fun b => compact_value (bi_nBits b)) (take n chain)).

Definition chain_targets_ok (params : consensus_params) (chain : list block_index) : Prop :=
  Forall (fun b => is_u 32 (bi_nBits b) /\ compact_value (bi_nBits b) <= le_decode (powLimit params)) chain.

Lemma sum_targets_spec params n chain tot :
  arith_ok tot -> chain_targets_ok params chain ->
  limbs_Z tot + Z.of_nat n * le_decode (powLimit params) < R256 ->
  let '(s, rest) := sum_targets n tot chain in
  arith_ok s /\ limbs_Z s = limbs_Z tot + targets_sum n chain /\ rest = drop n chain.
Proof.
  intros Ht Hc. revert n tot Ht. induction Hc as [|b chain [Hb Hle] Hc IH]; intros n tot Ht Hfit.
  { destruct n; simpl; (split; [done|]); (split; [unfold targets_sum; simpl; lia|done]). }
  destruct n as [|n]; [simpl; split; [done|]; split; [unfold targets_sum; simpl; lia|done]|].
  cbn [sum_targets]. pose proof (compact_value_nonneg _ Hb). pose proof (arith_bound tot Ht).
  assert (0 <= Z.of_nat n * le_decode (powLimit params)) by (apply Z.mul_nonneg_nonneg; lia).
  assert (compact_value (bi_nBits b) < R256) by lia.
  assert (limbs_Z (arith_uint256_add tot (cr_value (arith_uint256_set_compact (bi_nBits b)))) =
    limbs_Z tot + compact_value (bi_nBits b)) as Ea.
  { rewrite add_spec, set_compact_value by (done || (by apply set_compact_ok)).
    rewrite (Z.mod_small (compact_value _)) by lia. apply Z.mod_small. lia. }
  specialize (IH n (arith_uint256_add tot (cr_value (arith_uint256_set_compact (bi_nBits b))))
    ltac:(apply add_ok; [done|by apply set_compact_ok]) ltac:(rewrite Ea; lia)).
  destruct (sum_targets n _ chain) as [s rest]. rewrite Ea in IH. destruct IH as (Sok & Sv & ->).
  split; [done|]. split; [|done]. unfold targets_sum in *. simpl. unfold sum_Z in *. lia.
Qed.

Lemma sum_Z_le n L l : Forall (fun v => v <= L) l -> (length l <= n)%nat -> 0 <= L ->
  sum_Z l <= Z.of_nat n * L.
Proof.
  intros Hl. revert n. induction Hl as [|v l Hv Hl IH]; intros n Hn HL; [simpl; lia|].
  destruct n as [|n]; simpl in Hn; [lia|]. specialize (IH n ltac:(lia) HL).
  unfold sum_Z in *. simpl. lia.
Qed.

Lemma targets_sum_bounds params n chain : chain_targets_ok params chain ->
  0 <= le_decode (powLimit params) ->
  0 <= targets_sum n chain <= Z.of_nat n * le_decode (powLimit params).
Proof.
  intros Hc HL. unfold targets_sum. assert (chain_targets_ok params (take n chain)) as Ht by (by apply Forall_take).
  split.
  - unfold sum_Z. induction Ht as [|b l [Hb _] _ IH]; simpl; [lia|].
    pose proof (compact_value_nonneg _ Hb). lia.
  - apply sum_Z_le; [|rewrite length_map, length_take; lia|done].
    apply Forall_map. eapply Forall_impl; [exact Ht|]. by intros ? [].
Qed.

(** The exact mean target of the window, and the exact next target *)
Definition mean_target (params : consensus_params) (chain : list block_index) : Z :=
  targets_sum (Z.to_nat (nPowAveragingWindow params)) chain / nPowAveragingWindow params.

Definition retarget (params : consensus_params) (h : Z) (chain : list block_index) : Z :=
  let T := consensus_averaging_window_timespan params h in
  let first := drop (Z.to_nat (nPowAveragingWindow params)) chain in
  let A := adjusted_timespan params h
             (block_index_get_median_time_past chain - block_index_get_median_time_past first) in
  Z.min (mean_target params chain / T * A) (le_decode (powLimit params)).

(** The parameters leave room in 256 bits for the sum and for the product. *)
Definition pow_params_ok (params : consensus_params) (h : Z) : Prop :=
  uint256_ok (powLimit params) /\ timespans_ok params h /\
  0 < nPowAveragingWindow params < 2 ^ 31 /\
  nPowAveragingWindow params * le_decode (powLimit params) < R256 /\
  le_decode (powLimit params) * consensus_max_actual_timespan params h < R256.

Lemma window_work_spec params b chain h :
  pow_params_ok params h -> chain_targets_ok params (b :: chain) ->
  (Z.to_nat (nPowAveragingWindow params) < length (b :: chain))%nat ->
  let '(bnTot, first) := sum_targets (Z.to_nat (nPowAveragingWindow params)) arith_uint256_set_zero (b :: chain) in
  first = drop (Z.to_nat (nPowAveragingWindow params)) (b :: chain) /\
  compact_of
    (domain_consensus_calculate_next_work_required
       (arith_uint256_div bnTot (arith_uint256_set_u64 (u64 (nPowAveragingWindow params))))
       (block_index_get_median_time_past (b :: chain)) (block_index_get_median_time_past first) params h)
    (retarget params h (b :: chain)).
Proof.
  intros (Hl & Hts & Hw & Hsum & Hprod) Hc Hlen.
  pose proof (sum_targets_spec params (Z.to_nat (nPowAveragingWindow params)) (b :: chain)
    arith_uint256_set_zero (limbs_ok_zero 8) Hc) as HS.
  destruct (sum_targets _ _ _) as [tot first]. change (limbs_Z arith_uint256_set_zero) with 0 in HS.
  rewrite Z2Nat.id in HS by lia. destruct (HS ltac:(lia)) as (Tok & Tv & ->). split; [done|].
  set (w := arith_uint256_set_u64 (u64 (nPowAveragingWindow params))).
  assert (limbs_Z w = nPowAveragingWindow params) as Vw.
  { unfold w. rewrite set_u64_spec, !uwrap_small; [done|unfold is_u; lia|].
    rewrite uwrap_small; unfold is_u; lia. }
  destruct (div_correct tot w Tok (set_u64_ok _)) as [Dok Dv].
  rewrite Vw, Tv in Dv. replace (nPowAveragingWindow params =? 0) with false in Dv by lia.
  rewrite Z.add_0_l in Dv. fold (mean_target params (b :: chain)) in Dv.
  unfold retarget. rewrite <- Dv. apply next_work_spec; [done|done|done|]. rewrite Dv.
  destruct Hts as (HT & Hmm & Hmax).
  set (T := consensus_averaging_window_timespan params h) in *.
  pose proof (adjusted_timespan_bounds params h (block_index_get_median_time_past (b :: chain) -
    block_index_get_median_time_past (drop (Z.to_nat (nPowAveragingWindow params)) (b :: chain))) ltac:(lia)) as HA.
  set (A := adjusted_timespan _ _ _) in *.
  assert (0 <= le_decode (powLimit params)) as HL by apply le_decode_range, Hl.
  destruct (targets_sum_bounds params (Z.to_nat (nPowAveragingWindow params)) _ Hc HL) as [B1 B2].
  assert (0 <= mean_target params (b :: chain) <= le_decode (powLimit params)) as Hm.
  { unfold mean_target. split; [apply Z.div_pos; lia|]. apply Z.div_le_upper_bound; lia. }
  assert (0 <= mean_target params (b :: chain) / T <= mean_target params (b :: chain)) as Hd.
  { split; [apply Z.div_pos; lia|]. apply Z.div_le_upper_bound; nia. }
  eapply Z.le_lt_trans; [|exact Hprod]. apply Z.mul_le_mono_nonneg; lia.
Qed.

Lemma pow_limit_compact params : uint256_ok (powLimit params) ->
  compact_of (arith_uint256_get_compact (uint256_to_arith (powLimit params)) false)
    (le_decode (powLimit params)).
Proof. intros Hl. destruct (pow_limit_ok params Hl) as [Lok <-]. by apply get_compact_of. Qed.

Lemma sum_targets_rest n tot chain : snd (sum_targets n tot chain) = drop n chain.
Proof. revert tot chain. induction n as [|n IH]; intros tot [|b chain]; [done|done|done|apply IH]. Qed.

(** Every way out of [GetNextWorkRequired] gives the compact form of a target that is at
    most the limit. *)
Lemma next_work_within_limit params chain pblock_time :
  uint256_ok (powLimit params) ->
  (forall b rest, chain = b :: rest -> pow_params_ok params (bi_nHeight b + 1)) ->
  chain_targets_ok params chain ->
  exists x, compact_of (GetNextWorkRequired chain pblock_time params) x /\ x <= le_decode (powLimit params).
Proof.
  intros Hl Hp Hc. destruct (pow_limit_compact params Hl) as (lim & Elim & Hlim).
  assert (compact_of (Some lim) (le_decode (powLimit params))) as Clim by (by exists lim).
  unfold GetNextWorkRequired. rewrite Elim. cbn [mbind option_bind].
  assert (forall m, is_s 64 m -> m <> 0 -> exists x,
    compact_of (IncreaseDifficultyBy lim m params) x /\ x <= le_decode (powLimit params)) as Hinc.
  { intros. apply increase_difficulty_spec; try done. by destruct Hlim as [? _]. }
  destruct chain as [|b rest]; [eauto with lia|]. cbv zeta.
  specialize (Hp b rest eq_refl). pose proof (window_work_spec params b rest _ Hp Hc) as Hwin.
  destruct Hp as (_ & _ & Hw & _).
  case_if; [eauto with lia|]. case_if; [by apply Hinc|]. case_if; [by apply Hinc|].
  case_if; [eauto with lia|]. case_if; [eauto with lia|].
  pose proof (sum_targets_rest (Z.to_nat (nPowAveragingWindow params)) arith_uint256_set_zero (b :: rest)) as Hrest.
  destruct (sum_targets _ _ _) as [tot first]. cbn [snd] in Hrest.
  destruct first as [|f fs]; [eauto with lia|].
  assert (Z.to_nat (nPowAveragingWindow params) < length (b :: rest))%nat as Hlen.
  { apply (f_equal length) in Hrest. rewrite length_drop in Hrest. cbn [length] in *. lia. }
  destruct (Hwin Hlen) as [_ Hwork]. eexists. split; [exact Hwork|]. unfold retarget. lia.
Qed.

(** On schedule and past the first window, the required work is the retargeting formula. *)
Lemma next_work_on_schedule params b rest t :
  pow_params_ok params (bi_nHeight b + 1) -> chain_targets_ok params (b :: rest) ->
  0 <= consensus_pow_target_spacing params (bi_nHeight b + 1) ->
  t <= bi_nTime b + consensus_pow_target_spacing params (bi_nHeight b + 1) * 2 ->
  (Z.to_nat (nPowAveragingWindow params) < length (b :: rest))%nat ->
  compact_of (GetNextWorkRequired (b :: rest) (Some t) params)
    (retarget params (bi_nHeight b + 1) (b :: rest)).
Proof.
  intros Hp Hc Hs Ht Hlen. pose proof (window_work_spec params b rest _ Hp Hc Hlen) as Hwin.
  destruct Hp as (Hl & _ & Hw & _). destruct (pow_limit_compact params Hl) as (lim & Elim & _).
  unfold GetNextWorkRequired, time_exceeds. rewrite Elim. cbn [mbind option_bind]. cbv zeta.
  set (sp := consensus_pow_target_spacing params (bi_nHeight b + 1)) in *.
  replace (t >? bi_nTime b + sp * 12) with false by lia.
  replace (t >? bi_nTime b + sp * 6) with false by lia.
  replace (t >? bi_nTime b + sp * 2) with false by lia. rewrite !andb_false_r.
  replace (nPowAveragingWindow params <=? 0) with false by lia.
  pose proof (sum_targets_rest (Z.to_nat (nPowAveragingWindow params)) arith_uint256_set_zero (b :: rest)) as Hrest.
  destruct (sum_targets _ _ _) as [tot first]. cbn [snd] in Hrest. destruct Hwin as [_ Hwork].
  destruct first as [|f fs]; [|exact Hwork].
  apply (f_equal length) in Hrest. rewrite length_drop in Hrest. cbn [length] in *. lia.
Qed.

(** *** The median *)

Lemma insert_key_perm k l : insert_key k l ≡ₚ k :: l.
Proof.
  induction l as [|x l IH]; simpl; [done|]. case_if; [|done]. rewrite IH. apply Permutation_swap.
Qed.

Lemma insert_key_sorted k l : StronglySorted Z.ge l -> StronglySorted Z.ge (insert_key k l).
Proof.
  induction 1 as [|x l Hs IH Hx]; simpl; [repeat constructor|]. destruct (Z.gtb_spec x k).
  - constructor; [done|]. rewrite insert_key_perm. constructor; [lia|done].
  - constructor; [by constructor|]. constructor; [lia|]. eapply Forall_impl; [exact Hx|]. simpl. lia.
Qed.

Lemma sort_loop_spec l acc : StronglySorted Z.ge acc ->
  let r := foldl (fun prefix_rev key => insert_key key prefix_rev) acc l in
  StronglySorted Z.ge r /\ r ≡ₚ acc ++ l.
Proof.
  revert acc. induction l as [|k l IH]; intros acc Hs; simpl; [by rewrite app_nil_r|].
  destruct (IH (insert_key k acc) (insert_key_sorted k acc Hs)) as [H1 H2]. split; [done|].
  rewrite H2, insert_key_perm. simpl. by rewrite Permutation_middle.
Qed.

Lemma StronglySorted_split {A} (R : A -> A -> Prop) a x b :
  StronglySorted R (a ++ x :: b) -> Forall (fun y => R y x) a /\ Forall (R x) b.
Proof.
  induction a as [|y a IH]; simpl; intros Hs; apply StronglySorted_inv in Hs as [Hs Hy]; [done|].
  apply Forall_app in Hy as [Hya Hyb]. apply Forall_cons in Hyb as [Hyx _].
  destruct (IH Hs). auto.
Qed.

(** How many entries of [l] satisfy [p] *)
Definition count (p : Z -> bool) (l : list Z) : nat := length (List.filter p l).

Lemma count_perm p l l' : l ≡ₚ l' -> count p l = count p l'.
Proof. unfold count. induction 1; simpl; repeat case_if; simpl; congruence. Qed.

Lemma count_app p l l' : count p (l ++ l') = (count p l + count p l')%nat.
Proof. unfold count. by rewrite List.filter_app, length_app. Qed.

Lemma count_none p l : Forall (fun x => p x = false) l -> count p l = 0%nat.
Proof. unfold count. induction 1 as [|x l Hx Hl IH]; simpl; [done|]. by rewrite Hx. Qed.

Lemma count_le p l : (count p l <= length l)%nat.
Proof. apply List.filter_length_le. Qed.

(** The entry in the middle of the sorted times: at most half of them are below it and at
    most half are above it. *)
Lemma median_spec l : l <> [] ->
  let m : Z := insertion_sort l !!! (length l / 2)%nat in
  m ∈ l /\ (count (fun x => (x <? m)%Z) l <= length l / 2)%nat /\
  (count (fun x => (x >? m)%Z) l <= (length l - 1) / 2)%nat.
Proof.
  intros Hne m. destruct (sort_loop_spec l [] ltac:(constructor)) as [Hs Hp]. unfold insertion_sort in m.
  set (d := foldl _ [] l) in *. cbv zeta in *. simpl in Hp.
  assert (length d = length l) as Hlen by (by rewrite Hp).
  assert (length l <> 0%nat) as Hpos by (by destruct l).
  assert (length l / 2 < length l)%nat as Hk by (apply Nat.div_lt; lia).
  pose proof (Nat.div_mod_eq (length l) 2). pose proof (Nat.mod_upper_bound (length l) 2 ltac:(lia)).
  assert (d !! (length l - 1 - length l / 2)%nat = Some m) as Em.
  { pose proof (list_lookup_lookup_total_lt (reverse d) (length l / 2) ltac:(rewrite length_reverse; lia)) as E.
    apply reverse_lookup_Some in E as [E _]. fold m in E. rewrite <- E. f_equal. lia. }
  apply take_drop_middle in Em. set (i := (length l - 1 - length l / 2)%nat) in *.
  rewrite <- Em in Hs. apply StronglySorted_split in Hs as [Hhi Hlo].
  split; [rewrite <- Hp, <- Em; apply elem_of_app; right; left|].
  rewrite <- !(count_perm _ _ _ Hp), <- Em, !count_app.
  change (m :: drop (S i) d) with ([m] ++ drop (S i) d). rewrite !count_app.
  rewrite (count_none _ (take i d)), (count_none _ [m]), (count_none (fun x => x >? m) (drop (S i) d)),
    (count_none (fun x => x >? m) [m]); try (repeat constructor; lia);
    try (eapply Forall_impl; [eassumption|]; simpl; lia).
  pose proof (count_le (fun x => x <? m) (drop (S i) d)) as C1.
  pose proof (count_le (fun x => x >? m) (take i d)) as C2.
  rewrite length_drop in C1. rewrite length_take in C2.
  pose proof (Nat.div_mod_eq (length l - 1) 2). pose proof (Nat.mod_upper_bound (length l - 1) 2 ltac:(lia)).
  split; lia.
Qed.

(** ** Properties *)

(** C26: proof of work is checked against the exact integers: for every 32-bit [nBits]
    and every hash, verification succeeds if and only if the encoded target is a positive
    number below 2^256 without sign bit, does not exceed the network's limit, and the hash
    read as a number does not exceed the target. *)
Theorem verify_pow_exact hash n_bits params :
  uint256_ok hash -> is_u 32 n_bits -> uint256_ok (powLimit params) ->
  domain_consensus_verify_pow_solution hash n_bits params = Ok tt <->
  target_usable n_bits /\ compact_value n_bits <= le_decode (powLimit params) /\
  le_decode hash <= compact_value n_bits.
Proof. apply verify_pow_iff. Qed.

Lemma verify_pow_exact_witness :
  compact_value 0x1f07ffff <= le_decode (powLimit init_main_params) /\
  le_decode (hashGenesisBlock init_main_params) <= compact_value 0x1f07ffff.
Proof.
  refine (proj2 (proj1 (verify_pow_exact (hashGenesisBlock init_main_params) 0x1f07ffff init_main_params
    _ _ _) _)).
  - compute_decide.
  - done.
  - compute_decide.
  - vm_compute. reflexivity.
Defined.

(** chain work is the exact expected number of hashes: for a usable target [t] a
    block contributes floor(2^256 / (t + 1)), computed without a 257-bit intermediate and
    never zero; an unusable target contributes nothing; and a smaller target never
    contributes less. *)
Theorem block_proof_exact n_bits n_bits' :
  is_u 32 n_bits -> is_u 32 n_bits' ->
  let work b := limbs_Z (domain_consensus_block_proof b) in
  (target_usable n_bits -> work n_bits = R256 / (compact_value n_bits + 1) /\ 1 <= work n_bits) /\
  (~ target_usable n_bits -> work n_bits = 0) /\
  (target_usable n_bits -> target_usable n_bits' ->
   compact_value n_bits <= compact_value n_bits' -> work n_bits' <= work n_bits).
Proof.
  intros Hb Hb' work. destruct (block_proof_spec n_bits Hb) as (_ & Hu & Hz).
  destruct (block_proof_spec n_bits' Hb') as (_ & Hu' & _). split_and!; [|done|].
  - intros Ht. unfold work. rewrite (Hu Ht). split; [done|]. destruct Ht as [_ Ht].
    apply Z.div_le_lower_bound; lia.
  - intros Ht Ht' Hle. unfold work. rewrite (Hu Ht), (Hu' Ht'). destruct Ht as [_ Ht].
    apply Z.div_le_compat_l; [done|lia].
Qed.

Lemma block_proof_exact_witness :
  limbs_Z (domain_consensus_block_proof 0x1f07ffff) = R256 / (0x07ffff * 256 ^ 28 + 1).
Proof.
  apply (block_proof_exact 0x1f07ffff 0x1f07ffff); [done|done|].
  split; [reflexivity|]. vm_compute. split; reflexivity.
Defined.

(** Twenty-five blocks at 75-second spacing *)
Definition sample_chain : list block_index :=
  map (fun i => {| bi_nHeight := 800000 - Z.of_nat i; bi_nTime := 1600000000 - 75 * Z.of_nat i;
                   bi_nBits := 0x1e00ffff; bi_nChainWork := arith_uint256_set_zero |}) (seq 0 25).

Lemma sample_pow_params : pow_params_ok init_main_params (800000 + 1).
Proof. split_and!; try compute_decide; vm_compute; split; congruence. Qed.

Lemma sample_chain_ok : chain_targets_ok init_main_params sample_chain.
Proof.
  unfold chain_targets_ok, sample_chain. apply Forall_map, Forall_forall. intros i _. simpl.
  split; [done|]. vm_compute. congruence.
Qed.

(** C29: the required difficulty is always defined and never easier than the network
    limit: for any chain, block time and network parameters that leave room in 256 bits,
    the rule returns a well-formed compact word (no assertion fails) whose target is at
    most the proof-of-work limit. *)
Theorem next_work_never_above_limit params chain pblock_time :
  uint256_ok (powLimit params) ->
  (forall b rest, chain = b :: rest -> pow_params_ok params (bi_nHeight b + 1)) ->
  chain_targets_ok params chain ->
  exists c, GetNextWorkRequired chain pblock_time params = Some c /\ is_u 32 c /\
    cr_negative (arith_uint256_set_compact c) = false /\
    compact_value c <= le_decode (powLimit params).
Proof.
  intros Hl Hp Hc. destruct (next_work_within_limit params chain pblock_time Hl Hp Hc)
    as (x & (c & E & Hu & Hn & Hle & _) & Hx). exists c. split_and!; try done. lia.
Qed.

Lemma next_work_never_above_limit_witness :
  exists c, GetNextWorkRequired sample_chain (Some 1600000075) init_main_params = Some c /\
    compact_value c <= le_decode (powLimit init_main_params).
Proof.
  destruct (next_work_never_above_limit init_main_params sample_chain (Some 1600000075))
    as (c & E & _ & _ & Hle); [compute_decide| |exact sample_chain_ok|eauto].
  intros b rest [= <- _]. exact sample_pow_params.
Defined.

(** past the first averaging window and on schedule, the required difficulty is
    the specified retargeting formula over exact integers -- the mean target of the
    window divided by the ideal timespan, times the damped timespan clamped to its
    bounds, capped at the limit -- rounded towards zero by less than one part in 2^15. *)
Theorem next_work_formula params b rest t :
  pow_params_ok params (bi_nHeight b + 1) -> chain_targets_ok params (b :: rest) ->
  0 <= consensus_pow_target_spacing params (bi_nHeight b + 1) ->
  t <= bi_nTime b + consensus_pow_target_spacing params (bi_nHeight b + 1) * 2 ->
  (Z.to_nat (nPowAveragingWindow params) < length (b :: rest))%nat ->
  exists c, GetNextWorkRequired (b :: rest) (Some t) params = Some c /\
    compact_value c <= retarget params (bi_nHeight b + 1) (b :: rest) /\
    2 ^ 15 * (retarget params (bi_nHeight b + 1) (b :: rest) - compact_value c) <= compact_value c.
Proof.
  intros Hp Hc Hs Ht Hlen. destruct (next_work_on_schedule params b rest t Hp Hc Hs Ht Hlen)
    as (c & E & _ & _ & H1 & _ & H2). eauto.
Qed.

Lemma next_work_formula_witness :
  exists c b rest, sample_chain = b :: rest /\
    GetNextWorkRequired (b :: rest) (Some 1600000075) init_main_params = Some c /\
    compact_value c <= retarget init_main_params (800000 + 1) (b :: rest).
Proof.
  pose proof sample_chain_ok as Hc. unfold sample_chain in *. cbn [map seq] in *.
  match type of Hc with chain_targets_ok _ (?b :: ?rest) =>
    destruct (next_work_formula init_main_params b rest 1600000075) as (c & E & Hle & _) end.
  - exact sample_pow_params.
  - exact Hc.
  - vm_compute. congruence.
  - vm_compute. congruence.
  - vm_compute. lia.
  - eexists c, _, _. split; [reflexivity|]. split; [exact E|exact Hle].
Defined.

(** the median time past is a true median: of the (at most eleven) most recent
    block times it is one, at most half of them are smaller and at most half, rounded
    down without it, are larger; the in-place insertion sort never loses an entry. *)
Theorem median_time_past_is_median chain :
  chain <> [] ->
  let times := map bi_nTime (take MEDIAN_TIME_SPAN chain) in
  let m := block_index_get_median_time_past chain in
  m ∈ times /\ (count (fun x => (x <? m)%Z) times <= length times / 2)%nat /\
  (count (fun x => (x >? m)%Z) times <= (length times - 1) / 2)%nat.
Proof. intros Hne times m. apply median_spec. by destruct chain. Qed.

Lemma median_time_past_is_median_witness :
  block_index_get_median_time_past sample_chain ∈ map bi_nTime (take MEDIAN_TIME_SPAN sample_chain).
Proof. apply (median_time_past_is_median sample_chain). discriminate. Defined.
