(* ===== verification/Workpool.v ===== *)
(** * The thread pool

    Models lib/util/src/workpool.c: worker threads that drain a ring buffer under one mutex and
    two condition variables, and callers that submit a batch and wait for it.  A state holds the
    shared fields, the position of every worker and of every caller in its code, and the results
    returned so far.  The code between a lock and the next unlock or wait is one step; a wake-up
    puts a thread back in front of its lock.  Which thread moves, which waiting thread a signal
    wakes, and spurious wake-ups are chosen by the environment ([choice]), so that a theorem about
    all sequences of choices is a theorem about all schedules.

    With one caller every batch returns, and returns whether all its items succeed
    ([workpool_run_correct], [workpool_run_terminates]); with two callers a batch can wait for ever
    and a failure can be reported to the wrong caller ([second_caller_sleeps],
    [failure_misreported]). *)

From stdpp Require Import relations.
From S2P Require Import Prelude.

Section Workpool.
Context {item : Type} (fn : item -> bool).

(** ** Threads *)

Inductive worker :=
  | W_lock                        (** before the lock at the top of the loop *)
  | W_waiting                     (** waiting for [cond_work] *)
  | W_run (x : option item)       (** executing an item outside the lock *)
  | W_relock (ok : bool)          (** before the lock that follows the execution *)
  | W_exit.

(** A caller with its batch, of which [rest] is not yet submitted *)
Inductive caller :=
  | C_idle
  | C_submit (batch rest : list item)   (** before the lock of the next submission *)
  | C_full (batch rest : list item)     (** waiting for [cond_done] in [workpool_submit] *)
  | C_wait (batch : list item)          (** before the lock of [workpool_wait] *)
  | C_sleep (batch : list item)         (** waiting for [cond_done] in [workpool_wait] *)
  | C_join                              (** joining the workers *)
  | C_gone.

Record workpool := Workpool {
  wp_items : list (option item);
  wp_head : nat;
  wp_tail : nat;
  wp_pending : Z;
  wp_all_ok : bool;
  wp_shutdown : bool;
  wp_workers : list worker;
  wp_callers : list caller;
  wp_log : list (list item * bool);   (** what [workpool_run] returned, latest first *)
}.

Definition wp_capacity (s : workpool) : nat := length (wp_items s).

Definition with_worker (s : workpool) (i : nat) (w : worker) : workpool :=
  {| wp_items := wp_items s; wp_head := wp_head s; wp_tail := wp_tail s; wp_pending := wp_pending s; wp_all_ok := wp_all_ok s;
     wp_shutdown := wp_shutdown s; wp_workers := <[i := w]> (wp_workers s); wp_callers := wp_callers s; wp_log := wp_log s |}.

Definition with_caller (s : workpool) (j : nat) (c : caller) : workpool :=
  {| wp_items := wp_items s; wp_head := wp_head s; wp_tail := wp_tail s; wp_pending := wp_pending s; wp_all_ok := wp_all_ok s;
     wp_shutdown := wp_shutdown s; wp_workers := wp_workers s; wp_callers := <[j := c]> (wp_callers s); wp_log := wp_log s |}.

Definition with_callers (s : workpool) (cs : list caller) : workpool :=
  {| wp_items := wp_items s; wp_head := wp_head s; wp_tail := wp_tail s; wp_pending := wp_pending s; wp_all_ok := wp_all_ok s;
     wp_shutdown := wp_shutdown s; wp_workers := wp_workers s; wp_callers := cs; wp_log := wp_log s |}.

Definition with_workers (s : workpool) (ws : list worker) : workpool :=
  {| wp_items := wp_items s; wp_head := wp_head s; wp_tail := wp_tail s; wp_pending := wp_pending s; wp_all_ok := wp_all_ok s;
     wp_shutdown := wp_shutdown s; wp_workers := ws; wp_callers := wp_callers s; wp_log := wp_log s |}.

(** ** Condition variables *)

Definition worker_waits (w : worker) : bool := match w with W_waiting => true | _ => false end.

Definition caller_waits (c : caller) : bool := match c with C_full _ _ | C_sleep _ => true | _ => false end.

Definition wake_caller (c : caller) : caller :=
  match c with
  | C_full batch rest => C_submit batch rest
  | C_sleep batch => C_wait batch
  | _ => c
  end.

(** A signal wakes the thread [k] of the environment's choice among those that wait; when none
    waits it has no effect. *)
Definition signal {A} (waits : A -> bool) (wake : A -> A) (k : nat) (l : list A) : option (list A) :=
  match l !! k with
  | Some a => if waits a then Some (<[k := wake a]> l) else if existsb waits l then None else Some l
  | None => if existsb waits l then None else Some l
  end.

Definition signal_work (k : nat) (s : workpool) : option workpool :=
  ws ← signal worker_waits (fun _ => W_lock) k (wp_workers s); Some (with_workers s ws).

Definition signal_done (k : nat) (s : workpool) : option workpool :=
  cs ← signal caller_waits wake_caller k (wp_callers s); Some (with_callers s cs).

(** ** The worker thread *)

Definition take_head (s : workpool) : workpool :=
  {| wp_items := wp_items s; wp_head := (wp_head s + 1) mod wp_capacity s; wp_tail := wp_tail s; wp_pending := wp_pending s;
     wp_all_ok := wp_all_ok s; wp_shutdown := wp_shutdown s; wp_workers := wp_workers s; wp_callers := wp_callers s;
     wp_log := wp_log s |}.

(** [pending--; if (pending == 0) signal(cond_done)], with the verdict on the item *)
Definition complete (ok : bool) (k : nat) (s : workpool) : option workpool :=
  let s' := {| wp_items := wp_items s; wp_head := wp_head s; wp_tail := wp_tail s; wp_pending := u64 (wp_pending s - 1);
               wp_all_ok := if ok then wp_all_ok s else false; wp_shutdown := wp_shutdown s; wp_workers := wp_workers s;
               wp_callers := wp_callers s; wp_log := wp_log s |} in
  if wp_pending s' =? 0 then signal_done k s' else Some s'.

(** The item read from the ring; a slot never written holds a null pointer. *)
Definition run_item (x : option item) : bool := match x with Some x => fn x | None => false end.

Definition worker_thread (i k : nat) (s : workpool) : option workpool :=
  match wp_workers s !! i with
  | Some W_lock =>
      if (wp_head s =? wp_tail s)%nat && negb (wp_shutdown s) then Some (with_worker s i W_waiting)
      else if wp_shutdown s && (wp_head s =? wp_tail s)%nat then Some (with_worker s i W_exit)
      else if negb (wp_all_ok s) then complete true k (take_head s)
      else x ← wp_items s !! wp_head s; Some (with_worker (take_head s) i (W_run x))
  | Some (W_run x) => Some (with_worker s i (W_relock (run_item x)))
  | Some (W_relock ok) => complete ok k (with_worker s i W_lock)
  | _ => None
  end.

(** ** Callers *)

Definition put_tail (x : item) (s : workpool) : workpool :=
  {| wp_items := <[wp_tail s := Some x]> (wp_items s); wp_head := wp_head s; wp_tail := (wp_tail s + 1) mod wp_capacity s;
     wp_pending := u64 (wp_pending s + 1); wp_all_ok := wp_all_ok s; wp_shutdown := wp_shutdown s;
     wp_workers := wp_workers s; wp_callers := wp_callers s; wp_log := wp_log s |}.

Definition workpool_submit (j k : nat) (batch rest : list item) (s : workpool) : option workpool :=
  match rest with
  | [] => Some (with_caller s j (C_wait batch))
  | x :: rest' =>
      if ((wp_tail s + 1) mod wp_capacity s =? wp_head s)%nat && negb (wp_shutdown s)
      then Some (with_caller s j (C_full batch rest))
      else if wp_shutdown s then Some (with_caller s j (C_wait batch))
      else signal_work k (with_caller (put_tail x s) j (C_submit batch rest'))
  end.

Definition workpool_wait (j : nat) (batch : list item) (s : workpool) : option workpool :=
  if wp_pending s >? 0 then Some (with_caller s j (C_sleep batch))
  else Some {| wp_items := wp_items s; wp_head := wp_head s; wp_tail := wp_tail s; wp_pending := wp_pending s;
               wp_all_ok := true; wp_shutdown := wp_shutdown s; wp_workers := wp_workers s;
               wp_callers := <[j := C_idle]> (wp_callers s); wp_log := (batch, wp_all_ok s) :: wp_log s |}.

Definition has_exited (w : worker) : bool := match w with W_exit => true | _ => false end.

Definition caller_thread (j k : nat) (s : workpool) : option workpool :=
  match wp_callers s !! j with
  | Some (C_submit batch rest) => workpool_submit j k batch rest s
  | Some (C_wait batch) => workpool_wait j batch s
  | Some C_join => if forallb has_exited (wp_workers s) then Some (with_caller s j C_gone) else None
  | _ => None
  end.

Definition workpool_run (j : nat) (batch : list item) (s : workpool) : option workpool :=
  match wp_callers s !! j with
  | Some C_idle => Some (with_caller s j (C_submit batch batch))
  | _ => None
  end.

(** The part of [workpool_teardown] up to the joins *)
Definition workpool_destroy (j : nat) (s : workpool) : option workpool :=
  match wp_callers s !! j with
  | Some C_idle =>
      Some {| wp_items := wp_items s; wp_head := wp_head s; wp_tail := wp_tail s; wp_pending := wp_pending s;
              wp_all_ok := wp_all_ok s; wp_shutdown := true;
              wp_workers := map (fun w => if worker_waits w then W_lock else w) (wp_workers s);
              wp_callers := <[j := C_join]> (wp_callers s); wp_log := wp_log s |}
  | _ => None
  end.

Definition WORKPOOL_MAX_THREADS : Z := 64.

(** [cores]: what GetNumCores returns; [ring]: whether the ring is allocated; [created]: how many
    threads start before a creation fails; [callers]: the threads that may call the pool *)
Definition workpool_init (num_threads cores queue_cap : Z) (ring : bool) (created callers : nat) : option workpool :=
  if queue_cap =? 0 then None
  else
    let n := if num_threads <=? 0 then cores else num_threads in
    let n := if n <? 1 then 1 else n in
    let n := if n >? WORKPOOL_MAX_THREADS then WORKPOOL_MAX_THREADS else n in
    if negb ring then None
    else
      let started := Nat.min created (Z.to_nat n) in
      if (started =? 0)%nat then None
      else Some {| wp_items := replicate (Z.to_nat (queue_cap + 1)) None; wp_head := 0; wp_tail := 0; wp_pending := 0;
                   wp_all_ok := true; wp_shutdown := false; wp_workers := replicate started W_lock;
                   wp_callers := replicate callers C_idle; wp_log := [] |}.

(** ** Schedules *)

Inductive choice :=
  | Worker (i k : nat)
  | Caller (j k : nat)
  | CallRun (j : nat) (batch : list item)
  | CallDestroy (j : nat)
  | SpuriousWorker (i : nat)
  | SpuriousCaller (j : nat).

Definition pool_step (c : choice) (s : workpool) : option workpool :=
  match c with
  | Worker i k => worker_thread i k s
  | Caller j k => caller_thread j k s
  | CallRun j batch => workpool_run j batch s
  | CallDestroy j => workpool_destroy j s
  | SpuriousWorker i => match wp_workers s !! i with Some W_waiting => Some (with_worker s i W_lock) | _ => None end
  | SpuriousCaller j =>
      match wp_callers s !! j with
      | Some c => if caller_waits c then Some (with_caller s j (wake_caller c)) else None
      | None => None
      end
  end.

Fixpoint pool_steps (cs : list choice) (s : workpool) : option workpool :=
  match cs with
  | [] => Some s
  | c :: cs => s' ← pool_step c s; pool_steps cs s'
  end.

(** ** The ring *)

Lemma ring_index (cap h i : nat) : (h < cap)%nat -> (i < cap)%nat ->
  ((h + i) mod cap = if h + i <? cap then h + i else h + i - cap)%nat.
Proof.
  intros Hh Hi. destruct (Nat.ltb_spec (h + i) cap); [by apply Nat.mod_small|].
  replace (h + i)%nat with ((h + i - cap) + 1 * cap)%nat at 1 by lia. rewrite Nat.Div0.mod_add. apply Nat.mod_small. lia.
Qed.

Lemma ring_full (cap h n : nat) : (h < cap)%nat -> (n < cap)%nat ->
  (((h + n) mod cap + 1) mod cap =? h)%nat = (n =? cap - 1)%nat.
Proof.
  intros Hh Hn. rewrite Nat.Div0.add_mod_idemp_l. destruct (Nat.eqb_spec n (cap - 1)) as [->|Hne].
  - replace (h + (cap - 1) + 1)%nat with (h + 1 * cap)%nat by lia. rewrite Nat.Div0.mod_add, Nat.mod_small by lia. apply Nat.eqb_refl.
  - replace (h + n + 1)%nat with (h + (n + 1))%nat by lia. rewrite ring_index by lia. apply Nat.eqb_neq.
    destruct (Nat.ltb_spec (h + (n + 1)) cap); lia.
Qed.

(** The items from the head on are [q]. *)
Definition ring (items : list (option item)) (head : nat) (q : list item) : Prop :=
  forall i x, q !! i = Some x -> items !! ((head + i) mod length items)%nat = Some (Some x).

Lemma ring_push items h q x : (h < length items)%nat -> (length q < length items - 1)%nat -> ring items h q ->
  ring (<[((h + length q) mod length items)%nat := Some x]> items) h (q ++ [x]).
Proof.
  intros Hh Hl Hr i y Hy. rewrite length_insert. apply lookup_app_Some in Hy as [Hy|[Hi Hy]].
  - pose proof (lookup_lt_Some _ _ _ Hy). rewrite list_lookup_insert_ne; [by apply Hr|].
    rewrite !ring_index by lia. repeat case_match; lia.
  - apply list_lookup_singleton_Some in Hy as [Hi' <-]. replace i with (length q) by lia. apply list_lookup_insert_eq.
    apply Nat.mod_upper_bound. lia.
Qed.

Lemma ring_pop items h x q : (h < length items)%nat -> (length (x :: q) < length items)%nat -> ring items h (x :: q) ->
  items !! h = Some (Some x) /\ ring items ((h + 1) mod length items)%nat q.
Proof.
  intros Hh Hl Hr. split.
  - specialize (Hr 0%nat x eq_refl). by rewrite Nat.add_0_r, Nat.mod_small in Hr.
  - intros i y Hy. specialize (Hr (S i) y Hy). rewrite <- Hr. f_equal.
    rewrite Nat.Div0.add_mod_idemp_l. f_equal. lia.
Qed.

(** ** The invariant with one caller *)

Definition busy (w : worker) : bool := match w with W_run _ | W_relock _ => true | _ => false end.

(** The verdict a worker holds *)
Definition verdict (w : worker) : bool :=
  match w with
  | W_run x => run_item x
  | W_relock ok => ok
  | _ => true
  end.

Definition count {A} (p : A -> bool) (l : list A) : nat := length (filter (fun a => p a = true) l).

(** The part of the batch that has been submitted *)
Definition submitted (c : caller) : list item :=
  match c with
  | C_submit batch rest | C_full batch rest => take (length batch - length rest) batch
  | C_wait batch | C_sleep batch => batch
  | _ => []
  end.

Definition caller_ok (c : caller) : Prop :=
  match c with
  | C_submit batch rest | C_full batch rest => exists p, batch = p ++ rest
  | _ => True
  end.

Definition at_rest (c : caller) : bool := match c with C_idle | C_join | C_gone => true | _ => false end.

Definition active (w : worker) : bool := match w with W_waiting | W_exit => false | _ => true end.

(** [transit]: the verdicts of items that are out of the ring and held by no worker, inside a step *)
Record pool_inv (transit : list bool) (s : workpool) (q : list item) (c : caller) : Prop := {
  inv_callers : wp_callers s = [c];
  inv_workers : wp_workers s <> [];
  inv_capacity : (2 <= wp_capacity s)%nat;
  inv_head : (wp_head s < wp_capacity s)%nat;
  inv_length : (length q < wp_capacity s)%nat;
  inv_tail : wp_tail s = ((wp_head s + length q) mod wp_capacity s)%nat;
  inv_ring : ring (wp_items s) (wp_head s) q;
  inv_pending : wp_pending s = Z.of_nat (length q + count busy (wp_workers s) + length transit);
  inv_small : Z.of_nat (wp_capacity s) + zlen (wp_workers s) < 2 ^ 63;
  inv_caller : caller_ok c;
  inv_verdict : wp_all_ok s && forallb id transit && forallb fn q && forallb verdict (wp_workers s) = forallb fn (submitted c);
  inv_rest : at_rest c = true -> wp_pending s = 0 /\ wp_all_ok s = true;
  inv_waits : caller_waits c = true -> 0 < wp_pending s;
  inv_active : q <> [] -> existsb active (wp_workers s) = true;
  inv_shutdown : if wp_shutdown s then c = C_join \/ c = C_gone else c <> C_join /\ c <> C_gone;
  inv_exit : if wp_shutdown s then existsb worker_waits (wp_workers s) = false
             else existsb has_exited (wp_workers s) = false;
  inv_log : Forall (fun '(batch, ok) => ok = forallb fn batch) (wp_log s);
}.

Lemma insert_split {A} (l : list A) i a : l !! i = Some a ->
  exists l1 l2, l = l1 ++ a :: l2 /\ length l1 = i /\ forall b, <[i := b]> l = l1 ++ b :: l2.
Proof.
  intros E. exists (take i l), (drop (S i) l). pose proof (lookup_lt_Some _ _ _ E).
  split_and!; [by rewrite take_drop_middle|rewrite length_take; lia|intros b; by rewrite insert_take_drop].
Qed.

Lemma count_busy_app {A} (p : A -> bool) l1 l2 : count p (l1 ++ l2) = (count p l1 + count p l2)%nat.
Proof. unfold count. by rewrite filter_app, length_app. Qed.

Lemma count_cons {A} (p : A -> bool) a l : count p (a :: l) = ((if p a then 1 else 0) + count p l)%nat.
Proof. unfold count. rewrite filter_cons. by destruct (p a). Qed.

Lemma count_bound {A} (p : A -> bool) l : (count p l <= length l)%nat.
Proof. apply length_filter. Qed.

Lemma caller_waits_wake c : caller_waits (wake_caller c) = false /\ submitted (wake_caller c) = submitted c /\
  at_rest (wake_caller c) = at_rest c /\ (caller_ok (wake_caller c) <-> caller_ok c) /\
  (wake_caller c = C_join <-> c = C_join) /\ (wake_caller c = C_gone <-> c = C_gone).
Proof. destruct c; cbn; naive_solver. Qed.

Lemma signal_one {A} (waits : A -> bool) wake k a l : (waits a = false -> wake a = a) ->
  signal waits wake k [a] = Some l -> l = [wake a].
Proof.
  intros Hw. unfold signal. destruct k as [|k]; cbn; destruct (waits a) eqn:E; cbn; try done; intros [= <-]; try done; by rewrite Hw.
Qed.

Lemma complete_inv ok k s q c s' : pool_inv [ok] s q c -> complete ok k s = Some s' ->
  exists c', pool_inv [] s' q c' /\ (c' = c \/ c' = wake_caller c) /\ wp_workers s' = wp_workers s.
Proof.
  intros H E. unfold complete in E. cbv zeta in E. pose proof (inv_pending _ _ _ _ H) as Hp. cbn [length] in Hp.
  pose proof (inv_small _ _ _ _ H) as Hs. pose proof (inv_length _ _ _ _ H) as Hl. pose proof (count_bound busy (wp_workers s)) as Hc.
  rewrite uwrap_small in E by (unfold is_u, zlen in *; lia). cbn [wp_pending] in E.
  assert (forall c', (c' = c \/ c' = wake_caller c) -> (caller_waits c' = true -> 0 < wp_pending s - 1) ->
    pool_inv [] {| wp_items := wp_items s; wp_head := wp_head s; wp_tail := wp_tail s; wp_pending := wp_pending s - 1;
      wp_all_ok := if ok then wp_all_ok s else false; wp_shutdown := wp_shutdown s; wp_workers := wp_workers s;
      wp_callers := [c']; wp_log := wp_log s |} q c') as Hinv.
  { intros c' Hc' Hw. destruct H as [H1 H2 H0 H3 H4 H5 H6 H7 H8 H9 H10 H11 H12 H13 H14 H15 H16].
    destruct (caller_waits_wake c) as (Hw1 & Hw2 & Hw3 & Hw4 & Hw5 & Hw6).
    assert (submitted c' = submitted c /\ at_rest c' = at_rest c /\ (caller_ok c' <-> caller_ok c) /\
      (c' = C_join <-> c = C_join) /\ (c' = C_gone <-> c = C_gone)) as (Es & Ea & Eo & Ej & Eg) by (destruct Hc' as [-> | ->]; done).
    constructor; cbn [wp_items wp_head wp_tail wp_pending wp_all_ok wp_shutdown wp_workers wp_callers wp_log]; try done.
    - cbn [length]. clear - Hp. lia.
    - by apply Eo.
    - rewrite Es, <- H10. cbn [forallb]. unfold id. by destruct ok, (wp_all_ok s).
    - rewrite Ea. intros Hr. destruct (H11 Hr) as [Hz _]. exfalso. clear - Hz Hp. lia.
    - destruct (wp_shutdown s); naive_solver. }
  destruct (Z.eqb_spec (wp_pending s - 1) 0) as [Ez|Nz].
  - unfold signal_done in E. cbn [wp_callers] in E. rewrite (inv_callers _ _ _ _ H) in E.
    destruct (signal _ _ _ _) as [cs|] eqn:Esig; [|done]. injection E as <-.
    apply signal_one in Esig as ->; [|by destruct c]. exists (wake_caller c). split; [|split; [by right|done]]. apply Hinv; [by right|].
    destruct (caller_waits_wake c) as (-> & _). done.
  - injection E as <-. rewrite (inv_callers _ _ _ _ H). exists c. split; [|split; [by left|done]]. apply Hinv; [by left|]. lia.
Qed.

Ltac pool_fields := cbn [wp_items wp_head wp_tail wp_pending wp_all_ok wp_shutdown wp_workers wp_callers wp_log
  with_worker with_workers with_caller with_callers take_head put_tail].

Lemma set_worker_inv transit transit' s q c i w w' : pool_inv transit s q c -> wp_workers s !! i = Some w ->
  ((if busy w then 1 else 0) + length transit = (if busy w' then 1 else 0) + length transit')%nat ->
  verdict w && forallb id transit = verdict w' && forallb id transit' ->
  (q <> [] -> active w' = true) -> (if wp_shutdown s then worker_waits w' = false else has_exited w' = false) ->
  pool_inv transit' (with_worker s i w') q c.
Proof.
  intros [H1 H2 H0 H3 H4 H5 H6 H7 H8 H9 H10 H11 H12 H13 H14 H15 H16] Hi Hb Hv Ha Hx.
  destruct (insert_split _ _ _ Hi) as (l1 & l2 & El & _ & Ei). specialize (Ei w').
  constructor; pool_fields; try done; rewrite ?Ei.
  - by destruct l1.
  - rewrite El in H7. rewrite count_busy_app, count_cons in *. clear - H7 Hb. lia.
  - unfold zlen in *. rewrite <- Ei, length_insert. exact H8.
  - rewrite <- H10, El, !forallb_app. cbn [forallb]. clear - Hv.
    destruct (wp_all_ok s), (forallb fn q), (forallb verdict l1), (forallb verdict l2), (forallb id transit), (forallb id transit'),
      (verdict w), (verdict w'); done.
  - intros Hq. rewrite existsb_app. cbn [existsb]. rewrite (Ha Hq). by rewrite orb_true_r.
  - rewrite El in H15. destruct (wp_shutdown s); rewrite existsb_app in *; cbn [existsb] in *; rewrite Hx;
      apply orb_false_iff in H15 as [-> H15]; apply orb_false_iff in H15 as [_ ->]; done.
Qed.

Lemma queue_empty transit s q c : pool_inv transit s q c -> (wp_head s =? wp_tail s)%nat = bool_decide (q = []).
Proof.
  intros H. rewrite (inv_tail _ _ _ _ H), ring_index by apply H. pose proof (inv_head _ _ _ _ H). pose proof (inv_length _ _ _ _ H).
  destruct q as [|x q]; cbn [length] in *.
  - rewrite Nat.add_0_r. rewrite (proj2 (Nat.ltb_lt _ _)) by done. by rewrite Nat.eqb_refl.
  - clear H. case_match eqn:E; apply Nat.eqb_neq; [apply Nat.ltb_lt in E|apply Nat.ltb_ge in E]; lia.
Qed.

Lemma pop_inv s x q c : pool_inv [] s (x :: q) c ->
  wp_items s !! wp_head s = Some (Some x) /\ pool_inv [fn x] (take_head s) q c.
Proof.
  intros H. destruct (ring_pop _ _ _ _ (inv_head _ _ _ _ H) (inv_length _ _ _ _ H) (inv_ring _ _ _ _ H)) as [Hx Hr].
  split; [done|]. destruct H as [H1 H2 H0 H3 H4 H5 H6 H7 H8 H9 H10 H11 H12 H13 H14 H15 H16].
  constructor; pool_fields; try done; unfold wp_capacity in *; pool_fields.
  - apply Nat.mod_upper_bound. clear - H3. lia.
  - cbn [length] in H4. clear - H4. lia.
  - rewrite Nat.Div0.add_mod_idemp_l. rewrite H5. f_equal. cbn [length]. clear. lia.
  - cbn [length] in *. clear - H7. lia.
  - rewrite <- H10. cbn [forallb]. unfold id. by destruct (wp_all_ok s), (fn x), (forallb fn q).
  - intros _. by apply H13.
Qed.

Lemma transit_inv b b' s q c : wp_all_ok s = false -> pool_inv [b] s q c -> pool_inv [b'] s q c.
Proof. intros E [H1 H2 H0 H3 H4 H5 H6 H7 H8 H9 H10 H11 H12 H13 H14 H15 H16]. constructor; try done. rewrite E in *. exact H10. Qed.

(** ** The measure *)

Definition worker_work (w : worker) : nat :=
  match w with
  | W_lock => 1
  | W_run _ => 4
  | W_relock _ => 3
  | W_waiting | W_exit => 0
  end.

Definition caller_work (c : caller) : nat :=
  match c with
  | C_submit _ rest => 6 * length rest + 3
  | C_full _ rest => 6 * length rest + 2
  | C_wait _ => 2
  | C_sleep _ | C_join => 1
  | C_idle | C_gone => 0
  end.

Definition workers_work (ws : list worker) : nat := sum_list_with worker_work ws.

Definition pool_work (s : workpool) (q : list item) (c : caller) : nat :=
  caller_work c + 4 * length q + workers_work (wp_workers s).

Lemma wake_work c : (caller_work (wake_caller c) <= S (caller_work c))%nat.
Proof. destruct c; cbn; lia. Qed.

Lemma workers_work_insert ws i w w' : ws !! i = Some w ->
  (workers_work (<[i := w']> ws) + worker_work w = workers_work ws + worker_work w')%nat.
Proof.
  intros E. destruct (insert_split _ _ _ E) as (l1 & l2 & El & _ & Ei). rewrite (Ei w'). subst ws.
  unfold workers_work. rewrite !sum_list_with_app. cbn. lia.
Qed.

(** A worker's step keeps the invariant and uses up work. *)
Lemma worker_inv i k s q c s' : pool_inv [] s q c -> worker_thread i k s = Some s' ->
  exists q' c', pool_inv [] s' q' c' /\ (pool_work s' q' c' < pool_work s q c)%nat.
Proof.
  intros H E. unfold worker_thread in E. destruct (wp_workers s !! i) as [w|] eqn:Hi; [|done].
  destruct w as [| |x|ok|]; try done.
  - rewrite (queue_empty _ _ _ _ H) in E. case_bool_decide as Eq; cbn [andb] in E.
    + subst q. destruct (wp_shutdown s) eqn:Es; cbn in E; injection E as <-; exists [], c;
        (split; [eapply set_worker_inv; [exact H|exact Hi|done|done|done|by rewrite Es]|]).
      all: unfold pool_work; pool_fields; pose proof (workers_work_insert _ _ _ W_waiting Hi);
        pose proof (workers_work_insert _ _ _ W_exit Hi); cbn [worker_work] in *; lia.
    + destruct q as [|x q]; [done|]. rewrite andb_false_r in E. destruct (pop_inv _ _ _ _ H) as [Ex Hp].
      destruct (wp_all_ok s) eqn:Ea; cbn [negb] in E.
      * rewrite Ex in E. injection E as <-. exists q, c. split.
        -- eapply set_worker_inv; [exact Hp|exact Hi|done| |done|by destruct (wp_shutdown _)]. cbn. unfold id. by rewrite andb_true_r.
        -- unfold pool_work; pool_fields. pose proof (workers_work_insert _ _ _ (W_run (Some x)) Hi). cbn [worker_work length] in *. lia.
      * apply (transit_inv _ true) in Hp; [|done]. destruct (complete_inv _ _ _ _ _ _ Hp E) as (c' & Hc' & Hw & Ew).
        exists q, c'. split; [done|]. unfold pool_work. rewrite Ew. pool_fields. pose proof (wake_work c). cbn [length].
        destruct Hw as [-> | ->]; lia.
  - injection E as <-. exists q, c. split.
    + eapply set_worker_inv; [exact H|exact Hi|done|done|done|by destruct (wp_shutdown _)].
    + unfold pool_work; pool_fields. pose proof (workers_work_insert _ _ _ (W_relock (run_item x)) Hi). cbn [worker_work] in *. lia.
  - assert (pool_inv [ok] (with_worker s i W_lock) q c) as Hp.
    { eapply set_worker_inv; [exact H|exact Hi|done| |done|by destruct (wp_shutdown _)]. cbn. unfold id. by rewrite andb_true_r. }
    destruct (complete_inv _ _ _ _ _ _ Hp E) as (c' & Hc' & Hw & Ew). exists q, c'. split; [done|].
    unfold pool_work. rewrite Ew. pool_fields. pose proof (wake_work c). pose proof (workers_work_insert _ _ _ W_lock Hi).
    cbn [worker_work] in *. destruct Hw as [-> | ->]; lia.
Qed.

(** *** Callers *)

Lemma submitted_prefix (batch rest p : list item) : batch = p ++ rest -> take (length batch - length rest) batch = p.
Proof. intros ->. rewrite length_app. replace (_ - _)%nat with (length p) by lia. apply take_app_length. Qed.

(** A caller moves on without touching the shared fields. *)
Lemma set_caller_inv s q c c' : pool_inv [] s q c -> caller_ok c' -> submitted c' = submitted c -> at_rest c' = false ->
  (caller_waits c' = true -> 0 < wp_pending s) -> wp_shutdown s = false -> c' <> C_join -> c' <> C_gone ->
  pool_inv [] (with_caller s 0 c') q c'.
Proof.
  intros [H1 H2 H0 H3 H4 H5 H6 H7 H8 H9 H10 H11 H12 H13 H14 H15 H16] Ho Es Er Hw Hsh Hj Hg.
  constructor; pool_fields; try done.
  - by rewrite H1.
  - by rewrite Es.
  - by rewrite Er.
  - by rewrite Hsh.
Qed.

(** A signal to the workers wakes one that waits, if there is one. *)
Lemma signal_work_spec k s s' : signal_work k s = Some s' -> exists ws, s' = with_workers s ws /\
  ((ws = wp_workers s /\ existsb worker_waits (wp_workers s) = false) \/
   exists i, wp_workers s !! i = Some W_waiting /\ ws = <[i := W_lock]> (wp_workers s)).
Proof.
  unfold signal_work, signal. destruct (wp_workers s !! k) as [w|] eqn:E.
  - destruct (worker_waits w) eqn:Ew.
    + intros [= <-]. eexists. split; [done|]. right. exists k. by destruct w.
    + destruct (existsb _ _) eqn:Ex; [done|]. intros [= <-]. eexists. split; [done|]. by left.
  - destruct (existsb _ _) eqn:Ex; [done|]. intros [= <-]. eexists. split; [done|]. by left.
Qed.

Lemma some_active (ws : list worker) : ws <> [] -> existsb worker_waits ws = false -> existsb has_exited ws = false ->
  existsb active ws = true.
Proof. destruct ws as [|w ws]; [done|]. intros _. cbn. by destruct w. Qed.

Lemma push_inv s q batch x rest : pool_inv [] s q (C_submit batch (x :: rest)) -> wp_shutdown s = false ->
  ((wp_tail s + 1) mod wp_capacity s =? wp_head s)%nat = false ->
  forall ws, ((ws = wp_workers s /\ existsb worker_waits (wp_workers s) = false) \/
    exists i, wp_workers s !! i = Some W_waiting /\ ws = <[i := W_lock]> (wp_workers s)) ->
  pool_inv [] (with_workers (with_caller (put_tail x s) 0 (C_submit batch rest)) ws) (q ++ [x]) (C_submit batch rest).
Proof.
  intros [H1 H2 H0 H3 H4 H5 H6 H7 H8 H9 H10 H11 H12 H13 H14 H15 H16] Hsh Hfull ws Hws. rewrite Hsh in H15.
  pose proof (count_bound busy (wp_workers s)) as Hcb. unfold wp_capacity in *.
  assert (length q < length (wp_items s) - 1)%nat as Hl.
  { rewrite H5, (ring_full _ _ _ H3 H4) in Hfull. apply Nat.eqb_neq in Hfull. clear - Hfull H4. lia. }
  assert (existsb active ws = true /\ count busy ws = count busy (wp_workers s) /\ forallb verdict ws = forallb verdict (wp_workers s) /\
    length ws = length (wp_workers s) /\ existsb has_exited ws = false /\ ws <> []) as (Ha & Hb & Hv & Hn & Hx & Hne).
  { destruct Hws as [[-> Hw]|(i & Hi & ->)]; [split_and!; try done; by apply some_active|].
    destruct (insert_split _ _ _ Hi) as (l1 & l2 & El & _ & Ei). rewrite Ei. rewrite El in *.
    rewrite !existsb_app, !forallb_app, !count_busy_app, !count_cons, !length_app in *. cbn in *.
    split_and!; [by rewrite orb_true_r|done|done|done|done|by destruct l1]. }
  destruct H9 as [p Ep].
  constructor; pool_fields; unfold wp_capacity; pool_fields; rewrite ?length_insert; try done.
  - by rewrite H1.
  - rewrite length_app. cbn [length]. clear - Hl. lia.
  - rewrite H5, Nat.Div0.add_mod_idemp_l, length_app. f_equal. cbn [length]. clear. lia.
  - rewrite H5. by apply ring_push.
  - rewrite length_app, Hb. rewrite H7. cbn [length]. rewrite uwrap_small; [clear; lia|]. unfold is_u, zlen in *. clear - H8 Hcb Hl. lia.
  - unfold zlen in *. rewrite Hn. exact H8.
  - exists (p ++ [x]). by rewrite <- app_assoc.
  - cbn [submitted] in *. rewrite (submitted_prefix _ _ p Ep) in H10.
    rewrite (submitted_prefix _ _ (p ++ [x])) by (by rewrite <- app_assoc). rewrite !forallb_app, <- H10, Hv. cbn [forallb].
    destruct (wp_all_ok s), (forallb fn q), (fn x), (forallb verdict (wp_workers s)); done.
  - by rewrite Hsh in *.
  - by rewrite Hsh.
Qed.

Lemma wake_worker_work ws s : (ws = wp_workers s /\ existsb worker_waits (wp_workers s) = false) \/
    (exists i, wp_workers s !! i = Some W_waiting /\ ws = <[i := W_lock]> (wp_workers s)) ->
  (workers_work ws <= S (workers_work (wp_workers s)))%nat.
Proof.
  intros [[-> _]|(i & Hi & ->)]; [lia|]. pose proof (workers_work_insert _ _ _ W_lock Hi). cbn [worker_work] in *. lia.
Qed.

(** A caller's step keeps the invariant and uses up work. *)
Lemma caller_inv j k s q c s' : pool_inv [] s q c -> caller_thread j k s = Some s' ->
  exists q' c', pool_inv [] s' q' c' /\ (pool_work s' q' c' < pool_work s q c)%nat.
Proof.
  intros H E. unfold caller_thread in E. rewrite (inv_callers _ _ _ _ H) in E. destruct j as [|j]; [|done]. cbn in E.
  pose proof (inv_shutdown _ _ _ _ H) as Hsh.
  destruct c as [|batch rest|batch rest|batch|batch| |]; try done.
  - destruct (wp_shutdown s) eqn:Es; [by destruct Hsh|]. unfold workpool_submit in E. destruct rest as [|x rest].
    + injection E as <-. exists q, (C_wait batch). split; [|unfold pool_work; pool_fields; cbn; lia].
      apply (set_caller_inv _ _ _ _ H); try done. cbn. rewrite Nat.sub_0_r. by rewrite take_ge.
    + destruct (_ =? _)%nat eqn:Ef; rewrite Es in E; cbn [andb negb] in E.
      * injection E as <-. exists q, (C_full batch (x :: rest)). split; [|unfold pool_work; pool_fields; cbn; lia].
        apply (set_caller_inv _ _ _ _ H); try done; [apply (inv_caller _ _ _ _ H)|]. intros _. rewrite (inv_pending _ _ _ _ H).
        destruct q as [|y q]; [|cbn [length]; lia]. exfalso. pose proof (inv_capacity _ _ _ _ H) as Hc.
        rewrite (inv_tail _ _ _ _ H), (ring_full _ _ _ (inv_head _ _ _ _ H) (inv_length _ _ _ _ H)) in Ef.
        apply Nat.eqb_eq in Ef. cbn [length] in Ef. clear - Hc Ef. lia.
      * apply signal_work_spec in E as (ws & -> & Hws). exists (q ++ [x]), (C_submit batch rest).
        split; [by apply push_inv|]. pose proof (wake_worker_work _ _ Hws) as Hw. change (wp_workers (with_caller (put_tail x s) 0 (C_submit batch rest))) with (wp_workers s) in Hw.
        unfold pool_work; pool_fields. rewrite length_app. cbn [caller_work length]. clear - Hw. lia.
  - unfold workpool_wait in E. destruct (wp_shutdown s) eqn:Es; [by destruct Hsh|]. destruct (Z.gtb_spec (wp_pending s) 0) as [Hp|Hp].
    + injection E as <-. exists q, (C_sleep batch). split; [|unfold pool_work; pool_fields; cbn; lia].
      by apply (set_caller_inv _ _ _ _ H).
    + injection E as <-. exists q, C_idle. split; [|unfold pool_work; pool_fields; cbn; lia].
      destruct H as [H1 H2 H0 H3 H4 H5 H6 H7 H8 H9 H10 H11 H12 H13 H14 H15 H16]. cbn [length] in H7.
      assert (q = [] /\ count busy (wp_workers s) = 0%nat) as [-> Hb] by (clear - H7 Hp; destruct q; cbn [length] in H7; split; (done || lia)).
      assert (forallb verdict (wp_workers s) = true) as Hv.
      { clear - Hb. induction (wp_workers s) as [|w ws IH]; [done|]. rewrite count_cons in Hb. cbn. rewrite IH by lia.
        by destruct w; cbn in Hb. }
      cbn [forallb] in H10. rewrite Hv in H10. constructor; pool_fields; try done.
      * by rewrite H1.
      * intros _. split; [clear - H7 Hp; lia|done].
      * by rewrite Es in H15.
      * apply Forall_cons. split; [|done]. cbn [submitted] in H10. by rewrite <- H10, !andb_true_r.
  - destruct (forallb _ _) eqn:Ea; [|done]. injection E as <-. exists q, C_gone. split; [|unfold pool_work; pool_fields; cbn; lia].
    destruct H as [H1 H2 H0 H3 H4 H5 H6 H7 H8 H9 H10 H11 H12 H13 H14 H15 H16]. constructor; pool_fields; try done.
    + by rewrite H1.
    + destruct (wp_shutdown s); [by right|by destruct Hsh].
Qed.

(** *** All steps *)

(** The choices of the environment that do no work of the pool *)
Definition spurious (ch : choice) : bool := match ch with SpuriousWorker _ | SpuriousCaller _ => true | _ => false end.

Definition is_call (ch : choice) : bool := match ch with CallRun _ _ | CallDestroy _ => true | _ => false end.

Lemma spurious_inv ch s q c s' : pool_inv [] s q c -> spurious ch = true -> pool_step ch s = Some s' ->
  exists c', pool_inv [] s' q c' /\ (pool_work s' q c' = S (pool_work s q c))%nat.
Proof.
  intros H Hs E. destruct ch as [| | | |i|j]; try done; cbn in E.
  - destruct (wp_workers s !! i) as [[]|] eqn:Hi; try done. injection E as <-. exists c. split.
    + eapply set_worker_inv; [exact H|exact Hi|done|done|done|by destruct (wp_shutdown _)].
    + unfold pool_work; pool_fields. pose proof (workers_work_insert _ _ _ W_lock Hi). cbn [worker_work] in *. lia.
  - rewrite (inv_callers _ _ _ _ H) in E. destruct j as [|j]; [|done]. cbn in E. destruct (caller_waits c) eqn:Ew; [|done].
    injection E as <-. exists (wake_caller c). pose proof (inv_shutdown _ _ _ _ H) as Hsh.
    split; [|unfold pool_work; pool_fields; destruct c; try done; cbn; lia].
    apply (set_caller_inv _ _ _ _ H); destruct c; try done; try apply (inv_caller _ _ _ _ H); destruct (wp_shutdown s); try done; by destruct Hsh.
Qed.

Lemma run_inv j batch s q c s' : pool_inv [] s q c -> workpool_run j batch s = Some s' ->
  pool_inv [] s' q (C_submit batch batch).
Proof.
  intros H E. unfold workpool_run in E. rewrite (inv_callers _ _ _ _ H) in E. destruct j as [|j]; [|done]. cbn in E.
  destruct c; try done. injection E as <-. pose proof (inv_shutdown _ _ _ _ H) as Hsh.
  destruct H as [H1 H2 H0 H3 H4 H5 H6 H7 H8 H9 H10 H11 H12 H13 H14 H15 H16]. constructor; pool_fields; try done.
  - by rewrite H1.
  - by exists [].
  - rewrite H10. cbn. by rewrite Nat.sub_diag.
  - destruct (wp_shutdown s); [by destruct Hsh|done].
Qed.

Lemma wake_all_counts ws : let ws' := map (fun w => if worker_waits w then W_lock else w) ws in
  count busy ws' = count busy ws /\ forallb verdict ws' = forallb verdict ws /\ existsb worker_waits ws' = false /\
  (existsb active ws = true -> existsb active ws' = true).
Proof.
  induction ws as [|w ws (IH1 & IH2 & IH3 & IH4)]; [done|]. cbn -[count]. rewrite !count_cons. cbn -[count] in IH1, IH2, IH3, IH4.
  rewrite IH1, IH2, IH3. split_and!; [by destruct w|by destruct w|by destruct w|destruct w; cbn; auto].
Qed.

Lemma destroy_inv j s q c s' : pool_inv [] s q c -> workpool_destroy j s = Some s' -> pool_inv [] s' q C_join.
Proof.
  intros H E. unfold workpool_destroy in E. rewrite (inv_callers _ _ _ _ H) in E. destruct j as [|j]; [|done]. cbn in E.
  destruct c; try done. injection E as <-. destruct (wake_all_counts (wp_workers s)) as (Eb & Ev & Ew & Ea).
  destruct H as [H1 H2 H0 H3 H4 H5 H6 H7 H8 H9 H10 H11 H12 H13 H14 H15 H16]. constructor; pool_fields; try done.
  - intros E. by apply map_eq_nil in E.
  - by rewrite Eb.
  - unfold zlen in *. by rewrite length_map.
  - by rewrite Ev.
  - intros Hq. by apply Ea, H13.
  - by left.
Qed.

Lemma step_inv ch s q c s' : pool_inv [] s q c -> pool_step ch s = Some s' -> exists q' c', pool_inv [] s' q' c'.
Proof.
  intros H E. destruct (spurious ch) eqn:Es; [destruct (spurious_inv _ _ _ _ _ H Es E) as (c' & ? & _); eauto|].
  destruct ch as [i k|j k|j batch|j| |]; try done; cbn in E.
  - destruct (worker_inv _ _ _ _ _ _ H E) as (q' & c' & ? & _). eauto.
  - destruct (caller_inv _ _ _ _ _ _ H E) as (q' & c' & ? & _). eauto.
  - eauto using run_inv.
  - eauto using destroy_inv.
Qed.

Lemma steps_inv chs s q c s' : pool_inv [] s q c -> pool_steps chs s = Some s' -> exists q' c', pool_inv [] s' q' c'.
Proof.
  revert s q c. induction chs as [|ch chs IH]; intros s q c H E; cbn in E; [injection E as <-; eauto|].
  destruct (pool_step ch s) as [s1|] eqn:E1; [|done]. destruct (step_inv _ _ _ _ _ H E1) as (q1 & c1 & H1). eauto.
Qed.

(** A schedule without calls uses up at least one unit of work per step that is not spurious. *)
Lemma steps_work chs s q c s' : pool_inv [] s q c -> forallb (fun ch => negb (is_call ch)) chs = true ->
  pool_steps chs s = Some s' -> exists q' c', pool_inv [] s' q' c' /\
  (length chs + pool_work s' q' c' <= pool_work s q c + 2 * count spurious chs)%nat.
Proof.
  revert s q c. induction chs as [|ch chs IH]; intros s q c H Hn E; cbn in E; [injection E as <-; exists q, c; split; [done|cbn; lia]|].
  cbn in Hn. apply andb_prop in Hn as [Hc Hn]. destruct (pool_step ch s) as [s1|] eqn:E1; [|done]. cbn in E.
  assert (exists q1 c1, pool_inv [] s1 q1 c1 /\
    (1 + pool_work s1 q1 c1 <= pool_work s q c + 2 * if spurious ch then 1 else 0)%nat) as (q1 & c1 & H1 & Hw).
  { destruct (spurious ch) eqn:Es; [destruct (spurious_inv _ _ _ _ _ H Es E1) as (c1 & H1 & Hw); exists q, c1; split; [done|lia]|].
    destruct ch as [i k|j k| | | |]; try done.
    - destruct (worker_inv _ _ _ _ _ _ H E1) as (q1 & c1 & H1 & Hw). exists q1, c1. split; [done|lia].
    - destruct (caller_inv _ _ _ _ _ _ H E1) as (q1 & c1 & H1 & Hw). exists q1, c1. split; [done|lia]. }
  destruct (IH s1 q1 c1 H1 Hn E) as (q' & c' & H' & Hw'). exists q', c'. split; [done|].
  rewrite count_cons. cbn [length]. clear - Hw Hw'. destruct (spurious ch); lia.
Qed.

(** *** Progress *)

Lemma signal_enabled {A} (waits : A -> bool) wake l : exists k l', signal waits wake k l = Some l'.
Proof.
  destruct (existsb waits l) eqn:E.
  - apply existsb_exists in E as (a & Ha & Hw). apply list_elem_of_In, list_elem_of_lookup in Ha as [k Hk]. exists k.
    unfold signal. rewrite Hk, Hw. eauto.
  - exists (length l). unfold signal. rewrite lookup_ge_None_2, E by done. eauto.
Qed.

Lemma complete_enabled ok s : exists k s', complete ok k s = Some s'.
Proof.
  unfold complete. cbv zeta. case_match; [|by eexists 0%nat, _]. unfold signal_done. pool_fields.
  destruct (signal_enabled caller_waits wake_caller (wp_callers s)) as (k & l & E). exists k. rewrite E. eauto.
Qed.

Lemma worker_enabled s q c i w : pool_inv [] s q c -> wp_workers s !! i = Some w -> active w = true ->
  exists k s', worker_thread i k s = Some s'.
Proof.
  intros H Hi Ha. unfold worker_thread. rewrite Hi. destruct w as [| |x|ok|]; try done.
  - rewrite (queue_empty _ _ _ _ H). case_bool_decide as Eq; [destruct (wp_shutdown s); cbn; by eexists 0%nat, _|].
    cbn [andb]. rewrite andb_false_r. destruct q as [|x q]; [done|]. destruct (pop_inv _ _ _ _ H) as [Ex _].
    destruct (wp_all_ok s); cbn [negb]; [rewrite Ex; cbn; by eexists 0%nat, _|apply complete_enabled].
  - by eexists 0%nat, _.
  - apply complete_enabled.
Qed.

Lemma existsb_lookup {A} (p : A -> bool) l : existsb p l = true -> exists i a, l !! i = Some a /\ p a = true.
Proof.
  intros E. apply existsb_exists in E as (a & Ha & Hp). apply list_elem_of_In, list_elem_of_lookup in Ha as [i Hi]. eauto.
Qed.

Lemma pending_active s q c : pool_inv [] s q c -> 0 < wp_pending s -> existsb active (wp_workers s) = true.
Proof.
  intros H Hp. rewrite (inv_pending _ _ _ _ H) in Hp. destruct q as [|x q]; [|by apply (inv_active _ _ _ _ H)]. cbn in Hp. clear H.
  induction (wp_workers s) as [|w ws IH]; [done|]. rewrite count_cons in Hp. cbn. destruct w; try done; apply IH; exact Hp.
Qed.

(** While a caller is in a call, some thread can make a step. *)
Lemma progress s q c : pool_inv [] s q c -> c <> C_idle -> c <> C_gone ->
  exists ch s', is_call ch = false /\ spurious ch = false /\ pool_step ch s = Some s'.
Proof.
  intros H Hi Hg.
  assert (existsb active (wp_workers s) = true -> exists ch s', is_call ch = false /\ spurious ch = false /\ pool_step ch s = Some s') as Hwk.
  { intros (i & w & Hw & Ha)%existsb_lookup. destruct (worker_enabled _ _ _ _ _ H Hw Ha) as (k & s' & E). by exists (Worker i k), s'. }
  assert (forall k s', caller_thread 0 k s = Some s' -> exists ch s', is_call ch = false /\ spurious ch = false /\ pool_step ch s = Some s')
    as Hcl by (intros k s' E; by exists (Caller 0 k), s').
  unfold caller_thread in Hcl. rewrite (inv_callers _ _ _ _ H) in Hcl. cbn in Hcl.
  destruct c as [|batch rest|batch rest|batch|batch| |]; try done.
  - destruct rest as [|x rest]; [by eapply (Hcl 0%nat)|]. unfold workpool_submit in Hcl.
    destruct (_ && _); [by eapply (Hcl 0%nat)|]. destruct (wp_shutdown s); [by eapply (Hcl 0%nat)|]. unfold signal_work in Hcl.
    edestruct (signal_enabled worker_waits (fun _ => W_lock)) as (k & ws & E). eapply (Hcl k). rewrite E. done.
  - apply Hwk, (pending_active _ _ _ H), (inv_waits _ _ _ _ H). done.
  - unfold workpool_wait in Hcl. destruct (_ >? 0); by eapply (Hcl 0%nat).
  - apply Hwk, (pending_active _ _ _ H), (inv_waits _ _ _ _ H). done.
  - destruct (forallb has_exited (wp_workers s)) eqn:Ex; [by eapply (Hcl 0%nat)|]. apply Hwk.
    pose proof (inv_shutdown _ _ _ _ H) as Hsh. pose proof (inv_exit _ _ _ _ H) as He. destruct (wp_shutdown s); [|by destruct Hsh].
    clear - Ex He. induction (wp_workers s) as [|w ws IH]; [done|]. cbn in *. destruct w; try done; by apply IH.
Qed.

(** *** Batches and results *)

Definition batch_of (c : caller) : option (list item) :=
  match c with
  | C_submit batch _ | C_full batch _ | C_wait batch | C_sleep batch => Some batch
  | _ => None
  end.

Lemma complete_callers ok k s s' c : wp_callers s = [c] -> complete ok k s = Some s' ->
  (wp_callers s' = [c] \/ wp_callers s' = [wake_caller c]) /\ wp_log s' = wp_log s.
Proof.
  intros Hc. unfold complete. cbv zeta. case_match; [|intros [= <-]; by auto]. unfold signal_done. pool_fields. rewrite Hc.
  destruct (signal _ _ _ _) as [cs|] eqn:E; [|done]. intros [= <-]. apply signal_one in E as ->; [auto|by destruct c].
Qed.

Lemma worker_callers i k s s' c : wp_callers s = [c] -> worker_thread i k s = Some s' ->
  (wp_callers s' = [c] \/ wp_callers s' = [wake_caller c]) /\ wp_log s' = wp_log s.
Proof.
  intros Hc E. unfold worker_thread in E. destruct (wp_workers s !! i) as [[| |x|ok|]|]; try done.
  - repeat case_match; try (injection E as <-; by auto).
    + by apply (complete_callers true k (take_head s)).
    + destruct (wp_items s !! wp_head s); [injection E as <-; by auto|done].
  - injection E as <-. auto.
  - by apply (complete_callers ok k (with_worker s i W_lock)).
Qed.

(** In a call the batch stays the same until its result is logged. *)
Lemma step_log ch s q c s' : pool_inv [] s q c -> is_call ch = false -> pool_step ch s = Some s' ->
  exists c', wp_callers s' = [c'] /\
  ((batch_of c' = batch_of c /\ (c = C_idle -> c' = C_idle) /\ (c = C_join \/ c = C_gone -> c' = C_join \/ c' = C_gone) /\ wp_log s' = wp_log s) \/
   exists batch ok, batch_of c = Some batch /\ c' = C_idle /\ wp_log s' = (batch, ok) :: wp_log s).
Proof.
  intros H Hn E. pose proof (inv_callers _ _ _ _ H) as Hc. destruct ch as [i k|j k| | |i|j]; try done; cbn in E.
  - destruct (worker_callers _ _ _ _ _ Hc E) as [[Hc'|Hc'] Hl]; rewrite Hc'; eexists; (split; [done|]); left;
      split_and!; auto; destruct c; naive_solver.
  - unfold caller_thread in E. rewrite Hc in E. destruct j as [|j]; [|done]. cbn in E.
    destruct c as [|batch rest|batch rest|batch|batch| |]; try done.
    + unfold workpool_submit in E. destruct rest as [|x rest]; [|case_match; [|case_match]].
      1-3: injection E as <-; eexists; (split; [pool_fields; by rewrite Hc|]); left; split_and!; naive_solver.
      apply signal_work_spec in E as (ws & -> & _). eexists. split; [pool_fields; by rewrite Hc|]. left. split_and!; naive_solver.
    + unfold workpool_wait in E. case_match; injection E as <-; eexists; (split; [pool_fields; by rewrite Hc|]);
        [left; split_and!; naive_solver|right; naive_solver].
    + case_match; [|done]. injection E as <-. eexists. split; [pool_fields; by rewrite Hc|]. left. split_and!; naive_solver.
  - destruct (wp_workers s !! i) as [[]|]; try done. injection E as <-. exists c. split; [done|]. left. split_and!; auto.
  - rewrite Hc in E. destruct j as [|j]; [|done]. cbn in E. case_match; [|done]. injection E as <-.
    exists (wake_caller c). split; [pool_fields; by rewrite Hc|]. left. destruct c; split_and!; naive_solver.
Qed.

Lemma steps_log chs s q c batch s' : pool_inv [] s q c -> forallb (fun ch => negb (is_call ch)) chs = true ->
  pool_steps chs s = Some s' -> exists c', wp_callers s' = [c'] /\
  (batch_of c = Some batch -> (batch_of c' = Some batch /\ wp_log s' = wp_log s) \/
     (c' = C_idle /\ exists ok, wp_log s' = (batch, ok) :: wp_log s)) /\
  (c = C_idle -> c' = C_idle /\ wp_log s' = wp_log s) /\ (c = C_join \/ c = C_gone -> c' = C_join \/ c' = C_gone).
Proof.
  revert s q c. induction chs as [|ch chs IH]; intros s q c H Hn E; cbn in E.
  - injection E as <-. exists c. split; [apply H|]. naive_solver.
  - cbn in Hn. apply andb_prop in Hn as [Hch Hn]. apply negb_true_iff in Hch. destruct (pool_step ch s) as [s1|] eqn:E1; [|done]. cbn in E.
    destruct (step_log _ _ _ _ _ H Hch E1) as (c1 & Hc1 & Hl). destruct (step_inv _ _ _ _ _ H E1) as (q1 & c1' & H1).
    assert (c1' = c1) as -> by (pose proof (inv_callers _ _ _ _ H1); congruence).
    destruct (IH s1 q1 c1 H1 Hn E) as (c' & Hc' & Hb & Hi & Hj). exists c'. split; [done|].
    destruct Hl as [(Eb & Hi1 & Hj1 & El)|(b & ok & Eb & -> & El)].
    + rewrite El, Eb in *. split_and!; [done|naive_solver|auto].
    + split_and!; [|by intros ->|by intros [-> | ->]]. intros Eb'. rewrite Eb in Eb'. injection Eb' as ->. right.
      destruct (Hi eq_refl) as [-> ->]. split; [done|]. by exists ok.
Qed.

Lemma init_inv num_threads cores queue_cap created s : 0 <= queue_cap < 2 ^ 62 ->
  workpool_init num_threads cores queue_cap true created 1 = Some s -> pool_inv [] s [] C_idle.
Proof.
  intros Hq. unfold workpool_init. destruct (Z.eqb_spec queue_cap 0) as [|Hz]; [done|]. cbn [negb].
  set (n := if (if (if num_threads <=? 0 then cores else num_threads) <? 1 then 1 else _) >? _ then _ else _).
  assert (n <= 64) as Hn by (unfold n, WORKPOOL_MAX_THREADS; repeat case_match; lia). clearbody n.
  set (started := Nat.min created (Z.to_nat n)). assert (started <= 64)%nat as Hst by lia. clearbody started.
  destruct (Nat.eqb_spec started 0) as [|Hs]; [done|]. intros [= <-].
  constructor; pool_fields; unfold wp_capacity, zlen; pool_fields; rewrite ?length_replicate; try done.
  - by destruct started.
  - lia.
  - lia.
  - cbn. lia.
  - cbn. symmetry. apply Nat.mod_small. lia.
  - cbn. rewrite Nat.add_0_r. clear. induction started as [|k IH]; [done|]. exact IH.
  - lia.
  - cbn. clear. induction started as [|k IH]; [done|]. exact IH.
  - clear. induction started as [|k IH]; [done|]. exact IH.
Qed.

(** The state after a schedule of a pool with one caller *)
Definition reachable (s : workpool) : Prop := exists num_threads cores queue_cap created chs s0,
  0 <= queue_cap < 2 ^ 62 /\ workpool_init num_threads cores queue_cap true created 1 = Some s0 /\ pool_steps chs s0 = Some s.

Lemma reachable_inv s : reachable s -> exists q c, pool_inv [] s q c.
Proof. intros (nt & co & qc & cr & chs & s0 & Hq & E0 & E). eapply steps_inv; [eapply init_inv; eassumption|exact E]. Qed.

Lemma reachable_log s batch ok : reachable s -> (batch, ok) ∈ wp_log s -> ok = forallb fn batch.
Proof.
  intros Hr Hin. destruct (reachable_inv s Hr) as (q & c & H). pose proof (inv_log _ _ _ _ H) as Hl.
  by apply (proj1 (Forall_forall _ _) Hl (batch, ok)).
Qed.

Lemma idle_workers_work ws : count busy ws = 0%nat -> (workers_work ws <= length ws)%nat.
Proof.
  induction ws as [|w ws IH]; [done|]. rewrite count_cons. unfold workers_work in *. cbn.
  destruct w; cbn; intros; try done; specialize (IH ltac:(lia)); lia.
Qed.

(** C11: With one caller the pool reports exactly its batches.  In every state that a schedule of
    calls, worker steps, signals and spurious wake-ups can reach, each result returned so far is
    the conjunction of the work function over its batch, although a failure makes the workers
    skip items; and whenever the caller is outside a call, no item is pending, the ring is
    empty and the failure flag is reset for the next batch. *)
Theorem workpool_run_correct s : reachable s ->
  Forall (fun '(batch, ok) => ok = forallb fn batch) (wp_log s) /\
  (wp_callers s = [C_idle] -> wp_pending s = 0 /\ wp_all_ok s = true /\ wp_head s = wp_tail s).
Proof.
  intros Hr. destruct (reachable_inv s Hr) as (q & c & H). split; [apply H|]. intros Hc.
  rewrite (inv_callers _ _ _ _ H) in Hc. injection Hc as ->. destruct (inv_rest _ _ _ _ H eq_refl) as [Hp Ha].
  split_and!; [done|done|]. apply Nat.eqb_eq. rewrite (queue_empty _ _ _ _ H). apply bool_decide_eq_true_2.
  rewrite (inv_pending _ _ _ _ H) in Hp. destruct q; [done|cbn [length] in Hp; lia].
Qed.

Lemma run_returns s batch s1 chs s2 : reachable s -> workpool_run 0 batch s = Some s1 ->
  forallb (fun ch => negb (is_call ch)) chs = true -> pool_steps chs s1 = Some s2 ->
  (length chs <= 6 * length batch + 3 + length (wp_workers s) + 2 * count spurious chs)%nat /\
  ((exists ch s3, is_call ch = false /\ spurious ch = false /\ pool_step ch s2 = Some s3) \/
   (wp_callers s2 = [C_idle] /\ wp_log s2 = (batch, forallb fn batch) :: wp_log s)).
Proof.
  intros Hr E1 Hn E2. destruct (reachable_inv s Hr) as (q & c & H). pose proof (run_inv _ _ _ _ _ _ H E1) as H1.
  unfold workpool_run in E1. rewrite (inv_callers _ _ _ _ H) in E1. cbn in E1. destruct c; try done. injection E1 as <-.
  destruct (inv_rest _ _ _ _ H eq_refl) as [Hp _]. rewrite (inv_pending _ _ _ _ H) in Hp. cbn [length] in Hp.
  destruct q as [|x q]; [|cbn [length] in Hp; lia]. split.
  - destruct (steps_work _ _ _ _ _ H1 Hn E2) as (q2 & c2 & _ & Hw). unfold pool_work at 2 in Hw. pool_fields. cbn [caller_work length] in Hw.
    change (wp_workers (with_caller s 0 (C_submit batch batch))) with (wp_workers s) in Hw.
    pose proof (idle_workers_work (wp_workers s)) as Hi. cbn [length] in Hp. clear - Hw Hp Hi. lia.
  - destruct (steps_inv _ _ _ _ _ H1 E2) as (q2 & c2 & H2).
    destruct (steps_log _ _ _ _ batch _ H1 Hn E2) as (c' & Hc' & Hb & _).
    assert (c' = c2) as -> by (pose proof (inv_callers _ _ _ _ H2); congruence).
    destruct (Hb eq_refl) as [[Hb' _]|(-> & ok & El)].
    + left. apply (progress _ _ _ H2); by intros ->.
    + right. split; [done|]. pose proof (inv_log _ _ _ _ H2) as Hl. rewrite El in Hl. apply Forall_cons in Hl as [-> _]. done.
Qed.

Lemma pool_steps_app chs chs' s : pool_steps (chs ++ chs') s = s' ← pool_steps chs s; pool_steps chs' s'.
Proof. revert s. induction chs as [|ch chs IH]; intros s; [done|]. cbn. destruct (pool_step ch s); [apply IH|done]. Qed.

(** Some schedule brings a call to its end. *)
Lemma run_schedule s batch s1 : reachable s -> workpool_run 0 batch s = Some s1 ->
  exists chs s2, forallb (fun ch => negb (is_call ch)) chs = true /\ pool_steps chs s1 = Some s2 /\
    wp_callers s2 = [C_idle] /\ wp_log s2 = (batch, forallb fn batch) :: wp_log s.
Proof.
  intros Hr E1. assert (forall k, exists chs s2, forallb (fun ch => negb (is_call ch)) chs = true /\ count spurious chs = 0%nat /\
    pool_steps chs s1 = Some s2 /\ ((wp_callers s2 = [C_idle] /\ wp_log s2 = (batch, forallb fn batch) :: wp_log s) \/
    length chs = k)) as Hk.
  { induction k as [|k (chs & s2 & Hn & Hs & E2 & Hd)]; [exists [], s1; auto|].
    destruct Hd as [Hd|Hl]; [exists chs, s2; auto|].
    destruct (run_returns s batch s1 chs s2 Hr E1 Hn E2) as [_ [(ch & s3 & Hc & Hsp & E3)|Hd]]; [|exists chs, s2; auto].
    exists (chs ++ [ch]), s3. split_and!.
    - rewrite forallb_app, Hn. cbn. by rewrite Hc.
    - rewrite count_busy_app, Hs, count_cons, Hsp. done.
    - rewrite pool_steps_app, E2. cbn. by rewrite E3.
    - right. rewrite length_app. cbn. lia. }
  destruct (Hk (6 * length batch + 4 + length (wp_workers s))%nat) as (chs & s2 & Hn & Hs & E2 & Hd). exists chs, s2.
  destruct Hd as [[? ?]|Hl]; [done|]. destruct (run_returns s batch s1 chs s2 Hr E1 Hn E2) as [Hle _]. lia.
Qed.

(** The verdict that a pool gives on a batch, at some point of some run *)
Definition gives_verdict (batch : list item) (ok : bool) : Prop := exists s, reachable s /\ (batch, ok) ∈ wp_log s.

Lemma verdict_iff batch ok : gives_verdict batch ok <-> ok = forallb fn batch.
Proof.
  split; [intros (s & Hr & Hin); by eapply reachable_log|]. intros ->.
  destruct (workpool_init 2 2 2 true 2 1) as [s|] eqn:E0; [|done].
  assert (reachable s) as Hr by (exists 2, 2, 2, 2%nat, [], s; by split_and!).
  assert (wp_callers s = [C_idle]) as Hc by by injection E0 as <-.
  destruct (workpool_run 0 batch s) as [s1|] eqn:E1; [|unfold workpool_run in E1; by rewrite Hc in E1].
  destruct (run_schedule s batch s1 Hr E1) as (chs & s2 & _ & E2 & _ & El). exists s2. split; [|rewrite El; left].
  exists 2, 2, 2, 2%nat, (CallRun 0 batch :: chs), s. split_and!; [done|done|done|]. cbn. rewrite E1. done.
Qed.

(** C37: With one caller every batch returns.  From a call on a reachable pool, any schedule
    without further calls has at most six steps per item, three and one per worker, and two for
    each spurious wake-up; and at every point either some thread can make a step that is not
    a spurious wake-up, or the call has returned the verdict on its batch. *)
Theorem workpool_run_terminates s batch s1 chs s2 : reachable s -> workpool_run 0 batch s = Some s1 ->
  forallb (fun ch => negb (is_call ch)) chs = true -> pool_steps chs s1 = Some s2 ->
  (length chs <= 6 * length batch + 3 + length (wp_workers s) + 2 * count spurious chs)%nat /\
  ((exists ch s3, is_call ch = false /\ spurious ch = false /\ pool_step ch s2 = Some s3) \/
   (wp_callers s2 = [C_idle] /\ wp_log s2 = (batch, forallb fn batch) :: wp_log s)).
Proof. apply run_returns. Qed.

(** Destroying the pool returns as well: some thread can make a step until all workers have left. *)
Theorem workpool_destroy_terminates s s1 chs s2 : reachable s -> workpool_destroy 0 s = Some s1 ->
  forallb (fun ch => negb (is_call ch)) chs = true -> pool_steps chs s1 = Some s2 ->
  (length chs <= 1 + length (wp_workers s) + 2 * count spurious chs)%nat /\
  ((exists ch s3, is_call ch = false /\ spurious ch = false /\ pool_step ch s2 = Some s3) \/ wp_callers s2 = [C_gone]).
Proof.
  intros Hr E1 Hn E2. destruct (reachable_inv s Hr) as (q & c & H). pose proof (destroy_inv _ _ _ _ _ H E1) as H1.
  destruct (steps_inv _ _ _ _ _ H1 E2) as (q2 & c2 & H2). split.
  - destruct (steps_work _ _ _ _ _ H1 Hn E2) as (q3 & c3 & _ & Hw). unfold pool_work at 2 in Hw.
    destruct (inv_rest _ _ _ _ H1 eq_refl) as [Hp _]. rewrite (inv_pending _ _ _ _ H1) in Hp. cbn [length] in Hp.
    pose proof (idle_workers_work (wp_workers s1) ltac:(lia)) as Hi.
    assert (length (wp_workers s1) = length (wp_workers s)) as El.
    { unfold workpool_destroy in E1. destruct (wp_callers s !! 0%nat) as [[]|]; try done. injection E1 as <-. cbn. apply length_map. }
    cbn [caller_work] in Hw. clear - Hw Hp Hi El. lia.
  - destruct (steps_log _ _ _ _ [] _ H1 Hn E2) as (c' & Hc' & _ & _ & Hj).
    assert (c' = c2) as -> by (pose proof (inv_callers _ _ _ _ H2); congruence).
    destruct (Hj (or_introl eq_refl)) as [-> | ->]; [left; by apply (progress _ _ _ H2)|by right].
Qed.
End Workpool.

(** ** Concrete schedules *)

Definition sample_schedule : list (choice (item := bool)) :=
  [CallRun 0 [true; false]; Caller 0 0; Caller 0 0; Worker 0 0; Worker 0 0; Caller 0 0; Caller 0 0; Worker 0 0; Worker 1 0;
   SpuriousCaller 0; Caller 0 0; Worker 1 0; Worker 1 0; Caller 0 0].

Lemma workpool_run_correct_witness : exists s, reachable id s /\ wp_log s = [([true; false], false)] /\
  Forall (fun '(batch, ok) => ok = forallb id batch) (wp_log s).
Proof.
  assert (exists s, reachable id s /\ wp_log s = [([true; false], false)]) as (s & Hr & El).
  { eexists. split; [|shelve]. exists 2, 4, 3, 5%nat, sample_schedule. eexists. split; [done|]. split; [vm_compute; reflexivity|].
    vm_compute. reflexivity. Unshelve. done. }
  exists s. split; [done|]. split; [done|]. exact (proj1 (workpool_run_correct id s Hr)).
Defined.

Lemma workpool_run_terminates_witness : exists s s1 s2, reachable id s /\ workpool_run 0 [true; false] s = Some s1 /\
  pool_steps id (tail sample_schedule) s1 = Some s2 /\ wp_log s2 = [([true; false], false)] /\
  (length (tail sample_schedule) <= 6 * 2 + 3 + length (wp_workers s) + 2 * count spurious (tail sample_schedule))%nat.
Proof.
  assert (exists s s1 s2, reachable id s /\ workpool_run 0 [true; false] s = Some s1 /\
    pool_steps id (tail sample_schedule) s1 = Some s2 /\ wp_log s2 = [([true; false], false)]) as (s & s1 & s2 & Hr & E1 & E2 & El).
  { do 3 eexists. split; [exists 2, 4, 3, 5%nat, []; eexists; split; [done|]; split; vm_compute; reflexivity|].
    split; [vm_compute; reflexivity|]. split; vm_compute; reflexivity. }
  exists s, s1, s2. split; [done|]. split; [done|]. split; [done|]. split; [done|].
  exact (proj1 (workpool_run_terminates id s [true; false] s1 (tail sample_schedule) s2 Hr E1 eq_refl E2)).
Defined.

(** ** Two callers

    The header calls the pool thread-safe. *)

Definition both_submit (b0 b1 : bool) : list (choice (item := bool)) :=
  [CallRun 0 [b0]; CallRun 1 [b1]; Caller 0 0; Caller 1 0; Caller 0 0; Caller 1 0].

Definition work_off : list (choice (item := bool)) :=
  [Worker 0 0; Worker 0 0; Worker 0 0; Worker 0 0; Worker 0 0; Worker 0 0; Worker 0 0].

(** When two threads use the pool, one can wait for ever: both sleep for their batches, the
    last item signals once and wakes the first, and the second is left asleep with no item
    pending and no thread able to make a step. *)
Theorem second_caller_sleeps : exists s0 s,
  workpool_init 1 4 8 true 1 2 = Some s0 /\
  pool_steps id (both_submit true true ++ [Caller 0 0; Caller 1 0] ++ work_off ++ [Caller 0 0]) s0 = Some s /\
  wp_callers s = [C_idle; C_sleep [true]] /\ wp_pending s = 0 /\
  forall ch s', is_call ch = false -> spurious ch = false -> pool_step id ch s = Some s' -> False.
Proof.
  eexists. eexists. split; [vm_compute; reflexivity|]. split; [vm_compute; reflexivity|]. split; [done|]. split; [done|].
  intros [[|i] k|[|[|j]] k|j b|j|i|j] s' Hc Hs; try done; vm_compute; discriminate.
Qed.

(** And the failure of one batch can be reported to the other caller: the first caller, whose
    item succeeds, is told of a failure and resets the flag, and the second, whose item fails, is
    told of success. *)
Theorem failure_misreported : exists s0 s,
  workpool_init 1 4 8 true 1 2 = Some s0 /\
  pool_steps id (both_submit true false ++ work_off ++ [Caller 0 0; Caller 1 0]) s0 = Some s /\
  wp_log s = [([false], true); ([true], false)].
Proof. eexists. eexists. split; [vm_compute; reflexivity|]. split; vm_compute; reflexivity. Qed.
