(* ===== verification/Block.v ===== *)
(** * Block headers, blocks, locators

    Models lib/primitives/include/primitives/block.h and lib/primitives/src/block.c: the
    header with its Equihash solution, the block wire format in both directions, the
    block hash, and block locators. *)

From S2P Require Import Prelude Hash Serialize Script Transaction.

Definition MAX_SOLUTION_SIZE : Z := 1344.
Definition MAX_BLOCK_TRANSACTIONS : Z := 50000.
Definition MAX_LOCATOR_HASHES : Z := 64.

(** [nSolution] is the first [nSolutionSize] bytes of the buffer. *)
Record block_header := BlockHeader {
  nVersion : Z;
  hashPrevBlock : uint256_t;
  hashMerkleRoot : uint256_t;
  hashFinalSaplingRoot : uint256_t;
  nTime : Z;
  nBits : Z;
  nNonce : uint256_t;
  nSolution : bytes;
}.

Record block := Block { header : block_header; vtx : list transaction }.

Definition block_header_init : block_header := {|
  nVersion := 4; hashPrevBlock := uint256_null; hashMerkleRoot := uint256_null;
  hashFinalSaplingRoot := uint256_null; nTime := 0; nBits := 0; nNonce := uint256_null;
  nSolution := [] |}.

Definition block_header_is_null (h : block_header) : bool := nBits h =? 0.

Section Serialize.
Context `{Allocator}.

Definition block_header_serialize (h : block_header) : stream_m unit :=
  stream_write_i32_le (nVersion h);;
  stream_write (hashPrevBlock h);;
  stream_write (hashMerkleRoot h);;
  stream_write (hashFinalSaplingRoot h);;
  stream_write_u32_le (nTime h);;
  stream_write_u32_le (nBits h);;
  stream_write (nNonce h);;
  stream_write_compact_size (zlen (nSolution h));;
  (if zlen (nSolution h) >? 0 then stream_write (nSolution h) else mret tt).

Definition block_header_get_hash `{HashFunctions} (h : block_header) : uint256_t :=
  h_hash256 (bs_data (snd (block_header_serialize h (stream_init 256)))).

Definition block_serialize (b : block) : stream_m unit :=
  block_header_serialize (header b);;
  write_vector transaction_serialize (vtx b).

Definition block_locator_serialize (vhave : list uint256_t) : stream_m unit :=
  stream_write_i32_le 170011;;
  write_vector stream_write vhave.

End Serialize.

Definition block_header_deserialize : stream_m block_header :=
  ver ← stream_read_i32_le;
  prev ← stream_read 32;
  root ← stream_read 32;
  sapling ← stream_read 32;
  time ← stream_read_u32_le;
  bits ← stream_read_u32_le;
  nonce ← stream_read 32;
  sol_size ← stream_read_compact_size;
  stream_guard (negb (sol_size >? MAX_SOLUTION_SIZE));;
  sol ← (if sol_size >? 0 then stream_read sol_size else mret []);
  mret {| nVersion := ver; hashPrevBlock := prev; hashMerkleRoot := root;
          hashFinalSaplingRoot := sapling; nTime := time; nBits := bits; nNonce := nonce;
          nSolution := sol |}.

Definition block_deserialize `{Allocator} `{HashFunctions} : stream_m block :=
  h ← block_header_deserialize;
  txs ← read_vector MAX_BLOCK_TRANSACTIONS transaction_deserialize;
  mret {| header := h; vtx := txs |}.

Definition block_locator_deserialize : stream_m (list uint256_t) :=
  stream_read_i32_le;;
  read_vector MAX_LOCATOR_HASHES (stream_read 32).

(** ** Well-formed blocks and their encoding *)

Definition header_ok (h : block_header) : Prop :=
  is_s 32 (nVersion h) /\ fixed 32 (hashPrevBlock h) /\ fixed 32 (hashMerkleRoot h) /\
  fixed 32 (hashFinalSaplingRoot h) /\ is_u 32 (nTime h) /\ is_u 32 (nBits h) /\
  fixed 32 (nNonce h) /\ zlen (nSolution h) <= MAX_SOLUTION_SIZE /\ bytes_ok (nSolution h).

(** The cached transaction ids are those of the transactions. *)
Definition block_ok `{HashFunctions} (b : block) : Prop :=
  header_ok (header b) /\
  vector_ok MAX_BLOCK_TRANSACTIONS (fun tx => tx_ok tx /\ tx_hash tx = h_hash256 (tx_bytes tx)) (vtx b).

Definition header_bytes (h : block_header) : bytes :=
  le_encode 4 (u32 (nVersion h)) ++ hashPrevBlock h ++ hashMerkleRoot h ++ hashFinalSaplingRoot h ++
  le_encode 4 (nTime h) ++ le_encode 4 (nBits h) ++ nNonce h ++ script_bytes (nSolution h).

Definition block_bytes (b : block) : bytes := header_bytes (header b) ++ vector_bytes tx_bytes (vtx b).

(** ** Lemmas *)

Section Emit.
Context `{AllocatorTotal}.

Lemma emits_header h : header_ok h -> emits (block_header_serialize h) (header_bytes h).
Proof.
  intros (_ & _ & _ & _ & _ & _ & _ & Hl & _). unfold block_header_serialize, header_bytes.
  do 7 (apply emits_bind; [apply emits_write|]). unfold script_bytes.
  apply emits_bind; [apply emits_compact_size; by eapply zlen_u64; [|exact Hl]|].
  destruct (nSolution h); [apply emits_ret|apply emits_write].
Qed.

Lemma emits_block `{HashFunctions} b : block_ok b -> emits (block_serialize b) (block_bytes b).
Proof.
  intros [Hh Hv]. apply emits_bind; [by apply emits_header|].
  eapply emits_vector, Hv; [done|]. intros tx [Hok _]. by apply emits_tx.
Qed.

Lemma header_bytes_size h : header_ok h -> zlen (header_bytes h) <= 1493.
Proof.
  intros (_ & H1 & H2 & H3 & _ & _ & H4 & Hl & _). unfold header_bytes, script_bytes.
  rewrite !zlen_app, !zlen_le_encode, (fixed_zlen _ _ H1), (fixed_zlen _ _ H2), (fixed_zlen _ _ H3),
    (fixed_zlen _ _ H4).
  pose proof (compact_size_bytes_le (zlen (nSolution h))). unfold MAX_SOLUTION_SIZE in *. lia.
Qed.

Lemma block_header_hash_bytes `{HashFunctions} h : header_ok h ->
  block_header_get_hash h = h_hash256 (header_bytes h).
Proof.
  intros Hok. pose proof (header_bytes_size h Hok). unfold block_header_get_hash.
  destruct (emits_header h Hok (stream_init 256)) as (s & E & Hd & _).
  - apply stream_init_writable; unfold zlen, SIZE_MAX in *; lia.
  - rewrite E. simpl. by rewrite Hd.
Qed.

End Emit.

Lemma parses_header h : header_ok h -> parses block_header_deserialize (header_bytes h) h.
Proof.
  destruct h. intros (? & ? & ? & ? & ? & ? & ? & Hl & ?); simpl in *.
  unfold block_header_deserialize, header_bytes, script_bytes. cbn [nVersion hashPrevBlock
    hashMerkleRoot hashFinalSaplingRoot nTime nBits nNonce nSolution].
  eapply parses_bind; [by apply parses_i32|].
  do 6 (eapply parses_bind; [solve [eauto with codec]|]; cbv beta).
  eapply parses_bind; [apply parses_compact_size; by eapply zlen_u64; [|exact Hl]|].
  apply parses_guard; [lia|]. eapply parses_map with (a := nSolution0); [|done].
  destruct nSolution0; [apply parses_ret|by apply parses_read].
Qed.

Lemma parses_block `{AllocatorTotal} `{HashFunctions} b : block_ok b -> parses block_deserialize (block_bytes b) b.
Proof.
  destruct b. intros [Hh Hv]; simpl in *. eapply parses_bind; [by apply parses_header|].
  eapply parses_map; [|done]. eapply parses_vector, Hv; [done|]. intros tx [Hok Hhash].
  pose proof (parses_tx tx Hok) as P. rewrite <- Hhash in P. by destruct tx.
Qed.

Lemma block_bytes_size `{HashFunctions} b : block_ok b -> zlen (block_bytes b) < 2 ^ 48.
Proof.
  intros [Hh Hv]. unfold block_bytes. rewrite zlen_app. pose proof (header_bytes_size _ Hh).
  pose proof (zlen_vector_bytes tx_bytes _ _ (2 ^ 31) _ ltac:(lia)
    (fun tx H => Z.lt_le_incl _ _ (tx_bytes_size tx (proj1 H))) Hv).
  unfold MAX_BLOCK_TRANSACTIONS in *. lia.
Qed.

(** ** Properties *)

(** A header with a short solution, and a block with one transaction *)
Definition sample_header : block_header := {|
  nVersion := 4; hashPrevBlock := replicate 32 1; hashMerkleRoot := replicate 32 2;
  hashFinalSaplingRoot := replicate 32 3; nTime := 1600000000; nBits := 0x1f07ffff;
  nNonce := replicate 32 4; nSolution := [9; 8; 7] |}.

Lemma sample_header_ok : header_ok sample_header.
Proof.
  unfold header_ok, fixed, bytes_ok, is_u, is_s. simpl. repeat (split || constructor || lia || done).
Qed.

Lemma header_hash_inj `{AllocatorTotal} `{HashFunctions} h h' : header_ok h -> header_ok h' ->
  block_header_get_hash h = block_header_get_hash h' ->
  h = h' \/ collision h_hash256 (header_bytes h) (header_bytes h').
Proof.
  intros Hh Hh'. rewrite !block_header_hash_bytes by done. intros E.
  destruct (decide (header_bytes h = header_bytes h')) as [Eb|Hne]; [left|by right].
  pose proof (parses_parsed _ _ _ [] (parses_header h Hh)) as P1.
  pose proof (parses_parsed _ _ _ [] (parses_header h' Hh')) as P2.
  rewrite Eb, P2 in P1. by injection P1.
Qed.

(** the block wire format is lossless and the block hash commits to the header:
    a well-formed block is written successfully and read back identically (header, every
    transaction, every transaction id), whatever bytes follow; and two well-formed headers
    with the same block hash are equal unless their encodings are an explicit collision of
    the double hash. *)
Theorem block_roundtrip `{AllocatorTotal} `{HashFunctions} b h rest :
  block_ok b -> header_ok h ->
  (exists l, written (block_serialize b) = Some l /\ parsed block_deserialize (l ++ rest) = Some (b, rest)) /\
  (block_header_get_hash h = block_header_get_hash (header b) ->
   h = header b \/ collision h_hash256 (header_bytes h) (header_bytes (header b))).
Proof.
  intros Hb Hh. split.
  - exists (block_bytes b). pose proof (block_bytes_size b Hb). split.
    + apply emits_written; [by apply emits_block|]. unfold zlen, SIZE_MAX in *. lia.
    + by apply parses_parsed, parses_block.
  - apply header_hash_inj; [done|apply Hb].
Qed.

Lemma block_roundtrip_witness :
  let A : Allocator := fun _ => true in
  let h : HashFunctions := {| h_sha256 := id; h_sha1 := id; h_ripemd160 := id;
                              h_hash160 := id; h_hash256 := id |} in
  let b := {| header := sample_header; vtx := [with_hash sample_tx (tx_bytes sample_tx)] |} in
  exists l, written (block_serialize b) = Some l /\ parsed block_deserialize (l ++ [5]) = Some (b, [5]).
Proof.
  intros A h b.
  refine (proj1 (@block_roundtrip A (fun _ => eq_refl) h b sample_header [5] _ sample_header_ok)).
  split; [exact sample_header_ok|]. split; [done|]. apply Forall_singleton. split; [|reflexivity].
  exact sample_tx_ok.
Defined.
