(* ===== verification/Merkle.v ===== *)
(** * Merkle trees

    Models lib/bloom/src/merkle.c: the in-place computation of the Merkle root with its
    duplicate detection, and partial Merkle trees (building a proof for selected
    transactions, and extracting root and matches from an untrusted proof).  Transaction
    counts are at most 2^31; up to there the unsigned arithmetic of the code does not wrap
    (lemma [calc_tree_width_exact]) and is that of [nat]. *)

From S2P Require Import Prelude Hash Serialize Script Transaction.

Definition MAX_MERKLE_HASHES : nat := Z.to_nat 65536.
Definition MAX_MERKLE_BITS : nat := MAX_MERKLE_HASHES * 2.

Section Merkle.
Context `{HashFunctions}.

Definition merkle_hash_pair (left right : uint256_t) : uint256_t := h_hash256 (left ++ right).

(** ** The root *)

(** One iteration of the inner loop, for [i = 2 * k]: [level[i / 2]] is overwritten. *)
Definition row_step (level_size : nat) (st : list uint256_t * bool) (k : nat) : list uint256_t * bool :=
  let '(level, mutated) := st in
  let i := (2 * k)%nat in
  let i2 := if (i + 1 <? level_size)%nat then (i + 1)%nat else (level_size - 1)%nat in
  let mutated :=
    if (i2 =? i + 1)%nat && (i2 + 1 =? level_size)%nat && uint256_eq (level !!! i) (level !!! i2)
    then true else mutated in
  (<[k := merkle_hash_pair (level !!! i) (level !!! i2)]> level, mutated).

Fixpoint level_loop (fuel : nat) (level_size : nat) (st : list uint256_t * bool) : list uint256_t * bool :=
  match fuel with
  | O => st
  | S fuel' =>
      if (1 <? level_size)%nat then
        let next_size := ((level_size + 1) / 2)%nat in
        level_loop fuel' next_size (foldl (row_step level_size) st (seq 0 next_size))
      else st
  end.

(** The level size at least halves, rounding up, so [count] rounds are enough. *)
Definition compute_merkle_root_mutated (txids : list uint256_t) : uint256_t * bool :=
  match txids with
  | [] => (uint256_null, false)
  | [x] => (x, false)
  | _ =>
      let '(level, mutated) := level_loop (length txids) (length txids) (txids, false) in
      (level !!! 0%nat, mutated)
  end.

Definition compute_merkle_root (txids : list uint256_t) : uint256_t :=
  fst (compute_merkle_root_mutated txids).

(** ** Partial trees *)

Definition calc_tree_width (n_transactions height : nat) : nat :=
  ((n_transactions + 2 ^ height - 1) / 2 ^ height)%nat.

(** The same at the width of the code *)
Definition calc_tree_width_u32 (n_transactions height : Z) : Z :=
  u32 (n_transactions + 2 ^ height - 1) ≫ height.

Fixpoint calc_hash (n_tx height pos : nat) (txids : list uint256_t) : uint256_t :=
  match height with
  | O => txids !!! pos
  | S h =>
      let left := calc_hash n_tx h (pos * 2) txids in
      let right := if (pos * 2 + 1 <? calc_tree_width n_tx h)%nat
                   then calc_hash n_tx h (pos * 2 + 1) txids else left in
      merkle_hash_pair left right
  end.

Record partial_merkle_tree := PartialMerkleTree {
  num_transactions : nat;
  pmt_bits : list bool;
  pmt_hashes : list uint256_t;
}.

(** [while (calc_tree_width(n, height) > 1) height++] *)
Fixpoint tree_height_from (fuel n height : nat) : nat :=
  match fuel with
  | O => height
  | S fuel' => if (1 <? calc_tree_width n height)%nat then tree_height_from fuel' n (S height) else height
  end.

Definition tree_height (n : nat) : nat := tree_height_from n n 0.

Definition build_add_bit (s : list bool * list uint256_t) (b : bool) : list bool * list uint256_t :=
  if (MAX_MERKLE_BITS <=? length (fst s))%nat then s else (fst s ++ [b], snd s).

Definition build_add_hash (cap : nat) (s : list bool * list uint256_t) (h : uint256_t)
    : list bool * list uint256_t :=
  if (cap <=? length (snd s))%nat then s else (fst s, snd s ++ [h]).

(** Some position of the subtree is matched. *)
Definition covers_match (n_tx height pos : nat) (matched : list bool) : bool :=
  existsb (fun p => matched !!! p)
    (List.filter (fun p => (p <? n_tx)%nat) (seq (pos * 2 ^ height) (2 ^ height))).

Fixpoint traverse_and_build (n_tx height pos : nat) (txids : list uint256_t) (matched : list bool)
    (s : list bool * list uint256_t) : list bool * list uint256_t :=
  let parent_of_match := covers_match n_tx height pos matched in
  let s := build_add_bit s parent_of_match in
  match height with
  | O => build_add_hash n_tx s (calc_hash n_tx 0 pos txids)
  | S h =>
      if negb parent_of_match then build_add_hash n_tx s (calc_hash n_tx (S h) pos txids)
      else
        let s := traverse_and_build n_tx h (pos * 2) txids matched s in
        if (pos * 2 + 1 <? calc_tree_width n_tx h)%nat
        then traverse_and_build n_tx h (pos * 2 + 1) txids matched s else s
  end.

Definition merkle_tree_build (txids : list uint256_t) (matched : list bool) : option partial_merkle_tree :=
  let n := length txids in
  if (n =? 0)%nat || negb (n =? length matched)%nat || (MAX_MERKLE_HASHES <? n)%nat then None
  else
    let '(bits, hashes) := traverse_and_build n (tree_height n) 0 txids matched ([], []) in
    Some {| num_transactions := n; pmt_bits := bits; pmt_hashes := hashes |}.

(** The cursors of the extraction *)
Record extract_state := ExtractState {
  bits_used : nat;
  hash_used : nat;
  es_matched : list uint256_t;
  es_bad : bool;
}.

Definition set_bad (s : extract_state) : extract_state :=
  {| bits_used := bits_used s; hash_used := hash_used s; es_matched := es_matched s; es_bad := true |}.

Definition take_bit (s : extract_state) : extract_state :=
  {| bits_used := S (bits_used s); hash_used := hash_used s; es_matched := es_matched s; es_bad := es_bad s |}.

(** Consume a hash; record it as a match when [m] and there is room *)
Definition take_hash (cap : nat) (m : bool) (h : uint256_t) (s : extract_state) : extract_state :=
  {| bits_used := bits_used s; hash_used := S (hash_used s);
     es_matched := if m && (length (es_matched s) <? cap)%nat then es_matched s ++ [h] else es_matched s;
     es_bad := es_bad s |}.

Fixpoint traverse_and_extract (t : partial_merkle_tree) (height pos : nat) (s : extract_state)
    : uint256_t * extract_state :=
  match pmt_bits t !! bits_used s with
  | None => (uint256_null, set_bad s)
  | Some parent_of_match =>
      let s := take_bit s in
      let leaf (m : bool) :=
        match pmt_hashes t !! hash_used s with
        | None => (uint256_null, set_bad s)
        | Some h => (h, take_hash (num_transactions t) m h s)
        end in
      match height with
      | O => leaf parent_of_match
      | S hgt =>
          if negb parent_of_match then leaf false
          else
            let '(hleft, s) := traverse_and_extract t hgt (pos * 2) s in
            if (pos * 2 + 1 <? calc_tree_width (num_transactions t) hgt)%nat then
              let '(hright, s) := traverse_and_extract t hgt (pos * 2 + 1) s in
              let s := if uint256_cmp hright hleft =? 0 then set_bad s else s in
              (merkle_hash_pair hleft hright, s)
            else (merkle_hash_pair hleft hleft, s)
      end
  end.

(** Root and matches, when the proof is well-formed *)
Definition merkle_tree_extract (t : partial_merkle_tree) : option (uint256_t * list uint256_t) :=
  if (num_transactions t =? 0)%nat || (num_transactions t <? length (pmt_hashes t))%nat ||
     (length (pmt_bits t) <? length (pmt_hashes t))%nat then None
  else
    let '(root, s) := traverse_and_extract t (tree_height (num_transactions t)) 0
      {| bits_used := 0; hash_used := 0; es_matched := []; es_bad := false |} in
    if es_bad s then None
    else if negb ((bits_used s + 7) / 8 =? (length (pmt_bits t) + 7) / 8)%nat then None
    else if negb (hash_used s =? length (pmt_hashes t))%nat then None
    else Some (root, es_matched s).

(** ** Reference definitions: the tree level by level *)

Fixpoint pair_up (l : list uint256_t) : list uint256_t :=
  match l with
  | [] => []
  | [x] => [merkle_hash_pair x x]
  | x :: y :: r => merkle_hash_pair x y :: pair_up r
  end.

(** The level has even length and its last two entries agree. *)
Fixpoint last_dup (l : list uint256_t) : bool :=
  match l with
  | [x; y] => uint256_eq x y
  | _ :: _ :: r => last_dup r
  | _ => false
  end.

Fixpoint root_of (fuel : nat) (l : list uint256_t) : uint256_t :=
  match fuel with
  | O => l !!! 0%nat
  | S f => if (1 <? length l)%nat then root_of f (pair_up l) else l !!! 0%nat
  end.

Fixpoint dup_of (fuel : nat) (l : list uint256_t) : bool :=
  match fuel with
  | O => false
  | S f => if (1 <? length l)%nat then last_dup l || dup_of f (pair_up l) else false
  end.

Lemma pair_ind (P : list uint256_t -> Prop) :
  P [] -> (forall x, P [x]) -> (forall x y r, P r -> P (x :: y :: r)) -> forall l, P l.
Proof.
  intros H0 H1 H2 l. enough (P l /\ forall x, P (x :: l)) as [? _] by done.
  induction l as [|y l [IH1 IH2]]; split; auto.
Qed.

Lemma half_up_SS n : ((S (S n) + 1) / 2 = S ((n + 1) / 2))%nat.
Proof.
  replace (S (S n) + 1)%nat with ((n + 1) + 1 * 2)%nat by lia. rewrite Nat.div_add by lia. lia.
Qed.

Lemma length_pair_up l : length (pair_up l) = ((length l + 1) / 2)%nat.
Proof.
  induction l as [|x|x y r IH] using pair_ind; [done|done|].
  cbn [pair_up length]. by rewrite IH, half_up_SS.
Qed.

(** The 64-byte messages hashed to form the level above *)
Fixpoint pair_messages (l : list uint256_t) : list bytes :=
  match l with
  | [] => []
  | [x] => [x ++ x]
  | x :: y :: r => (x ++ y) :: pair_messages r
  end.

Lemma pair_up_messages l : pair_up l = map h_hash256 (pair_messages l).
Proof. induction l as [|x|x y r IH] using pair_ind; [done|done|]. cbn [pair_up]. by rewrite IH. Qed.

(** The message and the node above position [j] of a level *)
Definition message_at (l : list uint256_t) (j : nat) : bytes :=
  (l !!! (2 * j)%nat) ++ (l !!! (if (2 * j + 1 <? length l)%nat then 2 * j + 1 else length l - 1)%nat).

Definition parent_at (l : list uint256_t) (j : nat) : uint256_t := h_hash256 (message_at l j).

Lemma pair_messages_lookup l j : (j < length (pair_up l))%nat -> pair_messages l !! j = Some (message_at l j).
Proof.
  revert j. induction l as [|x|x y r IH] using pair_ind; intros j Hj; [simpl in Hj; lia| |].
  - simpl in Hj. by replace j with 0%nat by lia.
  - destruct j as [|j]; [done|]. cbn [pair_up pair_messages length] in *. cbn [lookup list_lookup].
    rewrite IH by lia. f_equal. unfold message_at. cbn [length].
    replace (2 * S j)%nat with (S (S (2 * j))) by lia. cbn [Nat.add].
    replace (S (S (2 * j + 1)) <? S (S (length r)))%nat with (2 * j + 1 <? length r)%nat by lia.
    destruct (2 * j + 1 <? length r)%nat eqn:E; [done|].
    rewrite length_pair_up in Hj.
    assert (length r <> 0%nat) by (intros E0; rewrite E0 in Hj; simpl in Hj; lia).
    replace (S (S (length r)) - 1)%nat with (S (S (length r - 1))) by lia. done.
Qed.

Lemma pair_up_lookup l j : (j < length (pair_up l))%nat -> pair_up l !! j = Some (parent_at l j).
Proof.
  intros Hj. rewrite pair_up_messages. change (map h_hash256) with (fmap (M := list) h_hash256).
  by rewrite list_lookup_fmap, pair_messages_lookup.
Qed.

(** *** The in-place rows *)

Lemma take_lookup_total (l : list uint256_t) n i : (i < n)%nat -> take n l !!! i = l !!! i.
Proof. intros. rewrite !list_lookup_total_alt, lookup_take_lt by done. done. Qed.

(** The pair of position [i] is the last one, complete, with equal entries. *)
Definition dup_pair (n : nat) (l : list uint256_t) (i : nat) : bool :=
  (2 * i + 2 =? n)%nat && uint256_eq (l !!! (2 * i)%nat) (l !!! (2 * i + 1)%nat).

Lemma row_fold_spec n (l0 : list uint256_t) mut k :
  (n <= length l0)%nat -> (2 * k <= n + 1)%nat -> (1 < n)%nat ->
  let '(level, mut') := foldl (row_step n) (l0, mut) (seq 0 k) in
  length level = length l0 /\
  (forall j, (j < k)%nat -> level !! j = Some (parent_at (take n l0) j)) /\
  (forall j, (k <= j)%nat -> level !! j = l0 !! j) /\
  mut' = mut || existsb (dup_pair n (take n l0)) (seq 0 k).
Proof.
  intros Hl Hk Hn. induction k as [|k IH].
  { simpl. rewrite orb_false_r. split_and!; [done|lia|done|done]. }
  rewrite seq_S, foldl_snoc, existsb_app. cbn [Nat.add]. specialize (IH ltac:(lia)).
  destruct (foldl _ _ _) as [level mut']. destruct IH as (Hlen & Hlow & Hhigh & ->).
  unfold row_step.
  assert (forall i, (k <= i < n)%nat -> level !!! i = take n l0 !!! i) as Htot.
  { intros i Hi. rewrite take_lookup_total by lia. rewrite !list_lookup_total_alt. by rewrite Hhigh by lia. }
  set (i2 := if (2 * k + 1 <? n)%nat then (2 * k + 1)%nat else (n - 1)%nat).
  assert (k <= i2 < n)%nat as Hi2 by (unfold i2; destruct (Nat.ltb_spec (2 * k + 1) n); lia).
  rewrite !Htot by lia. split_and!.
  - by rewrite length_insert.
  - intros j Hj. destruct (decide (j = k)) as [->|].
    + rewrite list_lookup_insert_eq by lia. unfold parent_at, message_at. by rewrite length_take_le by done.
    + rewrite list_lookup_insert_ne by done. apply Hlow. lia.
  - intros j Hj. rewrite list_lookup_insert_ne by lia. apply Hhigh. lia.
  - cbn [existsb]. rewrite orb_false_r. unfold dup_pair at 3.
    assert ((i2 =? 2 * k + 1) && (i2 + 1 =? n) = (2 * k + 2 =? n))%nat as E.
    { unfold i2. destruct (Nat.ltb_spec (2 * k + 1) n); lia. }
    rewrite E. destruct (2 * k + 2 =? n)%nat eqn:E2; simpl; [|by rewrite orb_false_r].
    replace i2 with (2 * k + 1)%nat by (unfold i2; destruct (Nat.ltb_spec (2 * k + 1) n); lia).
    destruct (uint256_eq _ _); [by rewrite !orb_true_r|by rewrite orb_false_r].
Qed.

Lemma last_dup_spec l : last_dup l = existsb (dup_pair (length l) l) (seq 0 ((length l + 1) / 2)).
Proof.
  induction l as [|x|x y r IH] using pair_ind; [done|done|].
  cbn [length]. rewrite half_up_SS. cbn [seq existsb]. rewrite <- seq_shift.
  assert (existsb (dup_pair (S (S (length r))) (x :: y :: r)) (map S (seq 0 ((length r + 1) / 2))) =
    existsb (dup_pair (length r) r) (seq 0 ((length r + 1) / 2))) as ->.
  { generalize (seq 0 ((length r + 1) / 2)). intros l. induction l as [|i l IHl]; [done|].
    cbn [map existsb]. rewrite IHl. f_equal. unfold dup_pair.
    replace (2 * S i)%nat with (S (S (2 * i))) by lia. cbn [Nat.add].
    by replace (S (S (2 * i + 2)) =? S (S (length r)))%nat with (2 * i + 2 =? length r)%nat by lia. }
  rewrite <- IH. destruct r as [|z r]; [unfold dup_pair; simpl; by destruct (uint256_eq x y)|done].
Qed.

(** One pass over a level: the first half of the buffer becomes the next level. *)
Lemma row_pass n (l0 : list uint256_t) mut : (n <= length l0)%nat -> (1 < n)%nat ->
  let '(level, mut') := foldl (row_step n) (l0, mut) (seq 0 ((n + 1) / 2)) in
  length level = length l0 /\ take ((n + 1) / 2) level = pair_up (take n l0) /\
  mut' = mut || last_dup (take n l0).
Proof.
  intros Hl Hn. pose proof (Nat.div_mod_eq (n + 1) 2). pose proof (Nat.mod_upper_bound (n + 1) 2 ltac:(lia)).
  pose proof (row_fold_spec n l0 mut ((n + 1) / 2) Hl ltac:(lia) Hn) as Hf.
  destruct (foldl _ _ _) as [level mut']. destruct Hf as (Hlen & Hlow & _ & ->).
  split; [done|]. split.
  - apply list_eq. intros j. destruct (decide (j < (n + 1) / 2)%nat) as [Hj|Hj].
    + rewrite lookup_take_lt, Hlow by done. rewrite pair_up_lookup; [done|].
      by rewrite length_pair_up, length_take_le by done.
    + rewrite !lookup_ge_None_2; [done| |].
      * rewrite length_pair_up, length_take_le by done. lia.
      * rewrite length_take. lia.
  - rewrite last_dup_spec, length_take_le by done. done.
Qed.

Lemma level_loop_spec fuel n (level : list uint256_t) mut :
  (n <= length level)%nat -> (1 <= n)%nat ->
  let '(level', mut') := level_loop fuel n (level, mut) in
  level' !!! 0%nat = root_of fuel (take n level) /\ mut' = mut || dup_of fuel (take n level).
Proof.
  revert n level mut. induction fuel as [|f IH]; intros n level mut Hl Hn.
  { simpl. rewrite orb_false_r. by rewrite take_lookup_total by lia. }
  cbn [level_loop root_of dup_of]. rewrite length_take_le by done.
  destruct (Nat.ltb_spec 1 n); [|by rewrite orb_false_r, take_lookup_total by lia].
  pose proof (row_pass n level mut Hl ltac:(lia)) as Hrow.
  destruct (foldl _ _ _) as [level1 mut1]. destruct Hrow as (Hlen & Htake & ->).
  pose proof (Nat.div_mod_eq (n + 1) 2). pose proof (Nat.mod_upper_bound (n + 1) 2 ltac:(lia)).
  specialize (IH ((n + 1) / 2)%nat level1 (mut || last_dup (take n level)) ltac:(lia) ltac:(lia)).
  destruct (level_loop _ _ _) as [level2 mut2]. rewrite Htake in IH. destruct IH as [-> ->].
  by rewrite orb_assoc.
Qed.

(** The in-place loop computes the reference tree and its duplicate flag. *)
Lemma compute_merkle_root_ref txids : txids <> [] ->
  compute_merkle_root_mutated txids = (root_of (length txids) txids, dup_of (length txids) txids).
Proof.
  intros Hne. destruct txids as [|x [|y r]]; [done|done|].
  set (l := x :: y :: r). change (compute_merkle_root_mutated l) with
    (let '(level, mutated) := level_loop (length l) (length l) (l, false) in (level !!! 0%nat, mutated)).
  pose proof (level_loop_spec (length l) (length l) l false ltac:(lia) ltac:(simpl; lia)) as Hs.
  rewrite take_ge in Hs by lia. destruct (level_loop _ _ _) as [level mut]. by destruct Hs as [-> ->].
Qed.

(** *** The tree by levels, and the recursive definition *)

Definition level_at (h : nat) (l : list uint256_t) : list uint256_t := Nat.iter h pair_up l.

Lemma calc_tree_width_0 n : calc_tree_width n 0 = n.
Proof. unfold calc_tree_width. rewrite Nat.pow_0_r, Nat.div_1_r. lia. Qed.

Lemma calc_tree_width_S n h : calc_tree_width n (S h) = ((calc_tree_width n h + 1) / 2)%nat.
Proof.
  unfold calc_tree_width. assert (2 ^ h <> 0)%nat by (by apply Nat.pow_nonzero).
  rewrite <- (Nat.div_add _ 1 (2 ^ h)), Nat.mul_1_l by done. rewrite Nat.Div0.div_div, Nat.pow_succ_r'.
  rewrite (Nat.mul_comm (2 ^ h) 2). f_equal. lia.
Qed.

Lemma calc_tree_width_exact n h : Z.of_nat n <= 2 ^ 31 -> (h <= 31)%nat ->
  calc_tree_width_u32 (Z.of_nat n) (Z.of_nat h) = Z.of_nat (calc_tree_width n h).
Proof.
  intros Hn Hh. unfold calc_tree_width_u32, calc_tree_width, uwrap.
  assert (2 ^ Z.of_nat h <= 2 ^ 31) by (apply Z.pow_le_mono_r; lia).
  assert (0 < 2 ^ Z.of_nat h) by (apply Z.pow_pos_nonneg; lia).
  rewrite Z.mod_small by lia. rewrite Z.shiftr_div_pow2 by lia.
  rewrite Nat2Z.inj_div, Nat2Z.inj_sub, Nat2Z.inj_add, Nat2Z.inj_pow by
    (pose proof (Nat.pow_nonzero 2 h); lia). done.
Qed.

Lemma length_level_at h l : length (level_at h l) = calc_tree_width (length l) h.
Proof.
  induction h as [|h IH]; [by rewrite calc_tree_width_0|].
  change (level_at (S h) l) with (pair_up (level_at h l)). by rewrite length_pair_up, IH, calc_tree_width_S.
Qed.

Lemma calc_hash_step (h pos : nat) (l : list uint256_t) :
  (forall p, (p < calc_tree_width (length l) h)%nat -> level_at h l !! p = Some (calc_hash (length l) h p l)) ->
  (pos < calc_tree_width (length l) (S h))%nat ->
  exists m, calc_hash (length l) (S h) pos l = h_hash256 m /\ m ∈ pair_messages (level_at h l) /\
    level_at (S h) l !! pos = Some (h_hash256 m) /\
    m = calc_hash (length l) h (pos * 2) l ++
        (if (pos * 2 + 1 <? calc_tree_width (length l) h)%nat
         then calc_hash (length l) h (pos * 2 + 1) l else calc_hash (length l) h (pos * 2) l).
Proof.
  intros IH Hpos. exists (message_at (level_at h l) pos).
  assert (pos < length (pair_up (level_at h l)))%nat as Hp
    by (rewrite length_pair_up, length_level_at, <- calc_tree_width_S; done).
  change (level_at (S h) l) with (pair_up (level_at h l)).
  rewrite calc_tree_width_S in Hpos. set (w := calc_tree_width (length l) h) in *.
  pose proof (Nat.div_mod_eq (w + 1) 2). pose proof (Nat.mod_upper_bound (w + 1) 2 ltac:(lia)).
  assert (message_at (level_at h l) pos = calc_hash (length l) h (pos * 2) l ++
     (if (pos * 2 + 1 <? w)%nat then calc_hash (length l) h (pos * 2 + 1) l
      else calc_hash (length l) h (pos * 2) l)) as Em.
  { unfold message_at. rewrite length_level_at. fold w.
    assert (forall p, (p < w)%nat -> level_at h l !!! p = calc_hash (length l) h p l) as Ht.
    { intros p Hpw. rewrite list_lookup_total_alt. by rewrite IH. }
    replace (pos * 2)%nat with (2 * pos)%nat by lia.
    rewrite (Ht (2 * pos)%nat) by lia. destruct (Nat.ltb_spec (2 * pos + 1) w).
    - by rewrite Ht by lia.
    - replace (w - 1)%nat with (2 * pos)%nat by lia. by rewrite Ht by lia. }
  split_and!; [by rewrite Em| |by apply pair_up_lookup|done].
  eapply list_elem_of_lookup_2, pair_messages_lookup. done.
Qed.

Lemma calc_hash_level h pos l : (pos < calc_tree_width (length l) h)%nat ->
  level_at h l !! pos = Some (calc_hash (length l) h pos l).
Proof.
  revert pos. induction h as [|h IH]; intros pos Hpos.
  { rewrite calc_tree_width_0 in Hpos. by apply list_lookup_lookup_total_lt. }
  by destruct (calc_hash_step h pos l IH Hpos) as (m & -> & _ & -> & _).
Qed.

(** The while loop stops at width one. *)
Lemma tree_height_from_width fuel n h : (calc_tree_width n h <= S fuel)%nat ->
  (calc_tree_width n (tree_height_from fuel n h) <= 1)%nat.
Proof.
  revert h. induction fuel as [|f IH]; intros h Hw; [done|].
  cbn [tree_height_from]. destruct (Nat.ltb_spec 1 (calc_tree_width n h)); [|lia].
  apply IH. rewrite calc_tree_width_S.
  pose proof (Nat.div_mod_eq (calc_tree_width n h + 1) 2).
  pose proof (Nat.mod_upper_bound (calc_tree_width n h + 1) 2 ltac:(lia)). lia.
Qed.

Lemma calc_tree_width_pos n h : (1 <= n)%nat -> (1 <= calc_tree_width n h)%nat.
Proof.
  intros Hn. induction h as [|h IH]; [by rewrite calc_tree_width_0|]. rewrite calc_tree_width_S.
  pose proof (Nat.div_mod_eq (calc_tree_width n h + 1) 2).
  pose proof (Nat.mod_upper_bound (calc_tree_width n h + 1) 2 ltac:(lia)). lia.
Qed.

Lemma tree_height_width n : (1 <= n)%nat -> calc_tree_width n (tree_height n) = 1%nat.
Proof.
  intros Hn. pose proof (tree_height_from_width n n 0 ltac:(rewrite calc_tree_width_0; lia)).
  pose proof (calc_tree_width_pos n (tree_height n) Hn). unfold tree_height in *. lia.
Qed.

Lemma root_of_height fuel h l :
  root_of fuel (level_at h l) = level_at (tree_height_from fuel (length l) h) l !!! 0%nat.
Proof.
  revert h. induction fuel as [|f IH]; intros h; [done|].
  cbn [root_of tree_height_from]. rewrite length_level_at.
  destruct (1 <? calc_tree_width (length l) h)%nat; [|done].
  change (pair_up (level_at h l)) with (level_at (S h) l). apply IH.
Qed.

(** A level below the root ends in a duplicated pair. *)
Definition dup_level (l : list uint256_t) : Prop :=
  exists h, (h < tree_height (length l))%nat /\ last_dup (level_at h l) = true.

Lemma dup_of_levels fuel h l : dup_of fuel (level_at h l) = false ->
  forall k, (h <= k < tree_height_from fuel (length l) h)%nat -> last_dup (level_at k l) = false.
Proof.
  revert h. induction fuel as [|f IH]; intros h; [simpl; lia|].
  cbn [dup_of tree_height_from]. rewrite length_level_at.
  destruct (1 <? calc_tree_width (length l) h)%nat; [|lia].
  rewrite orb_false_iff. intros [Hd Hf] k Hk. destruct (decide (k = h)) as [->|]; [done|].
  apply (IH (S h)); [done|lia].
Qed.

Lemma merkle_root_level l : l <> [] -> compute_merkle_root l = level_at (tree_height (length l)) l !!! 0%nat.
Proof.
  intros Hne. unfold compute_merkle_root. rewrite compute_merkle_root_ref by done. simpl.
  apply (root_of_height (length l) 0 l).
Qed.

Lemma length_nonempty {A} (l : list A) : l <> [] -> (1 <= length l)%nat.
Proof. destruct l; simpl; [done|lia]. Qed.

Lemma merkle_root_calc l : l <> [] ->
  compute_merkle_root l = calc_hash (length l) (tree_height (length l)) 0 l.
Proof.
  intros Hne. rewrite merkle_root_level by done. rewrite list_lookup_total_alt.
  rewrite calc_hash_level; [done|]. rewrite tree_height_width; [lia|by apply length_nonempty].
Qed.

(** *** Binding *)

(** The messages hashed in the whole tree *)
Definition tree_messages (l : list uint256_t) : list bytes :=
  mjoin (map (fun h => pair_messages (level_at h l)) (seq 0 (tree_height (length l)))).

(** A message of the one set and a message of the other collide. *)
Definition collide (ms ms' : list bytes) : Prop :=
  exists m m', m ∈ ms /\ m' ∈ ms' /\ collision h_hash256 m m'.

Lemma collide_sub ms1 ms2 ms1' ms2' : ms1 ⊆ ms2 -> ms1' ⊆ ms2' -> collide ms1 ms1' -> collide ms2 ms2'.
Proof. intros Hs Hs' (m & m' & Hm & Hm' & Hc). exists m, m'. auto. Qed.

Lemma tree_messages_level h l : (h < tree_height (length l))%nat ->
  pair_messages (level_at h l) ⊆ tree_messages l.
Proof.
  intros Hh m Hm. unfold tree_messages. apply list_elem_of_join.
  exists (pair_messages (level_at h l)). split; [done|].
  apply list_elem_of_fmap. exists h. split; [done|]. apply elem_of_seq. lia.
Qed.

Lemma fixed_app_inj n (a b a' b' : bytes) : fixed n a -> fixed n a' -> a ++ b = a' ++ b' -> a = a' /\ b = b'.
Proof. intros [Ha _] [Ha' _] E. apply app_inj_1 in E; [done|lia]. Qed.

Lemma hash_pair_cases (a b a' b' : uint256_t) :
  fixed 32 a -> fixed 32 a' -> merkle_hash_pair a b = merkle_hash_pair a' b' ->
  (a = a' /\ b = b') \/ collision h_hash256 (a ++ b) (a' ++ b').
Proof.
  intros Ha Ha' E. destruct (decide (a ++ b = a' ++ b')) as [E'|Hne].
  - left. by apply (fixed_app_inj 32).
  - right. by split.
Qed.

Lemma last_dup_cons x y r : last_dup (x :: y :: r) = false -> last_dup r = false.
Proof. by destruct r. Qed.

(** Two levels with the same parents are equal, unless one of them ends in a duplicated
    pair or two of the hashed messages collide. *)
Lemma pair_up_inj l l' : Forall (fixed 32) l -> Forall (fixed 32) l' ->
  last_dup l = false -> last_dup l' = false -> pair_up l = pair_up l' ->
  l = l' \/ collide (pair_messages l) (pair_messages l').
Proof.
  assert (forall x y : uint256_t, fixed 32 x -> x = y -> last_dup [x; y] = false -> False) as Hdup.
  { intros x y Hx <- Hd. cbn in Hd. rewrite (proj2 (uint256_eq_spec 32 x x Hx Hx) eq_refl) in Hd. done. }
  revert l'. induction l as [|x|x y r IH] using pair_ind; intros [|x' [|y' r']] Hl Hl' Hd Hd' E;
    cbn [pair_up] in E; try discriminate E; try (by left); rewrite ?Forall_cons in Hl, Hl'.
  - injection E as E. destruct (hash_pair_cases x x x' x') as [[-> _]|Hc]; [naive_solver..|by left|].
    right. exists (x ++ x), (x' ++ x'). split_and!; [left|left|done].
  - cbn [pair_up] in E. injection E as E Er. destruct r' as [|? [|? ?]]; [|done..].
    destruct (hash_pair_cases x x x' y') as [[-> ->]|Hc]; [naive_solver..| |].
    + exfalso. eapply Hdup, Hd'; [naive_solver|done].
    + right. exists (x ++ x), (x' ++ y'). split_and!; [left|left|done].
  - cbn [pair_up] in E. injection E as E Er. destruct r as [|? [|? ?]]; [|done..].
    destruct (hash_pair_cases x y x' x') as [[-> ->]|Hc]; [naive_solver..| |].
    + exfalso. eapply Hdup, Hd; [naive_solver|done].
    + right. exists (x ++ y), (x' ++ x'). split_and!; [left|left|done].
  - cbn [pair_up] in E. injection E as E Er.
    destruct (hash_pair_cases x y x' y') as [[-> ->]|Hc]; [naive_solver..| |].
    + destruct (IH r') as [->|Hc]; [naive_solver..|by eapply last_dup_cons|by eapply last_dup_cons|done|by left|].
      right. eapply collide_sub, Hc; intros m Hm; by right.
    + right. exists (x ++ y), (x' ++ y'). split_and!; [left|left|done].
Qed.

Context `{!HashFunctionsOk}.

Lemma hash_pair_fixed x y : fixed 32 (merkle_hash_pair x y).
Proof. destruct (hash256_ok (x ++ y)) as [Hl Hb]. split; [|done]. unfold merkle_hash_pair. by rewrite Hl. Qed.

Lemma level_at_fixed h l : Forall (fixed 32) l -> Forall (fixed 32) (level_at h l).
Proof.
  intros Hl. induction h as [|h IH]; [done|]. change (level_at (S h) l) with (pair_up (level_at h l)).
  generalize (level_at h l). intros v. induction v as [|x|x y r IHr] using pair_ind;
    repeat constructor; auto using hash_pair_fixed; try apply hash_pair_fixed.
Qed.

(** From equal roots down to equal leaves *)
Lemma levels_equal l l' k : Forall (fixed 32) l -> Forall (fixed 32) l' ->
  tree_height (length l) = tree_height (length l') -> (k <= tree_height (length l))%nat ->
  (forall h, (h < tree_height (length l))%nat -> last_dup (level_at h l) = false) ->
  (forall h, (h < tree_height (length l'))%nat -> last_dup (level_at h l') = false) ->
  level_at k l = level_at k l' -> l = l' \/ collide (tree_messages l) (tree_messages l').
Proof.
  intros Hl Hl' Hh Hk Hd Hd'. induction k as [|k IH]; intros E; [by left|].
  change (level_at (S k) l) with (pair_up (level_at k l)) in E.
  change (level_at (S k) l') with (pair_up (level_at k l')) in E.
  apply pair_up_inj in E as [E|Hc]; [apply IH; [lia|done]| | | | |];
    auto using level_at_fixed; try (apply Hd; lia); try (apply Hd'; lia).
  right. eapply collide_sub, Hc; apply tree_messages_level; lia.
Qed.

(** *** Extraction is sound *)

(** The messages the extraction hashes *)
Fixpoint traverse_messages (t : partial_merkle_tree) (height pos : nat) (s : extract_state) : list bytes :=
  match height with
  | O => []
  | S hgt =>
      match pmt_bits t !! bits_used s with
      | Some true =>
          let '(hleft, s2) := traverse_and_extract t hgt (pos * 2) (take_bit s) in
          if (pos * 2 + 1 <? calc_tree_width (num_transactions t) hgt)%nat then
            let '(hright, _) := traverse_and_extract t hgt (pos * 2 + 1) s2 in
            (hleft ++ hright) :: traverse_messages t hgt (pos * 2) (take_bit s) ++
                                 traverse_messages t hgt (pos * 2 + 1) s2
          else (hleft ++ hleft) :: traverse_messages t hgt (pos * 2) (take_bit s)
      | _ => []
      end
  end.

Definition extract_init : extract_state :=
  {| bits_used := 0; hash_used := 0; es_matched := []; es_bad := false |}.

Definition extract_messages (t : partial_merkle_tree) : list bytes :=
  traverse_messages t (tree_height (num_transactions t)) 0 extract_init.

Section Extract.
Context (t : partial_merkle_tree) (Hhashes : Forall (fixed 32) (pmt_hashes t)).

(** Unfolding an inner node *)
Lemma traverse_inner h pos s : pmt_bits t !! bits_used s = Some true ->
  traverse_and_extract t (S h) pos s =
  let '(hleft, s2) := traverse_and_extract t h (pos * 2) (take_bit s) in
  if (pos * 2 + 1 <? calc_tree_width (num_transactions t) h)%nat then
    let '(hright, s3) := traverse_and_extract t h (pos * 2 + 1) s2 in
    (merkle_hash_pair hleft hright, if uint256_cmp hright hleft =? 0 then set_bad s3 else s3)
  else (merkle_hash_pair hleft hleft, s2).
Proof.
  intros E. cbn [traverse_and_extract]. rewrite E. cbn [negb].
  destruct (traverse_and_extract t h (pos * 2) (take_bit s)) as [hl s2].
  destruct (pos * 2 + 1 <? _)%nat; [|done]. by destruct (traverse_and_extract t h _ s2).
Qed.

(** Unfolding a leaf or a pruned subtree *)
Lemma traverse_pruned h pos s m : pmt_bits t !! bits_used s = Some m -> h = 0%nat \/ m = false ->
  traverse_and_extract t h pos s =
  match pmt_hashes t !! hash_used s with
  | None => (uint256_null, set_bad (take_bit s))
  | Some hash => (hash, take_hash (num_transactions t) m hash (take_bit s))
  end.
Proof. intros E Hm. destruct h; cbn [traverse_and_extract]; rewrite E; [done|]. by destruct Hm as [?| ->]. Qed.

Lemma traverse_exhausted h pos s : pmt_bits t !! bits_used s = None ->
  traverse_and_extract t h pos s = (uint256_null, set_bad s).
Proof. intros E. destruct h; cbn [traverse_and_extract]; by rewrite E. Qed.

Lemma extract_bad_mono h pos s : es_bad s = true -> es_bad (snd (traverse_and_extract t h pos s)) = true.
Proof.
  revert pos s. induction h as [|h IH]; intros pos s Hb;
    (destruct (pmt_bits t !! bits_used s) as [m|] eqn:E; [|by rewrite traverse_exhausted]).
  - rewrite (traverse_pruned 0 pos s m) by auto. by destruct (pmt_hashes t !! hash_used s).
  - destruct m; [|rewrite (traverse_pruned (S h) pos s false) by auto;
      by destruct (pmt_hashes t !! hash_used s)].
    rewrite traverse_inner by done. pose proof (IH (pos * 2)%nat (take_bit s) Hb) as H1.
    destruct (traverse_and_extract t h (pos * 2) (take_bit s)) as [hl s2].
    case_if; [|done]. pose proof (IH (pos * 2 + 1)%nat s2 H1) as H2.
    destruct (traverse_and_extract t h (pos * 2 + 1) s2) as [hr s3]. simpl in *. by case_if.
Qed.

(** What an inner node contributes when the proof is not rejected *)
Lemma traverse_inner_ok h pos s r s' : pmt_bits t !! bits_used s = Some true ->
  traverse_and_extract t (S h) pos s = (r, s') -> es_bad s' = false ->
  exists hl s2, traverse_and_extract t h (pos * 2) (take_bit s) = (hl, s2) /\ es_bad s2 = false /\
    if (pos * 2 + 1 <? calc_tree_width (num_transactions t) h)%nat
    then exists hr, traverse_and_extract t h (pos * 2 + 1) s2 = (hr, s') /\ r = merkle_hash_pair hl hr
    else s' = s2 /\ r = merkle_hash_pair hl hl.
Proof.
  intros Eb E Hbad. rewrite traverse_inner in E by done.
  destruct (traverse_and_extract t h (pos * 2) (take_bit s)) as [hl s2]. exists hl, s2.
  split; [done|]. case_if; [|injection E as <- <-; done].
  pose proof (extract_bad_mono h (pos * 2 + 1) s2) as Hm.
  destruct (traverse_and_extract t h (pos * 2 + 1) s2) as [hr s3].
  injection E as <- E. destruct (uint256_cmp hr hl =? 0); subst s'; [done|]. split; [|by exists hr].
  destruct (es_bad s2); [|done]. simpl in Hm. rewrite Hm in Hbad; done.
Qed.

Lemma extract_fixed h pos s r s' : traverse_and_extract t h pos s = (r, s') -> es_bad s' = false -> fixed 32 r.
Proof.
  intros E Hb. destruct (pmt_bits t !! bits_used s) as [m|] eqn:Eb.
  - destruct (decide (h = 0%nat \/ m = false)) as [Hleaf|Hin].
    + rewrite (traverse_pruned h pos s m) in E by done.
      destruct (pmt_hashes t !! hash_used s) as [x|] eqn:Ex; injection E as <- <-; [|done].
      by eapply Forall_lookup_1.
    + destruct h as [|h]; [naive_solver|]. destruct m; [|naive_solver].
      destruct (traverse_inner_ok h pos s r s' Eb E Hb) as (hl & s2 & _ & _ & Hr).
      case_if; [destruct Hr as (hr & _ & ->)|destruct Hr as (_ & ->)]; apply hash_pair_fixed.
  - rewrite traverse_exhausted in E by done. by injection E as <- <-.
Qed.

Context (txids : list uint256_t) (Htx : Forall (fixed 32) txids) (Hn : length txids = num_transactions t).

Lemma calc_hash_fixed h pos : (pos < calc_tree_width (length txids) h)%nat ->
  fixed 32 (calc_hash (length txids) h pos txids).
Proof. intros Hp. eapply Forall_lookup_1; [apply (level_at_fixed h txids Htx)|by apply calc_hash_level]. Qed.

(** The entries matched between two states come from [txids]. *)
Definition new_matches (s s' : extract_state) : Prop :=
  forall x, x ∈ es_matched s' -> x ∈ es_matched s \/ x ∈ txids.

(** If the extracted node is the true node, every match below it is a true leaf. *)
Lemma extract_node_sound h pos s r s' :
  (h <= tree_height (length txids))%nat -> (pos < calc_tree_width (length txids) h)%nat ->
  traverse_and_extract t h pos s = (r, s') -> es_bad s' = false ->
  r = calc_hash (length txids) h pos txids ->
  new_matches s s' \/ collide (traverse_messages t h pos s) (tree_messages txids).
Proof.
  revert pos s r s'. induction h as [|h IH]; intros pos s r s' Hh Hp E Hb Hr;
    (destruct (pmt_bits t !! bits_used s) as [m|] eqn:Eb;
     [|rewrite traverse_exhausted in E by done; by injection E as <- <-]).
  - left. rewrite (traverse_pruned 0 pos s m) in E by auto.
    destruct (pmt_hashes t !! hash_used s) as [x|]; injection E as <- <-; [|done].
    intros y Hy. unfold take_hash in Hy. simpl in Hy. case_if; [|by left].
    apply elem_of_app in Hy as [Hy| ->%list_elem_of_singleton]; [by left|right].
    rewrite calc_tree_width_0 in Hp. rewrite Hr. cbn [calc_hash].
    by eapply list_elem_of_lookup_2, list_lookup_lookup_total_lt.
  - destruct m.
    2:{ left. rewrite (traverse_pruned (S h) pos s false) in E by auto.
        destruct (pmt_hashes t !! hash_used s) as [x|]; injection E as <- <-; [|done]. by left. }
    destruct (traverse_inner_ok h pos s r s' Eb E Hb) as (hl & s2 & E1 & Hb2 & Hrest).
    destruct (calc_hash_step h pos txids (fun p => calc_hash_level h p txids) Hp) as (m & Em & Hm & _ & Dm).
    assert (m ∈ tree_messages txids) as Hmt by (eapply tree_messages_level, Hm; lia).
    pose proof (extract_fixed h (pos * 2) (take_bit s) hl s2 E1 Hb2) as Fl.
    rewrite calc_tree_width_S in Hp. rewrite <- Hn in Hrest. set (w := calc_tree_width (length txids) h) in *.
    pose proof (Nat.div_mod_eq (w + 1) 2). pose proof (Nat.mod_upper_bound (w + 1) 2 ltac:(lia)).
    pose proof (calc_hash_fixed h (pos * 2) ltac:(fold w; lia)) as Fl'.
    cbn [traverse_messages]. rewrite Eb, E1, <- Hn. fold w. rewrite Em in Hr.
    destruct (pos * 2 + 1 <? w)%nat eqn:Ew.
    + destruct Hrest as (hr & E2 & ->). rewrite E2. subst m.
      destruct (hash_pair_cases _ _ _ _ Fl Fl' Hr) as [[El Er]|Hc].
      * destruct (IH (pos * 2)%nat (take_bit s) hl s2 ltac:(lia) ltac:(fold w; lia) E1 Hb2 El) as [M1|C1].
        -- destruct (IH (pos * 2 + 1)%nat s2 hr s' ltac:(lia) ltac:(fold w; lia) E2 Hb Er) as [M2|C2].
           ++ left. intros x Hx. destruct (M2 x Hx) as [Hx2|]; [|by right]. by apply M1.
           ++ right. eapply collide_sub, C2; [|done]. intros x Hx. right. apply elem_of_app. by right.
        -- right. eapply collide_sub, C1; [|done]. intros x Hx. right. apply elem_of_app. by left.
      * right. eexists _, _. split; [by left|]. split; [exact Hmt|done].
    + destruct Hrest as (-> & ->). subst m.
      destruct (hash_pair_cases _ _ _ _ Fl Fl' Hr) as [[El _]|Hc].
      * destruct (IH (pos * 2)%nat (take_bit s) hl s2 ltac:(lia) ltac:(fold w; lia) E1 Hb2 El) as [M1|C1];
          [by left|]. right. eapply collide_sub, C1; [|done]. intros x Hx. by right.
      * right. eexists _, _. split; [by left|]. split; [exact Hmt|done].
Qed.

End Extract.

(** *** Building, then extracting *)

Section Build.
Context (txids : list uint256_t) (matched : list bool).
Let n := length txids.

(** What the traversal appends, without the capacity checks *)
Fixpoint node_bits (h pos : nat) : list bool :=
  let m := covers_match n h pos matched in
  m :: match h with
       | O => []
       | S k => if m then node_bits k (pos * 2) ++
                          (if (pos * 2 + 1 <? calc_tree_width n k)%nat then node_bits k (pos * 2 + 1) else [])
                else []
       end.

Fixpoint node_hashes (h pos : nat) : list uint256_t :=
  match h with
  | O => [calc_hash n 0 pos txids]
  | S k => if covers_match n (S k) pos matched
           then node_hashes k (pos * 2) ++
                (if (pos * 2 + 1 <? calc_tree_width n k)%nat then node_hashes k (pos * 2 + 1) else [])
           else [calc_hash n (S k) pos txids]
  end.

(** The selected transactions among [len] positions from [lo] *)
Definition selected (lo len : nat) : list uint256_t :=
  map (fun p => txids !!! p) (List.filter (fun p => (p <? n)%nat && matched !!! p) (seq lo len)).

Lemma selected_app lo a b : selected lo (a + b) = selected lo a ++ selected (lo + a) b.
Proof. unfold selected. by rewrite seq_app, List.filter_app, map_app. Qed.

Lemma selected_beyond lo len : (n <= lo)%nat -> selected lo len = [].
Proof.
  intros Hlo. unfold selected. replace (List.filter _ _) with (@nil nat); [done|].
  revert lo Hlo. induction len as [|len IH]; intros lo Hlo; [done|]. cbn [seq List.filter].
  replace (lo <? n)%nat with false by (symmetry; apply Nat.ltb_ge; lia). cbn [andb]. apply IH. lia.
Qed.

Lemma selected_none h pos : covers_match n h pos matched = false -> selected (pos * 2 ^ h) (2 ^ h) = [].
Proof.
  unfold covers_match, selected. generalize (seq (pos * 2 ^ h) (2 ^ h)). intros l Hc.
  replace (List.filter _ _) with (@nil nat); [done|]. induction l as [|p l IH]; [done|].
  cbn [List.filter] in *. destruct (p <? n)%nat eqn:E; cbn [andb] in *; [|auto].
  cbn [existsb] in Hc. apply orb_false_iff in Hc as [-> Hc]. auto.
Qed.

Lemma selected_length lo len : (length (selected lo len) <= Nat.min n (lo + len) - Nat.min n lo)%nat.
Proof.
  induction len as [|len IH]; [simpl; lia|].
  replace (S len) with (len + 1)%nat by lia. rewrite selected_app, length_app.
  assert (length (selected (lo + len) 1) <= if lo + len <? n then 1 else 0)%nat.
  { unfold selected. cbn [seq List.filter]. destruct (lo + len <? n)%nat; cbn [andb]; [|done].
    destruct (matched !!! (lo + len)%nat); simpl; lia. }
  destruct (Nat.ltb_spec (lo + len) n); lia.
Qed.

Lemma node_bits_length h pos : (length (node_bits h pos) <= 2 ^ S h - 1)%nat.
Proof.
  revert pos. induction h as [|h IH]; intros pos; [done|].
  cbn [node_bits length]. pose proof (IH (pos * 2)%nat). pose proof (IH (pos * 2 + 1)%nat).
  assert (2 ^ S (S h) = 2 * 2 ^ S h)%nat by (by rewrite (Nat.pow_succ_r' 2 (S h))).
  assert (1 <= 2 ^ S h)%nat by (apply (Nat.pow_le_mono_r 2 0 (S h)); lia).
  destruct (covers_match n (S h) pos matched); [|cbn [length]; lia]. rewrite length_app.
  destruct (pos * 2 + 1 <? calc_tree_width n h)%nat; cbn [length]; lia.
Qed.

Lemma calc_tree_width_lt h pos : (pos < calc_tree_width n h)%nat <-> (pos * 2 ^ h < n)%nat.
Proof.
  unfold calc_tree_width. assert (2 ^ h <> 0)%nat by (by apply Nat.pow_nonzero).
  pose proof (Nat.div_mod_eq (n + 2 ^ h - 1) (2 ^ h)).
  pose proof (Nat.mod_upper_bound (n + 2 ^ h - 1) (2 ^ h) ltac:(done)).
  set (q := ((n + 2 ^ h - 1) / 2 ^ h)%nat) in *. split; intros Hlt; nia.
Qed.

(** At most one hash per transaction covered, at least one per node *)
Lemma node_hashes_length h pos : (pos < calc_tree_width n h)%nat ->
  (1 <= length (node_hashes h pos) <= Nat.min n ((pos + 1) * 2 ^ h) - pos * 2 ^ h)%nat.
Proof.
  revert pos. induction h as [|h IH]; intros pos Hp.
  { apply calc_tree_width_lt in Hp. simpl in *. lia. }
  assert (2 ^ S h = 2 * 2 ^ h)%nat as Epow by (by rewrite Nat.pow_succ_r').
  assert (1 <= 2 ^ h)%nat as Hpos by (apply (Nat.pow_le_mono_r 2 0 h); lia).
  apply calc_tree_width_lt in Hp. rewrite Epow in *. cbn [node_hashes].
  destruct (covers_match n (S h) pos matched); [|cbn [length]; nia].
  rewrite length_app. pose proof (IH (pos * 2)%nat ltac:(apply calc_tree_width_lt; nia)) as H1.
  destruct (pos * 2 + 1 <? calc_tree_width n h)%nat eqn:Ew.
  - apply Nat.ltb_lt in Ew. pose proof (IH _ Ew) as H2. apply calc_tree_width_lt in Ew.
    replace ((pos * 2 + 1 + 1) * 2 ^ h)%nat with ((pos + 1) * (2 * 2 ^ h))%nat in H2 by lia.
    replace ((pos * 2 + 1) * 2 ^ h)%nat with (pos * (2 * 2 ^ h) + 2 ^ h)%nat in * by lia.
    replace (pos * 2 * 2 ^ h)%nat with (pos * (2 * 2 ^ h))%nat in * by lia. lia.
  - apply Nat.ltb_ge in Ew. cbn [length].
    assert (~ (pos * 2 + 1) * 2 ^ h < n)%nat as Hge by (rewrite <- calc_tree_width_lt; lia).
    replace ((pos * 2 + 1) * 2 ^ h)%nat with (pos * (2 * 2 ^ h) + 2 ^ h)%nat in * by lia.
    replace (pos * 2 * 2 ^ h)%nat with (pos * (2 * 2 ^ h))%nat in * by lia.
    replace ((pos + 1) * (2 * 2 ^ h))%nat with (pos * (2 * 2 ^ h) + 2 * 2 ^ h)%nat by lia. lia.
Qed.

Lemma pow2_S_ge k : (2 <= 2 ^ S k)%nat.
Proof. apply (Nat.pow_le_mono_r 2 1 (S k)); lia. Qed.

(** The capacity checks never drop anything. *)
Lemma traverse_build_spec h pos bits hashes : (pos < calc_tree_width n h)%nat ->
  (length bits + (2 ^ S h - 1) <= MAX_MERKLE_BITS)%nat -> (length hashes <= pos * 2 ^ h)%nat ->
  traverse_and_build n h pos txids matched (bits, hashes) =
  (bits ++ node_bits h pos, hashes ++ node_hashes h pos).
Proof.
  revert pos bits hashes. induction h as [|h IH]; intros pos bits hashes Hp Hb Hh;
    pose proof (proj1 (calc_tree_width_lt _ _) Hp) as Hlt;
    cbn [traverse_and_build node_bits node_hashes]; unfold build_add_bit; cbn [fst snd];
    replace (MAX_MERKLE_BITS <=? length bits)%nat with false by (symmetry; apply Nat.leb_gt;
      match type of Hb with context [(2 ^ S ?k)%nat] => pose proof (pow2_S_ge k) end; lia).
  - unfold build_add_hash. cbn [fst snd]. by replace (n <=? length hashes)%nat with false by
      (symmetry; apply Nat.leb_gt; rewrite Nat.pow_0_r in *; lia).
  - assert (2 ^ S (S h) = 2 * 2 ^ S h)%nat as E1 by (by rewrite (Nat.pow_succ_r' 2 (S h))).
    assert (2 ^ S h = 2 * 2 ^ h)%nat as E2 by (by rewrite (Nat.pow_succ_r' 2 h)).
    assert (1 <= 2 ^ h)%nat as Hpos by (apply (Nat.pow_le_mono_r 2 0 h); lia).
    rewrite E1, E2 in *.
    destruct (covers_match n (S h) pos matched); cbn [negb].
    2:{ unfold build_add_hash. cbn [fst snd]. by replace (n <=? length hashes)%nat with false by
          (symmetry; apply Nat.leb_gt; lia). }
    assert (pos * 2 < calc_tree_width n h)%nat as Hp1 by (apply calc_tree_width_lt; nia).
    rewrite IH; [|done|rewrite length_app; cbn [length]; lia|nia].
    pose proof (node_hashes_length h (pos * 2) Hp1) as Hlen.
    destruct (pos * 2 + 1 <? calc_tree_width n h)%nat eqn:Ew.
    + apply Nat.ltb_lt in Ew. pose proof (node_bits_length h (pos * 2)) as Hbl. rewrite E2 in Hbl.
      rewrite IH; [by rewrite <- !app_assoc|done| |].
      * rewrite !length_app. cbn [length]. lia.
      * rewrite length_app. replace (pos * 2 * 2 ^ h)%nat with (pos * (2 * 2 ^ h))%nat in * by lia. nia.
    + by rewrite !app_nil_r, <- app_assoc.
Qed.

(** No two siblings of the tree are equal (the extraction rejects such proofs). *)
Definition siblings_distinct : Prop := forall h pos,
  (pos * 2 + 1 < calc_tree_width n h)%nat ->
  calc_hash n h (pos * 2 + 1) txids <> calc_hash n h (pos * 2) txids.

Lemma drop_lookup_head {A} (l : list A) i x r : drop i l = x :: r -> l !! i = Some x.
Proof. intros E. rewrite <- (Nat.add_0_r i), <- lookup_drop, E. done. Qed.

Lemma drop_advance {A} (l : list A) i a b : drop i l = a ++ b -> drop (i + length a) l = b.
Proof. intros E. by rewrite <- drop_drop, E, drop_app_length. Qed.

Lemma selected_leaf pos : (pos < n)%nat ->
  selected (pos * 2 ^ 0) (2 ^ 0) = if covers_match n 0 pos matched then [txids !!! pos] else [].
Proof.
  intros Hp. unfold selected, covers_match. rewrite Nat.pow_0_r, Nat.mul_1_r. cbn [seq List.filter].
  replace (pos <? n)%nat with true by (symmetry; by apply Nat.ltb_lt). cbn [andb existsb].
  rewrite orb_false_r. by destruct (matched !!! pos).
Qed.

(** The state after a node has been read back *)
Definition after_node (h pos : nat) (s : extract_state) : extract_state := {|
  bits_used := bits_used s + length (node_bits h pos);
  hash_used := hash_used s + length (node_hashes h pos);
  es_matched := es_matched s ++ selected (pos * 2 ^ h) (2 ^ h);
  es_bad := es_bad s |}.

Lemma extract_built t (Hnum : num_transactions t = n) (Htx : Forall (fixed 32) txids)
    (Hsib : siblings_distinct) h pos s rb rh :
  (pos < calc_tree_width n h)%nat ->
  drop (bits_used s) (pmt_bits t) = node_bits h pos ++ rb ->
  drop (hash_used s) (pmt_hashes t) = node_hashes h pos ++ rh ->
  (length (es_matched s) <= pos * 2 ^ h)%nat ->
  traverse_and_extract t h pos s = (calc_hash n h pos txids, after_node h pos s).
Proof.
  revert pos s rb rh. induction h as [|h IH]; intros pos s rb rh Hp Eb Eh Hm.
  { cbn [node_bits node_hashes app] in Eb, Eh.
    rewrite (traverse_pruned t 0 pos s _ (drop_lookup_head _ _ _ _ Eb)) by auto.
    rewrite (drop_lookup_head _ _ _ _ Eh). f_equal. apply calc_tree_width_lt in Hp as Hlt.
    rewrite calc_tree_width_0 in Hp. unfold take_hash, take_bit, after_node. simpl bits_used. simpl hash_used.
    simpl es_matched. simpl es_bad. rewrite selected_leaf, Hnum by done.
    replace (length (es_matched s) <? n)%nat with true by (symmetry; apply Nat.ltb_lt; simpl in *; lia).
    rewrite andb_true_r. f_equal; [simpl; lia|simpl; lia|]. by destruct (covers_match _ _ _ _); rewrite ?app_nil_r. }
  assert (2 ^ S h = 2 ^ h + 2 ^ h)%nat as E2 by (rewrite (Nat.pow_succ_r' 2 h); lia).
  unfold after_node. cbn [node_bits node_hashes] in *.
  destruct (covers_match n (S h) pos matched) eqn:Ec.
  2:{ cbn [app] in Eb, Eh.
      rewrite (traverse_pruned t (S h) pos s _ (drop_lookup_head _ _ _ _ Eb)) by auto.
      rewrite (drop_lookup_head _ _ _ _ Eh). rewrite selected_none, app_nil_r by done.
      unfold take_hash, take_bit. simpl. do 2 f_equal; lia. }
  rewrite traverse_inner by (apply (drop_lookup_head _ _ _ _ Eb)). rewrite Hnum.
  assert (pos * 2 < calc_tree_width n h)%nat as Hp1.
  { apply calc_tree_width_lt in Hp. apply calc_tree_width_lt. rewrite E2 in Hp. lia. }
  rewrite <- !app_assoc in Eh. cbn [app] in Eb. rewrite <- app_assoc in Eb.
  assert (drop (bits_used (take_bit s)) (pmt_bits t) = node_bits h (pos * 2) ++
    (if (pos * 2 + 1 <? calc_tree_width n h)%nat then node_bits h (pos * 2 + 1) else []) ++ rb) as Eb1.
  { unfold take_bit. simpl bits_used. replace (S (bits_used s)) with (bits_used s + length [true])%nat by (simpl; lia).
    by apply drop_advance. }
  rewrite E2 in Hm.
  rewrite (IH (pos * 2)%nat (take_bit s) _ _ Hp1 Eb1 Eh ltac:(simpl es_matched; lia)).
  rewrite E2, selected_app.
  replace (pos * (2 ^ h + 2 ^ h))%nat with (pos * 2 * 2 ^ h)%nat by lia.
  replace (pos * 2 * 2 ^ h + 2 ^ h)%nat with ((pos * 2 + 1) * 2 ^ h)%nat by lia.
  pose proof (selected_length (pos * 2 * 2 ^ h) (2 ^ h)) as Hsl.
  apply drop_advance in Eb1. apply drop_advance in Eh.
  cbn [calc_hash]. destruct (pos * 2 + 1 <? calc_tree_width n h)%nat eqn:Ew.
  - apply Nat.ltb_lt in Ew. rewrite (IH (pos * 2 + 1)%nat (after_node h (pos * 2) (take_bit s)) rb rh Ew Eb1 Eh).
    2:{ unfold after_node, take_bit. simpl es_matched. rewrite length_app. lia. }
    assert ((uint256_cmp (calc_hash n h (pos * 2 + 1) txids) (calc_hash n h (pos * 2) txids) =? 0) = false) as ->.
    { apply Z.eqb_neq. unfold uint256_cmp. rewrite memcmp_eq; [by apply Hsib|].
      pose proof (calc_hash_fixed txids Htx h (pos * 2 + 1) Ew) as [L1 _].
      pose proof (calc_hash_fixed txids Htx h (pos * 2) Hp1) as [L2 _]. fold n in L1, L2. lia. }
    unfold after_node, take_bit. simpl. rewrite !length_app, <- app_assoc. do 2 f_equal; lia.
  - apply Nat.ltb_ge in Ew. rewrite (selected_beyond ((pos * 2 + 1) * 2 ^ h)).
    2:{ apply Nat.nlt_ge. rewrite <- calc_tree_width_lt. by apply Nat.nlt_ge. }
    unfold after_node, take_bit. simpl. rewrite !app_nil_r. do 2 f_equal; lia.
Qed.

End Build.

(** *** The duplicate flag *)

Lemma dup_of_found fuel h l : dup_of fuel (level_at h l) = true ->
  exists k, (h <= k < tree_height_from fuel (length l) h)%nat /\ last_dup (level_at k l) = true.
Proof.
  revert h. induction fuel as [|f IH]; intros h; [done|].
  cbn [dup_of tree_height_from]. rewrite length_level_at.
  destruct (1 <? calc_tree_width (length l) h)%nat; [|done].
  rewrite orb_true_iff. intros [Hd|Hf].
  - exists h. split; [|done]. split; [done|]. apply (Nat.lt_le_trans _ (S h)); [lia|].
    clear. revert h. induction f as [|f IH]; intros h; [done|]. cbn [tree_height_from].
    destruct (1 <? _)%nat; [|done]. specialize (IH (S h)). lia.
  - destruct (IH (S h) Hf) as (k & Hk & Hd). exists k. split; [lia|done].
Qed.

Lemma mutated_levels l : l <> [] -> snd (compute_merkle_root_mutated l) = true <-> dup_level l.
Proof.
  intros Hne. rewrite compute_merkle_root_ref by done. cbn [snd]. split.
  - intros (k & Hk & Hd)%(dup_of_found (length l) 0). exists k. split; [apply Hk|done].
  - intros (k & Hk & Hd). destruct (dup_of (length l) l) eqn:E; [done|].
    rewrite (dup_of_levels (length l) 0 l E k) in Hd by (split; [lia|done]). done.
Qed.

Lemma top_levels_equal l l' : l <> [] -> l' <> [] -> tree_height (length l) = tree_height (length l') ->
  compute_merkle_root l = compute_merkle_root l' ->
  level_at (tree_height (length l)) l = level_at (tree_height (length l)) l'.
Proof.
  intros Hne Hne' Hh E. rewrite !merkle_root_level, <- Hh in E by done.
  pose proof (length_level_at (tree_height (length l)) l) as L.
  pose proof (length_level_at (tree_height (length l)) l') as L'. rewrite Hh in L' at 2.
  rewrite tree_height_width in L, L' by (by apply length_nonempty).
  destruct (level_at _ l) as [|x [|]]; [done| |done]. destruct (level_at _ l') as [|y [|]]; [done| |done].
  by simpl in E; subst.
Qed.

(** The tree over at most 2^k leaves has height at most k. *)
Lemma tree_height_from_min fuel n h k : (h <= k)%nat -> (calc_tree_width n k <= 1)%nat ->
  (tree_height_from fuel n h <= k)%nat.
Proof.
  revert h. induction fuel as [|f IH]; intros h Hh Hw; [done|]. cbn [tree_height_from].
  destruct (Nat.ltb_spec 1 (calc_tree_width n h)); [|done]. apply IH; [|done].
  destruct (decide (h = k)) as [->|]; lia.
Qed.

Lemma tree_height_le_16 n : (n <= MAX_MERKLE_HASHES)%nat -> (tree_height n <= 16)%nat.
Proof.
  intros Hn. apply tree_height_from_min; [lia|]. unfold calc_tree_width, MAX_MERKLE_HASHES in *.
  assert (2 ^ 16 = Z.to_nat 65536)%nat as -> by (apply Nat2Z.inj; rewrite Nat2Z.inj_pow; lia).
  apply Nat.lt_succ_r, Nat.Div0.div_lt_upper_bound. lia.
Qed.

Lemma pow_height_bits h : (h <= 16)%nat -> (2 ^ S h - 1 <= MAX_MERKLE_BITS)%nat.
Proof.
  intros Hh. pose proof (Nat.pow_le_mono_r 2 (S h) 17 ltac:(lia) ltac:(lia)) as Hp.
  unfold MAX_MERKLE_BITS, MAX_MERKLE_HASHES.
  assert (2 ^ 17 = Z.to_nat 65536 * 2)%nat as E by (apply Nat2Z.inj; rewrite Nat2Z.inj_pow, Nat2Z.inj_mul; lia).
  lia.
Qed.

Lemma tree_height_pow n : (1 <= n)%nat -> (n <= 2 ^ tree_height n)%nat.
Proof.
  intros Hn. pose proof (tree_height_width n Hn) as Hw. unfold calc_tree_width in Hw.
  set (p := (2 ^ tree_height n)%nat) in *. assert (p <> 0)%nat by (by apply Nat.pow_nonzero).
  pose proof (Nat.div_mod_eq (n + p - 1) p). pose proof (Nat.mod_upper_bound (n + p - 1) p ltac:(done)). nia.
Qed.

Lemma node_hashes_bits txids matched h pos :
  (length (node_hashes txids matched h pos) <= length (node_bits txids matched h pos))%nat.
Proof.
  revert pos. induction h as [|h IH]; intros pos; [done|]. cbn [node_hashes node_bits length].
  destruct (covers_match _ _ _ _); [|done]. rewrite !length_app. pose proof (IH (pos * 2)%nat).
  destruct (_ <? _)%nat; [pose proof (IH (pos * 2 + 1)%nat)|cbn [length]]; lia.
Qed.

(** Selecting by position is filtering by flag. *)
Lemma selected_from (txids : list uint256_t) (matched : list bool) (pre : list uint256_t) (mpre : list bool) :
  length matched = length txids -> length mpre = length pre ->
  selected (pre ++ txids) (mpre ++ matched) (length pre) (length txids) =
  map fst (List.filter snd (zip txids matched)).
Proof.
  revert matched pre mpre. induction txids as [|x l IH]; intros [|b m] pre mpre E Ep; try done.
  injection E as E. specialize (IH m (pre ++ [x]) (mpre ++ [b]) E ltac:(rewrite !length_app; simpl; lia)).
  rewrite <- !app_assoc, length_app in IH. cbn [app length] in IH.
  cbn [length]. change (S (length l)) with (1 + length l)%nat. rewrite selected_app, IH.
  unfold selected at 1. cbn [seq List.filter zip zip_with snd].
  rewrite length_app. cbn [length]. replace (length pre <? _)%nat with true by lia. cbn [andb].
  assert ((mpre ++ b :: m) !!! length pre = b) as -> by (by rewrite <- Ep, list_lookup_total_middle).
  destruct b; [|done]. cbn [map fst app]. f_equal. by rewrite list_lookup_total_middle.
Qed.

Lemma selected_all txids matched len : length matched = length txids -> (length txids <= len)%nat ->
  selected txids matched 0 len = map fst (List.filter snd (zip txids matched)).
Proof.
  intros E Hl. replace len with (length txids + (len - length txids))%nat by lia.
  rewrite selected_app, (selected_beyond _ _ (0 + length txids)), app_nil_r by lia. apply (selected_from txids matched [] []); [done|done].
Qed.

(** ** Properties *)

(** The in-place reduction computes the Merkle root of the recursive definition used by
    the partial trees, and its [mutated] flag is raised exactly when some level below the
    root has an even number of entries whose last two are equal. *)
Theorem merkle_root_exact (txids : list uint256_t) : txids <> [] ->
  fst (compute_merkle_root_mutated txids) = calc_hash (length txids) (tree_height (length txids)) 0 txids /\
  (snd (compute_merkle_root_mutated txids) = true <-> dup_level txids).
Proof. intros Hne. split; [by apply merkle_root_calc|by apply mutated_levels]. Qed.


(** A partial tree cannot prove membership of a foreign transaction: when extraction
    succeeds with the root of a list of the announced length, every match it returns is in
    that list, unless a message hashed by the extraction collides with one of the tree. *)
Theorem partial_tree_sound (t : partial_merkle_tree) (txids : list uint256_t) (r : uint256_t)
    (ms : list uint256_t) :
  Z.of_nat (num_transactions t) <= 2 ^ 31 ->
  Forall (fixed 32) (pmt_hashes t) -> Forall (fixed 32) txids -> length txids = num_transactions t ->
  merkle_tree_extract t = Some (r, ms) -> r = compute_merkle_root txids ->
  (forall x, x ∈ ms -> x ∈ txids) \/ collide (extract_messages t) (tree_messages txids).
Proof.
  intros _ Hh Htx Hn E Hr. unfold merkle_tree_extract in E.
  destruct (num_transactions t =? 0)%nat eqn:E0; [done|]. cbn [orb] in E. case_if; [done|].
  fold extract_init in E.
  destruct (traverse_and_extract t (tree_height (num_transactions t)) 0 extract_init) as [r' s] eqn:Et.
  destruct (es_bad s) eqn:Eb; [done|]. repeat (case_if; [done|]). injection E as <- <-.
  apply Nat.eqb_neq in E0. assert (txids <> []) as Hne by (by intros ->).
  rewrite merkle_root_calc in Hr by done. rewrite <- Hn in Et.
  destruct (extract_node_sound t Hh txids Htx Hn _ 0 extract_init r' s ltac:(done)
    ltac:(rewrite tree_height_width; [lia|by apply length_nonempty]) Et Eb Hr) as [Hm|Hc].
  - left. intros x Hx. destruct (Hm x Hx) as [Hx'|]; [by apply elem_of_nil in Hx'|done].
  - right. unfold extract_messages. by rewrite <- Hn.
Qed.

(** Extracting from a freshly built partial tree gives back the Merkle root and exactly
    the selected transaction ids, in order, for every list of up to 65536 ids in whose tree
    no node equals its sibling. *)
Theorem partial_tree_roundtrip (txids : list uint256_t) (matched : list bool) :
  txids <> [] -> (length txids <= MAX_MERKLE_HASHES)%nat -> length matched = length txids ->
  Forall (fixed 32) txids -> siblings_distinct txids ->
  exists t, merkle_tree_build txids matched = Some t /\
    merkle_tree_extract t = Some (compute_merkle_root txids,
      map fst (List.filter snd (zip txids matched))).
Proof.
  intros Hne Hmax Hlen Htx Hsib. pose proof (length_nonempty _ Hne) as Hpos.
  set (h := tree_height (length txids)). pose proof (tree_height_width _ Hpos) as Hw.
  pose proof (pow_height_bits h (tree_height_le_16 _ Hmax)) as Hbits.
  unfold merkle_tree_build. replace (length txids =? 0)%nat with false by lia.
  rewrite Hlen, Nat.eqb_refl. cbn [negb orb]. replace (MAX_MERKLE_HASHES <? length txids)%nat with false by lia.
  fold h in Hw |- *. rewrite traverse_build_spec; [|rewrite Hw; lia|simpl length; lia|simpl; lia]. cbn [app].
  eexists. split; [done|]. unfold merkle_tree_extract. cbn [num_transactions pmt_bits pmt_hashes].
  replace (length txids =? 0)%nat with false by lia.
  pose proof (node_hashes_length txids matched h 0 ltac:(rewrite Hw; lia)) as Hnh.
  pose proof (node_hashes_bits txids matched h 0) as Hnb.
  replace (length txids <? length _)%nat with false by lia.
  replace (length (node_bits _ _ _ _) <? length _)%nat with false by lia. cbn [orb]. fold h.
  erewrite (extract_built txids matched (PartialMerkleTree _ _ _) eq_refl Htx Hsib h 0 _ [] []);
    [|rewrite Hw; lia|by rewrite app_nil_r|by rewrite app_nil_r|simpl; lia].
  unfold after_node. cbn [es_bad bits_used hash_used es_matched Nat.add app].
  rewrite !Nat.eqb_refl. cbn [negb]. rewrite merkle_root_calc, selected_all by
    (done || (by apply tree_height_pow)). done.
Qed.

End Merkle.

(** ** Witnesses *)

(** Distinct transaction ids for concrete trees *)
Definition sample_id (b : Z) : uint256_t := b :: replicate 31 0.

Definition sample_ids : list uint256_t := map sample_id [1; 2; 3; 4; 5].

Lemma sample_ids_fixed : Forall (fixed 32) sample_ids.
Proof. repeat constructor; done. Qed.

Lemma merkle_root_exact_witness :
  snd (@compute_merkle_root_mutated checksum_hashes (sample_ids ++ [sample_id 5])) = true /\
  @dup_level checksum_hashes (sample_ids ++ [sample_id 5]).
Proof.
  split; [reflexivity|].
  apply (@merkle_root_exact checksum_hashes (sample_ids ++ [sample_id 5])); [done|reflexivity].
Defined.


(** The proof that ids 2 and 5 are in the block of five *)
Definition sample_proof : partial_merkle_tree := Eval vm_compute in
  default (PartialMerkleTree 0 [] [])
    (@merkle_tree_build checksum_hashes sample_ids [false; true; false; false; true]).

Lemma partial_tree_sound_witness :
  @merkle_tree_extract checksum_hashes sample_proof =
    Some (@compute_merkle_root checksum_hashes sample_ids, [sample_id 2; sample_id 5]) /\
  ((forall x, x ∈ [sample_id 2; sample_id 5] -> x ∈ sample_ids) \/
   @collide checksum_hashes (@extract_messages checksum_hashes sample_proof)
     (@tree_messages checksum_hashes sample_ids)).
Proof.
  split; [vm_compute; reflexivity|].
  apply (@partial_tree_sound checksum_hashes checksum_hashes_ok sample_proof sample_ids
    (@compute_merkle_root checksum_hashes sample_ids) [sample_id 2; sample_id 5]);
    [vm_compute; discriminate|compute_decide|apply sample_ids_fixed|vm_compute; reflexivity..].
Defined.

Lemma sample_siblings : @siblings_distinct checksum_hashes sample_ids.
Proof.
  intros h pos Hp. destruct (decide (h < 3)%nat) as [Hh|Hh].
  - destruct h as [|[|[|]]]; [..|lia].
    + change (calc_tree_width _ _) with 5%nat in Hp.
      destruct pos as [|[|]]; [vm_compute; discriminate..|lia].
    + change (calc_tree_width _ _) with 3%nat in Hp. destruct pos as [|]; [vm_compute; discriminate|lia].
    + change (calc_tree_width _ _) with 2%nat in Hp. destruct pos as [|]; [vm_compute; discriminate|lia].
  - exfalso. unfold calc_tree_width in Hp. change (length sample_ids) with 5%nat in Hp.
    pose proof (Nat.pow_le_mono_r 2 3 h ltac:(lia) ltac:(lia)) as Hpow. change (2 ^ 3)%nat with 8%nat in Hpow.
    assert ((5 + 2 ^ h - 1) / 2 ^ h < 2)%nat; [|lia]. apply Nat.Div0.div_lt_upper_bound. lia.
Qed.

Lemma partial_tree_roundtrip_witness : exists t,
  @merkle_tree_build checksum_hashes sample_ids [false; true; false; false; true] = Some t /\
  @merkle_tree_extract checksum_hashes t =
    Some (@compute_merkle_root checksum_hashes sample_ids, [sample_id 2; sample_id 5]).
Proof.
  apply (@partial_tree_roundtrip checksum_hashes checksum_hashes_ok sample_ids
    [false; true; false; false; true]);
    [done|unfold MAX_MERKLE_HASHES; simpl length; lia|reflexivity|apply sample_ids_fixed|apply sample_siblings].
Defined.
