(* ===== verification/CoinsMath.v ===== *)
(** * Coins, compression and undo records

    Models domain/consensus/src/coins_math.c (the pure operations on one coin record and
    the amount and script compression), the record of lib/coins/include/coins/coins.h, and
    the undo codec of lib/coins/include/coins/undo.h.  Public-key validation and
    decompression are operations on curve points of the secp256k1 library; they are the
    methods of the class [PubkeyOps]. *)

From S2P Require Import Prelude Serialize Script Transaction.

(** ** Coin records *)

Record coins := Coins {
  is_coinbase : bool;
  coins_vout : list tx_out;
  coins_height : Z;
  coins_version : Z;
}.

Record tx_in_undo := TxInUndo {
  undo_txout : tx_out;
  undo_coinbase : bool;
  undo_height : Z;
  undo_version : Z;
}.

Definition tx_in_undo_init : tx_in_undo :=
  {| undo_txout := tx_out_set_null; undo_coinbase := false; undo_height := 0; undo_version := 0 |}.

Definition coins_math_is_pruned (c : coins) : bool := forallb tx_out_is_null (coins_vout c).

Definition coins_math_is_available (c : coins) (pos : Z) : bool :=
  match coins_vout c !! Z.to_nat pos with
  | Some o => negb (tx_out_is_null o)
  | None => false
  end.

Definition with_vout (c : coins) (l : list tx_out) : coins :=
  {| is_coinbase := is_coinbase c; coins_vout := l; coins_height := coins_height c;
     coins_version := coins_version c |}.

(** [None]: the call returned false and the record is unchanged *)
Definition coins_math_spend (c : coins) (pos : Z) : option coins :=
  match coins_vout c !! Z.to_nat pos with
  | None => None
  | Some o => if tx_out_is_null o then None
              else Some (with_vout c (<[Z.to_nat pos := tx_out_set_null]> (coins_vout c)))
  end.

(** Trim the trailing null outputs; [l] is the reversed output array. *)
Fixpoint drop_nulls (l : list tx_out) : list tx_out :=
  match l with
  | o :: l' => if tx_out_is_null o then drop_nulls l' else l
  | [] => []
  end.

Definition coins_math_cleanup (c : coins) : coins :=
  with_vout c (reverse (drop_nulls (reverse (coins_vout c)))).

Inductive coins_math_err := ERR_OUT_OF_RANGE | ERR_ALREADY_SPENT.

Definition coins_math_capture_undo (c : coins) (pos : Z) (undo : tx_in_undo)
    : result coins_math_err (coins * tx_in_undo) :=
  match coins_vout c !! Z.to_nat pos with
  | None => Err ERR_OUT_OF_RANGE
  | Some o =>
      if tx_out_is_null o then Err ERR_ALREADY_SPENT
      else
        let c' := default c (coins_math_spend c pos) in
        Ok (c', if coins_math_is_pruned c'
                then {| undo_txout := o; undo_coinbase := is_coinbase c'; undo_height := u32 (coins_height c');
                        undo_version := coins_version c' |}
                else {| undo_txout := o; undo_coinbase := undo_coinbase undo;
                        undo_height := undo_height undo; undo_version := undo_version undo |})
  end.

(** ** Amount compression *)

(** [while (n % 10 == 0 && e < 9)]: nine rounds at most *)
Fixpoint strip_zeros (fuel : nat) (n e : Z) : Z * Z :=
  match fuel with
  | O => (n, e)
  | S fuel' => if (n mod 10 =? 0) && (e <? 9) then strip_zeros fuel' (n / 10) (e + 1) else (n, e)
  end.

Definition coins_math_compress_amount (n : Z) : Z :=
  if n =? 0 then 0
  else
    let '(n, e) := strip_zeros 9 n 0 in
    if e <? 9 then
      let d := n mod 10 in
      let n := n / 10 in
      u64 (1 + (n * 9 + d - 1) * 10 + e)
    else u64 (1 + (n - 1) * 10 + 9).

Definition coins_math_decompress_amount (x : Z) : Z :=
  if x =? 0 then 0
  else
    let x := x - 1 in
    let e := x mod 10 in
    let x := x / 10 in
    let n := if e <? 9 then x / 9 * 10 + (x mod 9 + 1) else x + 1 in
    u64 (n * 10 ^ e).

(** ** Script compression *)

Class PubkeyOps := {
  pubkey_is_fully_valid : bytes -> bool;
  pubkey_decompress : bytes -> option bytes;
}.

Definition tx_undo : Type := list tx_in_undo.

Section Compress.
Context `{PubkeyOps}.

(** Byte [i] of the script buffer, where the size has been checked *)
Definition at_ (s : script) (i : nat) : Z := s !!! i.

Definition is_p2pkh (s : script) : bool :=
  (zlen s =? 25) && (at_ s 0 =? OP_DUP) && (at_ s 1 =? OP_HASH160) && (at_ s 2 =? 20) &&
  (at_ s 23 =? OP_EQUALVERIFY) && (at_ s 24 =? OP_CHECKSIG).

Definition is_p2sh (s : script) : bool :=
  (zlen s =? 23) && (at_ s 0 =? OP_HASH160) && (at_ s 1 =? 20) && (at_ s 22 =? OP_EQUAL).

Definition is_p2pk_compressed (s : script) : bool :=
  (zlen s =? 35) && (at_ s 0 =? 33) && (at_ s 34 =? OP_CHECKSIG) && ((at_ s 1 =? 0x02) || (at_ s 1 =? 0x03)).

Definition is_p2pk_uncompressed (s : script) : bool :=
  (zlen s =? 67) && (at_ s 0 =? 65) && (at_ s 66 =? OP_CHECKSIG) && (at_ s 1 =? 0x04).

Definition coins_math_script_compress (s : script) : option bytes :=
  if is_p2pkh s then Some (0x00 :: take 20 (drop 3 s))
  else if is_p2sh s then Some (0x01 :: take 20 (drop 2 s))
  else if is_p2pk_compressed s then Some (at_ s 1 :: take 32 (drop 2 s))
  else if is_p2pk_uncompressed s then
    if pubkey_is_fully_valid (take 65 (drop 1 s))
    then Some ((0x04 .| (at_ s 64 .& 0x01)) :: take 32 (drop 2 s)) else None
  else None.

Definition coins_math_script_decompress (n_size : Z) (data : bytes) : option script :=
  if n_size =? 0x00 then
    Some ([OP_DUP; OP_HASH160; 20] ++ take 20 data ++ [OP_EQUALVERIFY; OP_CHECKSIG])
  else if n_size =? 0x01 then Some ([OP_HASH160; 20] ++ take 20 data ++ [OP_EQUAL])
  else if (n_size =? 0x02) || (n_size =? 0x03) then
    Some ([33; u8 n_size] ++ take 32 data ++ [OP_CHECKSIG])
  else if (n_size =? 0x04) || (n_size =? 0x05) then
    match pubkey_decompress (u8 (n_size - 2) :: take 32 data) with
    | None => None
    | Some pk => if zlen pk =? 65 then Some ([65] ++ pk ++ [OP_CHECKSIG]) else None
    end
  else None.

Definition coins_math_script_compress_special_size (n_size : Z) : Z :=
  if (n_size =? 0) || (n_size =? 1) then 20
  else if (n_size =? 2) || (n_size =? 3) || (n_size =? 4) || (n_size =? 5) then 32
  else 0.

(** ** The undo codec *)

Definition SCRIPT_COMPRESS_SPECIAL_SCRIPTS : Z := 6.

Context `{Allocator}.

Definition compressed_txout_serialize (o : tx_out) : stream_m unit :=
  stream_write_varint (coins_math_compress_amount (u64 (value o)));;
  match coins_math_script_compress (script_pub_key o) with
  | Some comp => stream_write comp
  | None => stream_write_varint (zlen (script_pub_key o) + SCRIPT_COMPRESS_SPECIAL_SCRIPTS);;
            stream_write (script_pub_key o)
  end.

Definition compressed_txout_deserialize : stream_m tx_out :=
  compressed_val ← stream_read_varint;
  nSize ← stream_read_varint;
  sc ← (if nSize <? SCRIPT_COMPRESS_SPECIAL_SCRIPTS then
          let special_sz := coins_math_script_compress_special_size nSize in
          stream_guard (negb (special_sz =? 0));;
          buf ← stream_read special_sz;
          match coins_math_script_decompress nSize buf with Some sc => mret sc | None => stream_fail end
        else
          let script_len := nSize - SCRIPT_COMPRESS_SPECIAL_SCRIPTS in
          stream_guard (script_len <=? MAX_SCRIPT_SIZE);;
          stream_read script_len);
  mret {| value := i64 (coins_math_decompress_amount compressed_val); script_pub_key := sc |}.

Definition tx_in_undo_serialize (u : tx_in_undo) : stream_m unit :=
  stream_write_varint (undo_height u * 2 + (if undo_coinbase u then 1 else 0));;
  (if undo_height u >? 0 then stream_write_varint (u64 (undo_version u)) else mret tt);;
  compressed_txout_serialize (undo_txout u).

(** [u]: the record being filled; its version stays when the height is zero *)
Definition tx_in_undo_deserialize (u : tx_in_undo) : stream_m tx_in_undo :=
  code ← stream_read_varint;
  let height := u32 (code / 2) in
  version ← (if height >? 0 then v ← stream_read_varint; mret (i32 v) else mret (undo_version u));
  o ← compressed_txout_deserialize;
  mret {| undo_txout := o; undo_coinbase := negb (code .& 1 =? 0); undo_height := height;
          undo_version := version |}.

Definition tx_undo_serialize (u : tx_undo) : stream_m unit := write_vector tx_in_undo_serialize u.

(** The count is bounded by the allocation only. *)
Definition undo_read_vector {A} (r : stream_m A) : stream_m (list A) :=
  n ← stream_read_compact_size;
  stream_guard (alloc_succeeds n);;
  read_items r (Z.to_nat n).

Definition tx_undo_deserialize : stream_m tx_undo :=
  undo_read_vector (tx_in_undo_deserialize tx_in_undo_init).

Record block_undo := BlockUndo {
  vtxundo : list tx_undo;
  old_sprout_tree_root : uint256_t;
}.

Definition block_undo_serialize (u : block_undo) : stream_m unit :=
  write_vector tx_undo_serialize (vtxundo u);;
  stream_write (old_sprout_tree_root u).

Definition block_undo_deserialize : stream_m block_undo :=
  v ← undo_read_vector tx_undo_deserialize;
  root ← stream_read 32;
  mret {| vtxundo := v; old_sprout_tree_root := root |}.

End Compress.

(** ** Well-formedness and the bytes written *)

(** What decompression does on the compressed form of a valid uncompressed key: the
    compressed encoding (parity, x) of a curve point determines the point. *)
Class PubkeyOpsOk `{PubkeyOps} := pubkey_decompress_ok : forall x y,
  length x = 32%nat -> length y = 32%nat ->
  pubkey_is_fully_valid (0x04 :: x ++ y) = true ->
  pubkey_decompress ((0x02 .| (y !!! 31%nat .& 0x01)) :: x) = Some (0x04 :: x ++ y).

(** The parity of a public key is that of its last byte, script byte 65; the compressor
    reads byte 64.  Where the two differ in parity an uncompressed key is not restored
    (theorem [p2pk_parity_lost]). *)
Definition parity_agrees (s : script) : Prop :=
  is_p2pk_uncompressed s = true -> at_ s 64 .& 0x01 = at_ s 65 .& 0x01.

Definition coin_out_ok (o : tx_out) : Prop :=
  0 <= value o <= MAX_MONEY /\ script_ok (script_pub_key o) /\ parity_agrees (script_pub_key o).

Definition tx_in_undo_ok (u : tx_in_undo) : Prop :=
  coin_out_ok (undo_txout u) /\ is_u 32 (undo_height u) /\ is_s 32 (undo_version u) /\
  (undo_height u = 0 -> undo_version u = 0).

Definition undo_list_ok {A} (P : A -> Prop) (l : list A) : Prop := vector_ok (2 ^ 32) P l.

Definition block_undo_ok (u : block_undo) : Prop :=
  undo_list_ok (undo_list_ok tx_in_undo_ok) (vtxundo u) /\ fixed 32 (old_sprout_tree_root u).

Section Bytes.
Context `{PubkeyOps}.

Definition compressed_txout_bytes (o : tx_out) : bytes :=
  varint_bytes (coins_math_compress_amount (u64 (value o))) ++
  match coins_math_script_compress (script_pub_key o) with
  | Some comp => comp
  | None => varint_bytes (zlen (script_pub_key o) + SCRIPT_COMPRESS_SPECIAL_SCRIPTS) ++ script_pub_key o
  end.

Definition tx_in_undo_bytes (u : tx_in_undo) : bytes :=
  varint_bytes (undo_height u * 2 + (if undo_coinbase u then 1 else 0)) ++
  (if undo_height u >? 0 then varint_bytes (u64 (undo_version u)) else []) ++
  compressed_txout_bytes (undo_txout u).

Definition tx_undo_bytes (u : tx_undo) : bytes := vector_bytes tx_in_undo_bytes u.

Definition block_undo_bytes (u : block_undo) : bytes :=
  vector_bytes tx_undo_bytes (vtxundo u) ++ old_sprout_tree_root u.

End Bytes.

(** ** Amounts *)

Lemma strip_zeros_spec fuel n e : 0 < n -> 0 <= e -> e + Z.of_nat fuel = 9 ->
  let '(m, e') := strip_zeros fuel n e in
  0 < m /\ e <= e' <= 9 /\ n = m * 10 ^ (e' - e) /\ (e' < 9 -> m mod 10 <> 0).
Proof.
  revert n e. induction fuel as [|f IH]; intros n e Hn He Hf; cbn [strip_zeros].
  { rewrite Z.sub_diag, Z.pow_0_r. lia. }
  destruct (Z.eqb_spec (n mod 10) 0) as [E|E]; cbn [andb].
  2:{ rewrite Z.sub_diag, Z.pow_0_r. lia. }
  replace (e <? 9) with true by lia.
  assert (n = 10 * (n / 10)) as En by (pose proof (Z.div_mod n 10); lia).
  specialize (IH (n / 10) (e + 1) ltac:(lia) ltac:(lia) ltac:(lia)).
  destruct (strip_zeros f (n / 10) (e + 1)) as [m e']. destruct IH as (Hm & He' & E' & Hd).
  split_and!; [done|lia|lia| |done].
  rewrite En, E'. replace (e' - e) with (Z.succ (e' - (e + 1))) by lia. rewrite Z.pow_succ_r by lia. lia.
Qed.

(** The compressed form, before reduction to 64 bits *)
Lemma compress_bound n : 0 < n < 2 ^ 60 ->
  let x := coins_math_compress_amount n in
  0 < x < 2 ^ 64 /\ coins_math_decompress_amount x = n.
Proof.
  intros Hn. unfold coins_math_compress_amount. replace (n =? 0) with false by lia.
  pose proof (strip_zeros_spec 9 n 0 ltac:(lia) ltac:(lia) ltac:(lia)) as Hs.
  destruct (strip_zeros 9 n 0) as [m e]. destruct Hs as (Hm & He & E & Hd). rewrite Z.sub_0_r in E.
  assert (m <= n) as Hmn by (rewrite E; pose proof (Z.pow_pos_nonneg 10 e ltac:(lia) ltac:(lia)); nia).
  assert (forall k, 0 <= k -> k * 10 ^ e = n -> u64 (k * 10 ^ e) = n) as Hw.
  { intros k _ ->. apply uwrap_small. unfold is_u. lia. }
  destruct (Z.ltb_spec e 9) as [He9|He9].
  - pose proof (Z.div_mod m 10 ltac:(lia)) as Em. pose proof (Z.mod_pos_bound m 10 ltac:(lia)).
    specialize (Hd He9). set (q := m / 10) in *. set (d := m mod 10) in *.
    rewrite uwrap_small by (unfold is_u; lia). split; [lia|].
    unfold coins_math_decompress_amount. cbv zeta. replace (_ =? 0) with false by lia.
    replace (1 + (q * 9 + d - 1) * 10 + e - 1) with (e + (q * 9 + (d - 1)) * 10) by lia.
    rewrite Z.mod_add, Z.div_add, (Z.mod_small e 10), (Z.div_small e 10), Z.add_0_l by lia.
    replace (e <? 9) with true by lia. replace (q * 9 + (d - 1)) with ((d - 1) + q * 9) by lia.
    rewrite Z.mod_add, Z.div_add, (Z.mod_small (d - 1) 9), (Z.div_small (d - 1) 9) by lia.
    rewrite Hw; [done|lia|]. rewrite E. f_equal. lia.
  - assert (e = 9) as -> by lia. rewrite uwrap_small by (unfold is_u; lia). split; [lia|].
    unfold coins_math_decompress_amount. cbv zeta. replace (_ =? 0) with false by lia.
    replace (1 + (m - 1) * 10 + 9 - 1) with (9 + (m - 1) * 10) by lia.
    rewrite Z.mod_add, Z.div_add by lia. change (9 mod 10) with 9. change (9 / 10) with 0.
    replace (9 <? 9) with false by lia. rewrite Hw; [done|lia|]. rewrite E. f_equal. lia.
Qed.

Lemma compress_amount_u64 n : 0 <= n < 2 ^ 60 -> is_u 64 (coins_math_compress_amount n).
Proof.
  intros Hn. destruct (decide (n = 0)) as [->|]; [done|].
  pose proof (compress_bound n ltac:(lia)) as [? _]. unfold is_u. lia.
Qed.

Lemma decompress_compress n : 0 <= n < 2 ^ 60 ->
  coins_math_decompress_amount (coins_math_compress_amount n) = n.
Proof.
  intros Hn. destruct (decide (n = 0)) as [->|]; [done|].
  by pose proof (compress_bound n ltac:(lia)) as [_ ?].
Qed.

(** ** Scripts *)

Lemma drop_at (s : script) i : (i < length s)%nat -> drop i s = at_ s i :: drop (S i) s.
Proof. intros Hi. apply drop_S. unfold at_. by apply list_lookup_lookup_total_lt. Qed.

(** A script of known length around a block of [k] bytes *)
Lemma drop_block (s : script) i k : drop i s = take k (drop i s) ++ drop (i + k) s.
Proof. by rewrite <- drop_drop, take_drop. Qed.

Lemma drop_end (s : script) i : (length s <= i)%nat -> drop i s = [].
Proof. apply drop_ge. Qed.

Section CompressOk.
Context `{PubkeyOpsOk}.

Lemma p2pkh_shape (s : script) : is_p2pkh s = true ->
  s = [OP_DUP; OP_HASH160; 20] ++ take 20 (drop 3 s) ++ [OP_EQUALVERIFY; OP_CHECKSIG] /\ length s = 25%nat.
Proof.
  unfold is_p2pkh, zlen. intros E. zbool. assert (length s = 25)%nat as Hl by lia. split; [|done].
  rewrite <- (drop_0 s) at 1. rewrite (drop_at s 0), (drop_at s 1), (drop_at s 2) by lia. rewrite (drop_block s 3 20) at 1.
  change (3 + 20)%nat with 23%nat. rewrite (drop_at s 23), (drop_at s 24), (drop_end s 25) by lia.
  repeat match goal with H : (_ =? _) = true |- _ => apply Z.eqb_eq in H end. cbn [Nat.add app]. congruence.
Qed.

Lemma p2sh_shape (s : script) : is_p2sh s = true ->
  s = [OP_HASH160; 20] ++ take 20 (drop 2 s) ++ [OP_EQUAL] /\ length s = 23%nat.
Proof.
  unfold is_p2sh, zlen. intros E. zbool. assert (length s = 23)%nat as Hl by lia. split; [|done].
  rewrite <- (drop_0 s) at 1. rewrite (drop_at s 0), (drop_at s 1) by lia. rewrite (drop_block s 2 20) at 1.
  change (2 + 20)%nat with 22%nat. rewrite (drop_at s 22), (drop_end s 23) by lia.
  repeat match goal with H : (_ =? _) = true |- _ => apply Z.eqb_eq in H end. cbn [Nat.add app]. congruence.
Qed.

Lemma p2pk_shape (s : script) : is_p2pk_compressed s = true ->
  s = [33; at_ s 1] ++ take 32 (drop 2 s) ++ [OP_CHECKSIG] /\ length s = 35%nat /\ (at_ s 1 = 2 \/ at_ s 1 = 3).
Proof.
  unfold is_p2pk_compressed, zlen. intros E. zbool. assert (length s = 35)%nat as Hl by lia.
  split_and!; [|done|lia]. rewrite <- (drop_0 s) at 1. rewrite (drop_at s 0), (drop_at s 1) by lia.
  rewrite (drop_block s 2 32) at 1. change (2 + 32)%nat with 34%nat. rewrite (drop_at s 34), (drop_end s 35) by lia.
  cbn [Nat.add app]. do 2 f_equal; [lia|]. do 3 f_equal. lia.
Qed.

Lemma p2pk_full_shape (s : script) : is_p2pk_uncompressed s = true ->
  s = [65; 4] ++ take 32 (drop 2 s) ++ take 32 (drop 34 s) ++ [OP_CHECKSIG] /\ length s = 67%nat.
Proof.
  unfold is_p2pk_uncompressed, zlen. intros E. zbool. assert (length s = 67)%nat as Hl by lia. split; [|done].
  rewrite <- (drop_0 s) at 1. rewrite (drop_at s 0), (drop_at s 1) by lia. rewrite (drop_block s 2 32) at 1.
  change (2 + 32)%nat with 34%nat. rewrite (drop_block s 34 32) at 1. change (34 + 32)%nat with 66%nat.
  rewrite (drop_at s 66), (drop_end s 67) by lia.
  repeat match goal with H : (_ =? _) = true |- _ => apply Z.eqb_eq in H end. cbn [Nat.add app]. congruence.
Qed.

Lemma decompress_full_key p (x y : bytes) : p = 0 \/ p = 1 -> length x = 32%nat -> length y = 32%nat ->
  pubkey_decompress ((0x02 .| p) :: x) = Some (0x04 :: x ++ y) ->
  coins_math_script_decompress (0x04 .| p) x = Some ([65; 4] ++ x ++ y ++ [OP_CHECKSIG]).
Proof.
  intros Hp Hx Hy Hd. assert (coins_math_script_decompress (0x04 .| p) x =
    match pubkey_decompress ((0x02 .| p) :: take 32 x) with
    | None => None
    | Some pk => if zlen pk =? 65 then Some ([65] ++ pk ++ [OP_CHECKSIG]) else None
    end) as -> by (by destruct Hp as [-> | ->]).
  rewrite take_ge, Hd by lia.
  replace (zlen (4 :: x ++ y) =? 65) with true by (unfold zlen; cbn [length]; rewrite length_app, Hx, Hy; done).
  cbn [app]. by rewrite <- app_assoc.
Qed.

(** The compressed form of a script and what decompression does on it *)
Lemma script_compress_spec (s : script) comp : bytes_ok s -> parity_agrees s -> coins_math_script_compress s = Some comp ->
  exists n data, comp = n :: data /\ 0 <= n < 6 /\ bytes_ok data /\
    Z.of_nat (length data) = coins_math_script_compress_special_size n /\
    coins_math_script_decompress n data = Some s.
Proof.
  intros Hb Hpar. unfold coins_math_script_compress.
  assert (forall i k, (i + k <= length s)%nat -> length (take k (drop i s)) = k) as Hlen.
  { intros i k Hik. rewrite length_take, length_drop. lia. }
  assert (forall i k, bytes_ok (take k (drop i s))) as Hbytes.
  { intros. by apply Forall_take, Forall_drop. }
  assert (forall i k, (i + k <= length s)%nat -> take k (take k (drop i s)) = take k (drop i s)) as Htt.
  { intros i k Hik. rewrite take_take. f_equal. lia. }
  destruct (is_p2pkh s) eqn:E1.
  { destruct (p2pkh_shape s E1) as [Es Hl]. intros [= <-]. eexists _, _. split; [done|].
    rewrite Hlen by lia. split_and!; [lia|lia|done|done|]. cbn -[app take drop].
    by rewrite Htt, <- Es by lia. }
  destruct (is_p2sh s) eqn:E2.
  { destruct (p2sh_shape s E2) as [Es Hl]. intros [= <-]. eexists _, _. split; [done|].
    rewrite Hlen by lia. split_and!; [lia|lia|done|done|]. cbn -[app take drop].
    by rewrite Htt, <- Es by lia. }
  destruct (is_p2pk_compressed s) eqn:E3.
  { destruct (p2pk_shape s E3) as (Es & Hl & Ht). intros [= <-]. eexists _, _. split; [done|].
    rewrite Hlen by lia. destruct Ht as [Ht|Ht]; rewrite Ht in *;
    (split_and!; [lia|lia|done|done|]; cbn -[app take drop uwrap]; rewrite u8_small by done;
     by rewrite Htt, <- Es by lia). }
  destruct (is_p2pk_uncompressed s) eqn:E4; [|done].
  destruct (p2pk_full_shape s E4) as [Es Hl].
  destruct (pubkey_is_fully_valid (take 65 (drop 1 s))) eqn:Ev; [|done]. intros [= <-].
  set (x := take 32 (drop 2 s)) in *. set (y := take 32 (drop 34 s)) in *.
  assert (take 65 (drop 1 s) = 4 :: x ++ y) as Ek.
  { rewrite Es. change (drop 1 _) with (4 :: x ++ y ++ [OP_CHECKSIG]). rewrite (app_assoc x y).
    change (4 :: (x ++ y) ++ [OP_CHECKSIG]) with ((4 :: x ++ y) ++ [OP_CHECKSIG]).
    rewrite (take_app_length' (4 :: x ++ y)); [done|].
    cbn [length]. rewrite length_app. unfold x, y. rewrite !Hlen by lia. done. }
  assert (at_ s 65 = y !!! 31%nat) as Ey.
  { unfold at_, y. rewrite !list_lookup_total_alt, lookup_take_lt, lookup_drop by lia. done. }
  rewrite (Hpar E4), Ey. rewrite Ek in Ev. pose proof (pubkey_decompress_ok x y (Hlen 2%nat 32%nat ltac:(lia))
    (Hlen 34%nat 32%nat ltac:(lia)) Ev) as Hd.
  eexists _, _. split; [done|].
  assert (y !!! 31%nat .& 1 = 0 \/ y !!! 31%nat .& 1 = 1) as Hbit.
  { pose proof (Z.land_ones (y !!! 31%nat) 1 ltac:(lia)) as E1'. change (Z.ones 1) with 1 in E1'.
    rewrite E1'. change (2 ^ 1) with 2. pose proof (Z.mod_pos_bound (y !!! 31%nat) 2 ltac:(lia)). lia. }
  split_and!; [destruct Hbit as [-> | ->]; done|destruct Hbit as [-> | ->]; done|apply Hbytes| |].
  { unfold x. rewrite Hlen by lia. by destruct Hbit as [-> | ->]. }
  rewrite (decompress_full_key _ x y) by
    (done || (unfold x, y; by rewrite Hlen by lia) || (by destruct Hbit; [left|right])).
  f_equal. by rewrite Es at 1.
Qed.

End CompressOk.

(** ** The undo codec round trips *)

Section Codec.
Context `{PubkeyOpsOk} `{AllocatorTotal}.

Lemma out_amount_u64 o : coin_out_ok o -> u64 (value o) = value o /\ 0 <= value o < 2 ^ 60.
Proof. intros [Hv _]. change MAX_MONEY with 2100000000000000 in Hv. split; [apply uwrap_small; unfold is_u|]; lia. Qed.

Lemma script_size_u64 (s : script) : script_ok s -> is_u 64 (zlen s + SCRIPT_COMPRESS_SPECIAL_SCRIPTS).
Proof.
  intros [Hs _]. pose proof (zlen_nonneg s). unfold is_u, SCRIPT_COMPRESS_SPECIAL_SCRIPTS, MAX_SCRIPT_SIZE in *. lia.
Qed.

Lemma emits_compressed_txout o : coin_out_ok o ->
  emits (compressed_txout_serialize o) (compressed_txout_bytes o).
Proof.
  intros Ho. pose proof (out_amount_u64 o Ho) as [E Hv]. destruct Ho as (_ & Hs & _).
  unfold compressed_txout_serialize, compressed_txout_bytes. rewrite E.
  apply emits_bind; [by apply emits_varint, compress_amount_u64|].
  destruct (coins_math_script_compress _); [apply emits_write|].
  apply emits_bind; [by apply emits_varint, script_size_u64|apply emits_write].
Qed.

Lemma varint_bytes_small n : 0 <= n < 6 -> varint_bytes n = [n].
Proof.
  intros Hn. assert (n = 0 \/ n = 1 \/ n = 2 \/ n = 3 \/ n = 4 \/ n = 5) as Hc by lia.
  by destruct Hc as [->|[->|[->|[->|[->| ->]]]]].
Qed.

Lemma parses_compressed_script (s : script) : script_ok s -> parity_agrees s ->
  parses (nSize ← stream_read_varint;
    if nSize <? SCRIPT_COMPRESS_SPECIAL_SCRIPTS then
      let special_sz := coins_math_script_compress_special_size nSize in
      stream_guard (negb (special_sz =? 0));;
      buf ← stream_read special_sz;
      match coins_math_script_decompress nSize buf with Some sc => mret sc | None => stream_fail end
    else
      let script_len := nSize - SCRIPT_COMPRESS_SPECIAL_SCRIPTS in
      stream_guard (script_len <=? MAX_SCRIPT_SIZE);;
      stream_read script_len)
    match coins_math_script_compress s with
    | Some comp => comp
    | None => varint_bytes (zlen s + SCRIPT_COMPRESS_SPECIAL_SCRIPTS) ++ s
    end s.
Proof.
  intros Hs Hp. destruct (coins_math_script_compress s) as [comp|] eqn:E.
  - destruct (script_compress_spec s comp (proj2 Hs) Hp E) as (n & data & -> & Hn & _ & Hl & Hd).
    apply (parses_bind _ _ [n] data n).
    { rewrite <- varint_bytes_small by done. apply parses_varint. unfold is_u. lia. }
    replace (n <? SCRIPT_COMPRESS_SPECIAL_SCRIPTS) with true by (unfold SCRIPT_COMPRESS_SPECIAL_SCRIPTS; lia).
    cbv zeta. apply parses_guard.
    { unfold coins_math_script_compress_special_size. repeat case_if; zbool; try done; lia. }
    rewrite <- (app_nil_r data). eapply parses_bind; [by apply parses_read|]. rewrite Hd. apply parses_ret.
  - pose proof (zlen_nonneg s). eapply parses_bind; [by apply parses_varint, script_size_u64|].
    replace (_ <? _) with false by (unfold SCRIPT_COMPRESS_SPECIAL_SCRIPTS; lia). cbv zeta.
    rewrite Z.add_simpl_r. apply parses_guard; [destruct Hs; lia|]. by apply parses_read.
Qed.

Lemma stream_bind_assoc {A B C} (m : stream_m A) (f : A -> stream_m B) (g : B -> stream_m C) s :
  mbind (M := stream_m) g (mbind (M := stream_m) f m) s =
  mbind (M := stream_m) (fun a => mbind (M := stream_m) g (f a)) m s.
Proof. unfold mbind, stream_bind. by destruct (m s) as [[a|] s']. Qed.

Lemma parses_compressed_txout o : coin_out_ok o ->
  parses compressed_txout_deserialize (compressed_txout_bytes o) o.
Proof.
  intros Ho. pose proof (out_amount_u64 o Ho) as [E Hv]. destruct Ho as (_ & Hs & Hp).
  unfold compressed_txout_deserialize, compressed_txout_bytes. rewrite E.
  eapply parses_bind; [by apply parses_varint, compress_amount_u64|].
  rewrite decompress_compress, swrap_small by (done || (unfold is_s; lia)).
  pose proof (parses_map _ (fun sc => {| value := value o; script_pub_key := sc |}) _ _ o
    (parses_compressed_script _ Hs Hp) ltac:(by destruct o)) as P.
  intros s rest Hr. rewrite <- (P s rest Hr). by rewrite stream_bind_assoc.
Qed.

Lemma undo_code_u64 (u : tx_in_undo) : tx_in_undo_ok u ->
  is_u 64 (undo_height u * 2 + (if undo_coinbase u then 1 else 0)).
Proof. intros (_ & Hh & _). unfold is_u in *. destruct (undo_coinbase u); lia. Qed.

Lemma emits_tx_in_undo u : tx_in_undo_ok u -> emits (tx_in_undo_serialize u) (tx_in_undo_bytes u).
Proof.
  intros Hu. unfold tx_in_undo_serialize, tx_in_undo_bytes.
  apply emits_bind; [by apply emits_varint, undo_code_u64|]. destruct Hu as (Ho & Hh & Hv & _).
  apply emits_bind; [|by apply emits_compressed_txout].
  destruct (undo_height u >? 0); [apply emits_varint; by apply uwrap_range|apply emits_ret].
Qed.

Lemma parses_tx_in_undo u : tx_in_undo_ok u ->
  parses (tx_in_undo_deserialize tx_in_undo_init) (tx_in_undo_bytes u) u.
Proof.
  intros Hu. unfold tx_in_undo_deserialize, tx_in_undo_bytes.
  eapply parses_bind; [by apply parses_varint, undo_code_u64|].
  destruct Hu as (Ho & Hh & Hv & Hz).
  set (code := undo_height u * 2 + _). assert (code / 2 = undo_height u) as Ec.
  { unfold code. rewrite Z.add_comm, Z.div_add by lia. by destruct (undo_coinbase u). }
  assert (negb (code .& 1 =? 0) = undo_coinbase u) as Eb.
  { pose proof (Z.land_ones code 1 ltac:(lia)) as E1. change (Z.ones 1) with 1 in E1. rewrite E1.
    unfold code. change (2 ^ 1) with 2. rewrite Z.add_comm, Z.mod_add by lia. by destruct (undo_coinbase u). }
  rewrite Eb, Ec, (uwrap_small 32) by done. cbv zeta.
  apply (parses_bind _ _ _ _ (undo_version u)).
  - destruct (Z.gtb_spec (undo_height u) 0).
    + eapply parses_map; [apply parses_varint; by apply uwrap_range|].
      assert (i32 (u64 (undo_version u)) = i32 (undo_version u)) as ->; [|by apply swrap_small].
      unfold swrap, uwrap. f_equal. rewrite Z.add_mod by done. rewrite (Z.mod_mod_divide (undo_version u)) by
        (exists (2 ^ 32); done). by rewrite <- Z.add_mod.
    + rewrite Hz by (unfold is_u in *; lia). apply parses_ret.
  - eapply parses_map; [by apply parses_compressed_txout|]. by destruct u.
Qed.

Lemma emits_undo_list {A} (w : A -> stream_m unit) enc P l :
  (forall a, P a -> emits (w a) (enc a)) -> undo_list_ok P l -> emits (write_vector w l) (vector_bytes enc l).
Proof. intros Hw Hl. eapply emits_vector, Hl; [done|exact Hw]. Qed.

Lemma parses_undo_list {A} (r : stream_m A) enc P l :
  (forall a, P a -> parses r (enc a) a) -> undo_list_ok P l -> parses (undo_read_vector r) (vector_bytes enc l) l.
Proof.
  intros Hr [Hl HP]. eapply parses_bind; [apply parses_compact_size; by eapply zlen_u64; [|exact Hl]|].
  apply parses_guard; [apply alloc_total|]. apply parses_items; [unfold zlen; lia|]. eapply Forall_impl; eauto.
Qed.

Lemma emits_block_undo u : block_undo_ok u -> emits (block_undo_serialize u) (block_undo_bytes u).
Proof.
  intros [Hl _]. apply emits_bind; [|apply emits_write]. eapply emits_undo_list, Hl.
  intros tu Htu. eapply emits_undo_list, Htu. apply emits_tx_in_undo.
Qed.

Lemma parses_block_undo u : block_undo_ok u -> parses block_undo_deserialize (block_undo_bytes u) u.
Proof.
  destruct u as [v root]. intros [Hl Hr]. simpl in *. eapply parses_bind.
  - eapply parses_undo_list, Hl. intros tu Htu. eapply parses_undo_list, Htu. apply parses_tx_in_undo.
  - eapply parses_map; [by apply parses_fixed|]. done.
Qed.

End Codec.

(** ** Properties *)

(** undo records survive storage: a well-formed block undo record (every amount in the
    money range, every script within the size limit, uncompressed keys with agreeing parity
    bytes) is written successfully and read back identically, amounts and scripts
    decompressed, whatever bytes follow. *)
Theorem undo_roundtrip `{PubkeyOpsOk} `{AllocatorTotal} (u : block_undo) rest :
  block_undo_ok u -> zlen (block_undo_bytes u) <= SIZE_MAX ->
  exists l, written (block_undo_serialize u) = Some l /\
            parsed block_undo_deserialize (l ++ rest) = Some (u, rest).
Proof.
  intros Hu Hs. exists (block_undo_bytes u). split.
  - apply emits_written; [by apply emits_block_undo|done].
  - by apply parses_parsed, parses_block_undo.
Qed.

(** the script compressor takes the parity of an uncompressed public key from the wrong
    byte.  When the second-to-last byte of the key has the parity of the other point with
    the same abscissa, the output restored from its compressed form pays to that other
    point: the script is not the one compressed. *)
Theorem p2pk_parity_lost `{PubkeyOpsOk} (x y y' : bytes) :
  length x = 32%nat -> length y = 32%nat -> length y' = 32%nat ->
  pubkey_is_fully_valid (0x04 :: x ++ y) = true -> pubkey_is_fully_valid (0x04 :: x ++ y') = true ->
  y !!! 30%nat .& 0x01 = y' !!! 31%nat .& 0x01 -> y !!! 31%nat .& 0x01 <> y' !!! 31%nat .& 0x01 ->
  exists n data, coins_math_script_compress ([65; 4] ++ x ++ y ++ [OP_CHECKSIG]) = Some (n :: data) /\
    coins_math_script_decompress n data = Some ([65; 4] ++ x ++ y' ++ [OP_CHECKSIG]) /\
    [65; 4] ++ x ++ y' ++ [OP_CHECKSIG] <> [65; 4] ++ x ++ y ++ [OP_CHECKSIG].
Proof.
  intros Hx Hy Hy' Hv Hv' Hp Hne. set (s := [65; 4] ++ x ++ y ++ [OP_CHECKSIG]).
  assert (forall i, (i < 32)%nat -> at_ s (34 + i) = y !!! i) as Hat.
  { intros i Hi. unfold s, at_. rewrite !list_lookup_total_alt. f_equal.
    rewrite lookup_app_r by (simpl; lia). rewrite lookup_app_r by (simpl; lia).
    rewrite lookup_app_l by (simpl length; lia). f_equal. simpl length. lia. }
  assert (zlen s = 67) as Hl by (unfold s, zlen; rewrite !length_app, Hx, Hy; done).
  assert (at_ s 66 = OP_CHECKSIG) as H66.
  { unfold s, at_. rewrite !app_assoc. apply list_lookup_total_middle. rewrite !length_app, Hx, Hy. done. }
  assert (drop 1 s = (0x04 :: x ++ y) ++ [OP_CHECKSIG]) as Ed by (unfold s; cbn [app drop]; by rewrite <- app_assoc).
  exists (0x04 .| (y !!! 30%nat .& 0x01)), x. split_and!.
  - unfold coins_math_script_compress, is_p2pkh, is_p2sh, is_p2pk_compressed, is_p2pk_uncompressed.
    rewrite Hl, H66. change (at_ s 0) with 65. change (at_ s 1) with 4. cbn [Z.eqb Pos.eqb andb].
    change (OP_CHECKSIG =? OP_CHECKSIG) with true. cbn [andb].
    rewrite Ed, take_app_length', Hv by (cbn [length]; rewrite length_app; lia).
    rewrite <- (Hat 30%nat) by lia. change (34 + 30)%nat with 64%nat. do 2 f_equal. change (drop 2 s) with (x ++ y ++ [OP_CHECKSIG]).
    by rewrite take_app_length'.
  - apply decompress_full_key; [|done|done|].
    + pose proof (Z.land_ones (y !!! 30%nat) 1 ltac:(lia)) as E1. change (Z.ones 1) with 1 in E1. rewrite E1.
      change (2 ^ 1) with 2. pose proof (Z.mod_pos_bound (y !!! 30%nat) 2 ltac:(lia)). lia.
    + rewrite Hp. by apply pubkey_decompress_ok.
  - intros E. apply Hne. do 3 f_equal. unfold s in E. apply app_inv_head in E. apply app_inv_head in E.
    apply app_inj_1 in E as [<- _]; [done|lia].
Qed.

(** spending with undo capture is exact: it succeeds precisely on an available output;
    it makes that output, and no other, unavailable; putting the captured output back at its
    position restores the record; and when the record is left without outputs the undo
    record carries what is needed to rebuild it (coinbase flag, height, version). *)
Theorem capture_undo_exact (c : coins) (pos : Z) (undo : tx_in_undo) : 0 <= pos ->
  if coins_math_is_available c pos then
    exists c' u, coins_math_capture_undo c pos undo = Ok (c', u) /\
      with_vout c' (<[Z.to_nat pos := undo_txout u]> (coins_vout c')) = c /\
      (forall q, 0 <= q -> coins_math_is_available c' q = coins_math_is_available c q && negb (q =? pos)) /\
      (coins_math_is_pruned c' = true ->
       undo_coinbase u = is_coinbase c /\ undo_height u = u32 (coins_height c) /\ undo_version u = coins_version c)
  else exists e, coins_math_capture_undo c pos undo = Err e.
Proof.
  intros Hpos. unfold coins_math_is_available at 1, coins_math_capture_undo, coins_math_spend.
  destruct (coins_vout c !! Z.to_nat pos) as [o|] eqn:Eo; [|by eexists].
  destruct (tx_out_is_null o) eqn:En; cbn [negb]; [by eexists|]. unfold default, id.
  set (c' := with_vout c _). eexists c', _. split; [done|]. split_and!.
  - destruct (coins_math_is_pruned c'); cbn [undo_txout]; unfold c', with_vout; cbn [coins_vout];
      rewrite list_insert_insert_eq, (list_insert_id _ _ o Eo); by destruct c.
  - intros q Hq. unfold coins_math_is_available, c', with_vout. cbn [coins_vout].
    destruct (Z.eqb_spec q pos) as [->|Hne].
    + rewrite list_lookup_insert_eq by (by eapply lookup_lt_Some). by rewrite andb_false_r.
    + rewrite list_lookup_insert_ne by lia. by rewrite andb_true_r.
  - intros ->. done.
Qed.

(** ** Witnesses *)

(** A toy group in which the points over [x] have ordinate 0 or 1 *)
Definition toy_y (p : Z) : bytes := replicate 31 0 ++ [p].

Definition toy_keys : PubkeyOps := {|
  pubkey_is_fully_valid k := bool_decide (drop 33 k = toy_y 0 \/ drop 33 k = toy_y 1);
  pubkey_decompress k :=
    match k with h :: x => Some (0x04 :: x ++ toy_y (h .& 1)) | [] => None end |}.

Lemma toy_keys_ok : @PubkeyOpsOk toy_keys.
Proof.
  intros x y Hx Hy Hv. cbn in Hv. apply bool_decide_eq_true in Hv.
  rewrite drop_app_ge in Hv by lia. rewrite Hx, Nat.sub_diag, drop_0 in Hv.
  destruct Hv as [-> | ->]; done.
Qed.

Definition sample_undo : block_undo := {|
  vtxundo := [[{| undo_txout := {| value := 1250000000; script_pub_key := [0x51] |};
                  undo_coinbase := true; undo_height := 7; undo_version := 4 |}]];
  old_sprout_tree_root := replicate 32 9 |}.

Lemma sample_undo_ok : block_undo_ok sample_undo.
Proof.
  unfold block_undo_ok, undo_list_ok, vector_ok, tx_in_undo_ok, coin_out_ok, script_ok, parity_agrees, fixed,
    bytes_ok, is_u, is_s, zlen. simpl. repeat (split || constructor || lia || done).
Qed.

Lemma undo_roundtrip_witness :
  let A : Allocator := fun _ => true in
  exists l, written (@block_undo_serialize toy_keys A sample_undo) = Some l /\
            parsed (@block_undo_deserialize toy_keys A) (l ++ [3]) = Some (sample_undo, [3]).
Proof.
  intros A. apply (@undo_roundtrip toy_keys toy_keys_ok A (fun _ => eq_refl) sample_undo [3]).
  - exact sample_undo_ok.
  - vm_compute. discriminate.
Defined.

Lemma p2pk_parity_lost_witness :
  exists n data, @coins_math_script_compress toy_keys ([65; 4] ++ replicate 32 5 ++ toy_y 1 ++ [OP_CHECKSIG]) =
    Some (n :: data) /\
    @coins_math_script_decompress toy_keys n data = Some ([65; 4] ++ replicate 32 5 ++ toy_y 0 ++ [OP_CHECKSIG]) /\
    [65; 4] ++ replicate 32 5 ++ toy_y 0 ++ [OP_CHECKSIG] <> [65; 4] ++ replicate 32 5 ++ toy_y 1 ++ [OP_CHECKSIG].
Proof.
  apply (@p2pk_parity_lost toy_keys toy_keys_ok (replicate 32 5) (toy_y 1) (toy_y 0));
    [reflexivity..|vm_compute; discriminate].
Defined.

Lemma capture_undo_exact_witness :
  let c := {| is_coinbase := true; coins_vout := [{| value := 5; script_pub_key := [] |}];
              coins_height := 9; coins_version := 1 |} in
  exists c' u, coins_math_capture_undo c 0 tx_in_undo_init = Ok (c', u) /\
    with_vout c' (<[0%nat := undo_txout u]> (coins_vout c')) = c /\
    (forall q, 0 <= q -> coins_math_is_available c' q = coins_math_is_available c q && negb (q =? 0)) /\
    (coins_math_is_pruned c' = true ->
     undo_coinbase u = true /\ undo_height u = u32 9 /\ undo_version u = 1).
Proof. intros c. apply (capture_undo_exact c 0 tx_in_undo_init). lia. Defined.
