(* ===== verification/Coins.v ===== *)
(** * The coins table

    Models lib/storage/src/coins_kv.c, the table of unspent outputs keyed by (txid, vout),
    and the production resolver of app/jobs/src/utxo_apply_stage.c that reads it.  The table
    is a finite map.  SQLite returns the rows of a query in an order of its own choice: the
    scan is a parameter ([RowScan]) of which only its documented behaviour, each matching
    row once, is assumed ([RowScanOk]). *)

From stdpp Require Import gmap.
From S2P Require Import Prelude Serialize Script Transaction CoinsMath.

#[export] Instance outpoint_countable : Countable outpoint.
Proof.
  refine (inj_countable' (fun o => (op_hash o, op_n o)) (fun p => {| op_hash := p.1; op_n := p.2 |}) _).
  by intros [].
Defined.

Record coin := Coin {
  coin_value : Z;
  coin_height : Z;
  coin_coinbase : bool;
  coin_script : script;
}.

#[export] Instance coin_eq_dec : EqDecision coin.
Proof. solve_decision. Defined.

Abbreviation coins_table := (gmap outpoint coin).

(** ** Writing *)

(** INSERT OR REPLACE *)
Definition coins_kv_add (op : outpoint) (value height : Z) (is_coinbase : bool) (sc : script)
    (t : coins_table) : coins_table :=
  <[op := {| coin_value := value; coin_height := i32 height; coin_coinbase := is_coinbase; coin_script := sc |}]> t.

(** DELETE: succeeds also when there is no such row *)
Definition coins_kv_spend (op : outpoint) (t : coins_table) : coins_table := delete op t.

(** ** Reading *)

Definition coins_kv_exists (t : coins_table) (op : outpoint) : bool := bool_decide (is_Some (t !! op)).

(** The rows of a transaction, in table order *)
Definition txid_rows (t : coins_table) (txid : uint256_t) : list (Z * coin) :=
  omap (fun '(op, c) => if bool_decide (op_hash op = txid) then Some (op_n op, c) else None) (map_to_list t).

Class RowScan := scan_rows : coins_table -> uint256_t -> list (Z * coin).

Class RowScanOk `{RowScan} := scan_rows_perm : forall t txid, scan_rows t txid ≡ₚ txid_rows t txid.

Definition max_vout (rows : list (Z * coin)) : Z :=
  foldl (fun m r => if r.1 >? m then r.1 else m) 0 rows.

(** The second pass of the query: fill the output array. *)
Definition fill_vouts (num_vout : Z) (l : list tx_out) (rows : list (Z * coin)) : list tx_out :=
  foldl (fun l r =>
    if r.1 >=? num_vout then l
    else <[Z.to_nat r.1 := {| value := coin_value r.2; script_pub_key := take (Z.to_nat MAX_SCRIPT_SIZE) (coin_script r.2) |}]> l)
    l rows.

Section Scan.
Context `{RowScan}.

(** Height and coinbase flag of the record are those of the first row. *)
Definition coins_kv_get_coins (t : coins_table) (txid : uint256_t) : option coins :=
  match scan_rows t txid with
  | [] => None
  | ((_, c0) :: _) as rows =>
      let num_vout := u32 (max_vout rows + 1) in
      Some (coins_math_cleanup
        {| is_coinbase := coin_coinbase c0;
           coins_vout := fill_vouts num_vout (replicate (Z.to_nat num_vout) tx_out_set_null) rows;
           coins_height := coin_height c0;
           coins_version := 1 |})
  end.

Definition UTXO_APPLY_SCRIPT_MAX : Z := 10000.

Record utxo_apply_lookup := UtxoApplyLookup {
  lk_found : bool;
  lk_value : Z;
  lk_height : Z;
  lk_coinbase : bool;
  lk_script : script;
}.

Definition lookup_absent : utxo_apply_lookup :=
  {| lk_found := false; lk_value := 0; lk_height := 0; lk_coinbase := false; lk_script := [] |}.

(** [None]: the resolver failed *)
Definition projection_live_lookup (t : coins_table) (op : outpoint) : option utxo_apply_lookup :=
  match coins_kv_get_coins t (op_hash op) with
  | None => Some lookup_absent
  | Some c =>
      match coins_vout c !! Z.to_nat (op_n op) with
      | None => Some lookup_absent
      | Some o =>
          if tx_out_is_null o then Some lookup_absent
          else if zlen (script_pub_key o) >? UTXO_APPLY_SCRIPT_MAX then None
          else Some {| lk_found := true; lk_value := value o;
                       lk_height := if coins_height c <? 0 then 0 else u32 (coins_height c);
                       lk_coinbase := is_coinbase c; lk_script := script_pub_key o |}
      end
  end.

End Scan.

(** ** Well-formed tables *)

Definition coin_row_ok (op : outpoint) (c : coin) : Prop :=
  0 <= op_n op < 2 ^ 32 - 1 /\ 0 <= coin_value c <= MAX_MONEY /\ 0 <= coin_height c < 2 ^ 31 /\
  zlen (coin_script c) <= MAX_SCRIPT_SIZE.

Definition table_ok (t : coins_table) : Prop := map_Forall coin_row_ok t.

(** The outputs of one transaction were created together. *)
Definition txid_uniform (t : coins_table) : Prop := forall op op' c c',
  t !! op = Some c -> t !! op' = Some c' -> op_hash op = op_hash op' ->
  coin_height c = coin_height c' /\ coin_coinbase c = coin_coinbase c'.

(** What the resolver is meant to return *)
Definition live_coin (t : coins_table) (op : outpoint) : utxo_apply_lookup :=
  match t !! op with
  | None => lookup_absent
  | Some c => {| lk_found := true; lk_value := coin_value c; lk_height := coin_height c;
                 lk_coinbase := coin_coinbase c; lk_script := coin_script c |}
  end.

(** ** The resolver reads the table *)

Lemma txid_rows_spec (t : coins_table) txid v c :
  (v, c) ∈ txid_rows t txid <-> t !! {| op_hash := txid; op_n := v |} = Some c.
Proof.
  unfold txid_rows. rewrite list_elem_of_omap. split.
  - intros ([op c'] & Hin & E). apply elem_of_map_to_list in Hin. case_bool_decide as Hh; [|done].
    injection E as <- <-. subst txid. by destruct op.
  - intros Hl. exists ({| op_hash := txid; op_n := v |}, c). split; [by apply elem_of_map_to_list|].
    by rewrite bool_decide_true.
Qed.

Lemma txid_rows_nodup (t : coins_table) txid : NoDup (txid_rows t txid).*1.
Proof.
  unfold txid_rows. pose proof (NoDup_fst_map_to_list t) as Hnd.
  induction (map_to_list t) as [|[op c] l IH]; [constructor|].
  cbn [fmap list_fmap omap list_omap]. apply NoDup_cons in Hnd as [Hni Hnd]. specialize (IH Hnd).
  case_bool_decide as Hh; [|done]. cbn [fmap list_fmap]. apply NoDup_cons. split; [|done].
  intros ([v c'] & Ev & ([op' c''] & Hin & E)%list_elem_of_omap)%list_elem_of_fmap.
  case_bool_decide as Hh'; [|done]. injection E as E <-. apply Hni. apply list_elem_of_fmap.
  exists (op', c''). split; [|done]. destruct op, op'; simpl in *. by subst.
Qed.

Lemma max_vout_ge rows m v c : (v, c) ∈ rows ->
  v <= foldl (fun m r => if r.1 >? m then r.1 else m) m (rows : list (Z * coin)).
Proof.
  assert (forall rows m, m <= foldl (fun m r => if r.1 >? m then r.1 else m) m (rows : list (Z * coin))) as Hmono.
  { clear. induction rows as [|r rows IH]; intros m; [done|]. cbn [foldl].
    destruct (Z.gtb_spec r.1 m); [etrans; [|apply IH]; lia|apply IH]. }
  revert m. induction rows as [|r rows IH]; intros m Hin; [by apply elem_of_nil in Hin|].
  cbn [foldl]. apply elem_of_cons in Hin as [<-|Hin]; [|by apply IH].
  cbn [fst]. etrans; [|apply Hmono]. destruct (Z.gtb_spec v m); lia.
Qed.

Lemma max_vout_lt rows m b : m < b -> (forall r, r ∈ rows -> r.1 < b) ->
  foldl (fun m r => if r.1 >? m then r.1 else m) m (rows : list (Z * coin)) < b.
Proof.
  revert m. induction rows as [|r rows IH]; intros m Hm Hr; [done|]. cbn [foldl]. apply IH.
  - destruct (Z.gtb_spec r.1 m); [apply Hr; left|done].
  - intros r' Hin. apply Hr. by right.
Qed.

(** Where each row ends up in the output array *)
Lemma fill_vouts_lookup num rows l n : NoDup rows.*1 -> (forall r, r ∈ rows -> 0 <= r.1 < num) ->
  length l = Z.to_nat num -> 0 <= n < num ->
  fill_vouts num l rows !! Z.to_nat n =
  match list_find (fun r : Z * coin => r.1 = n) rows with
  | Some (_, r) => Some {| value := coin_value r.2; script_pub_key := take (Z.to_nat MAX_SCRIPT_SIZE) (coin_script r.2) |}
  | None => l !! Z.to_nat n
  end.
Proof.
  revert l. induction rows as [|r rows IH]; intros l Hnd Hr Hl Hn; [done|].
  unfold fill_vouts. cbn [foldl list_find]. fold (fill_vouts num).
  cbn [fmap list_fmap] in Hnd. apply NoDup_cons in Hnd as [Hni Hnd].
  pose proof (Hr r ltac:(left)) as Hr0. replace (r.1 >=? num) with false by lia.
  change (foldl _ ?l rows) with (fill_vouts num l rows).
  rewrite IH; [|done|intros; apply Hr; by right|by rewrite length_insert|done].
  destruct (decide (r.1 = n)) as [<-|Hne].
  - destruct (list_find _ rows) as [[i r']|] eqn:E.
    + apply list_find_Some in E as (Hi & E' & _). exfalso. apply Hni. rewrite <- E'.
      apply list_elem_of_fmap. exists r'. split; [done|]. by eapply list_elem_of_lookup_2.
    + rewrite list_lookup_insert_eq by lia. done.
  - destruct (list_find _ rows) as [[i r']|] eqn:E; [done|].
    by rewrite list_lookup_insert_ne by lia.
Qed.

Lemma drop_nulls_suffix l : exists pre, l = pre ++ drop_nulls l /\ Forall (fun o => tx_out_is_null o = true) pre.
Proof.
  induction l as [|o l (pre & E & Hp)]; [by exists []|]. cbn [drop_nulls].
  destruct (tx_out_is_null o) eqn:Eo; [|by exists []].
  exists (o :: pre). split; [cbn [app]; by rewrite <- E|by constructor].
Qed.

(** Trimming only removes null outputs. *)
Lemma cleanup_lookup c n :
  coins_vout (coins_math_cleanup c) !! n = coins_vout c !! n \/
  coins_vout (coins_math_cleanup c) !! n = None /\
    exists o, coins_vout c !! n = Some o /\ tx_out_is_null o = true.
Proof.
  unfold coins_math_cleanup, with_vout. cbn [coins_vout]. set (l := coins_vout c).
  destruct (drop_nulls_suffix (reverse l)) as (pre & E & Hp).
  apply (f_equal reverse) in E. rewrite reverse_involutive, reverse_app in E.
  set (k := reverse (drop_nulls (reverse l))) in E |- *. clearbody k. rewrite E.
  destruct (decide (n < length k)%nat) as [Hn|Hn].
  { left. by rewrite lookup_app_l. }
  rewrite lookup_app_r by lia. rewrite (lookup_ge_None_2 k) by lia.
  destruct (reverse pre !! (n - length k)%nat) as [o|] eqn:Eo; [right|by left].
  split; [done|]. exists o. split; [done|]. apply Forall_reverse in Hp.
  by eapply (Forall_lookup_1 _ _ _ _ Hp).
Qed.

Section Resolve.
Context `{RowScanOk}.

Lemma scan_rows_spec t txid v c :
  (v, c) ∈ scan_rows t txid <-> t !! {| op_hash := txid; op_n := v |} = Some c.
Proof. rewrite scan_rows_perm. apply txid_rows_spec. Qed.

Lemma scan_rows_nodup t txid : NoDup (scan_rows t txid).*1.
Proof. rewrite scan_rows_perm. apply txid_rows_nodup. Qed.

(** The resolver returns the row of the outpoint itself, whatever the order of the scan. *)
Lemma live_lookup_spec t op : table_ok t -> txid_uniform t -> 0 <= op_n op ->
  projection_live_lookup t op = Some (live_coin t op).
Proof.
  intros Hok Hun Hn. unfold projection_live_lookup, coins_kv_get_coins, live_coin.
  pose proof (scan_rows_nodup t (op_hash op)) as Hnd.
  assert (forall v c, (v, c) ∈ scan_rows t (op_hash op) -> coin_row_ok {| op_hash := op_hash op; op_n := v |} c) as Hrow.
  { intros v c Hin%scan_rows_spec. by apply (Hok _ _ Hin). }
  assert (forall v c, (v, c) ∈ scan_rows t (op_hash op) <-> t !! {| op_hash := op_hash op; op_n := v |} = Some c)
    as Hspec by (intros; apply scan_rows_spec).
  destruct (scan_rows t (op_hash op)) as [|[v0 c0] rest] eqn:Er.
  { destruct (t !! op) as [c|] eqn:El; [|done]. exfalso. apply (elem_of_nil (op_n op, c)).
    apply Hspec. by destruct op. }
  set (rows := (v0, c0) :: rest) in *.
  assert (0 <= max_vout rows < 2 ^ 32 - 1) as Hmax.
  { split; [etrans; [|eapply (max_vout_ge rows 0 v0 c0); left]; apply (Hrow v0 c0 ltac:(left))|].
    apply max_vout_lt; [lia|]. intros [v c] Hin. apply (Hrow v c Hin). }
  rewrite uwrap_small by (unfold is_u; lia). set (num := max_vout rows + 1).
  assert (forall r, r ∈ rows -> 0 <= r.1 < num) as Hr.
  { intros [v c] Hin. pose proof (Hrow v c Hin) as (Hv & _). pose proof (max_vout_ge rows 0 v c Hin) as Hm.
    fold (max_vout rows) in Hm. cbn [op_n fst] in *. unfold num. lia. }
  set (cs := {| is_coinbase := _; coins_vout := _; coins_height := _; coins_version := _ |}).
  assert (coins_height (coins_math_cleanup cs) = coin_height c0) as -> by done.
  assert (is_coinbase (coins_math_cleanup cs) = coin_coinbase c0) as -> by done.
  destruct (t !! op) as [c|] eqn:El.
  - assert ((op_n op, c) ∈ rows) as Hin by (apply Hspec; by destruct op).
    pose proof (Hrow _ _ Hin) as (_ & Hval & Hh & Hs). pose proof (Hr _ Hin) as Hb. simpl in Hb.
    assert (coins_vout cs !! Z.to_nat (op_n op) = Some {| value := coin_value c; script_pub_key := coin_script c |}) as Ec.
    { unfold cs. cbn [coins_vout]. rewrite fill_vouts_lookup; [|done|done|by rewrite length_replicate|done].
      destruct (list_find _ rows) as [[i [v c']]|] eqn:Ef.
      - apply list_find_Some in Ef as (Hi & E' & _). simpl in E'. subst v.
        apply list_elem_of_lookup_2, Hspec in Hi. assert (op = OutPoint (op_hash op) (op_n op)) as Eop by (by destruct op).
        rewrite <- Eop, El in Hi. injection Hi as <-. cbn [snd]. rewrite take_ge; [done|].
        unfold zlen, MAX_SCRIPT_SIZE in *. lia.
      - apply list_find_None in Ef. rewrite Forall_forall in Ef. by destruct (Ef _ Hin). }
    assert (tx_out_is_null {| value := coin_value c; script_pub_key := coin_script c |} = false) as Enull.
    { unfold tx_out_is_null. simpl. lia. }
    destruct (cleanup_lookup cs (Z.to_nat (op_n op))) as [->|(_ & o & E' & En)];
      [|rewrite Ec in E'; injection E' as <-; congruence].
    rewrite Ec, Enull. cbn [script_pub_key value]. replace (zlen _ >? _) with false by
      (unfold UTXO_APPLY_SCRIPT_MAX, MAX_SCRIPT_SIZE in *; lia).
    assert (t !! {| op_hash := op_hash op; op_n := v0 |} = Some c0) as Hc0 by (apply Hspec; left).
    destruct (Hun _ _ _ _ Hc0 El eq_refl) as [-> ->]. replace (_ <? 0) with false by lia.
    by rewrite uwrap_small by (unfold is_u; lia).
  - assert (coins_vout cs !! Z.to_nat (op_n op) = None \/
            coins_vout cs !! Z.to_nat (op_n op) = Some tx_out_set_null) as Hc.
    { unfold cs. cbn [coins_vout]. destruct (decide (op_n op < num)) as [Hlt|Hge].
      - rewrite fill_vouts_lookup; [|done|done|by rewrite length_replicate|lia].
        destruct (list_find _ rows) as [[i [v c']]|] eqn:Ef.
        + apply list_find_Some in Ef as (Hi & E' & _). simpl in E'. subst v.
          apply list_elem_of_lookup_2, Hspec in Hi. assert (op = OutPoint (op_hash op) (op_n op)) as Eop by (by destruct op).
          by rewrite <- Eop, El in Hi.
        + right. apply lookup_replicate_2. lia.
      - left. apply lookup_ge_None_2. assert (forall r l, length (fill_vouts num l r) = length l) as Hlen.
        { intros r. induction r as [|x r IH]; intros l; [done|]. unfold fill_vouts. cbn [foldl].
          change (foldl _ ?l r) with (fill_vouts num l r). rewrite IH. case_if; [done|]. by rewrite length_insert. }
        rewrite Hlen, length_replicate. lia. }
    destruct (cleanup_lookup cs (Z.to_nat (op_n op))) as [->|(-> & _)]; [|done].
    by destruct Hc as [-> | ->].
Qed.

End Resolve.

(** Rows in the order of the table: one order a scan can have *)
Definition key_order : RowScan := txid_rows.

Lemma key_order_ok : @RowScanOk key_order.
Proof. intros t txid. reflexivity. Qed.
