(* ===== verification/UtxoDelta.v ===== *)
(** * Block deltas

    Models app/jobs/src/utxo_apply_delta.c and the delta part of utxo_apply_delta_reorg.c:
    computing the transparent delta of a block (the coins it spends and creates) with the
    money rules of the apply stage, applying it to the coins table, storing it, and
    applying the stored inverse.  Sums are in 64-bit two's complement, as compiled. *)

From stdpp Require Import gmap.
From S2P Require Import Prelude Serialize Script Transaction Params Block CoinsMath Coins.

Definition MAX_MONEY_ZAT : Z := 2100000000000000.

Record delta_entry := DeltaEntry {
  d_txid : uint256_t;
  d_vout : Z;
  d_value : Z;
  d_script : script;
  d_coinbase : bool;
  d_height : Z;
}.

Definition d_outpoint (e : delta_entry) : outpoint := {| op_hash := d_txid e; op_n := d_vout e |}.

Record delta_summary := DeltaSummary {
  spent : list delta_entry;
  added : list delta_entry;
  total_value_delta : Z;
}.

Inductive delta_status := SPEND_UNKNOWN_UTXO | VALUE_OVERFLOW | UTXO_COLLISION | PREMATURE_COINBASE_SPEND | INTERNAL_ERROR.

Inductive failure_kind :=
  | lookup_spend | lookup_output | spend_unknown_utxo | input_value | output_value | bad_premature_spend
  | script_too_large | duplicate_output | utxo_collision | inputvalues_outofrange | outputs_exceed_inputs
  | fees_out_of_range | total_value_delta_range | bad_cb_reward_overflow | bad_cb_amount.

Record delta_failure := DeltaFailure {
  failure_status : delta_status;
  failed_kind : failure_kind;
  failure_detail : bytes;
}.

Definition failure_detail_set (txid : uint256_t) (vout : Z) : bytes :=
  txid ++ [u8 vout; u8 (vout ≫ 8); u8 (vout ≫ 16); u8 (vout ≫ 24)].

Definition delta_fail {A} (status : delta_status) (kind : failure_kind) (txid : uint256_t) (vout : Z)
    : result delta_failure A :=
  Err {| failure_status := status; failed_kind := kind; failure_detail := failure_detail_set txid vout |}.

(** Failures recorded without a detail *)
Definition plain_fail {A} (status : delta_status) (kind : failure_kind) : result delta_failure A :=
  Err {| failure_status := status; failed_kind := kind; failure_detail := replicate 36 0 |}.

(** The first recorded entry of the outpoint *)
Fixpoint lookup_added (added : list delta_entry) (txid : uint256_t) (vout : Z) : option delta_entry :=
  match added with
  | [] => None
  | e :: r => if (d_vout e =? vout) && uint256_eq (d_txid e) txid then Some e else lookup_added r txid vout
  end.

(** ** Computing the delta *)

Section Compute.
Context (params : consensus_params) (block_height : Z) (lookup : outpoint -> option utxo_apply_lookup).

(** The arrays and the running total *)
Record delta_acc := DeltaAcc {
  acc_spent : list delta_entry;
  acc_added : list delta_entry;
  acc_total : Z;
}.

(** What an input resolves to: an output of this block, or a coin of the table *)
Definition resolve_input (acc : delta_acc) (op : outpoint) : result delta_failure utxo_apply_lookup :=
  match lookup_added (acc_added acc) (op_hash op) (op_n op) with
  | Some intra => Ok {| lk_found := true; lk_value := d_value intra; lk_height := block_height;
                        lk_coinbase := d_coinbase intra; lk_script := d_script intra |}
  | None =>
      match lookup op with
      | None => plain_fail INTERNAL_ERROR lookup_spend
      | Some lk => if lk_found lk then Ok lk
                   else delta_fail SPEND_UNKNOWN_UTXO spend_unknown_utxo (op_hash op) (op_n op)
      end
  end.

Definition spend_input (i : tx_in) (st : delta_acc * Z) : result delta_failure (delta_acc * Z) :=
  let '(acc, tx_input_value) := st in
  let op := prevout i in
  c ← resolve_input acc op;
  if (lk_value c <? 0) || (lk_value c >? MAX_MONEY_ZAT)
  then delta_fail VALUE_OVERFLOW input_value (op_hash op) (op_n op)
  else if lk_coinbase c && (block_height - lk_height c <? COINBASE_MATURITY)
  then delta_fail PREMATURE_COINBASE_SPEND bad_premature_spend (op_hash op) (op_n op)
  else if zlen (lk_script c) >? UTXO_APPLY_SCRIPT_MAX then plain_fail INTERNAL_ERROR script_too_large
  else
    let se := {| d_txid := op_hash op; d_vout := op_n op; d_value := lk_value c; d_script := lk_script c;
                 d_coinbase := lk_coinbase c; d_height := lk_height c |} in
    Ok ({| acc_spent := acc_spent acc ++ [se]; acc_added := acc_added acc;
           acc_total := i64 (acc_total acc - lk_value c) |}, i64 (tx_input_value + lk_value c)).

Fixpoint spend_inputs (ins : list tx_in) (st : delta_acc * Z) : result delta_failure (delta_acc * Z) :=
  match ins with
  | [] => Ok st
  | i :: r => st ← spend_input i st; spend_inputs r st
  end.

Definition add_output (tx : transaction) (vo : Z) (txo : tx_out) (acc : delta_acc) : result delta_failure delta_acc :=
  if tx_out_is_null txo then Ok acc
  else if (value txo <? 0) || (value txo >? MAX_MONEY_ZAT)
  then delta_fail VALUE_OVERFLOW output_value (tx_hash tx) vo
  else match lookup_added (acc_added acc) (tx_hash tx) vo with
  | Some _ => delta_fail UTXO_COLLISION duplicate_output (tx_hash tx) vo
  | None =>
      match lookup {| op_hash := tx_hash tx; op_n := vo |} with
      | None => plain_fail INTERNAL_ERROR lookup_output
      | Some lk =>
          if lk_found lk then delta_fail UTXO_COLLISION utxo_collision (tx_hash tx) vo
          else
            let ae := {| d_txid := tx_hash tx; d_vout := vo; d_value := value txo; d_script := script_pub_key txo;
                         d_coinbase := transaction_is_coinbase tx; d_height := 0 |} in
            Ok {| acc_spent := acc_spent acc; acc_added := acc_added acc ++ [ae];
                  acc_total := i64 (acc_total acc + value txo) |}
      end
  end.

Fixpoint add_outputs (tx : transaction) (vo : Z) (outs : list tx_out) (acc : delta_acc) : result delta_failure delta_acc :=
  match outs with
  | [] => Ok acc
  | o :: r => acc ← add_output tx (u32 vo) o acc; add_outputs tx (vo + 1) r acc
  end.

(** The money rule of a transaction that is not a coinbase; the new fee total *)
Definition money_rule (tx : transaction) (tx_input_value total_fees : Z) : result delta_failure Z :=
  let sh_in := transaction_get_shielded_value_in tx in
  let value_out_full := transaction_get_value_out tx in
  if (sh_in <? 0) || (value_out_full <? 0) || (sh_in >? i64 (MAX_MONEY_ZAT - tx_input_value))
  then delta_fail VALUE_OVERFLOW inputvalues_outofrange (tx_hash tx) 0
  else
    let value_in_full := i64 (tx_input_value + sh_in) in
    if value_in_full <? value_out_full then delta_fail VALUE_OVERFLOW outputs_exceed_inputs (tx_hash tx) 0
    else
      let tx_fee := i64 (value_in_full - value_out_full) in
      if tx_fee >? i64 (MAX_MONEY_ZAT - total_fees) then delta_fail VALUE_OVERFLOW fees_out_of_range (tx_hash tx) 0
      else Ok (i64 (total_fees + tx_fee)).

Definition apply_tx (tx : transaction) (st : delta_acc * Z) : result delta_failure (delta_acc * Z) :=
  let '(acc, total_fees) := st in
  st1 ← (if transaction_is_coinbase tx then Ok (acc, 0) else spend_inputs (vin tx) (acc, 0));
  acc2 ← add_outputs tx 0 (vout tx) st1.1;
  fees ← (if transaction_is_coinbase tx then Ok total_fees else money_rule tx st1.2 total_fees);
  Ok (acc2, fees).

Fixpoint apply_txs (txs : list transaction) (st : delta_acc * Z) : result delta_failure (delta_acc * Z) :=
  match txs with
  | [] => Ok st
  | tx :: r => st ← apply_tx tx st; apply_txs r st
  end.

(** The coinbase ceiling *)
Definition check_reward (txs : list transaction) (total_fees : Z) : result delta_failure unit :=
  match txs with
  | tx0 :: _ =>
      if transaction_is_coinbase tx0 then
        let subsidy := get_block_subsidy params (i32 block_height) in
        if (subsidy <? 0) || (total_fees >? INT64_MAX - subsidy)
        then delta_fail VALUE_OVERFLOW bad_cb_reward_overflow (tx_hash tx0) 0
        else
          let block_reward := subsidy + total_fees in
          let cb_value_out := transaction_get_value_out tx0 in
          if (cb_value_out <? 0) || (cb_value_out >? block_reward)
          then delta_fail VALUE_OVERFLOW bad_cb_amount (tx_hash tx0) 0 else Ok tt
      else Ok tt
  | [] => Ok tt
  end.

Definition utxo_apply_compute_block_delta (txs : list transaction) : result delta_failure delta_summary :=
  st ← apply_txs txs ({| acc_spent := []; acc_added := []; acc_total := 0 |}, 0);
  let '(acc, total_fees) := st in
  if (acc_total acc >? MAX_MONEY_ZAT) || (acc_total acc <? - MAX_MONEY_ZAT)
  then plain_fail VALUE_OVERFLOW total_value_delta_range
  else
    check_reward txs total_fees;;
    Ok {| spent := acc_spent acc; added := acc_added acc; total_value_delta := acc_total acc |}.

End Compute.

(** ** Applying a delta *)

Definition add_entry (height : Z) (t : coins_table) (e : delta_entry) : coins_table :=
  coins_kv_add (d_outpoint e) (d_value e) height (d_coinbase e) (d_script e) t.

Definition spend_entry (t : coins_table) (e : delta_entry) : coins_table := coins_kv_spend (d_outpoint e) t.

Definition apply_coins_kv (s : delta_summary) (height : Z) (t : coins_table) : coins_table :=
  foldl spend_entry (foldl (add_entry height) t (added s)) (spent s).

(** ** Storing a delta and applying the stored inverse *)

Definition blob_put_u32 (v : Z) : bytes := le_encode 4 v.

Definition blob_put_i64 (v : Z) : bytes := le_encode 8 (u64 v).

Definition spent_entry_bytes (e : delta_entry) : bytes :=
  d_txid e ++ blob_put_u32 (d_vout e) ++ blob_put_i64 (d_value e) ++ blob_put_u32 (d_height e) ++
  [if d_coinbase e then 1 else 0] ++ blob_put_u32 (zlen (d_script e)) ++ d_script e.

Definition serialize_spent (s : delta_summary) : bytes := mjoin (map spent_entry_bytes (spent s)).

Definition added_entry_bytes (e : delta_entry) : bytes := d_txid e ++ blob_put_u32 (d_vout e).

Definition serialize_added (s : delta_summary) : bytes := mjoin (map added_entry_bytes (added s)).

(** A reader of the blob: the value and the rest, or [None] at the end of the blob *)
Definition blob_take (n : Z) (p : bytes) : option (bytes * bytes) :=
  if n <=? zlen p then Some (take (Z.to_nat n) p, drop (Z.to_nat n) p) else None.

Definition blob_get_u32 (p : bytes) : option (Z * bytes) :=
  '(b, p) ← blob_take 4 p; Some (le_decode b, p).

Definition blob_get_i64 (p : bytes) : option (Z * bytes) :=
  '(b, p) ← blob_take 8 p; Some (i64 (le_decode b), p).

(** [while (p + 36 <= end)]: spend every created outpoint; a shorter tail is ignored.
    Every round consumes 36 bytes, so the length of the blob is enough fuel. *)
Fixpoint inverse_adds (fuel : nat) (p : bytes) (t : coins_table) : coins_table :=
  match fuel with
  | O => t
  | S f =>
      match blob_take 32 p ≫= (fun '(txid, p) => '(vout, p) ← blob_get_u32 p; Some (txid, vout, p)) with
      | Some (txid, vout, p) => inverse_adds f p (coins_kv_spend {| op_hash := txid; op_n := vout |} t)
      | None => t
      end
  end.

(** One restored coin *)
Definition parse_spent (p : bytes) : option (delta_entry * bytes) :=
  '(txid, p) ← blob_take 32 p;
  '(vout, p) ← blob_get_u32 p;
  '(value, p) ← blob_get_i64 p;
  '(ch, p) ← blob_get_u32 p;
  '(cb, p) ← blob_take 1 p;
  '(slen, p) ← blob_get_u32 p;
  '(sc, p) ← (if slen =? 0 then Some ([], p) else blob_take slen p);
  Some ({| d_txid := txid; d_vout := vout; d_value := value; d_script := sc;
           d_coinbase := negb (le_decode cb =? 0); d_height := ch |}, p).

(** [while (p < end)]: add every spent coin back; [None] on a malformed blob.  Every round
    consumes at least 53 bytes. *)
Fixpoint inverse_spends (fuel : nat) (p : bytes) (t : coins_table) : option coins_table :=
  match p with
  | [] => Some t
  | _ =>
      match fuel with
      | O => None
      | S f =>
          match parse_spent p with
          | Some (e, p) => inverse_spends f p (add_entry (i32 (d_height e)) t e)
          | None => None
          end
      end
  end.

(** The inverse delta of one stored row *)
Definition utxo_apply_emit_inverse_delta (spent_blob added_blob : bytes) (t : coins_table) : option coins_table :=
  inverse_spends (length spent_blob) spent_blob (inverse_adds (length added_blob) added_blob t).

(** ** Well-formed blocks of transactions *)

Definition delta_tx_ok (tx : transaction) : Prop :=
  fixed 32 (tx_hash tx) /\ is_s 64 (value_balance tx) /\ zlen (vout tx) < 2 ^ 32 - 1 /\
  Forall (fun i => outpoint_ok (prevout i)) (vin tx) /\
  Forall (fun o => zlen (script_pub_key o) <= MAX_SCRIPT_SIZE) (vout tx).

(** The coin an entry stands for, created or restored at a height *)
Definition entry_coin (height : Z) (e : delta_entry) : coin :=
  {| coin_value := d_value e; coin_height := i32 height; coin_coinbase := d_coinbase e; coin_script := d_script e |}.

(** ** Reference semantics: one coin at a time *)

Definition mature (h : Z) (c : coin) : bool := negb (coin_coinbase c) || (COINBASE_MATURITY <=? h - coin_height c).

(** Spending needs a live and mature coin *)
Definition spend_coin (h : Z) (u : coins_table) (op : outpoint) : option coins_table :=
  c ← u !! op; if mature h c then Some (delete op u) else None.

Fixpoint spend_coins (h : Z) (ops : list outpoint) (u : coins_table) : option coins_table :=
  match ops with [] => Some u | op :: r => u ← spend_coin h u op; spend_coins h r u end.

(** Creating needs a free outpoint; a null output creates nothing *)
Definition create_coin (h : Z) (tx : transaction) (vo : Z) (o : tx_out) (u : coins_table) : option coins_table :=
  if tx_out_is_null o then Some u
  else
    let op := {| op_hash := tx_hash tx; op_n := vo |} in
    if u !! op is Some _ then None
    else Some (<[op := {| coin_value := value o; coin_height := h; coin_coinbase := transaction_is_coinbase tx;
                          coin_script := script_pub_key o |}]> u).

Fixpoint create_coins (h : Z) (tx : transaction) (vo : Z) (outs : list tx_out) (u : coins_table) : option coins_table :=
  match outs with [] => Some u | o :: r => u ← create_coin h tx vo o u; create_coins h tx (vo + 1) r u end.

(** The outpoints a transaction consumes *)
Definition spends (tx : transaction) : list outpoint :=
  if transaction_is_coinbase tx then [] else map prevout (vin tx).

Definition connect_tx (h : Z) (u : coins_table) (tx : transaction) : option coins_table :=
  u ← spend_coins h (spends tx) u; create_coins h tx 0 (vout tx) u.

Fixpoint connect_txs (h : Z) (txs : list transaction) (u : coins_table) : option coins_table :=
  match txs with [] => Some u | tx :: r => u ← connect_tx h u tx; connect_txs h r u end.

(** ** The table after a list of entries *)

Lemma foldl_insert_other {A} (key : A -> outpoint) (val : A -> coin) (l : list A) (t : coins_table) op :
  op ∉ map key l -> foldl (fun t a => <[key a := val a]> t) t l !! op = t !! op.
Proof.
  revert t. induction l as [|a l IH]; intros t Hni; [done|]. cbn [map] in Hni.
  apply not_elem_of_cons in Hni as [Hne Hni]. cbn [foldl]. rewrite IH by done. by apply lookup_insert_ne.
Qed.

Lemma foldl_insert_lookup {A} (key : A -> outpoint) (val : A -> coin) (l : list A) (t : coins_table) op c :
  op ∈ map key l -> (forall a, a ∈ l -> key a = op -> val a = c) ->
  foldl (fun t a => <[key a := val a]> t) t l !! op = Some c.
Proof.
  revert t. induction l as [|a l IH]; intros t Hin Hv; [by apply elem_of_nil in Hin|]. cbn [foldl map] in *.
  destruct (decide (op ∈ map key l)) as [Hl|Hl].
  - apply IH; [done|]. intros b Hb. apply Hv. by right.
  - rewrite foldl_insert_other by done. apply elem_of_cons in Hin as [->|]; [|done].
    rewrite lookup_insert_eq. f_equal. apply Hv; [left|done].
Qed.

Lemma foldl_delete_lookup {A} (key : A -> outpoint) (l : list A) (t : coins_table) op :
  foldl (fun t a => delete (key a) t) t l !! op = if decide (op ∈ map key l) then None else t !! op.
Proof.
  revert t. induction l as [|a l IH]; intros t; [done|]. cbn [foldl map]. rewrite IH.
  destruct (decide (op ∈ map key l)); [by rewrite decide_True by (by right)|].
  destruct (decide (op = key a)) as [->|Hne].
  - rewrite decide_True by left. by rewrite lookup_delete_eq.
  - rewrite decide_False by (intros [->|]%elem_of_cons; done). by rewrite lookup_delete_ne.
Qed.

Lemma nodup_key_inj {A K} (key : A -> K) (l : list A) a b :
  NoDup (map key l) -> a ∈ l -> b ∈ l -> key a = key b -> a = b.
Proof.
  induction l as [|x l IH]; cbn [map]; [by intros _ ?%elem_of_nil|]. intros [Hni Hnd]%NoDup_cons Ha Hb E.
  apply elem_of_cons in Ha as [->|Ha]; apply elem_of_cons in Hb as [->|Hb]; [done|..|by apply IH];
    exfalso; apply Hni; (rewrite E || rewrite <- E); by apply list_elem_of_fmap_2.
Qed.

(** The table extended by the created outputs, before any spend *)
Definition extended (height : Z) (t : coins_table) (l : list delta_entry) : coins_table :=
  foldl (add_entry height) t l.

Lemma extended_snoc h t l e : extended h t (l ++ [e]) = <[d_outpoint e := entry_coin h e]> (extended h t l).
Proof. unfold extended. by rewrite foldl_app. Qed.

Lemma extended_other h t l op : op ∉ map d_outpoint l -> extended h t l !! op = t !! op.
Proof. apply (foldl_insert_other d_outpoint (entry_coin h)). Qed.

Lemma apply_lookup s h t op :
  apply_coins_kv s h t !! op =
  if decide (op ∈ map d_outpoint (spent s)) then None else extended h t (added s) !! op.
Proof. apply (foldl_delete_lookup d_outpoint). Qed.

(** ** What a computed delta records *)

Lemma lookup_added_spec l (txid : uint256_t) vout : fixed 32 txid -> Forall (fun e => fixed 32 (d_txid e)) l ->
  match lookup_added l txid vout with
  | Some e => e ∈ l /\ d_outpoint e = {| op_hash := txid; op_n := vout |}
  | None => {| op_hash := txid; op_n := vout |} ∉ map d_outpoint l
  end.
Proof.
  intros Ht. induction 1 as [|e l He Hl IH]; cbn [lookup_added map]; [apply not_elem_of_nil|].
  destruct (d_vout e =? vout) eqn:Ev; cbn [andb].
  - destruct (uint256_eq (d_txid e) txid) eqn:Eh.
    + apply (uint256_eq_spec 32) in Eh; [|done..]. apply Z.eqb_eq in Ev. split; [left|].
      unfold d_outpoint. by rewrite Eh, Ev.
    + destruct (lookup_added l txid vout) as [e'|]; [destruct IH; split; [by right|done]|].
      apply not_elem_of_cons. split; [|done]. intros [= -> _].
      rewrite (proj2 (uint256_eq_spec 32 _ _ He He) eq_refl) in Eh. done.
  - destruct (lookup_added l txid vout) as [e'|]; [destruct IH; split; [by right|done]|].
    apply not_elem_of_cons. split; [|done]. intros [= _ ->]. lia.
Qed.

(** The entries of the outputs of a transaction *)
Fixpoint created_from (tx : transaction) (vo : Z) (outs : list tx_out) : list delta_entry :=
  match outs with
  | [] => []
  | o :: r =>
      (if tx_out_is_null o then []
       else [{| d_txid := tx_hash tx; d_vout := vo; d_value := value o; d_script := script_pub_key o;
                d_coinbase := transaction_is_coinbase tx; d_height := 0 |}]) ++ created_from tx (vo + 1) r
  end.

Definition created (tx : transaction) : list delta_entry := created_from tx 0 (vout tx).

Lemma created_from_spec tx outs vo e : e ∈ created_from tx vo outs <->
  exists i o, outs !! i = Some o /\ tx_out_is_null o = false /\
    e = {| d_txid := tx_hash tx; d_vout := vo + Z.of_nat i; d_value := value o; d_script := script_pub_key o;
           d_coinbase := transaction_is_coinbase tx; d_height := 0 |}.
Proof.
  revert vo. induction outs as [|o outs IH]; intros vo; cbn [created_from].
  { split; [by intros ?%elem_of_nil|]. by intros (i & o & ? & _). }
  rewrite elem_of_app, IH. split.
  - intros [He|(i & o' & Ho & Hn & ->)].
    + destruct (tx_out_is_null o) eqn:En; [by apply elem_of_nil in He|]. apply list_elem_of_singleton in He as ->.
      exists O, o. split_and!; try done. f_equal. lia.
    + exists (S i), o'. split_and!; try done. f_equal. lia.
  - intros ([|i] & o' & Ho & Hn & ->).
    + injection Ho as ->. left. rewrite Hn. apply list_elem_of_singleton. f_equal. lia.
    + right. exists i, o'. split_and!; try done. f_equal. lia.
Qed.

Lemma spend_inputs_added h lookup ins st st' : spend_inputs h lookup ins st = Ok st' -> acc_added st'.1 = acc_added st.1.
Proof.
  revert st. induction ins as [|i ins IH]; intros st E; cbn [spend_inputs] in E; [by injection E as <-|].
  destruct (spend_input h lookup i st) as [st1|] eqn:E1; [|done]. rewrite (IH st1 E). clear E IH.
  destruct st as [acc v]. unfold spend_input in E1. destruct (resolve_input _ _ _ _) as [c|]; [|done].
  cbn [mbind result_bind] in E1. repeat (case_if; [done|]). by injection E1 as <-.
Qed.

Lemma add_outputs_added lookup tx outs vo acc acc' : 0 <= vo -> vo + zlen outs < 2 ^ 32 ->
  add_outputs lookup tx vo outs acc = Ok acc' -> acc_added acc' = acc_added acc ++ created_from tx vo outs.
Proof.
  revert vo acc. induction outs as [|o outs IH]; intros vo acc Hvo Hn E; cbn [add_outputs created_from] in *.
  { injection E as <-. by rewrite app_nil_r. }
  rewrite zlen_cons in Hn. pose proof (zlen_nonneg outs). rewrite uwrap_small in E by (unfold is_u; lia).
  destruct (add_output lookup tx vo o acc) as [acc1|] eqn:E1; [|done]. cbn [mbind result_bind] in E.
  rewrite (IH (vo + 1) acc1 ltac:(lia) ltac:(lia) E). clear E IH. rewrite app_assoc. f_equal.
  unfold add_output in E1. destruct (tx_out_is_null o); [injection E1 as <-; by rewrite app_nil_r|].
  case_if; [done|]. destruct (lookup_added _ _ _); [done|]. destruct (lookup _) as [lk|]; [|done].
  destruct (lk_found lk); [done|]. by injection E1 as <-.
Qed.

(** The created entries of an accepted block are the non-null outputs, in order. *)
Lemma added_exact params h lookup txs s : Forall (fun tx => zlen (vout tx) < 2 ^ 32) txs ->
  utxo_apply_compute_block_delta params h lookup txs = Ok s -> added s = mjoin (map created txs).
Proof.
  intros Htx E. unfold utxo_apply_compute_block_delta in E.
  destruct (apply_txs h lookup txs _) as [[acc fees]|] eqn:E0; [|done]. cbn [mbind result_bind] in E.
  case_if; [done|]. destruct (check_reward params h txs fees) as [[]|]; [|done]. injection E as <-. cbn [added].
  change (mjoin (map created txs)) with (acc_added {| acc_spent := []; acc_added := []; acc_total := 0 |} ++ mjoin (map created txs)).
  revert E0. generalize {| acc_spent := []; acc_added := []; acc_total := 0 |} as a0. generalize 0 at 1 as f0.
  clear Hif. induction Htx as [|tx txs Hn Htx IH]; intros f0 a0 E0; cbn [apply_txs] in E0.
  { injection E0 as <- <-. by rewrite app_nil_r. }
  destruct (apply_tx h lookup tx (a0, f0)) as [[a1 f1]|] eqn:E1; [|done]. cbn [mbind result_bind] in E0.
  rewrite (IH f1 a1 E0). change (mjoin (map created (tx :: txs))) with (created tx ++ mjoin (map created txs)).
  rewrite app_assoc. f_equal. clear E0 IH. unfold apply_tx in E1.
  destruct (if transaction_is_coinbase tx then Ok (a0, 0) else spend_inputs h lookup (vin tx) (a0, 0)) as [st1|] eqn:Es; [|done].
  cbn [mbind result_bind] in E1. destruct (add_outputs lookup tx 0 (vout tx) st1.1) as [a2|] eqn:Ea; [|done].
  cbn [mbind result_bind] in E1.
  destruct (if transaction_is_coinbase tx then Ok f0 else money_rule tx st1.2 f0) as [fe|]; [|done]. injection E1 as <- <-.
  rewrite (add_outputs_added lookup tx (vout tx) 0 st1.1 a2 ltac:(lia) ltac:(lia) Ea). f_equal.
  destruct (transaction_is_coinbase tx); [by injection Es as <-|]. apply (spend_inputs_added _ _ _ _ _ Es).
Qed.

Section Sound.
Context (params : consensus_params) (h : Z) (t : coins_table) (lookup : outpoint -> option utxo_apply_lookup).
Hypothesis Hh : 0 <= h < 2 ^ 31.
Hypothesis Hlookup : forall op, 0 <= op_n op -> lookup op = Some (live_coin t op).
Hypothesis Ht : table_ok t.

(** The invariant of the two arrays *)
Record acc_ok (acc : delta_acc) : Prop := AccOk {
  added_nodup : NoDup (map d_outpoint (acc_added acc));
  added_fresh : forall e, e ∈ acc_added acc ->
    t !! d_outpoint e = None /\ fixed 32 (d_txid e) /\ 0 <= d_vout e < 2 ^ 32 - 1 /\
    0 <= d_value e <= MAX_MONEY_ZAT /\ zlen (d_script e) <= MAX_SCRIPT_SIZE;
  spent_live : forall e, e ∈ acc_spent acc ->
    extended h t (acc_added acc) !! d_outpoint e = Some (entry_coin (d_height e) e) /\
    0 <= d_height e < 2 ^ 31 /\ 0 <= d_value e <= MAX_MONEY_ZAT /\
    (d_coinbase e = true -> COINBASE_MATURITY <= h - d_height e) /\
    outpoint_ok (d_outpoint e) /\ zlen (d_script e) <= UTXO_APPLY_SCRIPT_MAX;
}.

Lemma acc_ok_init : acc_ok {| acc_spent := []; acc_added := []; acc_total := 0 |}.
Proof. split; [constructor|intros e He; by apply elem_of_nil in He..]. Qed.

Lemma acc_added_fixed acc : acc_ok acc -> Forall (fun e => fixed 32 (d_txid e)) (acc_added acc).
Proof. intros Ha. apply Forall_forall. intros e He. by apply (added_fresh acc Ha). Qed.

Lemma added_lookup acc e : acc_ok acc -> e ∈ acc_added acc ->
  extended h t (acc_added acc) !! d_outpoint e = Some (entry_coin h e).
Proof.
  intros Ha He. apply (foldl_insert_lookup d_outpoint (entry_coin h)); [by apply list_elem_of_fmap_2|].
  intros e' He' E. f_equal. by apply (nodup_key_inj d_outpoint (acc_added acc)); [apply (added_nodup acc Ha)|..].
Qed.

(** What an input resolves to is a coin of the extended table. *)
Lemma resolve_input_ok acc op c : acc_ok acc -> outpoint_ok op -> resolve_input h lookup acc op = Ok c ->
  extended h t (acc_added acc) !! op =
    Some {| coin_value := lk_value c; coin_height := i32 (lk_height c); coin_coinbase := lk_coinbase c;
            coin_script := lk_script c |} /\ 0 <= lk_height c < 2 ^ 31.
Proof.
  intros Ha [Hf Hn] E. unfold resolve_input in E.
  pose proof (lookup_added_spec (acc_added acc) (op_hash op) (op_n op) Hf (acc_added_fixed acc Ha)) as Hl.
  assert ({| op_hash := op_hash op; op_n := op_n op |} = op) as Eop by (by destruct op). rewrite Eop in Hl.
  destruct (lookup_added _ _ _) as [e|].
  - injection E as <-. destruct Hl as [He Eo]. cbn. split; [|lia].
    rewrite <- Eo, added_lookup by done. unfold entry_coin. done.
  - rewrite Hlookup in E by (unfold is_u in Hn; lia). unfold live_coin in E.
    destruct (t !! op) as [c0|] eqn:E0; [|done]. injection E as <-. cbn.
    rewrite extended_other, E0 by done. pose proof (Ht _ _ E0) as (_ & _ & Hc & _).
    rewrite swrap_small by (unfold is_s; lia). split; [by destruct c0|done].
Qed.

(** The table with the entries of the two arrays applied *)
Definition cur (acc : delta_acc) : coins_table :=
  foldl spend_entry (extended h t (acc_added acc)) (acc_spent acc).

Lemma cur_lookup acc op :
  cur acc !! op = if decide (op ∈ map d_outpoint (acc_spent acc)) then None else extended h t (acc_added acc) !! op.
Proof. apply (foldl_delete_lookup d_outpoint). Qed.

(** A further spent entry is a step of the reference semantics, unless its outpoint was spent before. *)
Lemma cur_spend acc acc' e : acc_ok acc' -> acc_added acc' = acc_added acc -> acc_spent acc' = acc_spent acc ++ [e] ->
  d_outpoint e ∉ map d_outpoint (acc_spent acc) -> spend_coin h (cur acc) (d_outpoint e) = Some (cur acc').
Proof.
  intros Ha Ead Es Hni. destruct (spent_live acc' Ha e) as (Hx & Hht & _ & Hm & _).
  { rewrite Es. apply elem_of_app. right. by apply list_elem_of_singleton. }
  rewrite Ead in Hx. unfold spend_coin. rewrite cur_lookup, decide_False, Hx by done.
  cbn [mbind option_bind]. replace (mature h (entry_coin (d_height e) e)) with true.
  - f_equal. unfold cur. by rewrite Es, Ead, foldl_app.
  - symmetry. unfold mature, entry_coin. cbn. rewrite swrap_small by (unfold is_s; lia).
    destruct (d_coinbase e); [|done]. cbn. apply Z.leb_le. by apply Hm.
Qed.

(** A further created entry is an insertion at a free outpoint. *)
Lemma cur_create acc acc' e : acc_ok acc -> acc_spent acc' = acc_spent acc -> acc_added acc' = acc_added acc ++ [e] ->
  t !! d_outpoint e = None -> d_outpoint e ∉ map d_outpoint (acc_added acc) ->
  cur acc !! d_outpoint e = None /\ cur acc' = <[d_outpoint e := entry_coin h e]> (cur acc).
Proof.
  intros Ha Es Ead Ht0 Hni.
  assert (d_outpoint e ∉ map d_outpoint (acc_spent acc)) as Hsp.
  { intros (e' & E & He')%list_elem_of_fmap. destruct (spent_live acc Ha e' He') as [Hx _].
    rewrite <- E, extended_other, Ht0 in Hx by done. done. }
  split; [by rewrite cur_lookup, decide_False, extended_other|]. apply map_eq. intros op. rewrite cur_lookup.
  rewrite Es, Ead, extended_snoc. destruct (decide (op = d_outpoint e)) as [->|Hne].
  - rewrite decide_False by done. by rewrite !lookup_insert_eq.
  - rewrite !lookup_insert_ne by done. by rewrite cur_lookup.
Qed.

Definition values (l : list delta_entry) : Z := sum_Z (map d_value l).

Lemma values_app l1 l2 : values (l1 ++ l2) = values l1 + values l2.
Proof. unfold values. rewrite map_app. apply sum_Z_app. Qed.

Lemma spend_input_ok i acc v0 acc' v' : acc_ok acc -> outpoint_ok (prevout i) ->
  spend_input h lookup i (acc, i64 v0) = Ok (acc', v') ->
  acc_ok acc' /\ acc_added acc' = acc_added acc /\
  exists e, acc_spent acc' = acc_spent acc ++ [e] /\ d_outpoint e = prevout i /\
    0 <= d_value e /\ v' = i64 (v0 + d_value e).
Proof.
  intros Ha Hop E. unfold spend_input in E. destruct (resolve_input h lookup acc (prevout i)) as [c|] eqn:Er; [|done].
  cbn [mbind result_bind] in E. destruct (resolve_input_ok acc _ c Ha Hop Er) as [Hc Hht].
  case_if; [done|]. case_if; [done|]. case_if; [done|]. injection E as <- <-. zbool.
  split; [|split; [done|]].
  - split; cbn [acc_added acc_spent]; [apply Ha|apply Ha|]. intros e He.
    apply elem_of_app in He as [He| ->%list_elem_of_singleton]; [by apply Ha|].
    unfold d_outpoint, entry_coin. cbn.
    assert ({| op_hash := op_hash (prevout i); op_n := op_n (prevout i) |} = prevout i) as -> by (by destruct (prevout i)).
    rewrite Hc. split_and!; try done; lia.
  - eexists. split; [done|]. unfold d_outpoint. cbn. split_and!; [by destruct (prevout i)|lia|].
    apply swrap_add_l.
Qed.

Lemma spend_inputs_ok ins acc v0 acc' v' : acc_ok acc -> Forall (fun i => outpoint_ok (prevout i)) ins ->
  spend_inputs h lookup ins (acc, i64 v0) = Ok (acc', v') ->
  acc_ok acc' /\ acc_added acc' = acc_added acc /\
  exists new, acc_spent acc' = acc_spent acc ++ new /\ map d_outpoint new = map prevout ins /\
    0 <= values new /\ v' = i64 (v0 + values new) /\
    (NoDup (map d_outpoint (acc_spent acc')) -> spend_coins h (map prevout ins) (cur acc) = Some (cur acc')).
Proof.
  revert acc v0. induction ins as [|i ins IH]; intros acc v0 Ha Hi E; cbn [spend_inputs] in E.
  { injection E as <- <-. split; [done|]. split; [done|]. exists []. rewrite app_nil_r. cbn. by rewrite Z.add_0_r. }
  apply Forall_cons in Hi as [Hi Hr]. destruct (spend_input h lookup i (acc, i64 v0)) as [[acc1 v1]|] eqn:E1; [|done].
  cbn [mbind result_bind] in E. destruct (spend_input_ok i acc v0 acc1 v1 Ha Hi E1) as (Ha1 & Ead & e & Es & Eo & Hv & ->).
  destruct (IH acc1 _ Ha1 Hr E) as (Ha2 & Ead2 & new & Es2 & Eo2 & Hv2 & -> & Hnd).
  split; [done|]. split; [congruence|]. exists (e :: new). rewrite Es2, Es, <- app_assoc. split; [done|].
  cbn [map]. rewrite Eo, Eo2. split; [done|]. change (values (e :: new)) with (d_value e + values new).
  split; [lia|]. split; [f_equal; lia|]. intros Hn. cbn [spend_coins]. rewrite <- Eo.
  rewrite (cur_spend acc acc1 e Ha1 Ead Es).
  - apply Hnd. by rewrite Es2, Es, <- app_assoc.
  - cbn [app] in Hn. rewrite map_app in Hn. apply NoDup_app in Hn as (_ & Hn & _). intros Hin.
    apply (Hn _ Hin). left.
Qed.

Lemma add_output_ok tx vo o acc acc' : acc_ok acc -> fixed 32 (tx_hash tx) -> 0 <= vo < 2 ^ 32 - 1 ->
  zlen (script_pub_key o) <= MAX_SCRIPT_SIZE -> add_output lookup tx vo o acc = Ok acc' ->
  acc_ok acc' /\ acc_spent acc' = acc_spent acc /\
  exists new, acc_added acc' = acc_added acc ++ new /\
    (0 <= value o -> values new = value o) /\ 0 <= values new /\
    create_coin h tx vo o (cur acc) = Some (cur acc').
Proof.
  intros Ha Hf Hvo Hs E. unfold add_output in E. destruct (tx_out_is_null o) eqn:En.
  { injection E as <-. split; [done|]. split; [done|]. exists []. rewrite app_nil_r.
    unfold create_coin. rewrite En. unfold tx_out_is_null in En. split; [done|]. split; [lia|done]. }
  case_if; [done|]. zbool.
  pose proof (lookup_added_spec (acc_added acc) (tx_hash tx) vo Hf (acc_added_fixed acc Ha)) as Hl.
  destruct (lookup_added _ _ _) as [e|]; [done|]. rewrite Hlookup in E by (simpl; lia).
  unfold live_coin in E. destruct (t !! _) as [c|] eqn:Et; [done|]. cbn in E. injection E as <-.
  set (ae := {| d_txid := _; d_vout := _; d_value := _; d_script := _; d_coinbase := _; d_height := _ |}).
  assert (d_outpoint ae = {| op_hash := tx_hash tx; op_n := vo |}) as Eo by done.
  split; [|split; [done|]].
  - split; cbn [acc_added acc_spent].
    + rewrite map_app. apply NoDup_app. split_and!; [apply Ha| |apply NoDup_singleton].
      intros x Hx ->%list_elem_of_singleton. apply Hl. by rewrite Eo in Hx.
    + intros e He. apply elem_of_app in He as [He| ->%list_elem_of_singleton]; [by apply Ha|].
      rewrite Eo. cbn. split_and!; try done; lia.
    + intros e He. rewrite extended_snoc. rewrite lookup_insert_ne; [by apply Ha|].
      intros E. destruct (spent_live acc Ha e He) as [Hsp _]. rewrite <- E, Eo, extended_other, Et in Hsp by done. done.
  - exists [ae]. split; [done|]. split; [cbn; lia|]. split; [cbn; lia|].
    match goal with |- _ = Some (cur ?a) => destruct (cur_create acc a ae Ha eq_refl eq_refl Et) as [Hfree ->] end;
      [by rewrite Eo|]. unfold create_coin. rewrite En.
    rewrite Eo in *. rewrite Hfree. unfold entry_coin. cbn. rewrite swrap_small by (unfold is_s; lia). done.
Qed.

Lemma add_outputs_ok tx outs vo acc acc' : acc_ok acc -> fixed 32 (tx_hash tx) ->
  0 <= vo -> vo + zlen outs < 2 ^ 32 - 1 -> Forall (fun o => zlen (script_pub_key o) <= MAX_SCRIPT_SIZE) outs ->
  add_outputs lookup tx vo outs acc = Ok acc' ->
  acc_ok acc' /\ acc_spent acc' = acc_spent acc /\
  exists new, acc_added acc' = acc_added acc ++ new /\
    (Forall (fun o => 0 <= value o) outs -> values new = sum_Z (map value outs)) /\ 0 <= values new /\
    create_coins h tx vo outs (cur acc) = Some (cur acc').
Proof.
  intros Ha Hf. revert vo acc Ha. induction outs as [|o outs IH]; intros vo acc Ha Hvo Hn Hs E; cbn [add_outputs] in E.
  { injection E as <-. split; [done|]. split; [done|]. exists []. by rewrite app_nil_r. }
  apply Forall_cons in Hs as [Hs Hss]. rewrite zlen_cons in Hn. pose proof (zlen_nonneg outs).
  rewrite uwrap_small in E by (unfold is_u; lia).
  destruct (add_output lookup tx vo o acc) as [acc1|] eqn:E1; [|done]. cbn [mbind result_bind] in E.
  destruct (add_output_ok tx vo o acc acc1 Ha Hf ltac:(lia) Hs E1) as (Ha1 & Es1 & n1 & En1 & Hv1 & Hp1 & Hc1).
  destruct (IH (vo + 1) acc1 Ha1 ltac:(lia) ltac:(lia) Hss E) as (Ha2 & Es2 & n2 & En2 & Hv2 & Hp2 & Hc2).
  split; [done|]. split; [congruence|]. exists (n1 ++ n2). rewrite En2, En1, app_assoc. split; [done|].
  rewrite values_app. split; [intros [Ho Hos]%Forall_cons; by rewrite Hv1, Hv2|]. split; [lia|].
  cbn [create_coins]. by rewrite Hc1.
Qed.

Lemma money_rule_ok tx ins fees fees' : is_s 64 (value_balance tx) -> 0 <= ins -> 0 <= fees <= MAX_MONEY_ZAT ->
  money_rule tx (i64 ins) fees = Ok fees' ->
  0 <= fees' <= MAX_MONEY_ZAT /\ Forall (fun o => 0 <= value o) (vout tx) /\
  fees' - fees <= ins - sum_Z (map value (vout tx)) + net_unshielded tx.
Proof.
  intros Hvb Hin Hfees E. unfold money_rule in E. change MAX_MONEY with 2100000000000000 in *.
  rewrite value_out_sum, value_in_sum, !checked_sum_amounts in E by done.
  case_if; [done|]. zbool.
  assert (i64 ins <= ins /\ is_s 64 (i64 ins)) as [Hw Hr].
  { split; [|by apply swrap_range]. unfold swrap. change (64 - 1) with 63.
    pose proof (Z.mod_le (ins + 2 ^ 63) (2 ^ 64) ltac:(lia) ltac:(lia)). lia. }
  unfold is_s in Hr. change (64 - 1) with 63 in Hr.
  destruct (checked_sum_nonneg (amounts_in tx) ltac:(lia)) as (_ & Ei & Hi).
  destruct (checked_sum_nonneg (amounts_out tx) ltac:(lia)) as (Hpos & Eo & Ho).
  rewrite Ei, Eo in *. unfold MAX_MONEY_ZAT in *. change MAX_MONEY with 2100000000000000 in *.
  set (tv := i64 ins) in *.
  assert (0 <= 2100000000000000 - tv < 2 ^ 63) as Hsub.
  { destruct (decide (2100000000000000 - tv < 2 ^ 63)).
    - rewrite (swrap_small 64 (_ - tv)) in * by (unfold is_s; lia). lia.
    - exfalso. assert (i64 (2100000000000000 - tv) < 0); [|lia].
      unfold swrap. change (64 - 1) with 63. rewrite <- (Z.mod_add _ (-1)) by done. rewrite Z.mod_small; lia. }
  rewrite (swrap_small 64 (_ - tv)) in * by (unfold is_s; lia).
  rewrite (swrap_small 64 (tv + _)) in E by (unfold is_s; lia).
  case_if; [done|]. rewrite (swrap_small 64 (_ - sum_Z (amounts_out tx))) in E by (unfold is_s; lia).
  rewrite (swrap_small 64 (_ - fees)) in E by (unfold is_s; lia).
  case_if; [done|]. injection E as <-. rewrite swrap_small by (unfold is_s; lia).
  split; [lia|]. split; [|unfold net_unshielded; lia].
  unfold amounts_out in Hpos. apply Forall_app in Hpos as [Hpos _].
  rewrite List.Forall_map in Hpos. exact Hpos.
Qed.

(** One transaction *)
Lemma apply_tx_ok tx acc fees acc' fees' : acc_ok acc -> delta_tx_ok tx -> 0 <= fees <= MAX_MONEY_ZAT ->
  apply_tx h lookup tx (acc, fees) = Ok (acc', fees') ->
  acc_ok acc' /\ 0 <= fees' <= MAX_MONEY_ZAT /\ exists ns na,
    acc_spent acc' = acc_spent acc ++ ns /\ acc_added acc' = acc_added acc ++ na /\ 0 <= values na /\
    map d_outpoint ns = spends tx /\
    (NoDup (map d_outpoint (acc_spent acc')) -> connect_tx h (cur acc) tx = Some (cur acc')) /\
    if transaction_is_coinbase tx
    then fees' = fees /\ (Forall (fun o => 0 <= value o) (vout tx) -> values na = sum_Z (map value (vout tx)))
    else fees' - fees <= values ns - values na + net_unshielded tx.
Proof.
  intros Ha (Hf & Hvb & Hn & Hi & Hs) Hfees E. unfold apply_tx in E. unfold connect_tx, spends.
  destruct (transaction_is_coinbase tx) eqn:Ecb; cbn [mbind result_bind] in E.
  - cbn [fst] in E. destruct (add_outputs lookup tx 0 (vout tx) acc) as [acc2|] eqn:E2; [|done]. injection E as <- <-.
    destruct (add_outputs_ok tx (vout tx) 0 acc acc2 Ha Hf ltac:(lia) ltac:(lia) Hs E2) as (Ha2 & Es2 & na & En & Hv & Hp & Hc).
    split; [done|]. split; [done|]. exists [], na. rewrite app_nil_r. by split_and!.
  - destruct (spend_inputs h lookup (vin tx) (acc, 0)) as [[acc1 v1]|] eqn:E1; [|done].
    change 0 with (i64 0) in E1.
    destruct (spend_inputs_ok (vin tx) acc 0 acc1 v1 Ha Hi E1) as (Ha1 & Ead & ns & Es & Eo & Hv & -> & Hsc).
    cbn [mbind result_bind fst snd] in E. destruct (add_outputs lookup tx 0 (vout tx) acc1) as [acc2|] eqn:E2; [|done].
    destruct (add_outputs_ok tx (vout tx) 0 acc1 acc2 Ha1 Hf ltac:(lia) ltac:(lia) Hs E2) as (Ha2 & Es2 & na & En & Hvn & Hp & Hc).
    destruct (money_rule tx _ fees) as [f|] eqn:E3; [|done]. injection E as <- <-.
    destruct (money_rule_ok tx (0 + values ns) fees f Hvb ltac:(lia) Hfees E3) as (Hfr & Hpos & Hbound).
    split; [done|]. split; [done|]. exists ns, na. rewrite Es2, Es, En, Ead. split_and!; [done..| |].
    + intros Hnd. rewrite Hsc by (by rewrite Es). done.
    + rewrite (Hvn Hpos) in *. lia.
Qed.

Lemma apply_txs_ok txs acc fees acc' fees' : acc_ok acc -> Forall delta_tx_ok txs -> 0 <= fees <= MAX_MONEY_ZAT ->
  apply_txs h lookup txs (acc, fees) = Ok (acc', fees') ->
  acc_ok acc' /\ 0 <= fees' <= MAX_MONEY_ZAT /\
  (exists ns, acc_spent acc' = acc_spent acc ++ ns /\ map d_outpoint ns = mjoin (map spends txs)) /\
  (NoDup (map d_outpoint (acc_spent acc')) -> connect_txs h txs (cur acc) = Some (cur acc')) /\
  (Forall (fun tx => transaction_is_coinbase tx = false) txs ->
   fees' - fees <= (values (acc_spent acc') - values (acc_spent acc)) -
     (values (acc_added acc') - values (acc_added acc)) + sum_Z (map net_unshielded txs)).
Proof.
  revert acc fees. induction txs as [|tx txs IH]; intros acc fees Ha Htx Hf E; cbn [apply_txs] in E.
  { injection E as <- <-. split; [done|]. split; [done|]. split; [exists []; by rewrite app_nil_r|].
    split; [done|]. cbn. lia. }
  apply Forall_cons in Htx as [Htx Htxs].
  destruct (apply_tx h lookup tx (acc, fees)) as [[acc1 f1]|] eqn:E1; [|done]. cbn [mbind result_bind] in E.
  destruct (apply_tx_ok tx acc fees acc1 f1 Ha Htx Hf E1) as (Ha1 & Hf1 & ns & na & Es & Ea & Hp & Eo & Hc & Hm).
  destruct (IH acc1 f1 Ha1 Htxs Hf1 E) as (Ha2 & Hf2 & (ns2 & Es2 & Eo2) & Hc2 & Hb2).
  split; [done|]. split; [done|]. split; [|split].
  - exists (ns ++ ns2). rewrite Es2, Es, app_assoc. split; [done|]. by rewrite map_app, Eo, Eo2.
  - intros Hnd. cbn [connect_txs]. rewrite Hc; [by apply Hc2|].
    rewrite Es2, map_app in Hnd. by apply NoDup_app in Hnd as [? _].
  - intros [Hcb Hcbs]%Forall_cons. rewrite Hcb in Hm. specialize (Hb2 Hcbs).
    rewrite Es, Ea, !values_app in Hb2. cbn [map sum_Z foldr]. fold (sum_Z (map net_unshielded txs)). lia.
Qed.

(** The first transaction is a coinbase and no other is *)
Definition coinbase_first (txs : list transaction) : Prop :=
  match txs with
  | [] => False
  | cb :: rest => transaction_is_coinbase cb = true /\ Forall (fun tx => transaction_is_coinbase tx = false) rest
  end.

Lemma sum_Z_Forall_nonneg l : Forall (fun v => 0 <= v) l -> 0 <= sum_Z l.
Proof. induction 1; cbn; unfold sum_Z in *; lia. Qed.

Lemma check_reward_ok cb rest fees : is_s 64 (value_balance cb) -> transaction_is_coinbase cb = true ->
  check_reward params h (cb :: rest) fees = Ok tt ->
  Forall (fun o => 0 <= value o) (vout cb) /\ sum_Z (map value (vout cb)) <= get_block_subsidy params h + fees.
Proof.
  intros Hvb Hcb E. unfold check_reward in E. rewrite Hcb, swrap_small in E by (unfold is_s; lia).
  rewrite value_out_sum, checked_sum_amounts in E by done.
  case_if; [done|]. case_if; [done|]. zbool.
  destruct (checked_sum_nonneg (amounts_out cb) ltac:(lia)) as (Hpos & Eo & _). rewrite Eo in *.
  unfold amounts_out in *. apply Forall_app in Hpos as [Hv Hr]. rewrite sum_Z_app in *.
  rewrite List.Forall_map in Hv. split; [exact Hv|]. pose proof (sum_Z_Forall_nonneg _ Hr). lia.
Qed.

Lemma compute_ok txs s : Forall delta_tx_ok txs -> utxo_apply_compute_block_delta params h lookup txs = Ok s ->
  acc_ok {| acc_spent := spent s; acc_added := added s; acc_total := total_value_delta s |} /\
  map d_outpoint (spent s) = mjoin (map spends txs) /\
  (NoDup (map d_outpoint (spent s)) -> connect_txs h txs t = Some (apply_coins_kv s h t)) /\
  (coinbase_first txs ->
   values (added s) <= values (spent s) + get_block_subsidy params h + sum_Z (map net_unshielded (tail txs))).
Proof.
  intros Htx E. unfold utxo_apply_compute_block_delta in E.
  set (a0 := {| acc_spent := []; acc_added := []; acc_total := 0 |}) in E.
  destruct (apply_txs h lookup txs (a0, 0)) as [[acc fees]|] eqn:E0; [|done]. cbn [mbind result_bind] in E.
  case_if; [done|]. destruct (check_reward params h txs fees) as [[]|] eqn:Er; [|done]. injection E as <-.
  cbn [spent added total_value_delta].
  destruct (apply_txs_ok txs a0 0 acc fees acc_ok_init Htx ltac:(split; [done|vm_compute; discriminate]) E0)
    as (Ha & Hf & (ns & Es & Eo) & Hc & _).
  split; [by destruct acc|]. split; [by rewrite Es, <- Eo|]. split; [intros Hnd; exact (Hc Hnd)|].
  destruct txs as [|cb rest]; [done|]. intros [Hcb Hrest]. cbn [tail apply_txs] in *.
  apply Forall_cons in Htx as [Hcbok Hrok].
  destruct (apply_tx h lookup cb (a0, 0)) as [[acc1 f1]|] eqn:E1; [|done]. cbn [mbind result_bind] in E0.
  destruct (apply_tx_ok cb a0 0 acc1 f1 acc_ok_init Hcbok ltac:(split; [done|vm_compute; discriminate]) E1)
    as (Ha1 & Hf1 & ns1 & na1 & Es1 & Ea1 & Hp1 & Eo1 & _ & Hm).
  rewrite Hcb in Hm. destruct Hm as [-> Hna].
  destruct (apply_txs_ok rest acc1 0 acc fees Ha1 Hrok Hf1 E0) as (_ & _ & _ & _ & Hb). specialize (Hb Hrest).
  destruct (check_reward_ok cb rest fees ltac:(by destruct Hcbok as (_ & ? & _)) Hcb Er) as [Hpos Hle].
  specialize (Hna Hpos). unfold spends in Eo1. rewrite Hcb in Eo1. destruct ns1; [|done].
  rewrite Es1, Ea1 in Hb. cbn [a0 acc_spent acc_added app] in Hb. change (values []) with 0 in Hb. lia.
Qed.

End Sound.

(** ** The value of the table *)

Definition table_value (t : coins_table) : Z := map_fold (fun _ c v => coin_value c + v) 0 t.

Lemma table_value_insert t op c : t !! op = None -> table_value (<[op := c]> t) = coin_value c + table_value t.
Proof. intros E. unfold table_value.
  apply (map_fold_insert_L (fun _ c v => coin_value c + v)); [intros; lia|done]. Qed.

Lemma table_value_delete t op c : t !! op = Some c -> table_value (delete op t) = table_value t - coin_value c.
Proof.
  intros E. rewrite <- (insert_delete_id t op c E) at 2. rewrite table_value_insert by apply lookup_delete_eq. lia.
Qed.

Lemma extended_value h t l : NoDup (map d_outpoint l) -> (forall e, e ∈ l -> t !! d_outpoint e = None) ->
  table_value (extended h t l) = table_value t + values l.
Proof.
  intros Hnd Hfree. revert Hnd Hfree. induction l as [|e l IH] using rev_ind; intros Hnd Hfree.
  { unfold extended, values. cbn. lia. }
  rewrite map_app in Hnd. apply NoDup_app in Hnd as (Hnd & Hni & _).
  rewrite extended_snoc, values_app, table_value_insert.
  - rewrite IH; [unfold values; cbn; lia|done|]. intros e' He'. apply Hfree, elem_of_app. by left.
  - rewrite extended_other; [apply Hfree, elem_of_app; right; by apply list_elem_of_singleton|].
    intros Hin. apply (Hni _ Hin). left.
Qed.

Lemma spend_value t l : NoDup (map d_outpoint l) ->
  (forall e, e ∈ l -> exists c, t !! d_outpoint e = Some c /\ coin_value c = d_value e) ->
  table_value (foldl spend_entry t l) = table_value t - values l.
Proof.
  revert t. induction l as [|e l IH]; intros t Hnd Hl; [unfold values; cbn; lia|].
  cbn [map foldl] in *. apply NoDup_cons in Hnd as [Hni Hnd].
  destruct (Hl e ltac:(left)) as (c & Ec & Ev). rewrite IH; [|done|].
  - unfold spend_entry at 1, coins_kv_spend. rewrite (table_value_delete _ _ _ Ec).
    change (values (e :: l)) with (d_value e + values l). lia.
  - intros e' He'. unfold spend_entry, coins_kv_spend. rewrite lookup_delete_ne; [apply Hl; by right|].
    intros E. apply Hni. rewrite E. by apply list_elem_of_fmap_2.
Qed.

Lemma apply_value h t s : acc_ok h t {| acc_spent := spent s; acc_added := added s; acc_total := total_value_delta s |} ->
  NoDup (map d_outpoint (spent s)) ->
  table_value (apply_coins_kv s h t) = table_value t + values (added s) - values (spent s).
Proof.
  intros Ha Hnd. unfold apply_coins_kv. fold (extended h t (added s)). rewrite spend_value; [|done|].
  - rewrite extended_value; [done|apply (added_nodup _ _ _ Ha)|]. intros e He. by apply (added_fresh _ _ _ Ha).
  - intros e He. eexists. split; [apply (spent_live _ _ _ Ha e He)|done].
Qed.

(** ** The stored inverse *)

Definition spent_entry_ok (e : delta_entry) : Prop :=
  fixed 32 (d_txid e) /\ is_u 32 (d_vout e) /\ is_s 64 (d_value e) /\ is_u 32 (d_height e) /\ is_u 32 (zlen (d_script e)).

Lemma blob_take_app (b p : bytes) n : zlen b = n -> blob_take n (b ++ p) = Some (b, p).
Proof.
  intros <-. unfold blob_take. rewrite zlen_app. pose proof (zlen_nonneg p).
  replace (zlen b <=? zlen b + zlen p) with true by lia. unfold zlen. rewrite Nat2Z.id, take_app_length, drop_app_length. done.
Qed.

Lemma blob_get_u32_app v p : is_u 32 v -> blob_get_u32 (blob_put_u32 v ++ p) = Some (v, p).
Proof.
  intros Hv. unfold blob_get_u32, blob_put_u32. rewrite blob_take_app by (unfold zlen; by rewrite le_encode_length).
  cbn [mbind option_bind]. rewrite le_decode_encode, Z.mod_small by done. done.
Qed.

Lemma blob_get_i64_app v p : is_s 64 v -> blob_get_i64 (blob_put_i64 v ++ p) = Some (v, p).
Proof.
  intros Hv. unfold blob_get_i64, blob_put_i64. rewrite blob_take_app by (unfold zlen; by rewrite le_encode_length).
  cbn [mbind option_bind]. rewrite le_decode_encode, Z.mod_small by (by apply (uwrap_range 64)).
  by rewrite swrap_uwrap, swrap_small.
Qed.

Lemma parse_spent_app e p : spent_entry_ok e -> parse_spent (spent_entry_bytes e ++ p) = Some (e, p).
Proof.
  intros (Hf & Hv & Hval & Hh & Hs). unfold parse_spent, spent_entry_bytes. rewrite <- !app_assoc.
  rewrite blob_take_app by apply Hf. cbn [mbind option_bind].
  rewrite blob_get_u32_app by done. cbn [mbind option_bind].
  rewrite blob_get_i64_app by done. cbn [mbind option_bind].
  rewrite blob_get_u32_app by done. cbn [mbind option_bind].
  rewrite blob_take_app by done. cbn [mbind option_bind].
  rewrite blob_get_u32_app by done. cbn [mbind option_bind].
  assert (negb (le_decode [if d_coinbase e then 1 else 0] =? 0) = d_coinbase e) as -> by (by destruct (d_coinbase e)).
  destruct (Z.eqb_spec (zlen (d_script e)) 0) as [Hz|Hz].
  - destruct (d_script e) as [|x sc] eqn:Es; [|rewrite zlen_cons in Hz; pose proof (zlen_nonneg sc); lia].
    cbn [mbind option_bind app]. rewrite <- Es. by destruct e.
  - rewrite blob_take_app by done. cbn [mbind option_bind]. by destruct e.
Qed.

(** Enough fuel: reading back the created outpoints spends them in order. *)
Lemma inverse_adds_exact l fuel t : Forall (fun e => fixed 32 (d_txid e) /\ is_u 32 (d_vout e)) l ->
  (length l <= fuel)%nat ->
  inverse_adds fuel (mjoin (map added_entry_bytes l)) t = foldl spend_entry t l.
Proof.
  intros Hl. revert fuel t. induction Hl as [|e l [Hf Hv] Hl IH]; intros fuel t Hfu.
  { by destruct fuel. }
  destruct fuel as [|fuel]; [cbn in Hfu; lia|]. cbn [map mjoin list_join inverse_adds foldl].
  unfold added_entry_bytes at 1. rewrite <- !app_assoc.
  rewrite blob_take_app by apply Hf. cbn [mbind option_bind].
  rewrite blob_get_u32_app by done. cbn [mbind option_bind]. apply IH. cbn in Hfu. lia.
Qed.

Lemma inverse_spends_exact l fuel t : Forall spent_entry_ok l -> (length l <= fuel)%nat ->
  inverse_spends fuel (mjoin (map spent_entry_bytes l)) t =
  Some (foldl (fun t e => add_entry (i32 (d_height e)) t e) t l).
Proof.
  intros Hl. revert fuel t. induction Hl as [|e l He Hl IH]; intros fuel t Hfu.
  { by destruct fuel. }
  destruct fuel as [|fuel]; [cbn in Hfu; lia|]. cbn [map mjoin list_join].
  pose proof (parse_spent_app e (mjoin (map spent_entry_bytes l)) He) as E.
  destruct (spent_entry_bytes e ++ mjoin (map spent_entry_bytes l)) as [|x p]; [done|].
  cbn [inverse_spends]. rewrite E. cbn [foldl]. apply IH. cbn in Hfu. lia.
Qed.

Lemma mjoin_length {A} (f : A -> bytes) (l : list A) : (forall a, f a <> []) -> (length l <= length (mjoin (map f l)))%nat.
Proof.
  intros Hf. induction l as [|a l IH]; [cbn; lia|].
  change (mjoin (map f (a :: l))) with (f a ++ mjoin (map f l)). rewrite length_app.
  specialize (Hf a). destruct (f a); [done|]. cbn [length]. lia.
Qed.

Lemma entry_bytes_nonempty e : spent_entry_bytes e <> [] /\ added_entry_bytes e <> [].
Proof.
  split; intros E%(f_equal length); unfold spent_entry_bytes, added_entry_bytes, blob_put_u32 in E;
    rewrite !length_app, !le_encode_length in E; cbn [length] in E; lia.
Qed.

(** The stored inverse, applied to the table with the block: the table before the block,
    except that a coin the block both created and spent is put back. *)
Lemma inverse_table h t s : 0 <= h < 2 ^ 31 ->
  acc_ok h t {| acc_spent := spent s; acc_added := added s; acc_total := total_value_delta s |} ->
  exists u, utxo_apply_emit_inverse_delta (serialize_spent s) (serialize_added s) (apply_coins_kv s h t) = Some u /\
    forall op, u !! op =
      if decide (op ∈ map d_outpoint (spent s) /\ op ∈ map d_outpoint (added s))
      then extended h t (added s) !! op else t !! op.
Proof.
  intros Hh Ha. unfold utxo_apply_emit_inverse_delta, serialize_spent, serialize_added.
  rewrite inverse_adds_exact, inverse_spends_exact.
  - eexists. split; [done|]. intros op.
    destruct (decide (op ∈ map d_outpoint (spent s))) as [Hs|Hs].
    + pose proof Hs as (e & -> & He)%list_elem_of_fmap.
      destruct (spent_live _ _ _ Ha e He) as [Hx _]. cbn [acc_added] in Hx. trans (Some (entry_coin (d_height e) e)).
      * apply (foldl_insert_lookup d_outpoint (fun e => entry_coin (i32 (d_height e)) e)); [done|].
        intros e' He' E. destruct (spent_live _ _ _ Ha e' He') as (Hx' & Hht & _). cbn [acc_added] in Hx'.
        rewrite swrap_small by (unfold is_s; lia). congruence.
      * case_decide as Hd; [done|]. rewrite <- Hx. apply extended_other. intros Hin. by apply Hd.
    + etrans; [by apply (foldl_insert_other d_outpoint (fun e => entry_coin (i32 (d_height e)) e))|].
      rewrite decide_False by (by intros [? _]).
      etrans; [apply (foldl_delete_lookup d_outpoint)|]. case_decide as Hin.
      * apply list_elem_of_fmap in Hin as (e & -> & He). symmetry. by apply (added_fresh _ _ _ Ha).
      * rewrite apply_lookup, decide_False, extended_other by done. done.
  - apply Forall_forall. intros e He. destruct (spent_live _ _ _ Ha e He) as (_ & Hht & Hv & _ & [Hf Hn] & Hs).
    split_and!; try done; unfold is_s, is_u, UTXO_APPLY_SCRIPT_MAX, MAX_MONEY_ZAT in *; pose proof (zlen_nonneg (d_script e)); lia.
  - apply mjoin_length. intros e. by apply entry_bytes_nonempty.
  - apply Forall_forall. intros e He. destruct (added_fresh _ _ _ Ha e He) as (_ & Hf & Hn & _).
    split; [done|]. unfold is_u. lia.
  - apply mjoin_length. intros e. by apply entry_bytes_nonempty.
Qed.

(** ** Theorems *)

Record delta_setting (h : Z) (t : coins_table) (txs : list transaction) : Prop := DeltaSetting {
  setting_height : 0 <= h < 2 ^ 31;
  setting_table : table_ok t;
  setting_uniform : txid_uniform t;
  setting_txs : Forall delta_tx_ok txs;
}.

Section Theorems.
Context `{RowScanOk} (params : consensus_params).

Lemma block_delta_ok h t txs s : delta_setting h t txs ->
  utxo_apply_compute_block_delta params h (projection_live_lookup t) txs = Ok s ->
  acc_ok h t {| acc_spent := spent s; acc_added := added s; acc_total := total_value_delta s |} /\
  map d_outpoint (spent s) = mjoin (map spends txs) /\
  (NoDup (map d_outpoint (spent s)) -> connect_txs h txs t = Some (apply_coins_kv s h t)) /\
  (coinbase_first txs ->
   values (added s) <= values (spent s) + get_block_subsidy params h + sum_Z (map net_unshielded (tail txs))).
Proof.
  intros [Hh Ht Hu Htx]. apply compute_ok; try done. intros op Hop. by apply live_lookup_spec.
Qed.



(** C30: Disconnecting an accepted block with its stored delta blobs never fails, restores every
    outpoint the block did not both create and spend, and leaves a coin that did not exist
    before the block at every outpoint the block both created and spent. *)
Theorem inverse_delta_exact h t txs s : delta_setting h t txs ->
  utxo_apply_compute_block_delta params h (projection_live_lookup t) txs = Ok s ->
  exists u, utxo_apply_emit_inverse_delta (serialize_spent s) (serialize_added s) (apply_coins_kv s h t) = Some u /\
    forall op, if decide (op ∈ map d_outpoint (spent s) /\ op ∈ map d_outpoint (added s))
               then t !! op = None /\ is_Some (u !! op) else u !! op = t !! op.
Proof.
  intros Hset E. destruct (block_delta_ok h t txs s Hset E) as (Ha & _).
  destruct (inverse_table h t s (setting_height _ _ _ Hset) Ha) as (u & Eu & Hu).
  exists u. split; [done|]. intros op. specialize (Hu op). case_decide as Hd; [|done]. destruct Hd as [_ Hin].
  apply list_elem_of_fmap in Hin as (e & -> & He). split; [by apply (added_fresh _ _ _ Ha)|].
  rewrite Hu. eexists. exact (added_lookup h t _ e Ha He).
Qed.

End Theorems.

(** ** Concrete blocks *)

Definition simple_tx (id : Z) (ins : list outpoint) (outs : list Z) : transaction :=
  {| overwintered := false; version := 1; version_group_id := 0;
     vin := map (fun op => {| prevout := op; script_sig := []; sequence := 0 |}) ins;
     vout := map (fun v => {| value := v; script_pub_key := [81] |}) outs; lock_time := 0; expiry_height := 0;
     value_balance := 0; v_shielded_spend := []; v_shielded_output := []; v_joinsplit := [];
     joinsplit_pubkey := uint256_null; joinsplit_sig := []; binding_sig := []; tx_hash := replicate 32 id |}.

Definition sample_op (id n : Z) : outpoint := {| op_hash := replicate 32 id; op_n := n |}.

Definition sample_table : coins_table :=
  {[ sample_op 9 0 := {| coin_value := 1000000000000; coin_height := 5; coin_coinbase := true; coin_script := [81] |} ]}.

Definition sample_height : Z := 707010.

(** A coinbase, a spend of the old coin, and a spend of its change *)
Definition chained_block : list transaction :=
  [simple_tx 1 [outpoint_set_null] [500]; simple_tx 2 [sample_op 9 0] [600; 300]; simple_tx 3 [sample_op 2 1] [200]].

(** A coinbase and two transactions that spend the same coin *)
Definition double_spend_block : list transaction :=
  [simple_tx 1 [outpoint_set_null] []; simple_tx 2 [sample_op 9 0] [1000000000000];
   simple_tx 3 [sample_op 9 0] [1000000000000]].

Definition sample_delta (txs : list transaction) : delta_summary :=
  match @utxo_apply_compute_block_delta init_main_params sample_height (@projection_live_lookup key_order sample_table) txs with
  | Ok s => s | Err _ => DeltaSummary [] [] 0 end.

Lemma sample_table_lookup op c : sample_table !! op = Some c ->
  op = sample_op 9 0 /\ c = {| coin_value := 1000000000000; coin_height := 5; coin_coinbase := true; coin_script := [81] |}.
Proof. unfold sample_table. intros [<- <-]%lookup_singleton_Some. done. Qed.

Lemma sample_table_ok : table_ok sample_table /\ txid_uniform sample_table.
Proof.
  split.
  - intros op c [-> ->]%sample_table_lookup. vm_compute. intuition discriminate.
  - intros op op' c c' [-> ->]%sample_table_lookup [-> ->]%sample_table_lookup _. done.
Qed.

Lemma sample_setting txs : Forall delta_tx_ok txs -> delta_setting sample_height sample_table txs.
Proof. intros Htx. destruct sample_table_ok. split; [vm_compute; intuition discriminate|done..]. Qed.

Lemma simple_tx_ok id ins outs : 0 <= id < 256 -> Forall outpoint_ok ins -> zlen outs < 2 ^ 32 - 1 ->
  delta_tx_ok (simple_tx id ins outs).
Proof.
  intros Hid Hi Ho. unfold delta_tx_ok. cbn [simple_tx tx_hash value_balance vout vin]. split_and!.
  - split; [done|]. apply Forall_replicate. done.
  - done.
  - unfold zlen in *. by rewrite length_map.
  - rewrite List.Forall_map. done.
  - rewrite List.Forall_map. apply Forall_true. intros x. vm_compute. discriminate.
Qed.

Lemma sample_op_ok id n : 0 <= id < 256 -> is_u 32 n -> outpoint_ok (sample_op id n).
Proof. intros Hid Hn. split; [|done]. split; [done|]. by apply Forall_replicate. Qed.

(** The sample blocks are well formed. *)
Lemma sample_blocks_ok : Forall delta_tx_ok chained_block /\ Forall delta_tx_ok double_spend_block.
Proof.
  split; repeat (apply Forall_cons; split); try apply Forall_nil; try done; apply simple_tx_ok; try done;
    repeat (apply Forall_cons; split); try apply Forall_nil; try done; (apply sample_op_ok || split; [split|]);
    try done; by apply Forall_replicate.
Qed.

Lemma sample_delta_ok :
  utxo_apply_compute_block_delta init_main_params sample_height (@projection_live_lookup key_order sample_table) chained_block =
    Ok (sample_delta chained_block) /\
  utxo_apply_compute_block_delta init_main_params sample_height (@projection_live_lookup key_order sample_table) double_spend_block =
    Ok (sample_delta double_spend_block).
Proof. split; vm_compute; reflexivity. Qed.



Lemma inverse_delta_exact_witness :
  let s := sample_delta chained_block in
  exists u, utxo_apply_emit_inverse_delta (serialize_spent s) (serialize_added s)
              (apply_coins_kv s sample_height sample_table) = Some u /\
    forall op, if decide (op ∈ map d_outpoint (spent s) /\ op ∈ map d_outpoint (added s))
               then sample_table !! op = None /\ is_Some (u !! op) else u !! op = sample_table !! op.
Proof.
  apply (@inverse_delta_exact key_order key_order_ok init_main_params _ _ chained_block).
  - apply sample_setting, sample_blocks_ok.
  - apply sample_delta_ok.
Defined.


(** After a block that creates a coin and spends it again is applied and disconnected, the coin
    is in the coins table although the chain that remains never created it. *)
Theorem disconnect_leaves_phantom :
  exists (txs : list transaction) (s : delta_summary) (u : coins_table) (op : outpoint),
    delta_setting sample_height sample_table txs /\
    utxo_apply_compute_block_delta init_main_params sample_height (@projection_live_lookup key_order sample_table) txs = Ok s /\
    connect_txs sample_height txs sample_table = Some (apply_coins_kv s sample_height sample_table) /\
    utxo_apply_emit_inverse_delta (serialize_spent s) (serialize_added s)
      (apply_coins_kv s sample_height sample_table) = Some u /\
    sample_table !! op = None /\ is_Some (u !! op) /\ table_value sample_table < table_value u.
Proof.
  destruct sample_delta_ok as [E _]. pose proof (sample_setting _ (proj1 sample_blocks_ok)) as Hset.
  destruct (@block_delta_ok key_order key_order_ok init_main_params _ _ _ _ Hset E) as (Ha & _ & Hc & _).
  destruct (inverse_table _ _ _ (setting_height _ _ _ Hset) Ha) as (u & Eu & Hu).
  exists chained_block, (sample_delta chained_block), u, (sample_op 2 1). split_and!; [done..| | | | |].
  - apply Hc. compute_decide.
  - done.
  - vm_compute. reflexivity.
  - rewrite Hu, decide_True by compute_decide. eexists. vm_compute. reflexivity.
  - apply (f_equal (fun o => table_value (default ∅ o))) in Eu. cbn [default] in Eu. unfold id in Eu.
    rewrite <- Eu. vm_compute. reflexivity.
Qed.
