(* ===== verification/BlockCheck.v ===== *)
(** * Block and header checks

    Models domain/consensus/src/check_block.c, header_accept.c, sigops.c and checkpoints.c, the
    functions of lib/validation/src/check_block.c that compose them with the transaction and
    proof-of-work checks, the verdicts of consensus/validation.h and the wrappers of
    lib/validation/src/accept_block_header.c.  The Equihash verifier and the shielded proofs
    (lib/crypto, lib/sapling) and the adjusted clock are parameters; the events emitted on a
    rejection are not part of the model. *)

From stdpp Require Import strings.
From S2P Require Import Prelude Hash Arith256 Serialize Script Transaction Params TxCheck Pow Block Merkle Coins UtxoDelta.

(** ** Verdicts (consensus/validation.h) *)

Definition REJECT_INVALID : Z := 0x10.
Definition REJECT_OBSOLETE : Z := 0x11.
Definition REJECT_CHECKPOINT : Z := 0x43.

Inductive validation_mode := MODE_VALID | MODE_INVALID | MODE_ERROR.

(** [debug_message] and the [missing_*] fields are written by none of the checks below. *)
Record validation_state := ValidationState {
  mode : validation_mode;
  dos : Z;
  reject_reason : string;
  reject_code : Z;
  corruption_possible : bool;
}.

Definition validation_state_init : validation_state :=
  {| mode := MODE_VALID; dos := 0; reject_reason := ""; reject_code := 0; corruption_possible := false |}.

Definition validation_state_dos (s : validation_state) (level code : Z) (reason : string) (corruption : bool)
    : validation_state :=
  match mode s with
  | MODE_ERROR => {| mode := MODE_ERROR; dos := dos s; reject_reason := reason; reject_code := code;
                     corruption_possible := corruption |}
  | _ => {| mode := MODE_INVALID; dos := dos s + level; reject_reason := reason; reject_code := code;
            corruption_possible := corruption |}
  end.

Definition validation_state_invalid (s : validation_state) (code : Z) (reason : string) : validation_state :=
  validation_state_dos s 0 code reason false.

Definition validation_state_error (s : validation_state) (reason : string) : validation_state :=
  {| mode := MODE_ERROR; dos := dos s; reject_reason := if mode s is MODE_VALID then reason else reject_reason s;
     reject_code := reject_code s; corruption_possible := corruption_possible s |}.

(** Why a check fails.  [Undefined] stands for a failed assertion or a read outside an array:
    there is no state to report. *)
Inductive verdict :=
  | RejectDos (level code : Z) (reason : string) (corruption : bool)
  | RejectFatal (reason : string)
  | Undefined.

Abbreviation check := (result verdict unit).

Definition stamp (v : verdict) (s : validation_state) : validation_state :=
  match v with
  | RejectDos level code reason corruption => validation_state_dos s level code reason corruption
  | RejectFatal reason => validation_state_error s reason
  | Undefined => s
  end.

(** The C functions return a boolean and update the state *)
Definition run_check (c : check) (s : validation_state) : bool * validation_state :=
  match c with Ok _ => (true, s) | Err v => (false, stamp v s) end.

Definition reject_if (cond : bool) (level : Z) (reason : string) : check :=
  ensure (negb cond) (RejectDos level REJECT_INVALID reason false).
Definition reject_corrupt_if (cond : bool) (level : Z) (reason : string) : check :=
  ensure (negb cond) (RejectDos level REJECT_INVALID reason true).
Definition reject_invalid_if (cond : bool) (reason : string) : check :=
  ensure (negb cond) (RejectDos 0 REJECT_INVALID reason false).
Definition reject_obsolete_if (cond : bool) (reason : string) : check :=
  ensure (negb cond) (RejectDos 0 REJECT_OBSOLETE reason false).
Definition reject_checkpoint_if (cond : bool) (level : Z) (reason : string) : check :=
  ensure (negb cond) (RejectDos level REJECT_CHECKPOINT reason false).

(** ** Pure header checks (header_accept.c): the reason and the misbehaviour score *)

Abbreviation domain_check := (result (string * Z) unit).

Definition block_header_get_time (h : block_header) : Z := nTime h.

Definition domain_consensus_check_header_version_too_low (h : block_header) (min_version : Z) : domain_check :=
  ensure (negb (nVersion h <? min_version)) ("version-too-low"%string, 100).

Definition domain_consensus_check_header_version_obsolete (h : block_header) (obsolete_below : Z) : domain_check :=
  ensure (negb (nVersion h <? obsolete_below)) ("bad-version"%string, 0).

Definition domain_consensus_check_header_timestamp_too_new (h : block_header) (now_upper_bound : Z) : domain_check :=
  ensure (negb (block_header_get_time h >? now_upper_bound)) ("time-too-new"%string, 0).

Definition domain_consensus_check_header_timestamp_too_old (h : block_header) (prev_mtp : Z) : domain_check :=
  ensure (negb (block_header_get_time h <=? prev_mtp)) ("time-too-old"%string, 0).

Definition domain_consensus_check_header_equihash_solution_size (h : block_header) (expected_solution_size : Z) : domain_check :=
  let sol_size := zlen (nSolution h) in
  ensure (negb ((sol_size >? 0) && negb (sol_size =? expected_solution_size))) ("bad-equihash-solution-size"%string, 100).

Definition domain_consensus_check_header_bits_match (h : block_header) (expected_bits : Z) : domain_check :=
  ensure (nBits h =? expected_bits) ("bad-diffbits"%string, 100).

(** The wrappers of accept_block_header.c *)
Definition forward_dos (c : domain_check) : check :=
  match c with Ok u => Ok u | Err (reason, level) => Err (RejectDos level REJECT_INVALID reason false) end.
Definition forward_invalid (code : Z) (c : domain_check) : check :=
  match c with Ok u => Ok u | Err (reason, _) => Err (RejectDos 0 code reason false) end.

Definition accept_block_header_check_version_too_low (h : block_header) (min_version : Z) : check :=
  forward_dos (domain_consensus_check_header_version_too_low h min_version).
Definition accept_block_header_check_version_obsolete (h : block_header) (obsolete_below : Z) : check :=
  forward_invalid REJECT_OBSOLETE (domain_consensus_check_header_version_obsolete h obsolete_below).
Definition accept_block_header_check_timestamp_too_new (h : block_header) (now_upper_bound : Z) : check :=
  forward_invalid REJECT_INVALID (domain_consensus_check_header_timestamp_too_new h now_upper_bound).
Definition accept_block_header_check_timestamp_too_old (h : block_header) (prev_mtp : Z) : check :=
  forward_invalid REJECT_INVALID (domain_consensus_check_header_timestamp_too_old h prev_mtp).
Definition accept_block_header_check_equihash_solution_size (h : block_header) (expected_solution_size : Z) : check :=
  forward_dos (domain_consensus_check_header_equihash_solution_size h expected_solution_size).
Definition accept_block_header_check_bits_match (h : block_header) (expected_bits : Z) : check :=
  forward_dos (domain_consensus_check_header_bits_match h expected_bits).

(** ** Checkpoints (checkpoints.c) *)

Record checkpoint_entry := CheckpointEntry { cp_height : Z; cp_hash : uint256_t }.

Fixpoint domain_consensus_checkpoints_hash_at_height (data : list checkpoint_entry) (height : Z) : option uint256_t :=
  match data with
  | [] => None
  | e :: r => if cp_height e =? height then Some (cp_hash e) else domain_consensus_checkpoints_hash_at_height r height
  end.

Definition domain_consensus_checkpoints_last_height (data : list checkpoint_entry) : Z :=
  foldl (fun best e => if cp_height e >? best then cp_height e else best) (-1) data.

Definition domain_consensus_checkpoints_validate_header (data : list checkpoint_entry) (height : Z) (hash : uint256_t) : bool :=
  match domain_consensus_checkpoints_hash_at_height data height with
  | None => true
  | Some expected => uint256_cmp hash expected =? 0
  end.

Definition domain_consensus_checkpoints_total_blocks_estimate (data : list checkpoint_entry) : Z :=
  match last data with Some e => cp_height e | None => 0 end.

(** ** Signature operations (sigops.c) *)

Definition SCRIPT_VERIFY_NONE : Z := 0.

Definition domain_consensus_tx_legacy_sig_op_count (tx : transaction) (flags : Z) : Z :=
  let n := foldl (fun n i => u64 (n + script_get_sig_op_count (script_sig i) flags false)) 0 (vin tx) in
  foldl (fun n o => u64 (n + script_get_sig_op_count (script_pub_key o) flags false)) n (vout tx).

Definition get_legacy_sig_op_count := domain_consensus_tx_legacy_sig_op_count.

(** [prevouts] gives the resolved output of each input, in order; [None] is a missing one *)
Definition domain_consensus_tx_p2sh_sig_op_count (tx : transaction) (prevouts : list (option tx_out)) (flags : Z) : Z :=
  if flags .& SCRIPT_VERIFY_P2SH =? 0 then 0
  else if transaction_is_coinbase tx then 0
  else
    foldl (fun n '(i, prevout) =>
      match prevout with
      | Some o =>
          if script_is_pay_to_script_hash (script_pub_key o)
          then u64 (n + script_get_sig_op_count_p2sh (script_pub_key o) (script_sig i) flags) else n
      | None => n
      end) 0 (zip (vin tx) prevouts).

(** ** Block structure (domain/consensus/src/check_block.c) *)

Definition DOMAIN_GENEROUS_BLOCK_TXN_LIMIT : Z := 2000000.
Definition DOMAIN_MAX_BLOCK_SIGOPS : Z := 20000.
Definition MIN_BLOCK_VERSION : Z := 4.
Definition MAX_BLOCK_SIZE : Z := 2000000.

Inductive block_err :=
  | OUT_OF_MEMORY | BAD_TXNMRKLROOT | BAD_TXNS_DUP
  | BAD_BLK_LENGTH | BAD_CB_MISSING | BAD_CB_MULTIPLE | BAD_BLK_SIGOPS.

Definition block_reject (e : block_err) : string * Z :=
  match e with
  | OUT_OF_MEMORY => ("out-of-memory", 0)
  | BAD_TXNMRKLROOT => ("bad-txnmrklroot", 100)
  | BAD_TXNS_DUP => ("bad-txns-duplicate", 100)
  | BAD_BLK_LENGTH => ("bad-blk-length", 100)
  | BAD_CB_MISSING => ("bad-cb-missing", 100)
  | BAD_CB_MULTIPLE => ("bad-cb-multiple", 100)
  | BAD_BLK_SIGOPS => ("bad-blk-sigops", 100)
  end.

Definition domain_consensus_check_block_merkle_root `{Allocator} `{HashFunctions} (b : block)
    : result block_err unit :=
  ensure (negb ((zlen (vtx b) >? 0) && negb (alloc_succeeds (zlen (vtx b) * 32)))) OUT_OF_MEMORY;;
  let '(merkle_root, mutated) := compute_merkle_root_mutated (map tx_hash (vtx b)) in
  ensure (uint256_eq (hashMerkleRoot (header b)) merkle_root) BAD_TXNMRKLROOT;;
  ensure (negb mutated) BAD_TXNS_DUP.

Definition domain_consensus_check_block_size_and_coinbase (b : block) : result block_err unit :=
  ensure (negb ((zlen (vtx b) =? 0) || (zlen (vtx b) >? DOMAIN_GENEROUS_BLOCK_TXN_LIMIT))) BAD_BLK_LENGTH;;
  match vtx b with
  | [] => mret tt
  | cb :: rest =>
      ensure (transaction_is_coinbase cb) BAD_CB_MISSING;;
      ensure (negb (existsb transaction_is_coinbase rest)) BAD_CB_MULTIPLE
  end.

Definition domain_consensus_check_block_sigops (b : block) : result block_err unit :=
  let n_sig_ops :=
    foldl (fun n tx => u32 (n + u32 (get_legacy_sig_op_count tx SCRIPT_VERIFY_NONE))) 0 (vtx b) in
  ensure (negb (n_sig_ops >? DOMAIN_MAX_BLOCK_SIGOPS)) BAD_BLK_SIGOPS.

(** ** CheckBlockHeader and CheckBlock (lib/validation/src/check_block.c) *)

Inductive crypto_scheme_status :=
  | CRYPTO_STATUS_UNREGISTERED | CRYPTO_STATUS_ACTIVE | CRYPTO_STATUS_DEPRECATED | CRYPTO_STATUS_RETIRED.

(** A registered proof scheme: the verifier takes the public inputs and the proof. *)
Record crypto_scheme := CryptoScheme {
  scheme_status : crypto_scheme_status;
  zk_verify : option (bytes -> bytes -> bool);
}.

(** What the registry returns for Equihash *)
Class CryptoRegistry := equihash_scheme : option crypto_scheme.

(** The network-adjusted clock *)
Class Clock := GetAdjustedTime : Z.

Record chain_params := ChainParams {
  consensus : consensus_params;
  nEquihashN : Z;
  nEquihashK : Z;
  checkpointData : list checkpoint_entry;
}.

Definition EQUIHASH_DEFAULT_PARAMS : Z := 0.

Definition EquihashUpgradeInfo (epoch : upgrade_index) : Z * Z :=
  match epoch with
  | UPGRADE_BUBBLES | UPGRADE_DIFFADJ | UPGRADE_BUTTERCUP => (192, 7)
  | _ => (EQUIHASH_DEFAULT_PARAMS, EQUIHASH_DEFAULT_PARAMS)
  end.

Definition chain_params_equihash_n (p : chain_params) (height : Z) : Z :=
  let n := fst (EquihashUpgradeInfo (consensus_current_epoch (consensus p) height)) in
  if n =? EQUIHASH_DEFAULT_PARAMS then nEquihashN p else n.

Definition chain_params_equihash_k (p : chain_params) (height : Z) : Z :=
  let k := snd (EquihashUpgradeInfo (consensus_current_epoch (consensus p) height)) in
  if k =? EQUIHASH_DEFAULT_PARAMS then nEquihashK p else k.

Definition write_u32_le_buf (v : Z) : bytes :=
  [v .& 0xff; (v ≫ 8) .& 0xff; (v ≫ 16) .& 0xff; (v ≫ 24) .& 0xff].

Definition write_i32_le_buf (v : Z) : bytes := write_u32_le_buf (u32 v).

(** The header without its solution; with 32-byte hashes the length check always passes. *)
Definition BLOCK_HEADER_SIZE : Z := 140.

Definition block_header_equihash_input (h : block_header) : option bytes :=
  let out := write_i32_le_buf (nVersion h) ++ hashPrevBlock h ++ hashMerkleRoot h ++
             hashFinalSaplingRoot h ++ write_u32_le_buf (nTime h) ++ write_u32_le_buf (nBits h) ++ nNonce h in
  if zlen out =? BLOCK_HEADER_SIZE then Some out else None.

Definition check_equihash_solution_via_registry `{CryptoRegistry} (h : block_header) : bool :=
  match equihash_scheme with
  | Some {| scheme_status := (CRYPTO_STATUS_ACTIVE | CRYPTO_STATUS_DEPRECATED); zk_verify := Some verify |} =>
      match block_header_equihash_input h with
      | Some input => verify input (nSolution h)
      | None => false
      end
  | _ => false
  end.

Section Block.
Context `{Allocator} `{HashFunctions} `{CryptoRegistry} `{Clock}.

Definition check_block_header (h : block_header) (params : chain_params) (check_pow : bool) : check :=
  reject_if (nVersion h <? MIN_BLOCK_VERSION) 100 "version-too-low";;
  (if check_pow then
     reject_if (negb (check_equihash_solution_via_registry h)) 100 "invalid-solution";;
     reject_if (negb (CheckProofOfWork (block_header_get_hash h) (nBits h) (consensus params))) 50 "high-hash"
   else mret tt);;
  reject_invalid_if (block_header_get_time h >? GetAdjustedTime + 2 * 60 * 60) "time-too-new".

Definition check_transaction (tx : transaction) : check :=
  match domain_consensus_check_transaction_structural tx with
  | Ok _ => mret tt
  | Err e => Err (RejectDos (snd (tx_reject e)) REJECT_INVALID (fst (tx_reject e)) false)
  end.

Definition forward_block (corruption : bool) (c : result block_err unit) : check :=
  match c with
  | Ok _ => mret tt
  | Err OUT_OF_MEMORY => Err (RejectFatal "out-of-memory")
  | Err e => Err (RejectDos (snd (block_reject e)) REJECT_INVALID (fst (block_reject e)) corruption)
  end.

Fixpoint check_each {A} (f : A -> check) (l : list A) : check :=
  match l with
  | [] => mret tt
  | x :: r => f x;; check_each f r
  end.

Definition check_block (b : block) (params : chain_params)
    (check_pow check_merkle_root check_size_limits : bool) : check :=
  check_block_header (header b) params check_pow;;
  (if check_merkle_root then forward_block true (domain_consensus_check_block_merkle_root b) else mret tt);;
  if check_size_limits then
    forward_block false (domain_consensus_check_block_size_and_coinbase b);;
    check_each check_transaction (vtx b);;
    forward_block true (domain_consensus_check_block_sigops b)
  else mret tt.

(** ** ContextualCheckBlockHeader *)

Definition expected_solution_size (params : chain_params) (nHeight : Z) : Z :=
  let eh_n := chain_params_equihash_n params nHeight in
  let eh_k := chain_params_equihash_k params nHeight in
  ((1 ≪ eh_k) * (eh_n / (eh_k + 1) + 1)) / 8.

(** [chain] is the previous block and its ancestors; it is empty where [pindex_prev] is NULL. *)
Definition contextual_check_block_header (h : block_header) (params : chain_params)
    (chain : list block_index) (checkpoints_enabled : bool) : check :=
  let hash := block_header_get_hash h in
  if uint256_eq hash (hashGenesisBlock (consensus params)) then mret tt
  else
    match chain with
    | [] => Err (RejectFatal "prev-block-index-null")
    | pindex_prev :: _ =>
        let nHeight := bi_nHeight pindex_prev + 1 in
        let sol_size := zlen (nSolution h) in
        (if sol_size >? 0 then
           reject_if (negb (sol_size =? expected_solution_size params nHeight)) 100 "bad-equihash-solution-size"
         else mret tt);;
        (match GetNextWorkRequired chain (Some (block_header_get_time h)) (consensus params) with
         | Some expected_bits => reject_if (negb (nBits h =? expected_bits)) 100 "bad-diffbits"
         | None => Err Undefined
         end);;
        reject_invalid_if (block_header_get_time h <=? block_index_get_median_time_past chain) "time-too-old";;
        (if checkpoints_enabled then
           reject_checkpoint_if
             (negb (domain_consensus_checkpoints_validate_header (checkpointData params) nHeight hash))
             100 "bad-fork-at-checkpoint"
         else mret tt);;
        reject_obsolete_if (nVersion h <? 4) "bad-version"
    end.

End Block.

(** ** ContextualCheckTransaction (lib/validation/src/contextual_check_tx.c) *)

(** The shielded cryptography of lib/sapling and lib/crypto, and the signature hash of the
    whole transaction.  The Sapling verifier accumulates the value commitments in a context;
    [None] is a failed check. *)
Class ShieldedCrypto := {
  signature_hash_all : transaction -> Z -> option uint256_t;
  ed25519_verify : bytes -> uint256_t -> uint256_t -> bool;
  sapling_ctx : Type;
  sapling_verification_ctx_init : option sapling_ctx;
  sapling_check_spend : sapling_ctx -> spend_description -> uint256_t -> option sapling_ctx;
  sapling_check_output : sapling_ctx -> output_description -> option sapling_ctx;
  sapling_final_check : sapling_ctx -> Z -> bytes -> uint256_t -> bool;
  sprout_h_sig : js_description -> uint256_t -> uint256_t;
  sprout_verify_groth16 : js_description -> uint256_t -> bool;
  sprout_verify_phgr13 : js_description -> uint256_t -> bool;
}.

Section Contextual.
Context `{Allocator} `{ShieldedCrypto}.
(** [g_deferred_proof_validation_below_height] *)
Context (deferred_below : Z).

Fixpoint check_spends (ctx : sapling_ctx) (l : list spend_description) (hash : uint256_t)
    : result verdict sapling_ctx :=
  match l with
  | [] => mret ctx
  | sd :: r =>
      match sapling_check_spend ctx sd hash with
      | None => Err (RejectDos 100 REJECT_INVALID "bad-txns-sapling-spend-description-invalid" false)
      | Some ctx' => check_spends ctx' r hash
      end
  end.

Fixpoint check_outputs (ctx : sapling_ctx) (l : list output_description) : result verdict sapling_ctx :=
  match l with
  | [] => mret ctx
  | od :: r =>
      match sapling_check_output ctx od with
      | None => Err (RejectDos 100 REJECT_INVALID "bad-txns-sapling-output-description-invalid" false)
      | Some ctx' => check_outputs ctx' r
      end
  end.

Definition check_joinsplit_proof (tx : transaction) (js : js_description) : check :=
  let h_sig := sprout_h_sig js (joinsplit_pubkey tx) in
  if js_use_groth js
  then reject_if (negb (sprout_verify_groth16 js h_sig)) 100 "bad-txns-joinsplit-proof-invalid"
  else reject_if (negb (sprout_verify_phgr13 js h_sig)) 100 "bad-txns-joinsplit-phgr13-invalid".

(** The part skipped for blocks at or below the deferral height *)
Definition check_shielded (tx : transaction) (params : consensus_params) (nHeight : Z) : check :=
  let has_joinsplit := zlen (v_joinsplit tx) >? 0 in
  let has_sapling := (zlen (v_shielded_spend tx) >? 0) || (zlen (v_shielded_output tx) >? 0) in
  data_to_be_signed ← (if has_joinsplit || has_sapling then
      match signature_hash_all tx (consensus_current_epoch_branch_id params nHeight) with
      | Some hash => mret hash
      | None => Err (RejectDos 100 REJECT_INVALID "error-computing-signature-hash" false)
      end
    else mret uint256_null);
  (if has_joinsplit then
     reject_if (negb (ed25519_verify (joinsplit_sig tx) data_to_be_signed (joinsplit_pubkey tx)))
       100 "bad-txns-joinsplit-signature"
   else mret tt);;
  (if has_sapling then
     match sapling_verification_ctx_init with
     | None => Err (RejectDos 100 REJECT_INVALID "sapling-verification-ctx-init-failed" false)
     | Some sctx =>
         sctx ← check_spends sctx (v_shielded_spend tx) data_to_be_signed;
         sctx ← check_outputs sctx (v_shielded_output tx);
         reject_if (negb (sapling_final_check sctx (value_balance tx) (binding_sig tx) data_to_be_signed))
           100 "bad-txns-sapling-binding-sig-invalid"
     end
   else mret tt);;
  check_each (check_joinsplit_proof tx) (v_joinsplit tx).

Definition contextual_check_transaction (tx : transaction) (params : consensus_params)
    (nHeight dosLevel : Z) : check :=
  (match domain_consensus_check_transaction_sapling_structural tx params nHeight with
   | Ok _ => mret tt
   | Err e =>
       let '(reason, level) := default (""%string, 0) (sapling_reject dosLevel e) in
       Err (RejectDos level REJECT_INVALID reason false)
   end);;
  (if consensus_network_upgrade_active params nHeight UPGRADE_OVERWINTER then
     let expiredDosLevel := if domain_consensus_tx_is_expired tx (nHeight - 1) then dosLevel else 0 in
     reject_if (domain_consensus_tx_is_expired tx nHeight) expiredDosLevel "tx-overwinter-expired"
   else mret tt);;
  let skip_proofs := (deferred_below >=? 0) && (nHeight <=? deferred_below) in
  if skip_proofs then mret tt else check_shielded tx params nHeight.

(** ** The height in the coinbase (BIP34) *)

(** The bytes of a positive height, low first; a C int has at most four. *)
Fixpoint height_bytes (fuel : nat) (h : Z) : bytes :=
  match fuel with
  | O => []
  | S fuel' => if h >? 0 then h .& 0xff :: height_bytes fuel' (h ≫ 8) else []
  end.

Definition height_push (nHeight : Z) : bytes :=
  let num := height_bytes 4 nHeight in
  let num := match last num with
             | Some top => if top .& 0x80 =? 0 then num else num ++ [0]
             | None => num
             end in
  zlen num :: num.

Definition bip34_check_coinbase_height (coinbase : transaction) (nHeight : Z) : bool :=
  match vin coinbase with
  | [] => false
  | i :: _ =>
      let sig := script_sig i in
      if nHeight <=? 0 then true
      else
        match sig with
        | [] => false
        | b0 :: _ =>
            if (nHeight >=? 1) && (nHeight <=? 16) && (b0 =? 0x50 + nHeight) then true
            else
              let expect := height_push nHeight in
              if zlen sig <? zlen expect then false
              else bool_decide (take (length expect) sig = expect)
        end
  end.

(** ** ContextualCheckBlock *)

Definition contextual_check_block (b : block) (params : chain_params) (chain : list block_index) : check :=
  let nHeight := match chain with [] => 0 | p :: _ => bi_nHeight p + 1 end in
  let nLockTimeCutoff :=
    match chain with
    | [] => block_header_get_time (header b)
    | _ => block_index_get_median_time_past chain
    end in
  check_each (fun tx =>
    contextual_check_transaction tx (consensus params) nHeight 100;;
    reject_if (negb (domain_consensus_tx_is_final tx nHeight nLockTimeCutoff)) 10 "bad-txns-nonfinal") (vtx b);;
  if nHeight >? 0 then
    match vtx b with
    | [] => Err Undefined
    | cb :: _ => reject_if (negb (bip34_check_coinbase_height cb nHeight)) 100 "bad-cb-height"
    end
  else mret tt.

End Contextual.

(** ** Lemmas *)

Lemma ensure_negb_ok {E} b (e : E) u : ensure (negb b) e = Ok u <-> b = false.
Proof. by rewrite ensure_ok, negb_true_iff. Qed.

Lemma check_each_ok {A} (f : A -> check) l : check_each f l = Ok tt <-> Forall (fun x => f x = Ok tt) l.
Proof.
  induction l as [|x l IH]; [done|]. cbn [check_each]. by rewrite bind_unit_ok, IH, Forall_cons.
Qed.

Lemma forward_block_ok corruption c : forward_block corruption c = Ok tt <-> c = Ok tt.
Proof. destruct c as [[]|[]]; done. Qed.

Lemma existsb_none {A} (p : A -> bool) l : existsb p l = false <-> Forall (fun x => p x = false) l.
Proof.
  induction l as [|x l IH]; [done|]. cbn [existsb]. by rewrite orb_false_iff, IH, Forall_cons.
Qed.

Ltac unfold_rejects :=
  unfold reject_if, reject_invalid_if, reject_corrupt_if, reject_obsolete_if, reject_checkpoint_if.

(** A wrapping sum of non-negative terms is exact while it stays below the width. *)
Lemma foldl_wrap {A} w (f : A -> Z) l n : 0 <= n -> Forall (fun x => 0 <= f x) l ->
  n + sum_Z (map f l) < 2 ^ w -> foldl (fun n x => uwrap w (n + f x)) n l = n + sum_Z (map f l).
Proof.
  intros Hn Hf. revert n Hn. induction Hf as [|x l Hx Hl IH]; intros n Hn Hs; cbn in *; [lia|].
  fold (sum_Z (map f l)) in *. assert (0 <= sum_Z (map f l)) by (by apply sum_Z_Forall_nonneg, List.Forall_map).
  rewrite uwrap_small by (unfold is_u; lia). rewrite IH by lia. lia.
Qed.

Lemma foldl_wrap_wrap {A} w (f : A -> Z) l n :
  foldl (fun n x => uwrap w (n + uwrap w (f x))) n l = foldl (fun n x => uwrap w (n + f x)) n l.
Proof.
  revert n. induction l as [|x l IH]; intros n; [done|]. cbn [foldl]. rewrite IH. f_equal.
  unfold uwrap. apply Zplus_mod_idemp_r.
Qed.

Lemma sum_Z_le_encoded {A} (g : A -> Z) (enc : A -> bytes) l :
  Forall (fun a => g a <= zlen (enc a)) l -> sum_Z (map g l) <= zlen (mjoin (map enc l)).
Proof.
  induction 1 as [|a l Ha Hl IH]; [done|].
  change (mjoin (map enc (a :: l))) with (enc a ++ mjoin (map enc l)). rewrite zlen_app. cbn in *.
  fold (sum_Z (map g l)). lia.
Qed.

Lemma sum_Z_scale {A} k (f g : A -> Z) l :
  Forall (fun a => 0 <= f a <= k * g a) l -> 0 <= sum_Z (map f l) <= k * sum_Z (map g l).
Proof. induction 1; cbn in *; unfold sum_Z in *; lia. Qed.

(** The exact number of signature operations of a transaction *)
Definition sigops (s : script) : Z := script_get_sig_op_count s SCRIPT_VERIFY_NONE false.

Definition tx_sigops (tx : transaction) : Z :=
  sum_Z (map (fun i => sigops (script_sig i)) (vin tx)) +
  sum_Z (map (fun o => sigops (script_pub_key o)) (vout tx)).

Lemma sigops_bound s : script_ok s -> 0 <= sigops s <= 20 * zlen s.
Proof.
  unfold script_ok, MAX_SCRIPT_SIZE, sigops, script_get_sig_op_count, zlen. intros [Hs _].
  pose proof (sig_op_loop_bound (length s) SCRIPT_VERIFY_NONE false 0 OP_INVALIDOPCODE s ltac:(lia) ltac:(lia)).
  lia.
Qed.

Lemma tx_sigops_parts tx : tx_ok tx ->
  0 <= sum_Z (map (fun i => sigops (script_sig i)) (vin tx)) <= 20 * zlen (vector_bytes tx_in_bytes (vin tx)) /\
  0 <= sum_Z (map (fun o => sigops (script_pub_key o)) (vout tx)) <= 20 * zlen (vector_bytes tx_out_bytes (vout tx)).
Proof.
  intros (_ & _ & [_ Hin] & [_ Hout] & _). unfold vector_bytes. rewrite !zlen_app.
  pose proof (zlen_nonneg (compact_size_bytes (zlen (vin tx)))).
  pose proof (zlen_nonneg (compact_size_bytes (zlen (vout tx)))).
  assert (0 <= sum_Z (map (fun i => sigops (script_sig i)) (vin tx)) <=
    20 * sum_Z (map (fun i => zlen (script_sig i)) (vin tx))).
  { apply sum_Z_scale. eapply Forall_impl; [exact Hin|]. intros i (_ & Hs & _). by apply sigops_bound. }
  assert (0 <= sum_Z (map (fun o => sigops (script_pub_key o)) (vout tx)) <=
    20 * sum_Z (map (fun o => zlen (script_pub_key o)) (vout tx))).
  { apply sum_Z_scale. eapply Forall_impl; [exact Hout|]. intros o (_ & Hs). by apply sigops_bound. }
  assert (sum_Z (map (fun i => zlen (script_sig i)) (vin tx)) <= zlen (mjoin (map tx_in_bytes (vin tx)))).
  { apply sum_Z_le_encoded, Forall_forall. intros i _. unfold tx_in_bytes, script_bytes.
    rewrite !zlen_app. unfold zlen. lia. }
  assert (sum_Z (map (fun o => zlen (script_pub_key o)) (vout tx)) <= zlen (mjoin (map tx_out_bytes (vout tx)))).
  { apply sum_Z_le_encoded, Forall_forall. intros o _. unfold tx_out_bytes, script_bytes.
    rewrite !zlen_app. unfold zlen. lia. }
  lia.
Qed.

Lemma tx_sigops_bound tx : tx_ok tx -> 0 <= tx_sigops tx <= 20 * zlen (tx_bytes tx).
Proof.
  intros Hok. destruct (tx_sigops_parts tx Hok). unfold tx_sigops, tx_bytes. cbv zeta.
  rewrite !zlen_app. unfold zlen in *. lia.
Qed.

Lemma legacy_count_exact tx : tx_ok tx -> get_legacy_sig_op_count tx SCRIPT_VERIFY_NONE = tx_sigops tx.
Proof.
  intros Hok. pose proof (tx_sigops_bound tx Hok). pose proof (tx_bytes_size tx Hok).
  destruct (tx_sigops_parts tx Hok) as [[? _] [? _]]. destruct Hok as (_ & _ & [_ Hin] & [_ Hout] & _).
  unfold get_legacy_sig_op_count, domain_consensus_tx_legacy_sig_op_count. cbv zeta.
  unfold tx_sigops in *. rewrite (foldl_wrap 64 (fun i => sigops (script_sig i))); [|lia| |lia].
  - rewrite (foldl_wrap 64 (fun o => sigops (script_pub_key o))); [lia|lia| |lia].
    eapply Forall_impl; [exact Hout|]. intros o (_ & Hs). by apply sigops_bound.
  - eapply Forall_impl; [exact Hin|]. intros i (_ & Hs & _). by apply sigops_bound.
Qed.

(** What a block must satisfy, in the terms of the components *)
Record block_valid `{Allocator} `{HashFunctions} `{CryptoRegistry} `{Clock} (params : chain_params) (b : block) : Prop := {
  valid_version : 4 <= nVersion (header b);
  valid_solution : check_equihash_solution_via_registry (header b) = true;
  valid_work : target_usable (nBits (header b)) /\
    compact_value (nBits (header b)) <= le_decode (powLimit (consensus params)) /\
    le_decode (block_header_get_hash (header b)) <= compact_value (nBits (header b));
  valid_time : nTime (header b) <= GetAdjustedTime + 7200;
  valid_root : hashMerkleRoot (header b) = compute_merkle_root (map tx_hash (vtx b)) /\
    ~ dup_level (map tx_hash (vtx b));
  valid_coinbase : coinbase_first (vtx b);
  valid_txs : Forall structurally_valid (vtx b);
  valid_sigops : sum_Z (map tx_sigops (vtx b)) <= 20000;
}.

Section BlockLemmas.
Context `{AllocatorTotal} `{HashFunctionsOk} `{CryptoRegistry} `{Clock}.

Lemma header_hash_ok h : header_ok h -> uint256_ok (block_header_get_hash h).
Proof. intros Hh. rewrite block_header_hash_bytes by done. apply hash256_ok. Qed.

Lemma check_pow_iff h params : header_ok h -> uint256_ok (powLimit params) ->
  CheckProofOfWork (block_header_get_hash h) (nBits h) params = true <->
  target_usable (nBits h) /\ compact_value (nBits h) <= le_decode (powLimit params) /\
  le_decode (block_header_get_hash h) <= compact_value (nBits h).
Proof.
  intros Hh Hl. pose proof Hh as (_ & _ & _ & _ & _ & Hb & _).
  rewrite <- verify_pow_iff by auto using header_hash_ok. unfold CheckProofOfWork.
  destruct (domain_consensus_verify_pow_solution _ _ _) as [[]|]; naive_solver.
Qed.

Lemma block_hashes_fixed b : block_ok b -> Forall (fixed 32) (map tx_hash (vtx b)).
Proof.
  intros [_ [_ Hv]]. apply Forall_map. eapply Forall_impl; [exact Hv|]. intros tx [_ E].
  rewrite E. destruct (hash256_ok (tx_bytes tx)) as [Hl Hb]. split; [by rewrite Hl|done].
Qed.

Lemma merkle_root_fixed l : Forall (fixed 32) l -> fixed 32 (compute_merkle_root l).
Proof.
  intros Hf. destruct (decide (l = [])) as [->|Hne].
  { split; [done|]. by apply Forall_replicate. }
  rewrite merkle_root_calc by done. apply calc_hash_fixed; [done|].
  rewrite tree_height_width; [lia|by apply length_nonempty].
Qed.

Lemma check_merkle_iff b : block_ok b ->
  domain_consensus_check_block_merkle_root b = Ok tt <->
  hashMerkleRoot (header b) = compute_merkle_root (map tx_hash (vtx b)) /\ ~ dup_level (map tx_hash (vtx b)).
Proof.
  intros Hb. pose proof (block_hashes_fixed b Hb) as Hf. pose proof (merkle_root_fixed _ Hf) as Hr.
  destruct Hb as [(_ & _ & Hroot & _) _]. unfold domain_consensus_check_block_merkle_root.
  rewrite alloc_total, andb_false_r. cbn [negb ensure mbind result_bind].
  assert (snd (compute_merkle_root_mutated (map tx_hash (vtx b))) = true <-> dup_level (map tx_hash (vtx b))) as Hm.
  { destruct (decide (map tx_hash (vtx b) = [])) as [->|Hne]; [|by apply mutated_levels].
    split; [done|]. intros (k & Hk & _). cbn in Hk. lia. }
  unfold compute_merkle_root in *. destruct (compute_merkle_root_mutated _) as [root m]. cbn [fst snd] in *.
  rewrite bind_unit_ok, ensure_ok, ensure_negb_ok, (uint256_eq_spec 32) by done.
  destruct m; naive_solver.
Qed.

Lemma check_coinbase_iff b : zlen (vtx b) <= MAX_BLOCK_TRANSACTIONS ->
  domain_consensus_check_block_size_and_coinbase b = Ok tt <-> coinbase_first (vtx b).
Proof.
  unfold MAX_BLOCK_TRANSACTIONS, domain_consensus_check_block_size_and_coinbase, coinbase_first,
    DOMAIN_GENEROUS_BLOCK_TXN_LIMIT. intros Hn.
  rewrite bind_unit_ok, ensure_negb_ok, orb_false_iff. destruct (vtx b) as [|cb rest]; [naive_solver|].
  rewrite zlen_cons in *. pose proof (zlen_nonneg rest).
  rewrite bind_unit_ok, ensure_ok, ensure_negb_ok, existsb_none. intuition lia.
Qed.

Lemma block_sigops_bound b : block_ok b ->
  Forall (fun tx => 0 <= tx_sigops tx <= 20 * zlen (tx_bytes tx)) (vtx b) /\
  0 <= sum_Z (map tx_sigops (vtx b)) <= 20 * zlen (block_bytes b).
Proof.
  intros [_ [_ Hv]].
  assert (Forall (fun tx => 0 <= tx_sigops tx <= 20 * zlen (tx_bytes tx)) (vtx b)) as Hs.
  { eapply Forall_impl; [exact Hv|]. intros tx [Hok _]. by apply tx_sigops_bound. }
  split; [done|]. pose proof (sum_Z_scale 20 _ _ _ Hs).
  pose proof (sum_Z_le_encoded (fun tx => zlen (tx_bytes tx)) tx_bytes (vtx b)) as Hle.
  unfold block_bytes, vector_bytes. rewrite !zlen_app.
  specialize (Hle ltac:(by apply Forall_forall)). unfold zlen in *. lia.
Qed.

Lemma check_sigops_iff b : block_ok b -> 20 * zlen (block_bytes b) < 2 ^ 32 ->
  domain_consensus_check_block_sigops b = Ok tt <-> sum_Z (map tx_sigops (vtx b)) <= 20000.
Proof.
  intros Hb Hsize. destruct (block_sigops_bound b Hb) as [Hs Hsum]. destruct Hb as [_ [_ Hv]].
  unfold domain_consensus_check_block_sigops. cbv zeta.
  rewrite (foldl_wrap_wrap 32 (fun tx => get_legacy_sig_op_count tx SCRIPT_VERIFY_NONE)).
  assert (map (fun tx => get_legacy_sig_op_count tx SCRIPT_VERIFY_NONE) (vtx b) = map tx_sigops (vtx b)) as E.
  { clear -Hv. induction Hv as [|tx l [Hok _] Hl IH]; [done|]. cbn [map]. by rewrite legacy_count_exact, IH. }
  rewrite foldl_wrap; rewrite ?E; [|lia| |lia].
  - rewrite ensure_negb_ok. unfold DOMAIN_MAX_BLOCK_SIGOPS. lia.
  - eapply Forall_impl; [exact Hv|]. intros tx [Hok _]. rewrite legacy_count_exact by done.
    by apply tx_sigops_bound.
Qed.

Lemma check_header_iff h params : header_ok h -> uint256_ok (powLimit (consensus params)) ->
  check_block_header h params true = Ok tt <->
  4 <= nVersion h /\ check_equihash_solution_via_registry h = true /\
  (target_usable (nBits h) /\ compact_value (nBits h) <= le_decode (powLimit (consensus params)) /\
   le_decode (block_header_get_hash h) <= compact_value (nBits h)) /\
  nTime h <= GetAdjustedTime + 7200.
Proof.
  intros Hh Hl. rewrite <- check_pow_iff by done. unfold check_block_header, MIN_BLOCK_VERSION, block_header_get_time.
  unfold_rejects. rewrite !bind_unit_ok, !ensure_negb_ok, !negb_false_iff.
  destruct (Z.ltb_spec (nVersion h) 4), (Z.gtb_spec (nTime h) (GetAdjustedTime + 2 * 60 * 60)); intuition (discriminate || lia).
Qed.

Lemma check_transaction_iff tx : tx_ok tx -> check_transaction tx = Ok tt <-> structurally_valid tx.
Proof.
  intros Hok. rewrite <- check_structural_iff by done. unfold check_transaction.
  destruct (domain_consensus_check_transaction_structural tx) as [[]|]; naive_solver.
Qed.

Lemma check_block_iff b params : block_ok b -> 20 * zlen (block_bytes b) < 2 ^ 32 ->
  uint256_ok (powLimit (consensus params)) ->
  check_block b params true true true = Ok tt <-> block_valid params b.
Proof.
  intros Hb Hsize Hl. pose proof Hb as [Hh [Hn Hv]]. unfold check_block.
  rewrite !bind_unit_ok, !forward_block_ok, check_each_ok, check_header_iff, check_merkle_iff,
    check_coinbase_iff, check_sigops_iff by done.
  assert (Forall (fun tx => check_transaction tx = Ok tt) (vtx b) <-> Forall structurally_valid (vtx b)) as ->.
  { rewrite !Forall_forall. rewrite Forall_forall in Hv. split; intros Hall tx Hin; specialize (Hall tx Hin);
      by apply check_transaction_iff; [apply Hv|]. }
  split; [intros (? & ? & ? & ? & ?); constructor; naive_solver|].
  intros []. naive_solver.
Qed.
End BlockLemmas.

(** The pushed height determines the height. *)
Lemma height_bytes_decode fuel h : 0 <= h < 256 ^ Z.of_nat fuel -> le_decode (height_bytes fuel h) = h.
Proof.
  revert h. induction fuel as [|fuel IH]; intros h Hh; [cbn in *; lia|]. cbn [height_bytes].
  destruct (Z.gtb_spec h 0); [|cbn; lia]. cbn [le_decode]. rewrite land_ff, shiftr_div by lia.
  rewrite IH; [|rewrite Nat2Z.inj_succ, Z.pow_succ_r in Hh by lia]; div_mod_lia.
Qed.

Lemma height_push_decode h : 0 <= h < 2 ^ 31 ->
  exists num, height_push h = zlen num :: num /\ le_decode num = h /\ zlen num <= 5.
Proof.
  intros Hh. pose proof (height_bytes_decode 4 h ltac:(cbn; lia)) as Hd. unfold height_push. cbv zeta.
  assert (forall fuel x, (length (height_bytes fuel x) <= fuel)%nat) as Hlen.
  { induction fuel as [|f IH]; intros x; cbn; [lia|]. case_if; cbn; [|lia]. specialize (IH (x ≫ 8)). lia. }
  specialize (Hlen 4%nat h). revert Hd Hlen. generalize (height_bytes 4 h). intros num Hd Hlen.
  destruct (last num) as [top|]; [case_if|].
  - eexists. split_and!; [done|done|unfold zlen; lia].
  - eexists. split_and!; [done| |rewrite zlen_app; unfold zlen; cbn; lia].
    rewrite le_decode_app. cbn. lia.
  - eexists. split_and!; [done|done|unfold zlen; lia].
Qed.

Lemma bip34_height_inj tx h1 h2 : 0 < h1 < 2 ^ 31 -> 0 < h2 < 2 ^ 31 ->
  bip34_check_coinbase_height tx h1 = true -> bip34_check_coinbase_height tx h2 = true -> h1 = h2.
Proof.
  assert (forall b0 sig h, 0 < h < 2 ^ 31 ->
    (if (h >=? 1) && (h <=? 16) && (b0 =? 0x50 + h) then true
     else if zlen (b0 :: sig) <? zlen (height_push h) then false
     else bool_decide (take (length (height_push h)) (b0 :: sig) = height_push h)) = true ->
    (b0 = 0x50 + h /\ h <= 16) \/ (b0 <= 5 /\ le_decode (take (Z.to_nat b0) sig) = h)) as Hcases.
  { intros b0 sig h Hh. case_if; [intros _; left; zbool; lia|]. case_if; [done|].
    intros E%bool_decide_eq_true. right. destruct (height_push_decode h ltac:(lia)) as (num & Ep & Ed & Hl).
    rewrite Ep in E. cbn [length take] in E. injection E as -> En. split; [done|].
    unfold zlen. by rewrite Nat2Z.id, En. }
  intros H1 H2. unfold bip34_check_coinbase_height.
  replace (h1 <=? 0) with false by lia. replace (h2 <=? 0) with false by lia.
  destruct (vin tx) as [|i r]; [done|]. destruct (script_sig i) as [|b0 sig]; [done|].
  intros [[??]|[??]]%Hcases [[??]|[??]]%Hcases; try lia.
Qed.

(** ** Properties *)

Section Theorems.
Context `{AllocatorTotal} `{HashFunctionsOk} `{CryptoRegistry} `{Clock}.


(** The six header checks extracted into the domain layer agree with the inline ones,
    verdict by verdict (score, code, reason): the context-free header check is their
    composition, and so is the contextual one with the checkpoint rule in its place. *)
Theorem header_checks_agree h params p rest checkpoints bits :
  uint256_eq (block_header_get_hash h) (hashGenesisBlock (consensus params)) = false ->
  GetNextWorkRequired (p :: rest) (Some (nTime h)) (consensus params) = Some bits ->
  check_block_header h params false =
    (accept_block_header_check_version_too_low h MIN_BLOCK_VERSION;;
     accept_block_header_check_timestamp_too_new h (GetAdjustedTime + 7200)) /\
  contextual_check_block_header h params (p :: rest) checkpoints =
    (accept_block_header_check_equihash_solution_size h (expected_solution_size params (bi_nHeight p + 1));;
     accept_block_header_check_bits_match h bits;;
     accept_block_header_check_timestamp_too_old h (block_index_get_median_time_past (p :: rest));;
     (if checkpoints then
        reject_checkpoint_if (negb (domain_consensus_checkpoints_validate_header (checkpointData params)
          (bi_nHeight p + 1) (block_header_get_hash h))) 100 "bad-fork-at-checkpoint"
      else mret tt);;
     accept_block_header_check_version_obsolete h 4).
Proof.
  intros Hg Hw. split.
  - unfold check_block_header, accept_block_header_check_version_too_low,
      accept_block_header_check_timestamp_too_new, domain_consensus_check_header_version_too_low,
      domain_consensus_check_header_timestamp_too_new. unfold_rejects.
    destruct (nVersion h <? MIN_BLOCK_VERSION); [done|]. cbn [negb ensure mbind result_bind forward_dos].
    change (2 * 60 * 60) with 7200. by destruct (block_header_get_time h >? GetAdjustedTime + 7200).
  - unfold contextual_check_block_header. rewrite Hg. change (nTime h) with (block_header_get_time h) in Hw. rewrite Hw.
    unfold accept_block_header_check_equihash_solution_size, accept_block_header_check_bits_match,
      accept_block_header_check_timestamp_too_old, accept_block_header_check_version_obsolete,
      domain_consensus_check_header_equihash_solution_size, domain_consensus_check_header_bits_match,
      domain_consensus_check_header_timestamp_too_old, domain_consensus_check_header_version_obsolete.
    cbv zeta. unfold_rejects.
    destruct (zlen (nSolution h) >? 0), (zlen (nSolution h) =? expected_solution_size params (bi_nHeight p + 1)),
      (nBits h =? bits), (block_header_get_time h <=? block_index_get_median_time_past (p :: rest)),
      checkpoints, (nVersion h <? 4); try done;
    by destruct (domain_consensus_checkpoints_validate_header _ _ _).
Qed.

Context `{ShieldedCrypto}.

Lemma contextual_block_height deferred b params p rest cb txs : vtx b = cb :: txs -> 0 <= bi_nHeight p ->
  contextual_check_block deferred b params (p :: rest) = Ok tt ->
  bip34_check_coinbase_height cb (bi_nHeight p + 1) = true.
Proof.
  intros E Hp. unfold contextual_check_block. cbv zeta. rewrite bind_unit_ok, E. intros [_ Hb].
  replace (bi_nHeight p + 1 >? 0) with true in Hb by lia. unfold reject_if in Hb.
  by rewrite ensure_negb_ok, negb_false_iff in Hb.
Qed.

(** Coinbase transaction ids do not repeat at different heights: two blocks accepted in
    context whose coinbases have the same id stand at the same height, unless the encodings of
    the coinbases are a collision of the double hash. *)
Theorem coinbase_ids_unique deferred params b b' p p' rest rest' cb cb' txs txs' :
  vtx b = cb :: txs -> vtx b' = cb' :: txs' -> tx_ok cb -> tx_ok cb' ->
  0 <= bi_nHeight p < 2 ^ 31 - 1 -> 0 <= bi_nHeight p' < 2 ^ 31 - 1 ->
  contextual_check_block deferred b params (p :: rest) = Ok tt ->
  contextual_check_block deferred b' params (p' :: rest') = Ok tt ->
  h_hash256 (tx_bytes cb) = h_hash256 (tx_bytes cb') ->
  bi_nHeight p = bi_nHeight p' \/ collision h_hash256 (tx_bytes cb) (tx_bytes cb').
Proof.
  intros E E' Hok Hok' Hp Hp' Hc Hc' Hh. destruct (decide (tx_bytes cb = tx_bytes cb')) as [Eb|Hne]; [left|by right].
  apply (contextual_block_height _ _ _ _ _ _ _ E) in Hc; [|lia].
  apply (contextual_block_height _ _ _ _ _ _ _ E') in Hc'; [|lia].
  assert (vin cb = vin cb') as Ev.
  { pose proof (tx_bytes_inj cb cb' Hok Hok' Eb) as Et. apply (f_equal vin) in Et. exact Et. }
  unfold bip34_check_coinbase_height in Hc'. rewrite <- Ev in Hc'.
  pose proof (bip34_height_inj cb (bi_nHeight p + 1) (bi_nHeight p' + 1) ltac:(lia) ltac:(lia) Hc Hc'). lia.
Qed.

End Theorems.

(** ** Concrete blocks *)

Definition sample_registry : CryptoRegistry :=
  Some {| scheme_status := CRYPTO_STATUS_ACTIVE; zk_verify := Some (fun _ proof => zlen proof =? 3) |}.

Definition sample_chain_params : chain_params :=
  {| consensus := init_main_params; nEquihashN := 200; nEquihashK := 9; checkpointData := [] |}.

(** No shielded operation verifies *)
Definition no_shielded : ShieldedCrypto := {|
  signature_hash_all := fun _ _ => None; ed25519_verify := fun _ _ _ => false; sapling_ctx := unit;
  sapling_verification_ctx_init := None; sapling_check_spend := fun _ _ _ => None;
  sapling_check_output := fun _ _ => None; sapling_final_check := fun _ _ _ _ => false;
  sprout_h_sig := fun _ h => h; sprout_verify_groth16 := fun _ _ => false;
  sprout_verify_phgr13 := fun _ _ => false |}.

Definition coinbase_tx (sig : script) (outs : list tx_out) : transaction :=
  {| overwintered := false; version := 1; version_group_id := 0;
     vin := [{| prevout := outpoint_set_null; script_sig := sig; sequence := UINT32_MAX |}];
     vout := outs; lock_time := 0; expiry_height := 0; value_balance := 0; v_shielded_spend := [];
     v_shielded_output := []; v_joinsplit := []; joinsplit_pubkey := uint256_null;
     joinsplit_sig := replicate 64 0; binding_sig := replicate 64 0; tx_hash := uint256_null |}.

Lemma coinbase_tx_ok sig outs : zlen sig <= 100 -> bytes_ok sig -> zlen outs <= MAX_TX_OUTPUTS ->
  Forall tx_out_ok outs -> tx_ok (coinbase_tx sig outs).
Proof.
  intros Hl Hs Hn Ho. unfold tx_ok. cbn -[fixed zlen bytes_ok].
  assert (fixed 32 uint256_null) by compute_decide.
  split_and!; try done. split; [done|]. apply Forall_singleton. split_and!; [|split; [|done]|]; try done.
  unfold MAX_SCRIPT_SIZE. cbn [script_sig]. lia.
Qed.

(** A block whose only transaction is the coinbase *)
Definition coinbase_block `{HashFunctions} (cb : transaction) : block :=
  let id := h_hash256 (tx_bytes cb) in
  {| header := {| nVersion := 4; hashPrevBlock := replicate 32 1; hashMerkleRoot := id;
                  hashFinalSaplingRoot := replicate 32 3; nTime := 1600000000; nBits := 0x1f07ffff;
                  nNonce := replicate 32 4; nSolution := [9; 8; 7] |};
     vtx := [with_hash cb id] |}.

Lemma coinbase_block_ok `{HashFunctionsOk} cb : tx_ok cb -> block_ok (coinbase_block cb).
Proof.
  intros Hcb. destruct (hash256_ok (tx_bytes cb)) as [Hl Hb]. split.
  - unfold header_ok. cbn [coinbase_block header nVersion hashPrevBlock hashMerkleRoot hashFinalSaplingRoot
      nTime nBits nNonce nSolution].
    split_and!; [done|compute_decide|split; [by rewrite Hl|done]|compute_decide|done|done|compute_decide|done|compute_decide].
  - split; [done|]. by apply Forall_singleton.
Qed.

Lemma coinbase_block_size `{HashFunctionsOk} cb : tx_ok cb ->
  zlen (block_bytes (coinbase_block cb)) = zlen (tx_bytes cb) + 145.
Proof.
  intros Hcb. destruct (coinbase_block_ok cb Hcb) as [(_ & _ & Hr & _) _].
  unfold block_bytes, vector_bytes. rewrite !zlen_app.
  change (mjoin (map tx_bytes (vtx (coinbase_block cb)))) with (tx_bytes cb ++ []). rewrite app_nil_r.
  unfold header_bytes. rewrite !zlen_app, (fixed_zlen _ _ Hr).
  change (zlen (compact_size_bytes (zlen (vtx (coinbase_block cb))))) with 1.
  cbn [coinbase_block header nVersion hashPrevBlock hashFinalSaplingRoot nTime nBits nNonce nSolution].
  rewrite !zlen_le_encode. change (zlen (script_bytes [9; 8; 7])) with 4. unfold zlen. rewrite !length_replicate. lia.
Qed.

Definition sample_coinbase : transaction := coinbase_tx [1; 6] [{| value := 5000; script_pub_key := [0x51] |}].

Lemma sample_coinbase_ok : tx_ok sample_coinbase.
Proof.
  apply coinbase_tx_ok; [done|compute_decide|done|]. apply Forall_singleton. split; [done|split; [done|compute_decide]].
Qed.


Lemma header_checks_agree_witness :
  let h := header (@coinbase_block checksum_hashes sample_coinbase) in
  @check_block_header (fun _ => true) checksum_hashes sample_registry 1600000000 h sample_chain_params false =
    (accept_block_header_check_version_too_low h MIN_BLOCK_VERSION;;
     accept_block_header_check_timestamp_too_new h (1600000000 + 7200)).
Proof.
  intros h. destruct sample_chain as [|p rest] eqn:E; [discriminate E|].
  refine (proj1 (@header_checks_agree (fun _ => true) checksum_hashes sample_registry 1600000000 h sample_chain_params p rest false
    (default 0 (GetNextWorkRequired sample_chain (Some 1600000000) init_main_params)) _ _)).
  - vm_compute. reflexivity.
  - rewrite <- E. vm_compute. reflexivity.
Defined.

Definition sample_prev (t : Z) : block_index :=
  {| bi_nHeight := 5; bi_nTime := t; bi_nBits := 0x1f07ffff; bi_nChainWork := arith_uint256_set_zero |}.

Lemma coinbase_ids_unique_witness :
  bi_nHeight (sample_prev 1) = bi_nHeight (sample_prev 2) \/
  collision (@h_hash256 checksum_hashes) (tx_bytes sample_coinbase) (tx_bytes sample_coinbase).
Proof.
  apply (@coinbase_ids_unique (fun _ => true) (fun _ => eq_refl) checksum_hashes no_shielded 0 sample_chain_params
    {| header := sample_header; vtx := [sample_coinbase] |} {| header := sample_header; vtx := [sample_coinbase] |}
    (sample_prev 1) (sample_prev 2) [] [] sample_coinbase sample_coinbase [] []);
    [reflexivity|reflexivity|exact sample_coinbase_ok|exact sample_coinbase_ok|done|done|
     vm_compute; reflexivity|vm_compute; reflexivity|reflexivity].
Defined.

(** ** The missing limit on the size of a block *)

(** A coinbase of nearly two million bytes: two hundred outputs with scripts of 9,988 bytes *)
Definition heavy_output : tx_out := {| value := 0; script_pub_key := replicate (Z.to_nat 9988) 0x51 |}.
Definition heavy_coinbase : transaction := coinbase_tx ([1; 6] ++ replicate 95 0) (replicate 200 heavy_output).

Lemma heavy_output_size : zlen (tx_out_bytes heavy_output) = 9999.
Proof. vm_compute. reflexivity. Qed.

Lemma heavy_coinbase_ok : tx_ok heavy_coinbase.
Proof.
  apply coinbase_tx_ok; [done|compute_decide|done|]. apply Forall_replicate. split; [done|]. split; [done|].
  by apply Forall_replicate.
Qed.

Lemma zlen_mjoin_replicate {A} (enc : A -> bytes) n a :
  zlen (mjoin (map enc (replicate n a))) = Z.of_nat n * zlen (enc a).
Proof.
  induction n as [|n IH]; [done|].
  change (mjoin (map enc (replicate (S n) a))) with (enc a ++ mjoin (map enc (replicate n a))).
  rewrite zlen_app, IH. lia.
Qed.

Lemma heavy_coinbase_size : zlen (tx_bytes heavy_coinbase) = 1999948.
Proof.
  unfold tx_bytes. cbv zeta. rewrite !zlen_app. unfold vector_bytes at 2. rewrite zlen_app.
  cbn [heavy_coinbase coinbase_tx vout]. rewrite zlen_mjoin_replicate, heavy_output_size. vm_compute. reflexivity.
Qed.

Lemma heavy_coinbase_valid : structurally_valid heavy_coinbase.
Proof.
  unfold structurally_valid. rewrite heavy_coinbase_size. split_and!.
  - unfold version_valid. cbn [heavy_coinbase coinbase_tx overwintered version]. lia.
  - intros [E _]. discriminate E.
  - intros [E _]. discriminate E.
  - unfold MAX_TX_SIZE_AFTER_SAPLING. lia.
  - unfold values_valid. split_and!; [|vm_compute; congruence|vm_compute; congruence|reflexivity|
      apply Forall_nil; exact I|vm_compute; congruence|vm_compute; congruence].
    apply Forall_replicate. vm_compute. split; congruence.
  - unfold spends_distinct. split_and!; [apply NoDup_singleton|apply NoDup_nil_2..].
  - intros _. cbn [heavy_coinbase coinbase_tx]. split_and!; try reflexivity; vm_compute; congruence.
Qed.

Lemma sum_Z_replicate {A} (f : A -> Z) n a : sum_Z (map f (replicate n a)) = Z.of_nat n * f a.
Proof.
  induction n as [|n IH]; [done|]. change (f a + sum_Z (map f (replicate n a)) = Z.of_nat (S n) * f a). lia.
Qed.

Lemma heavy_coinbase_sigops : tx_sigops heavy_coinbase = 0.
Proof.
  unfold tx_sigops. cbn [heavy_coinbase coinbase_tx vin vout]. rewrite sum_Z_replicate. vm_compute. reflexivity.
Qed.

Lemma coinbase_block_accepted `{AllocatorTotal} `{HashFunctionsOk} `{CryptoRegistry} `{Clock} params cb :
  1600000000 <= GetAdjustedTime -> tx_ok cb -> structurally_valid cb -> transaction_is_coinbase cb = true ->
  tx_sigops cb <= 20000 -> 20 * (zlen (tx_bytes cb) + 145) < 2 ^ 32 ->
  check_block (coinbase_block cb) params false true true = Ok tt.
Proof.
  intros Hclock Hcb Hv Hc Hs Hsize. pose proof (coinbase_block_ok cb Hcb) as Hok.
  unfold check_block. rewrite !bind_unit_ok, !forward_block_ok, check_each_ok. split_and!.
  - unfold check_block_header. rewrite !bind_unit_ok. unfold_rejects. rewrite !ensure_negb_ok.
    split_and!; [done|done|]. unfold block_header_get_time. cbn [coinbase_block header nTime]. lia.
  - apply check_merkle_iff; [done|]. cbn [coinbase_block vtx map header hashMerkleRoot]. split; [done|].
    intros (k & Hk & _). cbn in Hk. lia.
  - apply check_coinbase_iff; [done|]. split; [done|constructor].
  - apply Forall_singleton. by apply check_transaction_iff.
  - apply check_sigops_iff; [done|by rewrite coinbase_block_size|]. cbn [coinbase_block vtx map].
    change (tx_sigops (with_hash cb (h_hash256 (tx_bytes cb)))) with (tx_sigops cb). cbn. lia.
Qed.

(** No limit on the size of a block is enforced: whatever the hash functions, the
    allocator and the clock, there is a well-formed block longer than [MAX_BLOCK_SIZE] that
    the Merkle, size and signature-operation checks accept; the bound of two million is
    compared with the number of transactions. *)
Theorem oversized_block_accepted `{AllocatorTotal} `{HashFunctionsOk} `{CryptoRegistry} `{Clock} params :
  1600000000 <= GetAdjustedTime ->
  exists b, block_ok b /\ MAX_BLOCK_SIZE < zlen (block_bytes b) /\ check_block b params false true true = Ok tt.
Proof.
  intros Hclock. exists (coinbase_block heavy_coinbase). split_and!.
  - apply coinbase_block_ok, heavy_coinbase_ok.
  - rewrite (coinbase_block_size _ heavy_coinbase_ok), heavy_coinbase_size. reflexivity.
  - apply (coinbase_block_accepted params heavy_coinbase Hclock heavy_coinbase_ok heavy_coinbase_valid eq_refl);
      rewrite ?heavy_coinbase_sigops, ?heavy_coinbase_size; [discriminate|reflexivity].
Qed.

Lemma oversized_block_accepted_witness :
  exists b, @block_ok checksum_hashes b /\ MAX_BLOCK_SIZE < zlen (block_bytes b) /\
    @check_block (fun _ => true) checksum_hashes sample_registry 1600000000 b sample_chain_params false true true = Ok tt.
Proof.
  exact (@oversized_block_accepted (fun _ => true) (fun _ => eq_refl) checksum_hashes checksum_hashes_ok
    sample_registry 1600000000 sample_chain_params (Z.le_refl 1600000000)).
Defined.
