(* ===== verification/Probing.v ===== *)
(** * Open addressing

    What the hash tables of the program share: an array of buckets, a key whose probe sequence
    visits the slots from its home slot on, and the invariant that an entry is reached from its
    home without crossing an empty bucket.  The block map (file BlockMap) masks with a power of
    two, the coins map (file CoinsMap) takes remainders; both are instances of [probing].  The
    main lemmas place an entry ([array_insert]) and show that a key whose probe sequence meets an
    empty bucket before it meets the key is not in the table ([absent_before_empty]). *)

From stdpp Require Import gmap fin_maps.
From S2P Require Import Prelude Serialize Script Transaction.

Abbreviation bucket_array V := (list (option (uint256_t * V))).

(** A probe sequence: the slot of the [i]-th probe for a key in an array of a usable capacity *)
Record probing := Probing {
  slot_at : nat -> uint256_t -> nat -> nat;
  cap_ok : nat -> Prop;
  home_of : uint256_t -> Z;
  cap_pos : forall cap, cap_ok cap -> (0 < cap)%nat;
  slot_at_spec : forall cap h i, cap_ok cap ->
    Z.of_nat (slot_at cap h i) = (home_of h mod Z.of_nat cap + Z.of_nat i) mod Z.of_nat cap;
}.

Section Entries.
Context {V : Type}.
Implicit Types (b : bucket_array V) (h : uint256_t) (v : V).

Definition entries (b : bucket_array V) : list (uint256_t * V) := omap id b.

Definition occupied (b : bucket_array V) (slot : nat) : Prop := exists e, b !! slot = Some (Some e).

Lemma elem_of_entries b h v : (h, v) ∈ entries b <-> exists slot, b !! slot = Some (Some (h, v)).
Proof.
  unfold entries. rewrite list_elem_of_omap. split.
  - intros (o & Ho & E). cbn in E. subst o. by apply list_elem_of_lookup in Ho.
  - intros [s Hs]. exists (Some (h, v)). split; [by eapply list_elem_of_lookup_2|done].
Qed.

Lemma entries_split b slot o : b !! slot = Some o ->
  exists l r, entries b = l ++ option_list o ++ r /\ forall o', entries (<[slot := o']> b) = l ++ option_list o' ++ r.
Proof.
  intros Hs. pose proof (lookup_lt_Some _ _ _ Hs). exists (entries (take slot b)), (entries (drop (S slot) b)).
  assert (forall x (l r : bucket_array V), entries (l ++ x :: r) = entries l ++ option_list x ++ entries r) as Happ.
  { intros x l r. unfold entries. rewrite omap_app. by destruct x. }
  split; [by rewrite <- Happ, take_drop_middle|]. intros o'. by rewrite insert_take_drop, Happ.
Qed.

Lemma entries_insert b slot e : b !! slot = Some None -> entries (<[slot := Some e]> b) ≡ₚ e :: entries b.
Proof. intros Hs. destruct (entries_split b slot _ Hs) as (l & r & -> & ->). cbn. by rewrite Permutation_middle. Qed.

Lemma entries_clear b slot e : b !! slot = Some (Some e) -> e :: entries (<[slot := None]> b) ≡ₚ entries b.
Proof. intros Hs. destruct (entries_split b slot _ Hs) as (l & r & -> & ->). cbn. by rewrite Permutation_middle. Qed.

Lemma slot_unique b h v v' slot slot' : NoDup (entries b).*1 ->
  b !! slot = Some (Some (h, v)) -> b !! slot' = Some (Some (h, v')) -> slot = slot'.
Proof.
  revert slot slot'. induction b as [|o b IH]; intros slot slot' Hn Hs Hs'; [done|].
  assert (NoDup (entries b).*1) as Hn'.
  { destruct o as [e|]; [|exact Hn]. cbn in Hn. by apply NoDup_cons in Hn as [_ ?]. }
  assert (forall s w, b !! s = Some (Some (h, w)) -> forall u, o = Some (h, u) -> False) as Habs.
  { intros s w Hw u ->. cbn in Hn. apply NoDup_cons in Hn as [Hni _]. apply Hni.
    apply list_elem_of_fmap. exists (h, w). split; [done|]. apply elem_of_entries. eauto. }
  destruct slot as [|slot], slot' as [|slot']; cbn in *; [done| | |f_equal; eauto].
  - injection Hs as ->. exfalso. eauto.
  - injection Hs' as ->. exfalso. eauto.
Qed.

Lemma occupied_insert b slot slot' e : occupied b slot -> occupied (<[slot' := Some e]> b) slot.
Proof.
  intros [e' He]. destruct (decide (slot' = slot)) as [->|].
  - exists e. apply list_lookup_insert_eq. by eapply lookup_lt_Some.
  - exists e'. by rewrite list_lookup_insert_ne.
Qed.

Lemma entries_length b : (length (entries b) <= length b)%nat.
Proof. induction b as [|[e|] b IH]; cbn in *; unfold entries in *; cbn in *; lia. Qed.

Lemma free_slot b : (length (entries b) < length b)%nat -> exists slot, b !! slot = Some None.
Proof.
  induction b as [|[e|] b IH]; cbn; intros Hl; [lia| |by exists 0%nat].
  destruct IH as [s Hs]; [unfold entries in *; cbn in *; lia|]. by exists (S s).
Qed.

Lemma entries_replicate cap : entries (replicate cap (@None (uint256_t * V))) = [].
Proof. induction cap as [|cap IH]; [done|]. exact IH. Qed.

Lemma key_eq_spec h h' : fixed 32 h -> fixed 32 h' -> uint256_eq h h' = bool_decide (h = h').
Proof.
  intros Hf Hf'. pose proof (uint256_eq_spec 32 h h' Hf Hf') as E.
  destruct (uint256_eq h h'), (bool_decide_reflect (h = h')); naive_solver.
Qed.
End Entries.

Section Slots.
Context (P : probing).

Lemma slot_at_lt cap h i : cap_ok P cap -> (slot_at P cap h i < cap)%nat.
Proof.
  intros Hp. pose proof (cap_pos P cap Hp). apply Nat2Z.inj_lt. rewrite slot_at_spec by done.
  apply Z.mod_pos_bound. lia.
Qed.

Lemma slot_at_surj cap h slot : cap_ok P cap -> (slot < cap)%nat ->
  exists i, (i < cap)%nat /\ slot_at P cap h i = slot.
Proof.
  intros Hp Hs. set (c := Z.of_nat cap). set (home := home_of P h mod c).
  assert (0 <= (Z.of_nat slot - home) mod c < c) by (apply Z.mod_pos_bound; lia).
  exists (Z.to_nat ((Z.of_nat slot - home) mod c)). split; [lia|]. apply Nat2Z.inj. rewrite slot_at_spec by done.
  fold c home. rewrite Z2Nat.id, Zplus_mod_idemp_r by lia. rewrite <- (Z.mod_small (Z.of_nat slot) c) at 2 by lia.
  f_equal. lia.
Qed.

Lemma slot_at_inj cap h i j : cap_ok P cap -> (i < cap)%nat -> (j < cap)%nat ->
  slot_at P cap h i = slot_at P cap h j -> i = j.
Proof.
  intros Hp Hi Hj E. apply (f_equal Z.of_nat) in E. rewrite !slot_at_spec in E by done.
  assert (forall x y z : Z, 0 <= x < Z.of_nat cap -> 0 <= y < Z.of_nat cap -> x <= y ->
    (z + x) mod Z.of_nat cap = (z + y) mod Z.of_nat cap -> x = y) as Hle.
  { intros x y z Hx Hy Hxy Hz. assert ((y - x) mod Z.of_nat cap = 0) as Hm.
    { replace (y - x) with ((z + y) - (z + x)) by lia. rewrite Zminus_mod, Hz, Z.sub_diag. done. }
    rewrite Z.mod_small in Hm by lia. lia. }
  destruct (decide (i <= j)%nat); apply Nat2Z.inj.
  - eapply Hle; [..|exact E]; lia.
  - symmetry. eapply Hle; [..|symmetry; exact E]; lia.
Qed.
End Slots.

Section Arrays.
Context (P : probing) {V : Type}.
Implicit Types (b : bucket_array V) (h : uint256_t) (v : V).

(** The entry of every occupied bucket is found before an empty bucket is. *)
Definition probes_ok (b : bucket_array V) : Prop := forall slot h v,
  b !! slot = Some (Some (h, v)) ->
  exists i, (i < length b)%nat /\ slot = slot_at P (length b) h i /\
    forall j, (j < i)%nat -> occupied b (slot_at P (length b) h j).

Record array_ok (b : bucket_array V) : Prop := {
  array_cap : b = [] \/ cap_ok P (length b);
  array_fixed : Forall (fun e => fixed 32 (fst e)) (entries b);
  array_nodup : NoDup (entries b).*1;
  array_probes : probes_ok b;
}.

Lemma slot_fixed b slot h v : array_ok b -> b !! slot = Some (Some (h, v)) -> fixed 32 h.
Proof.
  intros Hb Hs. pose proof (array_fixed b Hb) as Hf. rewrite Forall_forall in Hf.
  apply (Hf (h, v)). apply elem_of_entries. eauto.
Qed.

Lemma array_cap_lookup b slot o : array_ok b -> b !! slot = Some o -> cap_ok P (length b).
Proof. intros Hb Hs. destruct (array_cap b Hb) as [->|?]; done. Qed.

(** The buckets probed before an entry hold other keys. *)
Definition passed b h (n : nat) : Prop := forall j, (j < n)%nat ->
  exists h' v', b !! slot_at P (length b) h j = Some (Some (h', v')) /\ h' <> h.

Lemma passed_S b h n h' v' : passed b h n -> b !! slot_at P (length b) h n = Some (Some (h', v')) -> h' <> h ->
  passed b h (S n).
Proof. intros Hp E Hd j Hj. destruct (decide (j = n)) as [->|]; [eauto|]. apply Hp. lia. Qed.

Lemma entry_passed b slot h v : array_ok b -> b !! slot = Some (Some (h, v)) ->
  exists n, (n < length b)%nat /\ slot = slot_at P (length b) h n /\ passed b h n.
Proof.
  intros Hb Hs. destruct (array_probes b Hb slot h v Hs) as (n & Hn & -> & Hocc).
  exists n. split_and!; [done|done|]. intros j Hj. destruct (Hocc j Hj) as [[h' v'] E].
  exists h', v'. split; [done|]. intros ->.
  pose proof (slot_unique b h v' v _ _ (array_nodup b Hb) E Hs) as Hp.
  apply slot_at_inj in Hp; [lia|by eapply array_cap_lookup|lia|lia].
Qed.

Lemma absent_before_empty b h n : array_ok b -> b !! slot_at P (length b) h n = Some None -> passed b h n ->
  h ∉ (entries b).*1.
Proof.
  intros Hb Hs Hp ([h' w] & -> & Hin)%list_elem_of_fmap. cbn in *. apply elem_of_entries in Hin as [slot Hslot].
  destruct (array_probes b Hb _ _ _ Hslot) as (i & Hi & -> & Ho).
  destruct (lt_eq_lt_dec i n) as [[Hlt| ->]|Hgt].
  - destruct (Hp i Hlt) as (h'' & w' & E & Hd). congruence.
  - congruence.
  - destruct (Ho n Hgt) as [e E]. congruence.
Qed.

(** With a free bucket the probe sequence of a key meets an empty bucket. *)
Lemma not_all_passed b h : cap_ok P (length b) -> (length (entries b) < length b)%nat ->
  exists n, (n < length b)%nat /\ b !! slot_at P (length b) h n = Some None.
Proof.
  intros Hcap Hfree. destruct (free_slot b Hfree) as [slot Hs].
  destruct (slot_at_surj P (length b) h slot Hcap ltac:(by eapply lookup_lt_Some)) as (i & Hi & E).
  exists i. by rewrite E.
Qed.

Lemma array_insert b h v n : array_ok b -> fixed 32 h -> (n < length b)%nat ->
  b !! slot_at P (length b) h n = Some None ->
  (forall j, (j < n)%nat -> occupied b (slot_at P (length b) h j)) -> h ∉ (entries b).*1 ->
  array_ok (<[slot_at P (length b) h n := Some (h, v)]> b).
Proof.
  intros Hb Hh Hn Hs Hp Hnew. pose proof (entries_insert b _ (h, v) Hs) as He. constructor.
  - right. rewrite length_insert. by eapply array_cap_lookup.
  - rewrite He. apply Forall_cons. split; [done|apply Hb].
  - rewrite He. cbn. apply NoDup_cons. split; [done|apply Hb].
  - intros slot h' v' Hl. rewrite length_insert.
    destruct (decide (slot_at P (length b) h n = slot)) as [<-|Hne].
    + rewrite list_lookup_insert_eq in Hl by (by eapply lookup_lt_Some). injection Hl as <- <-.
      exists n. split_and!; [done|done|]. intros j Hj. by apply occupied_insert, Hp.
    + rewrite list_lookup_insert_ne in Hl by done. destruct (array_probes b Hb _ _ _ Hl) as (i & Hi & E & Ho).
      exists i. split_and!; [done|done|]. intros j Hj. by apply occupied_insert, Ho.
Qed.

Lemma passed_occupied b h n : passed b h n -> forall j, (j < n)%nat -> occupied b (slot_at P (length b) h j).
Proof. intros Hp j Hj. destruct (Hp j Hj) as (h' & v' & E & _). by eexists. Qed.

Lemma replicate_ok cap : cap_ok P cap -> array_ok (replicate cap (@None (uint256_t * V))).
Proof.
  intros Hp. constructor; rewrite ?entries_replicate; [right; by rewrite length_replicate|done|constructor|].
  intros slot h v Hl. apply lookup_replicate in Hl as [? _]. done.
Qed.

Lemma nil_ok : array_ok (@nil (option (uint256_t * V))).
Proof. constructor; [by left|constructor|constructor|]. intros slot h v E. done. Qed.

(** Moving the entries of an array into a table with room, by an insertion that places new keys *)
Lemma move_entries {St} (inv : St -> Prop) (arr : St -> bucket_array V) (ins : St -> uint256_t -> V -> St)
    (old : bucket_array V) (fresh : St) :
  (forall s h v, inv s -> fixed 32 h -> (length (entries (arr s)) < length (arr s))%nat -> h ∉ (entries (arr s)).*1 ->
    inv (ins s h v) /\ length (arr (ins s h v)) = length (arr s) /\
    entries (arr (ins s h v)) ≡ₚ (h, v) :: entries (arr s)) ->
  inv fresh -> Forall (fun e => fixed 32 (fst e)) (entries old) ->
  NoDup ((entries old).*1 ++ (entries (arr fresh)).*1) ->
  (length (entries old) + length (entries (arr fresh)) <= length (arr fresh))%nat ->
  let moved := foldl (fun s o => match o with Some (h, v) => ins s h v | None => s end) fresh old in
  inv moved /\ length (arr moved) = length (arr fresh) /\ entries (arr moved) ≡ₚ entries old ++ entries (arr fresh).
Proof.
  intros Hins. revert fresh. induction old as [|[[h v]|] old IH]; intros fresh Hf Hfix Hnd Hlen; [done| |by apply IH].
  change (entries (Some (h, v) :: old)) with ((h, v) :: entries old) in *. cbn [foldl].
  apply Forall_cons in Hfix as [Hh Hfix]. cbn in Hnd, Hlen. apply NoDup_cons in Hnd as [Hni Hnd].
  destruct (Hins fresh h v) as (Hb' & Hl' & He'); [done|done|lia|set_solver|].
  destruct (IH (ins fresh h v)) as (? & ? & Hp); rewrite ?Hl'; try done.
  - rewrite He'. cbn. rewrite <- Permutation_middle. by apply NoDup_cons.
  - rewrite He'. cbn. lia.
  - split_and!; [done|congruence|]. rewrite Hp, He'. by rewrite <- Permutation_middle.
Qed.
End Arrays.
