(* ===== verification/BlockMap.v ===== *)
(** * The block map

    Models the open-addressing hash table of lib/validation/src/chainstate.c that maps block
    hashes to block index entries, and proves with the lemmas of file Probing that it implements
    a finite map.  The locks are not modelled: an operation runs as a whole.  A bucket is [None]
    while it is not occupied. *)

From stdpp Require Import gmap fin_maps.
From S2P Require Import Prelude Serialize Script Transaction Probing.

Section Map.
Context {V : Type}.

(** The capacity is the length of the array; the array is empty before the first insertion. *)
Record block_map := BlockMap { buckets : bucket_array V; bm_size : nat }.

Definition capacity (m : block_map) : nat := length (buckets m).

Definition INITIAL_CAPACITY : nat := Z.to_nat 4096.

(** The first eight bytes, on a little-endian machine *)
Definition block_map_hash (h : uint256_t) : Z := le_decode (take 8 h).

Definition block_map_init : block_map := {| buckets := []; bm_size := 0 |}.

(** The slot of the [i]-th probe *)
Definition probe (cap : nat) (hash : uint256_t) (i : nat) : nat :=
  let idx := block_map_hash hash .& (Z.of_nat cap - 1) in
  Z.to_nat ((idx + Z.of_nat i) .& (Z.of_nat cap - 1)).

Fixpoint find_loop (b : bucket_array V) (hash : uint256_t) (fuel i : nat) : option V :=
  match fuel with
  | O => None
  | S fuel' =>
      match b !! probe (length b) hash i with
      | Some (Some (h, v)) => if uint256_eq h hash then Some v else find_loop b hash fuel' (S i)
      | _ => None
      end
  end.

Definition block_map_find (m : block_map) (hash : uint256_t) : option V :=
  find_loop (buckets m) hash (capacity m) 0.

(** [None] when the hash is already in the table or the table is full *)
Fixpoint insert_loop (b : bucket_array V) (hash : uint256_t) (index : V) (fuel i : nat) : option (bucket_array V) :=
  match fuel with
  | O => None
  | S fuel' =>
      let slot := probe (length b) hash i in
      match b !! slot with
      | Some None => Some (<[slot := Some (hash, index)]> b)
      | Some (Some (h, _)) => if uint256_eq h hash then None else insert_loop b hash index fuel' (S i)
      | None => None
      end
  end.

Definition block_map_insert_internal (b : bucket_array V) (hash : uint256_t) (index : V) : option (bucket_array V) :=
  insert_loop b hash index (length b) 0.

(** The loop over the old array: the result of an insertion is not looked at. *)
Definition rehash (old fresh : bucket_array V) : bucket_array V :=
  foldl (fun b o => match o with
                    | Some (h, v) => default b (block_map_insert_internal b h v)
                    | None => b
                    end) fresh old.

(** A bucket is 48 bytes: a hash, a pointer and a padded boolean. *)
Definition resize `{Allocator} (m : block_map) (new_cap : nat) : bool * block_map :=
  if alloc_succeeds (Z.of_nat new_cap * 48)
  then (true, {| buckets := rehash (buckets m) (replicate new_cap None); bm_size := bm_size m |})
  else (false, m).

Definition block_map_grow `{Allocator} (m : block_map) : bool * block_map :=
  resize m (if (capacity m =? 0)%nat then INITIAL_CAPACITY else capacity m * 2)%nat.

Definition block_map_insert `{Allocator} (m : block_map) (hash : uint256_t) (index : V) : bool * block_map :=
  let '(ok, m) := if (capacity m * 3 <=? bm_size m * 4)%nat then block_map_grow m else (true, m) in
  if negb ok then (false, m)
  else
    match block_map_insert_internal (buckets m) hash index with
    | None => (false, m)
    | Some b => (true, {| buckets := b; bm_size := S (bm_size m) |})
    end.

(** The doubling loop; [None] when the fuel runs out. *)
Fixpoint reserve_capacity (fuel cap target : nat) : option nat :=
  match fuel with
  | O => None
  | S fuel' => if (cap <? target)%nat then reserve_capacity fuel' (cap * 2)%nat target else Some cap
  end.

Definition block_map_reserve `{Allocator} (m : block_map) (expected_count : nat) : option (bool * block_map) :=
  cap ← reserve_capacity 64 INITIAL_CAPACITY (expected_count * 2)%nat;
  Some (if (cap <=? capacity m)%nat then (true, m) else resize m cap).

Definition block_map_count (m : block_map) : nat := bm_size m.

(** The iterator: the next occupied bucket at or after [iter], and the position after it *)
Fixpoint next_loop (b : bucket_array V) (iter : nat) : option (uint256_t * V * nat) :=
  match b with
  | [] => None
  | Some (h, v) :: _ => Some (h, v, S iter)
  | None :: r => next_loop r (S iter)
  end.

Definition block_map_next (m : block_map) (iter : nat) : option (uint256_t * V * nat) :=
  next_loop (drop iter (buckets m)) iter.

(** A caller's whole iteration from 0 *)
Fixpoint iterate (m : block_map) (fuel iter : nat) : list (uint256_t * V) :=
  match fuel with
  | O => []
  | S fuel' => match block_map_next m iter with
               | Some (h, v, iter') => (h, v) :: iterate m fuel' iter'
               | None => []
               end
  end.

(** ** The abstract map *)

Definition contents (m : block_map) : gmap uint256_t V := list_to_map (entries (buckets m)).

Definition is_pow2 (cap : nat) : Prop := exists k : nat, cap = (2 ^ k)%nat.
End Map.
Arguments block_map : clear implicits.

Lemma pow2_pos cap : is_pow2 cap -> (0 < cap)%nat.
Proof. intros [k ->]. apply Nat.neq_0_lt_0, Nat.pow_nonzero. lia. Qed.

Lemma probe_spec cap h i : is_pow2 cap ->
  Z.of_nat (probe cap h i) = (block_map_hash h mod Z.of_nat cap + Z.of_nat i) mod Z.of_nat cap.
Proof.
  intros Hp. pose proof (pow2_pos cap Hp). destruct Hp as [k ->]. unfold probe. cbv zeta.
  rewrite Nat2Z.inj_pow. change (Z.of_nat 2) with 2. rewrite !Z.sub_1_r, <- !Z.ones_equiv, !Z.land_ones by lia.
  assert (0 < 2 ^ Z.of_nat k) by (apply Z.pow_pos_nonneg; lia).
  rewrite Z2Nat.id; [done|]. apply Z.mod_pos_bound. done.
Qed.

Definition block_probing : probing := {|
  slot_at := probe; cap_ok := is_pow2; home_of := block_map_hash; cap_pos := pow2_pos; slot_at_spec := probe_spec;
|}.

Record map_ok {V} (m : block_map V) : Prop := {
  map_array : array_ok block_probing (buckets m);
  map_size : bm_size m = length (entries (buckets m));
}.

(** ** Lemmas *)

Section Lemmas.
Context {V : Type}.
Implicit Types (b : bucket_array V) (h : uint256_t) (v : V).

Abbreviation P := block_probing.

(** A search that starts before the entry finds it. *)
Lemma find_loop_hit b h v n fuel i : array_ok P b -> fixed 32 h ->
  b !! probe (length b) h n = Some (Some (h, v)) -> passed P b h n ->
  (i <= n < i + fuel)%nat -> find_loop b h fuel i = Some v.
Proof.
  intros Hb Hh Hn Hbefore. revert i. induction fuel as [|fuel IH]; intros i Hi; [lia|]. cbn [find_loop].
  destruct (decide (i = n)) as [->|Hne].
  - rewrite Hn, key_eq_spec by done. by rewrite bool_decide_eq_true_2.
  - destruct (Hbefore i ltac:(lia)) as (h' & v' & E & Hd). cbn in E. rewrite E.
    rewrite key_eq_spec by eauto using slot_fixed. rewrite bool_decide_eq_false_2 by done. apply IH. lia.
Qed.

Lemma find_loop_sound b h v fuel i : array_ok P b -> fixed 32 h ->
  find_loop b h fuel i = Some v -> (h, v) ∈ entries b.
Proof.
  intros Hb Hh. revert i. induction fuel as [|fuel IH]; intros i; [done|]. cbn [find_loop].
  destruct (b !! _) as [[[h' v']|]|] eqn:E; [|done..].
  rewrite key_eq_spec by eauto using slot_fixed. case_bool_decide as Hd; [|apply IH].
  intros [= <-]. subst h'. apply elem_of_entries. eauto.
Qed.

Lemma find_loop_entries b h v : array_ok P b -> fixed 32 h ->
  find_loop b h (length b) 0 = Some v <-> (h, v) ∈ entries b.
Proof.
  intros Hb Hh. split; [by apply find_loop_sound|]. intros [slot Hs]%elem_of_entries.
  destruct (entry_passed P b slot h v Hb Hs) as (n & Hn & -> & Hp). eapply (find_loop_hit b h v n); try done. lia.
Qed.

Lemma insert_loop_cases b h v fuel i : array_ok P b -> is_pow2 (length b) -> fixed 32 h -> passed P b h i ->
  match insert_loop b h v fuel i with
  | Some b' => exists n, (i <= n < i + fuel)%nat /\ b !! probe (length b) h n = Some None /\ passed P b h n /\
      b' = <[probe (length b) h n := Some (h, v)]> b
  | None => (exists w, (h, w) ∈ entries b) \/ passed P b h (i + fuel)
  end.
Proof.
  intros Hb Hpow Hh. revert i. induction fuel as [|fuel IH]; intros i Hi; cbn [insert_loop].
  { right. by rewrite Nat.add_0_r. }
  destruct (b !! _) as [[[h' v']|]|] eqn:E.
  - rewrite key_eq_spec by eauto using slot_fixed. case_bool_decide as Hd.
    + left. subst h'. exists v'. apply elem_of_entries. eauto.
    + specialize (IH (S i) (passed_S P _ _ _ _ _ Hi E Hd)). destruct (insert_loop b h v fuel (S i)).
      * destruct IH as (n & Hn & ?). exists n. split; [lia|done].
      * by rewrite Nat.add_succ_r.
  - exists i. split; [lia|done].
  - apply lookup_ge_None in E. pose proof (slot_at_lt P (length b) h i Hpow) as Hlt. cbn in Hlt. lia.
Qed.

Lemma insert_internal_spec b h v : array_ok P b -> is_pow2 (length b) -> fixed 32 h ->
  (length (entries b) < length b)%nat ->
  match block_map_insert_internal b h v with
  | Some b' => (h ∉ (entries b).*1) /\ array_ok P b' /\ length b' = length b /\ entries b' ≡ₚ (h, v) :: entries b
  | None => exists w, (h, w) ∈ entries b
  end.
Proof.
  intros Hb Hpow Hh Hfree. unfold block_map_insert_internal.
  pose proof (insert_loop_cases b h v (length b) 0 Hb Hpow Hh ltac:(intros j Hj; lia)) as Hc.
  destruct (insert_loop b h v (length b) 0) as [b'|].
  - destruct Hc as (n & Hn & Hs & Hp & ->). pose proof (absent_before_empty P b h n Hb Hs Hp) as Hnew.
    split_and!; [done| |by rewrite length_insert|by apply entries_insert].
    apply (array_insert P b h v n); try done; [lia|by apply passed_occupied].
  - destruct Hc as [?|Hp]; [done|]. destruct (not_all_passed P b h Hpow Hfree) as (i & Hi & E).
    destruct (Hp i ltac:(lia)) as (h' & v' & E' & _). congruence.
Qed.

(** Moving the entries to a larger array keeps them. *)
Lemma rehash_spec (old fresh : bucket_array V) : array_ok P fresh -> is_pow2 (length fresh) ->
  Forall (fun e => fixed 32 (fst e)) (entries old) ->
  NoDup ((entries old).*1 ++ (entries fresh).*1) ->
  (length (entries old) + length (entries fresh) < length fresh)%nat ->
  array_ok P (rehash old fresh) /\ length (rehash old fresh) = length fresh /\
  entries (rehash old fresh) ≡ₚ entries old ++ entries fresh.
Proof.
  intros Hf Hpow Hfix Hnd Hlen.
  edestruct (move_entries (fun b => array_ok P b /\ is_pow2 (length b)) id
    (fun b h v => default b (block_map_insert_internal b h v)) old fresh) as ([? ?] & ? & ?); try done; [|unfold id; lia].
  intros b h v [Hb Hcap] Hh Hroom Hnew. pose proof (insert_internal_spec b h v Hb Hcap Hh Hroom) as Hi.
  destruct (block_map_insert_internal b h v) as [b'|]; cbn [default id]; [destruct Hi as (? & ? & -> & ?); tauto|].
  destruct Hi as [w Hw]. destruct Hnew. apply list_elem_of_fmap. by exists (h, w).
Qed.

Lemma contents_perm (m m' : block_map V) : map_ok m -> entries (buckets m') ≡ₚ entries (buckets m) ->
  contents m' = contents m.
Proof.
  intros Hm Hp. unfold contents. apply list_to_map_proper; [|done]. rewrite Hp. apply Hm.
Qed.

Lemma resize_spec `{Allocator} (m : block_map V) cap : map_ok m -> is_pow2 cap ->
  (length (entries (buckets m)) < cap)%nat ->
  let '(ok, m') := resize m cap in
  map_ok m' /\ contents m' = contents m /\ bm_size m' = bm_size m /\
  (ok = true -> capacity m' = cap) /\ (ok = false -> m' = m /\ exists n, alloc_succeeds n = false).
Proof.
  intros Hm Hpow Hlen. unfold resize. case_if; [|by split_and!; eauto].
  pose proof (replicate_ok P (V:=V) cap Hpow) as Hf. pose proof (@entries_replicate V cap) as Ef. destruct Hm as [Ha Hs].
  destruct (rehash_spec (buckets m) (replicate cap None) Hf) as (Hok & Hl & Hp);
    rewrite ?Ef, ?length_replicate, ?app_nil_r in *; cbn; try done; try apply Ha; try lia.
  split_and!; [| |done|done|done].
  - constructor; [done|]. cbn. by rewrite Hp.
  - apply (contents_perm m {| buckets := rehash (buckets m) (replicate cap None); bm_size := bm_size m |});
      [by constructor|done].
Qed.

Lemma grow_capacity (m : block_map V) : map_ok m ->
  is_pow2 (if (capacity m =? 0)%nat then INITIAL_CAPACITY else capacity m * 2)%nat /\
  (length (entries (buckets m)) < if (capacity m =? 0)%nat then INITIAL_CAPACITY else capacity m * 2)%nat.
Proof.
  intros [Ha _]. unfold capacity. pose proof (entries_length (buckets m)).
  destruct (Nat.eqb_spec (length (buckets m)) 0) as [E|E].
  - split; [by exists 12%nat|]. assert (0 < INITIAL_CAPACITY)%nat by (by apply Nat.ltb_lt). lia.
  - split; [|lia]. destruct (array_cap P _ Ha) as [E'|[k ->]]; [by rewrite E' in E|]. exists (S k). cbn. lia.
Qed.

Lemma find_refines (m : block_map V) h : map_ok m -> fixed 32 h -> block_map_find m h = contents m !! h.
Proof.
  intros Hm Hh. apply option_eq. intros v. unfold block_map_find, capacity, contents.
  rewrite find_loop_entries by (done || apply Hm). apply elem_of_list_to_map. apply Hm.
Qed.

(** What an insertion does once there is room *)
Lemma insert_room (m : block_map V) h v : map_ok m -> fixed 32 h -> is_pow2 (capacity m) ->
  (length (entries (buckets m)) < capacity m)%nat ->
  let '(ok, m') := match block_map_insert_internal (buckets m) h v with
                   | None => (false, m)
                   | Some b => (true, {| buckets := b; bm_size := S (bm_size m) |})
                   end in
  map_ok m' /\
  if ok then contents m !! h = None /\ contents m' = <[h := v]> (contents m)
  else contents m' = contents m /\ contents m !! h <> None.
Proof.
  intros Hm Hh Hpow Hlen. pose proof (insert_internal_spec (buckets m) h v (map_array m Hm) Hpow Hh Hlen) as Hi.
  destruct (block_map_insert_internal (buckets m) h v) as [b'|].
  - destruct Hi as (Hnew & Hb' & _ & Hp). split.
    + constructor; [done|]. cbn. rewrite Hp. cbn. f_equal. apply Hm.
    + split; [by apply not_elem_of_list_to_map_1|]. unfold contents at 1. cbn [buckets].
      rewrite (list_to_map_proper _ ((h, v) :: entries (buckets m))); [done| |done].
      rewrite Hp. cbn. apply NoDup_cons. split; [done|apply Hm].
  - destruct Hi as [w Hw]. split_and!; [done|done|]. unfold contents.
    rewrite (elem_of_list_to_map_1 _ _ w); [done|apply Hm|done].
Qed.

Lemma insert_refines `{Allocator} (m : block_map V) h v : map_ok m -> fixed 32 h ->
  let '(ok, m') := block_map_insert m h v in
  map_ok m' /\
  if ok then contents m !! h = None /\ contents m' = <[h := v]> (contents m)
  else contents m' = contents m /\ (contents m !! h <> None \/ exists n, alloc_succeeds n = false).
Proof.
  intros Hm Hh. unfold block_map_insert. destruct (Nat.leb_spec (capacity m * 3) (bm_size m * 4)) as [Hfull|Hroom].
  - unfold block_map_grow. destruct (grow_capacity m Hm) as [Hpow Hlen].
    pose proof (resize_spec m _ Hm Hpow Hlen) as Hr. destruct (resize m _) as [ok m1].
    destruct Hr as (Hm1 & Ec & Es & Hcap & Hfail). destruct ok; cbn [negb].
    + rewrite <- (Hcap eq_refl) in Hpow, Hlen. rewrite <- (map_size _ Hm), <- Es, (map_size _ Hm1) in Hlen.
      pose proof (insert_room m1 h v Hm1 Hh Hpow Hlen) as Hi. rewrite Ec in Hi.
      destruct (block_map_insert_internal (buckets m1) h v); naive_solver.
    + destruct (Hfail eq_refl) as [-> ?]. auto.
  - cbn [negb]. destruct (array_cap P _ (map_array _ Hm)) as [E|Hpow].
    { unfold capacity in Hroom. rewrite E in Hroom. cbn in Hroom. lia. }
    rewrite (map_size _ Hm) in Hroom.
    pose proof (insert_room m h v Hm Hh Hpow ltac:(unfold capacity in *; lia)) as Hi.
    destruct (block_map_insert_internal (buckets m) h v); naive_solver.
Qed.

Lemma reserve_capacity_spec fuel k target : (target <= 2 ^ (k + fuel))%nat -> (0 < fuel)%nat ->
  exists j, reserve_capacity (S fuel) (2 ^ k)%nat target = Some (2 ^ j)%nat /\ (target <= 2 ^ j)%nat.
Proof.
  revert k. induction fuel as [|fuel IH]; intros k Ht Hf; [lia|]. cbn [reserve_capacity].
  destruct (Nat.ltb_spec (2 ^ k) target); [|eauto]. destruct fuel as [|fuel].
  - cbn [reserve_capacity]. rewrite Nat.add_1_r in Ht. cbn in Ht.
    destruct (Nat.ltb_spec (2 ^ k * 2) target); [lia|]. exists (S k). cbn. split; [f_equal|]; lia.
  - replace (2 ^ k * 2)%nat with (2 ^ S k)%nat by (cbn; lia). apply IH; [|lia].
    by replace (S k + S fuel)%nat with (k + S (S fuel))%nat by lia.
Qed.

Lemma next_loop_spec b iter : match next_loop b iter with
  | Some (h, v, iter') => (iter < iter')%nat /\ entries b = (h, v) :: entries (drop (iter' - iter) b)
  | None => entries b = []
  end.
Proof.
  revert iter. induction b as [|[[h v]|] b IH]; intros iter; cbn [next_loop]; [done| |].
  - split; [lia|]. replace (S iter - iter)%nat with 1%nat by lia. done.
  - specialize (IH (S iter)). destruct (next_loop b (S iter)) as [[[h v] iter']|]; [|done].
    destruct IH as [Hlt E]. split; [lia|]. replace (iter' - iter)%nat with (S (iter' - S iter)) by lia.
    exact E.
Qed.

Lemma iterate_spec (m : block_map V) fuel iter : (length (entries (drop iter (buckets m))) < fuel)%nat ->
  iterate m fuel iter = entries (drop iter (buckets m)).
Proof.
  revert iter. induction fuel as [|fuel IH]; intros iter Hf; [lia|]. cbn [iterate]. unfold block_map_next.
  pose proof (next_loop_spec (drop iter (buckets m)) iter) as Hn.
  destruct (next_loop _ iter) as [[[h v] iter']|]; [|done]. destruct Hn as [Hlt E].
  rewrite drop_drop in E. replace (iter + (iter' - iter))%nat with iter' in E by lia.
  rewrite E in Hf |- *. f_equal. apply IH. cbn in Hf. lia.
Qed.

End Lemmas.

(** ** Properties *)

(** C15: The open-addressing table implements a finite map: for every table satisfying the
    invariant (each entry is reached from its home bucket without crossing an empty one), a
    search returns what the map holds; an insertion keeps the invariant and either adds a new
    key or leaves the map as it was, the latter only for a key already present or when memory
    runs out; the count is the size of the map; and an iteration visits each entry once. *)
Theorem block_map_refines_map `{Allocator} {V} (m : block_map V) h v : map_ok m -> fixed 32 h ->
  block_map_find m h = contents m !! h /\
  (let '(ok, m') := block_map_insert m h v in
   map_ok m' /\
   if ok then contents m !! h = None /\ contents m' = <[h := v]> (contents m)
   else contents m' = contents m /\ (contents m !! h <> None \/ exists n, alloc_succeeds n = false)) /\
  block_map_count m = size (contents m) /\
  list_to_map (iterate m (S (block_map_count m)) 0) = contents m /\
  length (iterate m (S (block_map_count m)) 0) = size (contents m).
Proof.
  intros Hm Hh.
  assert (size (contents m) = length (entries (buckets m))) as Hsize.
  { unfold contents. rewrite <- length_map_to_list, map_to_list_to_map by apply Hm. done. }
  unfold block_map_count. rewrite (map_size _ Hm) in *.
  assert (iterate m (S (length (entries (buckets m)))) 0 = entries (buckets m)) as Hi
    by (rewrite iterate_spec; rewrite drop_0; [done|lia]).
  rewrite Hi. split_and!; [by apply find_refines|by apply insert_refines|done|done|done].
Qed.

(** Resizing in advance terminates, keeps the map and leaves room for the entries announced. *)
Theorem block_map_reserve_keeps `{Allocator} {V} (m : block_map V) n : map_ok m ->
  (length (entries (buckets m)) < n)%nat -> Z.of_nat n <= 2 ^ 62 ->
  exists ok m', block_map_reserve m n = Some (ok, m') /\ map_ok m' /\ contents m' = contents m /\
    (ok = true -> (n * 2 <= capacity m')%nat).
Proof.
  intros Hm Hlen Hn. unfold block_map_reserve. change INITIAL_CAPACITY with (2 ^ 12)%nat.
  destruct (reserve_capacity_spec 63 12 (n * 2)) as (j & -> & Hj); [|lia|].
  { apply Nat2Z.inj_le. rewrite Nat2Z.inj_mul, Nat2Z.inj_pow. change (Z.of_nat (12 + 63)) with 75.
    change (Z.of_nat 2) with 2. lia. }
  cbn [mbind option_bind]. destruct (Nat.leb_spec (2 ^ j) (capacity m)).
  - exists true, m. split_and!; [done|done|done|lia].
  - pose proof (resize_spec m (2 ^ j) Hm ltac:(by exists j) ltac:(lia)) as Hr.
    destruct (resize m (2 ^ j)) as [ok m']. destruct Hr as (Hm' & Ec & _ & Hcap & _).
    exists ok, m'. split_and!; [done|done|done|]. intros E. rewrite (Hcap E). lia.
Qed.

(** ** A concrete table *)

Definition sample_hash (b : Z) : uint256_t := 1 :: replicate 30 0 ++ [b].

(** Two hashes with the same home bucket *)
Definition sample_map : block_map Z :=
  let A : Allocator := fun _ => true in
  snd (block_map_insert (snd (block_map_insert block_map_init (sample_hash 1) 10)) (sample_hash 2) 20).

Lemma init_ok V : map_ok (@block_map_init V).
Proof. constructor; [apply nil_ok|done]. Qed.

Lemma sample_hash_ok b : 0 <= b < 256 -> fixed 32 (sample_hash b).
Proof.
  intros Hb. split; [done|]. unfold sample_hash. apply Forall_cons. split; [done|]. apply Forall_app.
  split; [by apply Forall_replicate|by apply Forall_singleton].
Qed.

Lemma block_map_refines_map_witness :
  block_map_find sample_map (sample_hash 2) = contents sample_map !! sample_hash 2 /\
  block_map_find sample_map (sample_hash 2) = Some 20.
Proof.
  split; [|vm_compute; reflexivity].
  assert (map_ok sample_map) as Hm.
  { pose proof (@insert_refines Z (fun _ => true) block_map_init (sample_hash 1) 10 (init_ok Z) ltac:(by apply sample_hash_ok)) as H1.
    unfold sample_map. cbv zeta. destruct (@block_map_insert Z (fun _ => true) block_map_init (sample_hash 1) 10) as [ok m1].
    destruct H1 as [H1 _].
    pose proof (@insert_refines Z (fun _ => true) m1 (sample_hash 2) 20 H1 ltac:(by apply sample_hash_ok)) as H2.
    cbn [snd]. destruct (block_map_insert m1 (sample_hash 2) 20). apply H2. }
  refine (proj1 (@block_map_refines_map (fun _ => true) Z sample_map (sample_hash 2) 20 Hm _)).
  by apply sample_hash_ok.
Defined.
