(* ===== verification/CoinsMap.v ===== *)
(** * The coins map

    Models the linear-probing hash table of lib/coins/src/coins_view.c from transaction ids to
    coin cache entries: search, insertion with growth, and the deletion that re-inserts the
    entries behind the gap.  A pointer to an entry is the number of its bucket.  With the lemmas
    of file Probing the table is shown to implement a finite map ([coins_map_refines_map]); the
    deletion is the part with a loop over a moving gap.  The remainder by zero of an insertion
    into a table that never got its first buckets is an undefined result ([None]). *)

From stdpp Require Import gmap fin_maps.
From S2P Require Import Prelude Serialize Script Transaction CoinsMath Probing.

Definition COINS_CACHE_DIRTY : Z := 1.
Definition COINS_CACHE_FRESH : Z := 2.

Record coins_cache_entry := CacheEntry { ce_coins : coins; ce_flags : Z }.

Definition coins_init : coins := {| is_coinbase := false; coins_vout := []; coins_height := 0; coins_version := 0 |}.

Definition fresh_entry : coins_cache_entry := {| ce_coins := coins_init; ce_flags := 0 |}.

Abbreviation map_buckets := (bucket_array coins_cache_entry).

(** [num_buckets] is the length of the array. *)
Record coins_map := CoinsMap { cm_buckets : map_buckets; cm_size : nat }.

Definition num_buckets (m : coins_map) : nat := length (cm_buckets m).

Definition COINS_MAP_INITIAL_BUCKETS : nat := Z.to_nat 4096.

Definition coins_map_hash (txid : uint256_t) : Z := le_decode (take 8 txid).

Definition coins_map_init : coins_map := {| cm_buckets := []; cm_size := 0 |}.

(** [(idx + i) % num_buckets] *)
Definition coins_slot (n : nat) (txid : uint256_t) (i : nat) : nat :=
  Z.to_nat ((coins_map_hash txid mod Z.of_nat n + Z.of_nat i) mod Z.of_nat n).

Fixpoint cm_find_loop (b : map_buckets) (txid : uint256_t) (fuel i : nat) : option nat :=
  match fuel with
  | O => None
  | S fuel' =>
      let slot := coins_slot (length b) txid i in
      match b !! slot with
      | Some (Some (h, _)) => if uint256_cmp h txid =? 0 then Some slot else cm_find_loop b txid fuel' (S i)
      | _ => None
      end
  end.

Definition coins_map_find (m : coins_map) (txid : uint256_t) : option nat :=
  if (num_buckets m =? 0)%nat then None else cm_find_loop (cm_buckets m) txid (num_buckets m) 0.

(** The first free bucket of the probe sequence *)
Fixpoint free_loop (b : map_buckets) (txid : uint256_t) (fuel i : nat) : option nat :=
  match fuel with
  | O => None
  | S fuel' =>
      let slot := coins_slot (length b) txid i in
      match b !! slot with
      | Some None => Some slot
      | _ => free_loop b txid fuel' (S i)
      end
  end.

(** An entry is put into the first free bucket; without one it is dropped. *)
Definition put_entry (m : coins_map) (txid : uint256_t) (e : coins_cache_entry) : coins_map :=
  match free_loop (cm_buckets m) txid (num_buckets m) 0 with
  | Some slot => {| cm_buckets := <[slot := Some (txid, e)]> (cm_buckets m); cm_size := S (cm_size m) |}
  | None => m
  end.

(** An entry of the array is 80 bytes. *)
Definition coins_map_rehash `{Allocator} (m : coins_map) (new_num_buckets : nat) : coins_map :=
  if alloc_succeeds (Z.of_nat new_num_buckets * 80) then
    foldl (fun m o => match o with Some (h, e) => put_entry m h e | None => m end)
      {| cm_buckets := replicate new_num_buckets None; cm_size := 0 |} (cm_buckets m)
  else m.

(** The bucket of the entry and the table; the bucket is missing when the table is full. *)
Definition coins_map_insert `{Allocator} (m : coins_map) (txid : uint256_t) : option (option nat * coins_map) :=
  match coins_map_find m txid with
  | Some slot => Some (Some slot, m)
  | None =>
      let n := num_buckets m in
      let m := if (n =? 0)%nat || (n * 3 <=? cm_size m * 4)%nat
               then coins_map_rehash m (if (n =? 0)%nat then COINS_MAP_INITIAL_BUCKETS else n * 2)%nat else m in
      if (num_buckets m =? 0)%nat then None
      else
        Some (free_loop (cm_buckets m) txid (num_buckets m) 0, put_entry m txid fresh_entry)
  end.

Definition clear_bucket (m : coins_map) (slot : nat) : coins_map :=
  {| cm_buckets := <[slot := None]> (cm_buckets m); cm_size := cm_size m - 1 |}.

(** The loop over the entries behind the gap, each taken out and put back; [None]: out of fuel *)
Fixpoint refill_loop (m : coins_map) (fuel next : nat) : option coins_map :=
  match fuel with
  | O => None
  | S fuel' =>
      match cm_buckets m !! next with
      | Some (Some (h, e)) => refill_loop (put_entry (clear_bucket m next) h e) fuel' (S next mod num_buckets m)
      | _ => Some m
      end
  end.

Definition coins_map_erase (m : coins_map) (txid : uint256_t) : option (bool * coins_map) :=
  match coins_map_find m txid with
  | None => Some (false, m)
  | Some slot =>
      m' ← refill_loop (clear_bucket m slot) (S (num_buckets m)) (S slot mod num_buckets m);
      Some (true, m')
  end.

Definition coins_map_count (m : coins_map) : nat := cm_size m.

(** Reading and writing through the pointer to an entry *)
Definition entry_at (m : coins_map) (slot : nat) : coins_cache_entry :=
  match cm_buckets m !! slot with
  | Some (Some (_, e)) => e
  | _ => fresh_entry
  end.

Definition write_entry (m : coins_map) (slot : nat) (e : coins_cache_entry) : coins_map :=
  match cm_buckets m !! slot with
  | Some (Some (txid, _)) => {| cm_buckets := <[slot := Some (txid, e)]> (cm_buckets m); cm_size := cm_size m |}
  | _ => m
  end.

(** ** The abstract map *)

Definition coins_contents (m : coins_map) : gmap uint256_t coins_cache_entry := list_to_map (entries (cm_buckets m)).

Lemma coins_slot_spec cap h i : (0 < cap)%nat ->
  Z.of_nat (coins_slot cap h i) = (coins_map_hash h mod Z.of_nat cap + Z.of_nat i) mod Z.of_nat cap.
Proof. intros Hc. unfold coins_slot. rewrite Z2Nat.id; [done|]. apply Z.mod_pos_bound. lia. Qed.

Definition coins_probing : probing := {|
  slot_at := coins_slot; cap_ok := fun n => (0 < n)%nat; home_of := coins_map_hash;
  cap_pos := fun _ Hn => Hn; slot_at_spec := coins_slot_spec;
|}.

Record coins_map_ok (m : coins_map) : Prop := {
  cm_array : array_ok coins_probing (cm_buckets m);
  cm_count : cm_size m = length (entries (cm_buckets m));
}.

(** ** Lemmas *)

Abbreviation CP := coins_probing.

Section Lemmas.
Implicit Types (m : coins_map) (b : map_buckets) (h : uint256_t) (e : coins_cache_entry).

Lemma cm_find_loop_spec b h fuel i : array_ok CP b -> fixed 32 h -> passed CP b h i -> (0 < length b)%nat ->
  match cm_find_loop b h fuel i with
  | Some slot => exists e, b !! slot = Some (Some (h, e))
  | None => passed CP b h (i + fuel) \/ h ∉ (entries b).*1
  end.
Proof.
  intros Hb Hh. revert i. induction fuel as [|fuel IH]; intros i Hp Hpos; cbn [cm_find_loop].
  { left. by rewrite Nat.add_0_r. }
  destruct (b !! _) as [[[h' e]|]|] eqn:E.
  - change (uint256_cmp h' h =? 0) with (uint256_eq h' h). rewrite key_eq_spec by eauto using slot_fixed.
    case_bool_decide as Hd; [subst; by eexists|].
    specialize (IH (S i) (passed_S CP _ _ _ _ _ Hp E Hd) Hpos). by rewrite Nat.add_succ_r.
  - right. by apply (absent_before_empty CP b h i).
  - apply lookup_ge_None in E. pose proof (slot_at_lt CP (length b) h i Hpos) as Hlt. cbn in Hlt. lia.
Qed.

Lemma all_passed_absent b h : array_ok CP b -> passed CP b h (length b) -> h ∉ (entries b).*1.
Proof.
  intros Hb Hp ([h' e] & -> & [slot Hs]%elem_of_entries)%list_elem_of_fmap. cbn in Hp.
  destruct (entry_passed CP b slot h' e Hb Hs) as (n & Hn & -> & _).
  destruct (Hp n Hn) as (h'' & e' & E & Hd). congruence.
Qed.

(** A search finds the bucket of the key, or the key is not in the table. *)
Lemma find_spec m h : coins_map_ok m -> fixed 32 h ->
  match coins_map_find m h with
  | Some slot => exists e, cm_buckets m !! slot = Some (Some (h, e))
  | None => h ∉ (entries (cm_buckets m)).*1
  end.
Proof.
  intros [Hb _] Hh. unfold coins_map_find, num_buckets.
  destruct (Nat.eqb_spec (length (cm_buckets m)) 0) as [E|E].
  { apply nil_length_inv in E. rewrite E. apply not_elem_of_nil. }
  pose proof (cm_find_loop_spec _ h (length (cm_buckets m)) 0 Hb Hh ltac:(intros j Hj; lia) ltac:(lia)) as Hf.
  destruct (cm_find_loop _ _ _ _); [done|]. destruct Hf as [Hf|Hf]; [by apply all_passed_absent|done].
Qed.

Lemma free_loop_spec b h fuel i : (0 < length b)%nat ->
  (forall j, (j < i)%nat -> occupied b (coins_slot (length b) h j)) ->
  match free_loop b h fuel i with
  | Some slot => exists n, (i <= n < i + fuel)%nat /\ slot = coins_slot (length b) h n /\ b !! slot = Some None /\
      forall j, (j < n)%nat -> occupied b (coins_slot (length b) h j)
  | None => forall j, (j < i + fuel)%nat -> occupied b (coins_slot (length b) h j)
  end.
Proof.
  intros Hpos. revert i. induction fuel as [|fuel IH]; intros i Hi; cbn [free_loop].
  { by rewrite Nat.add_0_r. }
  destruct (b !! _) as [[e|]|] eqn:E.
  - specialize (IH (S i)). rewrite Nat.add_succ_r. destruct (free_loop b h fuel (S i)).
    + destruct IH as (n' & Hn & ?); [|exists n'; split; [lia|done]].
      intros j Hj. destruct (decide (j = i)) as [->|]; [by exists e|apply Hi; lia].
    + apply IH. intros j Hj. destruct (decide (j = i)) as [->|]; [by exists e|apply Hi; lia].
  - exists i. split_and!; [lia|lia|done|done|done].
  - apply lookup_ge_None in E. pose proof (slot_at_lt CP (length b) h i Hpos) as Hlt. cbn in Hlt. lia.
Qed.

(** With a free bucket the loop ends at the first free one of the probe sequence. *)
Lemma free_loop_room b h n : (n < length b)%nat -> b !! coins_slot (length b) h n = Some None ->
  (forall j, (j < n)%nat -> occupied b (coins_slot (length b) h j)) ->
  free_loop b h (length b) 0 = Some (coins_slot (length b) h n).
Proof.
  intros Hn Hs Ho. pose proof (free_loop_spec b h (length b) 0 ltac:(lia) ltac:(intros j Hj; lia)) as Hf.
  destruct (free_loop b h (length b) 0) as [slot|].
  - destruct Hf as (n' & Hn' & -> & Hs' & Ho'). destruct (lt_eq_lt_dec n n') as [[Hlt| ->]|Hgt]; [|done|].
    + destruct (Ho' n Hlt). congruence.
    + destruct (Ho n' Hgt). congruence.
  - destruct (Hf n ltac:(lia)). congruence.
Qed.

Lemma first_free b h : (length (entries b) < length b)%nat -> exists n, (n < length b)%nat /\
  b !! coins_slot (length b) h n = Some None /\ forall j, (j < n)%nat -> occupied b (coins_slot (length b) h j).
Proof.
  intros Hl. pose proof (free_loop_spec b h (length b) 0 ltac:(lia) ltac:(intros j Hj; lia)) as Hf.
  destruct (free_loop b h (length b) 0) as [slot|].
  - destruct Hf as (n & Hn & -> & Hs & Ho). exists n. split_and!; [lia|done|done].
  - destruct (not_all_passed CP b h ltac:(cbn; lia) Hl) as (n & Hn & E). destruct (Hf n ltac:(lia)) as [e E']. cbn in E. congruence.
Qed.

Lemma put_entry_room m h e : (length (entries (cm_buckets m)) < num_buckets m)%nat ->
  exists n, (n < num_buckets m)%nat /\ cm_buckets m !! coins_slot (num_buckets m) h n = Some None /\
    (forall j, (j < n)%nat -> occupied (cm_buckets m) (coins_slot (num_buckets m) h j)) /\
    free_loop (cm_buckets m) h (num_buckets m) 0 = Some (coins_slot (num_buckets m) h n) /\
    put_entry m h e = {| cm_buckets := <[coins_slot (num_buckets m) h n := Some (h, e)]> (cm_buckets m);
                         cm_size := S (cm_size m) |}.
Proof.
  intros Hl. destruct (first_free (cm_buckets m) h Hl) as (n & Hn & Hs & Ho).
  pose proof (free_loop_room _ h n Hn Hs Ho) as Hf. exists n. unfold put_entry, num_buckets. by rewrite Hf.
Qed.

Lemma put_entry_ok m h e : coins_map_ok m -> fixed 32 h -> (length (entries (cm_buckets m)) < num_buckets m)%nat ->
  h ∉ (entries (cm_buckets m)).*1 ->
  coins_map_ok (put_entry m h e) /\ num_buckets (put_entry m h e) = num_buckets m /\
  entries (cm_buckets (put_entry m h e)) ≡ₚ (h, e) :: entries (cm_buckets m).
Proof.
  intros [Hb Hc] Hh Hl Hnew. destruct (put_entry_room m h e Hl) as (n & Hn & Hs & Ho & _ & ->).
  pose proof (entries_insert _ _ (h, e) Hs) as He. split_and!; [|apply length_insert|done].
  constructor; cbn [cm_buckets cm_size]; [|by rewrite He, Hc]. by apply (array_insert CP (cm_buckets m) h e n).
Qed.

Lemma coins_rehash_spec `{Allocator} m cap : coins_map_ok m -> (0 < cap)%nat -> (length (entries (cm_buckets m)) <= cap)%nat ->
  coins_map_ok (coins_map_rehash m cap) /\
  entries (cm_buckets (coins_map_rehash m cap)) ≡ₚ entries (cm_buckets m) /\
  (num_buckets (coins_map_rehash m cap) = cap \/
   coins_map_rehash m cap = m /\ alloc_succeeds (Z.of_nat cap * 80) = false).
Proof.
  intros Hm Hpos Hle. unfold coins_map_rehash. case_if; [|by split_and!; eauto].
  pose proof (@entries_replicate coins_cache_entry cap) as Er. unfold num_buckets in *.
  destruct (move_entries (fun m => coins_map_ok m) cm_buckets put_entry (cm_buckets m)
    {| cm_buckets := replicate cap None; cm_size := 0 |}) as (Hok & Hn & Hp);
    cbn [cm_buckets] in *; rewrite ?Er, ?length_replicate, ?app_nil_r in *; try (done || apply Hm || (cbn; lia)).
  - intros m0 h e Hm0 Hh Hroom Hnew. by apply put_entry_ok.
  - constructor; cbn [cm_buckets cm_size]; rewrite ?Er; [by apply replicate_ok|done].
  - split_and!; [done|done|by left].
Qed.

Lemma contents_slot m slot h e : coins_map_ok m -> cm_buckets m !! slot = Some (Some (h, e)) ->
  coins_contents m !! h = Some e.
Proof.
  intros [Hb _] Hs. apply elem_of_list_to_map_1; [apply Hb|]. apply elem_of_entries. by exists slot.
Qed.

Lemma contents_absent m h : h ∉ (entries (cm_buckets m)).*1 -> coins_contents m !! h = None.
Proof. apply not_elem_of_list_to_map_1. Qed.

Lemma contents_present m h : coins_map_ok m -> coins_contents m !! h = None -> h ∉ (entries (cm_buckets m)).*1.
Proof. intros _. apply not_elem_of_list_to_map_2. Qed.

Lemma coins_contents_perm m m' : coins_map_ok m -> entries (cm_buckets m') ≡ₚ entries (cm_buckets m) ->
  coins_contents m' = coins_contents m.
Proof. intros [Hb _] Hp. apply list_to_map_proper; [|done]. rewrite Hp. apply Hb. Qed.

Lemma find_contents m h : coins_map_ok m -> fixed 32 h ->
  coins_contents m !! h = entry_at m <$> coins_map_find m h.
Proof.
  intros Hm Hh. pose proof (find_spec m h Hm Hh) as Hf. destruct (coins_map_find m h) as [slot|].
  - destruct Hf as [e He]. cbn. unfold entry_at. rewrite He. by eapply contents_slot.
  - by apply contents_absent.
Qed.

Lemma write_entry_spec m slot h e0 e : coins_map_ok m -> cm_buckets m !! slot = Some (Some (h, e0)) ->
  coins_map_ok (write_entry m slot e) /\ coins_contents (write_entry m slot e) = <[h := e]> (coins_contents m) /\
  cm_buckets (write_entry m slot e) !! slot = Some (Some (h, e)).
Proof.
  intros Hm Hs. pose proof (lookup_lt_Some _ _ _ Hs) as Hlt. unfold write_entry. rewrite Hs.
  destruct (entries_split _ slot _ Hs) as (l & r & El & Er). specialize (Er (Some (h, e))). cbn in El, Er.
  destruct Hm as [[Hcap Hfix Hnd Hpr] Hc].
  assert (coins_map_ok {| cm_buckets := <[slot := Some (h, e)]> (cm_buckets m); cm_size := cm_size m |}) as Hok.
  { constructor; [constructor|]; cbn [cm_buckets cm_size].
    - rewrite length_insert. destruct Hcap as [E|?]; [rewrite E in Hlt; cbn in Hlt; lia|by right].
    - rewrite Er. rewrite El in Hfix. revert Hfix. rewrite !Forall_app, !Forall_cons_iff. done.
    - rewrite Er. rewrite El in Hnd. rewrite fmap_app in *. exact Hnd.
    - intros slot' h' e' Hl'. rewrite length_insert.
      assert (exists e'', cm_buckets m !! slot' = Some (Some (h', e''))) as [e'' He''].
      { destruct (decide (slot = slot')) as [<-|]; [|exists e'; by rewrite list_lookup_insert_ne in Hl'].
        rewrite list_lookup_insert_eq in Hl' by done. injection Hl' as <- <-. by exists e0. }
      destruct (Hpr _ _ _ He'') as (i & Hi & -> & Ho). exists i. split_and!; [done|done|].
      intros j Hj. by apply occupied_insert, Ho.
    - rewrite Er, Hc, El. by rewrite !length_app. }
  split_and!; [done| |cbn; by apply list_lookup_insert_eq].
  rewrite El in Hnd. unfold coins_contents. cbn [cm_buckets]. rewrite El, Er.
  rewrite !list_to_map_app, !list_to_map_cons. rewrite fmap_app in Hnd. cbn in Hnd.
  apply NoDup_app in Hnd as (_ & Hd & _).
  assert (list_to_map (M := gmap uint256_t coins_cache_entry) l !! h = None) as Hl.
  { apply not_elem_of_list_to_map_1. intros Hin. apply (Hd _ Hin). left. }
  rewrite <- insert_union_r by done. rewrite <- (insert_union_r _ _ h e0) by done. by rewrite insert_insert_eq.
Qed.

Lemma contents_put m m' h e : coins_map_ok m' -> entries (cm_buckets m') ≡ₚ (h, e) :: entries (cm_buckets m) ->
  coins_contents m' = <[h := e]> (coins_contents m).
Proof.
  intros [Hb _] Hp. unfold coins_contents. rewrite (list_to_map_proper _ _ (array_nodup CP _ Hb) Hp). done.
Qed.

(** Placing a new key into a table with the same entries and room *)
Lemma put_fresh m h : coins_map_ok m -> fixed 32 h -> h ∉ (entries (cm_buckets m)).*1 ->
  forall m', coins_map_ok m' -> entries (cm_buckets m') ≡ₚ entries (cm_buckets m) ->
  (length (entries (cm_buckets m')) < num_buckets m')%nat ->
  exists slot m'', free_loop (cm_buckets m') h (num_buckets m') 0 = Some slot /\ put_entry m' h fresh_entry = m'' /\
    coins_map_ok m'' /\ (exists e, cm_buckets m'' !! slot = Some (Some (h, e))) /\
    coins_contents m'' = <[h := fresh_entry]> (coins_contents m).
Proof.
  intros Hm Hh Hf m' Hm' Hp Hr. assert (h ∉ (entries (cm_buckets m')).*1) as Hnew by (by rewrite Hp).
  destruct (put_entry_room m' h fresh_entry Hr) as (i & Hi & Hs & Ho & Hfree & Hpe).
  destruct (put_entry_ok m' h fresh_entry Hm' Hh Hr Hnew) as (Hok & _ & He).
  exists (coins_slot (num_buckets m') h i), (put_entry m' h fresh_entry). split_and!; [done|done|done| |].
  - exists fresh_entry. rewrite Hpe. cbn. apply list_lookup_insert_eq. by eapply lookup_lt_Some.
  - rewrite (contents_put m' _ h fresh_entry Hok He). by rewrite (coins_contents_perm m m' Hm Hp).
Qed.

(** What an insertion does, whatever the allocator answers *)
Lemma insert_spec `{Allocator} m h : coins_map_ok m -> fixed 32 h ->
  match coins_map_insert m h with
  | Some (Some slot, m') => coins_map_ok m' /\ (exists e, cm_buckets m' !! slot = Some (Some (h, e))) /\
      coins_contents m' = match coins_contents m !! h with
                            | Some _ => coins_contents m
                            | None => <[h := fresh_entry]> (coins_contents m)
                            end
  | Some (None, m') => m' = m /\ coins_contents m !! h = None /\ length (entries (cm_buckets m)) = num_buckets m /\
      alloc_succeeds (Z.of_nat (num_buckets m * 2) * 80) = false
  | None => m = coins_map_init /\ alloc_succeeds (Z.of_nat COINS_MAP_INITIAL_BUCKETS * 80) = false
  end.
Proof.
  intros Hm Hh. unfold coins_map_insert. pose proof (find_spec m h Hm Hh) as Hf.
  destruct (coins_map_find m h) as [slot|].
  { destruct Hf as [e He]. rewrite (contents_slot m slot h e Hm He). eauto. }
  rewrite (contents_absent m h Hf). set (n := num_buckets m). pose proof (entries_length (cm_buckets m)) as Hle.
  set (cap := if (n =? 0)%nat then COINS_MAP_INITIAL_BUCKETS else (n * 2)%nat).
  assert (0 < COINS_MAP_INITIAL_BUCKETS)%nat as Hinit by (by apply Nat.ltb_lt).
  assert (0 < cap /\ length (entries (cm_buckets m)) < cap)%nat as [Hcap Hroom].
  { unfold cap, n, num_buckets in *. destruct (Nat.eqb_spec (length (cm_buckets m)) 0); lia. }
  pose proof (put_fresh m h Hm Hh Hf) as Hput.
  destruct ((n =? 0)%nat || (n * 3 <=? cm_size m * 4)%nat) eqn:Egrow.
  - destruct (coins_rehash_spec m cap Hm Hcap ltac:(lia)) as (Hok & Hp & Hcase).
    destruct Hcase as [Hn|[Hn Hfail]].
    + rewrite Hn, (proj2 (Nat.eqb_neq cap 0)) by lia.
      destruct (Hput _ Hok Hp) as (slot & m'' & Hs & Hm'' & ?); [rewrite Hp, Hn; lia|].
      rewrite Hn in Hs. by rewrite Hs, Hm''.
    + rewrite Hn. fold n. destruct (Nat.eqb_spec n 0) as [E|E].
      { split; [|done]. destruct m as [b sz]. destruct Hm as [_ Hc]. unfold n, num_buckets in E. cbn in *.
        apply nil_length_inv in E. subst b. by rewrite Hc. }
      destruct (decide (length (entries (cm_buckets m)) < n)%nat) as [Hlt|Hge].
      * destruct (Hput m Hm (reflexivity _) Hlt) as (slot & m'' & Hs & Hm'' & ?). fold n in Hs. by rewrite Hs, Hm''.
      * unfold put_entry. fold n.
        assert (free_loop (cm_buckets m) h n 0 = None) as ->; [|split_and!; [done|done|unfold n, num_buckets in *; lia|done]].
        pose proof (free_loop_spec (cm_buckets m) h n 0 ltac:(unfold n, num_buckets in *; lia) ltac:(intros j Hj; lia)) as Hfl.
        destruct (free_loop _ _ _ _) as [slot|]; [|done]. destruct Hfl as (i & _ & _ & Hs & _).
        pose proof (entries_insert _ _ (h, fresh_entry) Hs) as Hp'. apply Permutation_length in Hp'.
        pose proof (entries_length (<[slot := Some (h, fresh_entry)]> (cm_buckets m))) as Hle'. rewrite Hp', length_insert in Hle'.
        cbn in Hle'. unfold n, num_buckets in *. lia.
  - apply orb_false_iff in Egrow as [En Ef]. fold n. rewrite En. apply Nat.eqb_neq in En. apply Nat.leb_gt in Ef.
    rewrite (cm_count m Hm) in Ef.
    destruct (Hput m Hm (reflexivity _)) as (slot & m'' & Hs & Hm'' & ?); [fold n; lia|]. fold n in Hs. by rewrite Hs, Hm''.
Qed.

End Lemmas.

(** ** Deletion

    Seen from a bucket [f] that is empty and stays empty, the array is a line: coordinate [c] is
    the bucket [f + 1 + c], and every entry lies at or behind the coordinate of its home.  The
    loop moves along the line; the gaps it leaves open are behind its position. *)

Section Erase.
Context (n f : nat) (Hf : (f < n)%nat).
Implicit Types (m : coins_map) (b : map_buckets) (h : uint256_t) (e : coins_cache_entry).

Definition line (c : nat) : nat := ((f + 1 + c) mod n)%nat.

(** The coordinate of the home of a key *)
Definition home_at (h : uint256_t) : nat := ((coins_slot n h 0 + n - (f + 1)) mod n)%nat.

Lemma line_lt c : (line c < n)%nat.
Proof. apply Nat.mod_upper_bound. lia. Qed.

Lemma line_inj c c' : (c < n)%nat -> (c' < n)%nat -> line c = line c' -> c = c'.
Proof.
  assert (forall x, (x < 2 * n)%nat -> (x mod n = if decide (x < n) then x else x - n)%nat) as Hm.
  { intros x Hx. case_decide; [by apply Nat.mod_small|]. rewrite <- (Nat.mod_small (x - n) n) by lia.
    replace x with (x - n + 1 * n)%nat at 1 by lia. apply Nat.Div0.mod_add. }
  unfold line. intros Hc Hc' E. rewrite !Hm in E by lia. repeat case_decide; lia.
Qed.

Lemma line_last : line (n - 1) = f.
Proof. unfold line. replace (f + 1 + (n - 1))%nat with (f + 1 * n)%nat by lia. rewrite Nat.Div0.mod_add. apply Nat.mod_small. lia. Qed.

Lemma line_surj p : (p < n)%nat -> exists c, (c < n)%nat /\ line c = p.
Proof.
  intros Hp. exists ((p + n - (f + 1)) mod n)%nat. split; [apply Nat.mod_upper_bound; lia|].
  unfold line. rewrite Nat.Div0.add_mod_idemp_r. replace (f + 1 + (p + n - (f + 1)))%nat with (p + 1 * n)%nat by lia.
  rewrite Nat.Div0.mod_add. by apply Nat.mod_small.
Qed.

Lemma line_next c : (S (line c) mod n)%nat = line (S c).
Proof. unfold line. rewrite <- Nat.add_1_r, Nat.Div0.add_mod_idemp_l. f_equal. lia. Qed.

Lemma home_at_lt h : (home_at h < n)%nat.
Proof. apply Nat.mod_upper_bound. lia. Qed.

Lemma slot_line h i : coins_slot n h i = line (home_at h + i).
Proof.
  assert (coins_slot n h i = (coins_slot n h 0 + i) mod n)%nat as ->.
  { apply Nat2Z.inj. rewrite Nat2Z.inj_mod, Nat2Z.inj_add, !coins_slot_spec by lia.
    by rewrite Z.add_0_r, Zmod_mod. }
  assert (coins_slot n h 0 < n)%nat by (apply (slot_at_lt CP n h 0); cbn; lia).
  unfold line, home_at. rewrite Nat.add_assoc, (Nat.add_comm (f + 1)), <- Nat.add_assoc, Nat.Div0.add_mod_idemp_l.
  replace (coins_slot n h 0 + n - (f + 1) + (f + 1 + i))%nat with (coins_slot n h 0 + i + 1 * n)%nat by lia.
  by rewrite Nat.Div0.mod_add.
Qed.

(** The entries at coordinates from [t] on may have gaps of [s, t) on their way from home. *)
Record lined (b : map_buckets) (s t : nat) : Prop := {
  lined_length : length b = n;
  lined_free : b !! f = Some None;
  lined_paths : forall q h e, (q < n)%nat -> b !! line q = Some (Some (h, e)) ->
    (home_at h <= q)%nat /\
    forall c, (home_at h <= c < q)%nat -> occupied b (line c) \/ (t <= q /\ s <= c < t)%nat;
}.

Lemma lined_last b s t q x : lined b s t -> (q < n)%nat -> b !! line q = Some (Some x) -> (q < n - 1)%nat.
Proof.
  intros Hl Hq He. destruct (decide (q = n - 1)%nat) as [->|]; [|lia].
  rewrite line_last, (lined_free b s t Hl) in He. done.
Qed.

Lemma array_lined b q h e : array_ok CP b -> length b = n -> b !! f = Some None -> (q < n)%nat ->
  b !! line q = Some (Some (h, e)) ->
  (home_at h <= q)%nat /\ forall c, (home_at h <= c < q)%nat -> occupied b (line c).
Proof.
  intros Hb Hn Hfree Hq He. destruct (array_probes CP b Hb _ _ _ He) as (i & Hi & E & Ho). cbn in E, Ho.
  rewrite Hn in Hi, Ho, E. rewrite slot_line in E. pose proof (home_at_lt h).
  assert (home_at h + i < n)%nat as Hlt.
  { destruct (decide (home_at h + i < n)%nat); [done|]. destruct (Ho (n - 1 - home_at h)%nat) as [e' He']; [lia|].
    rewrite slot_line in He'. replace (home_at h + (n - 1 - home_at h))%nat with (n - 1)%nat in He' by lia.
    rewrite line_last in He'. congruence. }
  apply line_inj in E; [|lia|lia]. subst q. split; [lia|]. intros c Hc.
  specialize (Ho (c - home_at h)%nat ltac:(lia)). rewrite slot_line in Ho.
  by replace (home_at h + (c - home_at h))%nat with c in Ho by lia.
Qed.

Lemma occupied_clear (b : map_buckets) p p' : p <> p' -> occupied b p' -> occupied (<[p := None]> b) p'.
Proof. intros Hne [e He]. exists e. by rewrite list_lookup_insert_ne. Qed.

Lemma lined_start b s x : array_ok CP b -> length b = n -> b !! f = Some None -> (s < n)%nat ->
  b !! line s = Some (Some x) -> lined (<[line s := None]> b) s (S s).
Proof.
  intros Hb Hn Hfree Hs He0. constructor.
  - by rewrite length_insert.
  - rewrite list_lookup_insert_ne; [done|]. intros E. rewrite E in He0. congruence.
  - intros q h e Hq He. destruct (decide (q = s)) as [->|Hne].
    { rewrite list_lookup_insert_eq in He; [done|rewrite Hn; apply line_lt]. }
    assert (line s <> line q) as Hl by (intros E; apply line_inj in E; lia).
    rewrite list_lookup_insert_ne in He by done. destruct (array_lined b q h e Hb Hn Hfree Hq He) as [Hh Ho].
    split; [done|]. intros c Hc. destruct (decide (c = s)) as [->|]; [right; lia|left].
    apply occupied_clear; [|by apply Ho]. intros E. apply line_inj in E; lia.
Qed.

(** The first empty coordinate from the home of a key to an empty coordinate *)
Lemma first_gap (b : map_buckets) lo hi : length b = n -> (lo <= hi)%nat -> b !! line hi = Some None ->
  exists r, (lo <= r <= hi)%nat /\ b !! line r = Some None /\ forall c, (lo <= c < r)%nat -> occupied b (line c).
Proof.
  intros Hn. remember (hi - lo)%nat as k eqn:Ek. revert lo Ek. induction k as [|k IH]; intros lo Ek Hle Hhi.
  { exists hi. split_and!; [lia|lia|done|]. intros c Hc. lia. }
  destruct (lookup_lt_is_Some_2 b (line lo)) as [[e|] He]; [rewrite Hn; apply line_lt| |].
  - destruct (IH (S lo)) as (r & Hr & Hfree & Ho); [lia|lia|done|]. exists r. split_and!; [lia|lia|done|].
    intros c Hc. destruct (decide (c = lo)) as [->|]; [by exists e|apply Ho; lia].
  - exists lo. split_and!; [lia|lia|done|]. intros c Hc. lia.
Qed.

Lemma lined_step b s t h e : lined b s t -> (s < t < n)%nat -> b !! line t = Some (Some (h, e)) ->
  exists r, (home_at h <= r <= t)%nat /\ <[line t := None]> b !! line r = Some None /\
    (forall c, (home_at h <= c < r)%nat -> occupied (<[line t := None]> b) (line c)) /\
    lined (<[line r := Some (h, e)]> (<[line t := None]> b)) s (S t).
Proof.
  intros Hl Ht He. pose proof (lined_last b s t t _ Hl ltac:(lia) He) as Hlast. pose proof (lined_length b s t Hl) as Hn.
  destruct (lined_paths b s t Hl t h e ltac:(lia) He) as [Hh Hpath]. set (b1 := <[line t := None]> b).
  assert (length b1 = n) as Hn1 by (unfold b1; by rewrite length_insert).
  assert (forall c, (c < n)%nat -> c <> t -> b1 !! line c = b !! line c) as Hb1.
  { intros c Hc Hne. unfold b1. rewrite list_lookup_insert_ne; [done|]. intros E. apply line_inj in E; lia. }
  assert (b1 !! line t = Some None) as Hbt by (apply list_lookup_insert_eq; rewrite Hn; apply line_lt).
  destruct (first_gap b1 (home_at h) t Hn1 Hh Hbt) as (r & Hr & Hfree & Ho). exists r. split_and!; try (done || lia).
  constructor.
  - by rewrite length_insert.
  - rewrite list_lookup_insert_ne by (rewrite <- line_last; intros E; apply line_inj in E; lia).
    rewrite <- line_last, Hb1 by lia. rewrite line_last. apply Hl.
  - intros q h' e' Hq He'. destruct (decide (q = r)) as [->|Hne].
    { rewrite list_lookup_insert_eq in He' by (rewrite Hn1; apply line_lt). injection He' as <- <-.
      split; [lia|]. intros c Hc. left. by apply occupied_insert, Ho. }
    rewrite list_lookup_insert_ne in He' by (intros E; apply line_inj in E; lia).
    destruct (decide (q = t)) as [->|Hqt]; [congruence|]. rewrite Hb1 in He' by done.
    destruct (lined_paths b s t Hl q h' e' Hq He') as [Hh' Hp']. split; [done|]. intros c Hc.
    destruct (decide (c = t)) as [->|Hct]; [right; lia|]. destruct (Hp' c Hc) as [[x Hx]|]; [|right; lia].
    left. apply occupied_insert. exists x. rewrite Hb1 by lia. done.
Qed.

(** When the loop meets an empty bucket no gap is left on the way to an entry. *)
Lemma lined_end b s t : lined b s t -> (s < t < n)%nat -> b !! line t = Some None -> probes_ok CP b.
Proof.
  intros Hl Ht Hfree slot h e He. pose proof (lined_length b s t Hl) as Hn.
  destruct (line_surj slot) as (q & Hq & <-); [rewrite <- Hn; by eapply lookup_lt_Some|].
  destruct (lined_paths b s t Hl q h e Hq He) as [Hh Hp]. exists (q - home_at h)%nat. cbn. rewrite Hn, slot_line.
  replace (home_at h + (q - home_at h))%nat with q by lia. split_and!; [lia|done|]. intros j Hj. rewrite slot_line.
  destruct (Hp (home_at h + j)%nat ltac:(lia)) as [?|Hgap]; [done|].
  destruct (decide (q = t)) as [->|]; [congruence|]. destruct (Hp t ltac:(lia)) as [[x Hx]|]; [congruence|lia].
Qed.

Lemma refill_step m s t h e : lined (cm_buckets m) s t -> (s < t < n)%nat ->
  cm_buckets m !! line t = Some (Some (h, e)) -> cm_size m = length (entries (cm_buckets m)) ->
  let m' := put_entry (clear_bucket m (line t)) h e in
  lined (cm_buckets m') s (S t) /\ entries (cm_buckets m') ≡ₚ entries (cm_buckets m) /\
  cm_size m' = length (entries (cm_buckets m')).
Proof.
  intros Hl Ht He Hc. destruct (lined_step _ s t h e Hl Ht He) as (r & Hr & Hfree & Ho & Hl'). cbv zeta.
  pose proof (lined_length _ s t Hl) as Hn. pose proof (entries_clear _ _ _ He) as Hp1.
  set (b1 := <[line t := None]> (cm_buckets m)) in *.
  assert (length b1 = n) as Hn1 by (unfold b1; by rewrite length_insert).
  assert (coins_slot n h (r - home_at h) = line r) as Er by (rewrite slot_line; f_equal; lia).
  assert (free_loop b1 h (length b1) 0 = Some (line r)) as Hfl.
  { rewrite <- Er, <- Hn1. apply free_loop_room; rewrite ?Hn1, ?Er; [lia|done|].
    intros j Hj. rewrite slot_line. apply Ho. lia. }
  pose proof (entries_insert b1 (line r) (h, e) Hfree) as Hp2.
  unfold put_entry, num_buckets, clear_bucket. cbn [cm_buckets cm_size]. fold b1. rewrite Hfl. cbn [cm_buckets cm_size].
  assert (entries (<[line r := Some (h, e)]> b1) ≡ₚ entries (cm_buckets m)) as Hp by (by rewrite Hp2).
  split_and!; [done|done|]. rewrite Hp, Hc. apply Permutation_length in Hp1. cbn in Hp1. lia.
Qed.

Lemma refill_loop_spec fuel m s t : lined (cm_buckets m) s t -> (s < t < n)%nat -> (n - t <= fuel)%nat ->
  cm_size m = length (entries (cm_buckets m)) ->
  exists m', refill_loop m fuel (line t) = Some m' /\ probes_ok CP (cm_buckets m') /\ length (cm_buckets m') = n /\
    entries (cm_buckets m') ≡ₚ entries (cm_buckets m) /\ cm_size m' = length (entries (cm_buckets m')).
Proof.
  revert m t. induction fuel as [|fuel IH]; intros m t Hl Ht Hfuel Hc; [lia|]. cbn [refill_loop].
  pose proof (lined_length _ s t Hl) as Hn.
  destruct (lookup_lt_is_Some_2 (cm_buckets m) (line t)) as [[[h e]|] He]; [rewrite Hn; apply line_lt| |]; rewrite He.
  - pose proof (lined_last _ s t t _ Hl ltac:(lia) He).
    destruct (refill_step m s t h e Hl Ht He Hc) as (Hl' & Hp & Hc').
    unfold num_buckets. rewrite Hn, line_next.
    destruct (IH _ (S t) Hl' ltac:(lia) ltac:(lia) Hc') as (m' & Hm' & Hpr & Hlen & Hp' & Hc'').
    exists m'. split_and!; try done. by rewrite Hp'.
  - exists m. split_and!; try done. by apply (lined_end _ s t).
Qed.
End Erase.

(** A deletion ends, and removes the key and nothing else; a bucket has to be free already. *)
Lemma erase_spec m h : coins_map_ok m -> fixed 32 h -> (length (entries (cm_buckets m)) < num_buckets m)%nat ->
  exists found m', coins_map_erase m h = Some (found, m') /\ coins_map_ok m' /\
    found = bool_decide (is_Some (coins_contents m !! h)) /\ coins_contents m' = delete h (coins_contents m).
Proof.
  intros Hm Hh Hroom. unfold coins_map_erase. pose proof (find_spec m h Hm Hh) as Hfind.
  destruct (coins_map_find m h) as [slot|].
  2: { exists false, m. pose proof (contents_absent m h Hfind) as E. split_and!; [done|done|by rewrite E|].
       symmetry. by apply delete_id. }
  destruct Hfind as [e He]. pose proof (contents_slot m slot h e Hm He) as Hce. pose proof Hm as [Hb Hc].
  destruct (free_slot _ Hroom) as [f Hfree]. set (n := num_buckets m) in *.
  assert (f < n)%nat as Hfn by (by eapply lookup_lt_Some).
  destruct (line_surj n f Hfn slot) as (s & Hs & Es); [by eapply lookup_lt_Some|]. subst slot.
  pose proof (lined_start n f Hfn _ s _ Hb eq_refl Hfree Hs He) as Hl.
  assert (s < n - 1)%nat as Hs1.
  { destruct (decide (s = n - 1)%nat) as [->|]; [|lia]. rewrite line_last in He by done. congruence. }
  rewrite line_next by done. pose proof (entries_clear _ _ _ He) as Hp. pose proof (Permutation_length Hp) as Hlen. cbn in Hlen.
  destruct (refill_loop_spec n f Hfn (S n) (clear_bucket m (line n f s)) s (S s) Hl) as (m' & -> & Hpr & Hn' & Hp' & Hc');
    [lia|lia|cbn [clear_bucket cm_size cm_buckets]; lia|]. cbn [mbind option_bind].
  exists true, m'. cbn [clear_bucket cm_buckets] in Hp'.
  assert ((h, e) :: entries (cm_buckets m') ≡ₚ entries (cm_buckets m)) as Hall by (by rewrite Hp').
  pose proof (array_fixed _ _ Hb) as Hfix. pose proof (array_nodup _ _ Hb) as Hnd.
  rewrite <- Hall in Hfix, Hnd. apply Forall_cons in Hfix as [_ Hfix]. cbn in Hnd. apply NoDup_cons in Hnd as [Hni Hnd].
  split_and!; [done| |by rewrite Hce|].
  - constructor; [constructor|]; try done. right. cbn. lia.
  - rewrite (contents_put m' m h e); [|done|by symmetry]. symmetry. apply delete_insert_id. by apply contents_absent.
Qed.

(** ** Properties *)

(** C17: The coins map implements a finite map from transaction ids to entries, whatever the
    allocator answers: a search returns the bucket of the entry the map holds; an insertion
    returns the bucket of the key, new keys starting with an empty record, and leaves every other
    entry as it was; it returns no bucket only when the table is full and cannot grow, and is
    undefined only in a table without buckets whose first allocation fails; a deletion in a table
    with a free bucket ends and removes exactly the key, although it moves the entries behind it;
    and the counter is the size of the map. *)
Theorem coins_map_refines_map `{Allocator} m h : coins_map_ok m -> fixed 32 h ->
  coins_contents m !! h = entry_at m <$> coins_map_find m h /\
  match coins_map_insert m h with
  | Some (Some slot, m') => coins_map_ok m' /\ (exists e, cm_buckets m' !! slot = Some (Some (h, e))) /\
      coins_contents m' = match coins_contents m !! h with
                          | Some _ => coins_contents m
                          | None => <[h := fresh_entry]> (coins_contents m)
                          end
  | Some (None, m') => m' = m /\ coins_contents m !! h = None /\ length (entries (cm_buckets m)) = num_buckets m /\
      alloc_succeeds (Z.of_nat (num_buckets m * 2) * 80) = false
  | None => m = coins_map_init /\ alloc_succeeds (Z.of_nat COINS_MAP_INITIAL_BUCKETS * 80) = false
  end /\
  ((length (entries (cm_buckets m)) < num_buckets m)%nat ->
   exists found m', coins_map_erase m h = Some (found, m') /\ coins_map_ok m' /\
     found = bool_decide (is_Some (coins_contents m !! h)) /\ coins_contents m' = delete h (coins_contents m)) /\
  coins_map_count m = size (coins_contents m).
Proof.
  intros Hm Hh. split_and!; [by apply find_contents|by apply insert_spec|by apply erase_spec|].
  unfold coins_map_count, coins_contents. rewrite (cm_count m Hm).
  by rewrite <- length_map_to_list, map_to_list_to_map by apply (cm_array m Hm).
Qed.

(** The first insertion takes a remainder by zero when the first allocation fails; the header
    says that a failed allocation gives a null pointer. *)
Theorem first_insert_undefined `{Allocator} h :
  alloc_succeeds (Z.of_nat COINS_MAP_INITIAL_BUCKETS * 80) = false -> coins_map_insert coins_map_init h = None.
Proof. intros Ha. unfold coins_map_insert, coins_map_rehash. cbn -[COINS_MAP_INITIAL_BUCKETS]. by rewrite Ha. Qed.

(** With an allocator that does not fail there is always a bucket. *)
Lemma insert_total `{AllocatorTotal} m h : coins_map_ok m -> fixed 32 h -> exists slot m' e,
  coins_map_insert m h = Some (Some slot, m') /\ coins_map_ok m' /\ cm_buckets m' !! slot = Some (Some (h, e)) /\
  coins_contents m' = match coins_contents m !! h with
                      | Some _ => coins_contents m
                      | None => <[h := fresh_entry]> (coins_contents m)
                      end.
Proof.
  intros Hm Hh. pose proof (insert_spec m h Hm Hh) as Hi.
  destruct (coins_map_insert m h) as [[[slot|] m']|]; rewrite ?alloc_total in Hi; [|naive_solver..].
  destruct Hi as (? & [e ?] & ?). eauto 10.
Qed.

(** Four buckets; the two keys have the same home. *)
Definition sample_txid (b : Z) : uint256_t := 1 :: replicate 30 0 ++ [b].

Definition sample_coins_map : coins_map :=
  put_entry (put_entry {| cm_buckets := replicate 4 None; cm_size := 0 |} (sample_txid 1) fresh_entry)
    (sample_txid 2) fresh_entry.

Lemma sample_txid_ok b : 0 <= b < 256 -> fixed 32 (sample_txid b).
Proof.
  intros Hb. split; [done|]. unfold sample_txid. apply Forall_cons. split; [done|]. apply Forall_app.
  split; [by apply Forall_replicate|by apply Forall_singleton].
Qed.

Lemma sample_coins_map_ok : coins_map_ok sample_coins_map.
Proof.
  apply put_entry_ok; [apply put_entry_ok|..]; [|by apply sample_txid_ok|cbn; lia|apply not_elem_of_nil|by apply sample_txid_ok|..].
  - constructor; [by apply replicate_ok; cbn; lia|done].
  - vm_compute. lia.
  - vm_compute. intros Hin. apply list_elem_of_singleton in Hin. done.
Qed.

Lemma coins_map_refines_map_witness :
  coins_map_find sample_coins_map (sample_txid 2) = Some 2%nat /\
  exists m', coins_map_erase sample_coins_map (sample_txid 1) = Some (true, m') /\
    coins_map_find m' (sample_txid 2) = Some 1%nat /\
    coins_contents m' = delete (sample_txid 1) (coins_contents sample_coins_map).
Proof.
  split; [by vm_compute|].
  destruct (@coins_map_refines_map (fun _ => true) sample_coins_map (sample_txid 1) sample_coins_map_ok
    ltac:(by apply sample_txid_ok)) as (_ & _ & He & _).
  destruct He as (found & m' & E & _ & _ & Hd); [vm_compute; lia|]. exists m'.
  assert (coins_map_erase sample_coins_map (sample_txid 1) =
    Some (true, put_entry {| cm_buckets := replicate 4 None; cm_size := 0 |} (sample_txid 2) fresh_entry)) as E'
    by (vm_compute; reflexivity).
  rewrite E' in E. injection E as <- <-. split_and!; [done|by vm_compute|done].
Defined.
