(* ===== verification/UtxoCommitment.v ===== *)
(** * Commitments to the set of unspent outputs

    Models lib/coins/src/utxo_commitment.c: the accumulator that XORs the hashes of the unspent
    outputs, its 40-byte encoding, and the record encoder behind the SHA3 commitment of the whole
    table.  The global switch that turns the tracking off is the argument [skip].  The
    accumulator depends on the set and not on the way it came about ([commitment_path_independent]),
    the record stream of the SHA3 commitment determines the table ([sha3_records_injective]), and
    folding the commitment of a child cache into its parent loses the outputs the child spent
    ([merge_miscounts]).  The statements of SQLite around the checkpoint rows are not modelled. *)

From S2P Require Import Prelude Hash Serialize Script Transaction.

Record utxo_commitment := UtxoCommitment { accumulator : bytes; uc_count : Z }.

(** What is hashed of an unspent output *)
Record utxo := Utxo { u_txid : uint256_t; u_vout : Z; u_value : Z; u_height : Z }.

Section Commitment.
Context `{HashFunctions}.

Definition hash_utxo (u : utxo) : bytes :=
  h_sha256 (u_txid u ++ le_encode 4 (u_vout u) ++ le_encode 8 (u64 (u_value u)) ++ le_encode 4 (u32 (u_height u))).

Definition xor32 (dst src : bytes) : bytes := zip_with Z.lxor dst src.

Definition utxo_commitment_init : utxo_commitment := {| accumulator := replicate 32 0; uc_count := 0 |}.

Definition utxo_commitment_add (skip : bool) (uc : utxo_commitment) (u : utxo) : utxo_commitment :=
  if skip then uc
  else {| accumulator := xor32 (accumulator uc) (hash_utxo u); uc_count := u64 (uc_count uc + 1) |}.

Definition utxo_commitment_remove (skip : bool) (uc : utxo_commitment) (u : utxo) : utxo_commitment :=
  if skip then uc
  else {| accumulator := xor32 (accumulator uc) (hash_utxo u);
          uc_count := if uc_count uc >? 0 then uc_count uc - 1 else uc_count uc |}.

Definition utxo_commitment_merge (dst src : utxo_commitment) : utxo_commitment :=
  {| accumulator := xor32 (accumulator dst) (accumulator src); uc_count := u64 (uc_count dst + uc_count src) |}.

Definition utxo_commitment_serialize (uc : utxo_commitment) : bytes := accumulator uc ++ le_encode 8 (uc_count uc).

Definition utxo_commitment_deserialize (buf : bytes) : option utxo_commitment :=
  if zlen buf <? 40 then None
  else Some {| accumulator := take 32 buf; uc_count := le_decode (take 8 (drop 32 buf)) |}.

Definition utxo_commitment_equal (a b : utxo_commitment) : bool :=
  (uc_count a =? uc_count b) && (memcmp (accumulator a) (accumulator b) =? 0).

(** The loop over the rows of the table *)
Definition utxo_commitment_compute_db (rows : list utxo) : utxo_commitment :=
  foldl (fun uc u => {| accumulator := xor32 (accumulator uc) (hash_utxo u); uc_count := u64 (uc_count uc + 1) |})
    utxo_commitment_init rows.

(** ** The records of the SHA3 commitment *)

Record utxo_row := UtxoRow { row_utxo : utxo; row_script : bytes; row_coinbase : bool }.

Definition utxo_sha3_record_max (script_len : Z) : Z := 48 + script_len + 5.

(** [None]: the buffer is too small *)
Definition utxo_sha3_serialize_record (buf_cap : Z) (r : utxo_row) : option bytes :=
  let u := row_utxo r in
  if buf_cap <? utxo_sha3_record_max (zlen (row_script r)) then None
  else Some (u_txid u ++ le_encode 4 (u_vout u) ++ le_encode 8 (u64 (u_value u)) ++
             le_encode 4 (zlen (row_script r)) ++ row_script r ++
             le_encode 4 (u_height u) ++ [if row_coinbase r then 1 else 0]).

(** The writes to the hash context: one record from the stack buffer, or the fields one by one *)
Definition utxo_commitment_sha3_write_record (r : utxo_row) : list bytes :=
  match utxo_sha3_serialize_record (utxo_sha3_record_max 1024) r with
  | Some rec => [rec]
  | None =>
      let u := row_utxo r in
      [u_txid u; le_encode 4 (u_vout u); le_encode 8 (u64 (u_value u)); le_encode 4 (zlen (row_script r))] ++
      (if zlen (row_script r) >? 0 then [row_script r] else []) ++
      [le_encode 4 (u_height u); [if row_coinbase r then 1 else 0]]
  end.

Definition utxo_commitment_sha3_stream (rows : list utxo_row) : bytes :=
  mjoin (mjoin (map utxo_commitment_sha3_write_record rows)).

(** ** The set behind a sequence of updates *)

Inductive commitment_op := CommitAdd (u : utxo) | CommitRemove (u : utxo).

Definition commitment_step (uc : utxo_commitment) (op : commitment_op) : utxo_commitment :=
  match op with
  | CommitAdd u => utxo_commitment_add false uc u
  | CommitRemove u => utxo_commitment_remove false uc u
  end.

(** The updates turn the empty set into [us]; only members are removed. *)
Inductive tracks : list commitment_op -> list utxo -> Prop :=
  | tracks_nil : tracks [] []
  | tracks_add ops us u : tracks ops us -> tracks (ops ++ [CommitAdd u]) (u :: us)
  | tracks_remove ops us us' u : tracks ops us -> us ≡ₚ u :: us' -> tracks (ops ++ [CommitRemove u]) us'.

Definition commitment_of (us : list utxo) : utxo_commitment := utxo_commitment_compute_db us.
End Commitment.

Definition utxo_ok (u : utxo) : Prop :=
  fixed 32 (u_txid u) /\ is_u 32 (u_vout u) /\ is_s 64 (u_value u) /\ is_u 32 (u_height u).

Definition row_ok (r : utxo_row) : Prop :=
  utxo_ok (row_utxo r) /\ bytes_ok (row_script r) /\ zlen (row_script r) < 2 ^ 32.

(** ** XOR of digests *)

Section Lemmas.
Context `{HashFunctionsOk}.

Lemma xor32_length a b : length a = 32%nat -> length b = 32%nat -> length (xor32 a b) = 32%nat.
Proof. intros Ha Hb. unfold xor32. rewrite length_zip_with. lia. Qed.

Lemma xor32_swap a b c : length a = 32%nat -> length b = 32%nat -> length c = 32%nat ->
  xor32 (xor32 a b) c = xor32 (xor32 a c) b.
Proof.
  intros Ha Hb Hc. apply list_eq_same_length with 32%nat; rewrite ?xor32_length; try done; try by apply xor32_length.
  unfold xor32. intros i x y Hi Hx Hy.
  apply lookup_zip_with_Some in Hx as (? & z & -> & (p & q & -> & Hp & Hq)%lookup_zip_with_Some & Hz).
  apply lookup_zip_with_Some in Hy as (? & z' & -> & (p' & q' & -> & Hp' & Hq')%lookup_zip_with_Some & Hz').
  simplify_eq. rewrite !Z.lxor_assoc. f_equal. apply Z.lxor_comm.
Qed.

Lemma xor32_cancel a b : length a = 32%nat -> length b = 32%nat -> xor32 (xor32 a b) b = a.
Proof.
  intros Ha Hb. apply list_eq_same_length with 32%nat; rewrite ?xor32_length; try done; try by apply xor32_length.
  unfold xor32. intros i x y Hi Hx Hy.
  apply lookup_zip_with_Some in Hx as (? & z & -> & (p & q & -> & Hp & Hq)%lookup_zip_with_Some & Hz).
  simplify_eq. by rewrite Z.lxor_assoc, Z.lxor_nilpotent, Z.lxor_0_r.
Qed.

Lemma hash_utxo_length u : length (hash_utxo u) = 32%nat.
Proof. apply sha256_ok. Qed.

(** The accumulator of a list of outputs, from a given one *)
Definition xor_all (acc : bytes) (us : list utxo) : bytes := foldl (fun a u => xor32 a (hash_utxo u)) acc us.

Lemma xor_all_length acc us : length acc = 32%nat -> length (xor_all acc us) = 32%nat.
Proof. revert acc. induction us as [|u us IH]; intros acc Ha; [done|]. apply IH, xor32_length; [done|apply hash_utxo_length]. Qed.

Lemma xor_all_cons acc u us : length acc = 32%nat -> xor_all acc (u :: us) = xor32 (xor_all acc us) (hash_utxo u).
Proof.
  revert acc. induction us as [|u' us IH]; intros acc Ha; [done|]. cbn [xor_all foldl] in *.
  fold (xor_all (xor32 (xor32 acc (hash_utxo u)) (hash_utxo u')) us). fold (xor_all (xor32 acc (hash_utxo u')) us).
  rewrite xor32_swap by (done || apply hash_utxo_length). apply IH. apply xor32_length; [done|apply hash_utxo_length].
Qed.

Lemma xor_all_perm acc us us' : length acc = 32%nat -> us ≡ₚ us' -> xor_all acc us = xor_all acc us'.
Proof.
  intros Ha Hp. revert acc Ha. induction Hp as [|u l l' _ IH|u v l|l l' l'' _ IH1 _ IH2]; intros acc Ha; [done| | |].
  - cbn. apply IH, xor32_length; [done|apply hash_utxo_length].
  - cbn. by rewrite xor32_swap by (done || apply hash_utxo_length).
  - by rewrite IH1, IH2.
Qed.

Lemma commitment_of_eq us : commitment_of us = {| accumulator := xor_all (replicate 32 0) us; uc_count := u64 (zlen us) |}.
Proof.
  unfold commitment_of, utxo_commitment_compute_db.
  assert (forall acc n, foldl (fun uc u => {| accumulator := xor32 (accumulator uc) (hash_utxo u); uc_count := u64 (uc_count uc + 1) |})
    {| accumulator := acc; uc_count := u64 n |} us = {| accumulator := xor_all acc us; uc_count := u64 (n + zlen us) |}) as Hf.
  { clear. induction us as [|u us IH]; intros acc n; cbn [foldl].
    - change (zlen []) with 0. by rewrite Z.add_0_r.
    - rewrite zlen_cons. replace (n + (zlen us + 1)) with ((n + 1) + zlen us) by lia.
      change (xor_all acc (u :: us)) with (xor_all (xor32 acc (hash_utxo u)) us). rewrite <- IH.
      cbn [accumulator uc_count]. unfold uwrap. by rewrite Zplus_mod_idemp_l. }
  apply (Hf (replicate 32 0) 0).
Qed.

Lemma tracks_commitment ops us : tracks ops us -> zlen ops < 2 ^ 64 ->
  foldl commitment_step utxo_commitment_init ops =
    {| accumulator := xor_all (replicate 32 0) us; uc_count := zlen us |} /\ zlen us <= zlen ops.
Proof.
  induction 1 as [|ops us u _ IH|ops us us' u _ IH Hp]; intros Hl; [done|..];
    rewrite zlen_app in Hl; unfold zlen in Hl at 2; cbn in Hl; destruct (IH ltac:(lia)) as [Hf Hle];
    rewrite foldl_app, Hf; cbn [foldl commitment_step utxo_commitment_add utxo_commitment_remove accumulator uc_count];
    rewrite zlen_app; change (zlen [_]) with 1.
  - rewrite zlen_cons. split; [|lia]. f_equal; [by rewrite xor_all_cons|]. apply uwrap_small. unfold is_u. unfold zlen in *. lia.
  - assert (zlen us = zlen us' + 1) as Hn by (unfold zlen; rewrite Hp; cbn; lia). rewrite Hn in *.
    split; [|lia]. rewrite (proj2 (Z.gtb_lt _ _)) by (unfold zlen; lia). f_equal; [|lia].
    rewrite (xor_all_perm (replicate 32 0) us (u :: us')), xor_all_cons by done.
    apply xor32_cancel; [by apply xor_all_length|apply hash_utxo_length].
Qed.

Lemma path_independent_eq ops us rows : tracks ops us -> zlen ops < 2 ^ 64 -> rows ≡ₚ us ->
  foldl commitment_step utxo_commitment_init ops = utxo_commitment_compute_db rows.
Proof.
  intros Ht Hl Hp. destruct (tracks_commitment ops us Ht Hl) as [-> Hle].
  change (utxo_commitment_compute_db rows) with (commitment_of rows). rewrite commitment_of_eq. f_equal.
  - by apply xor_all_perm.
  - assert (zlen rows = zlen us) as -> by (unfold zlen; by rewrite Hp). symmetry. apply uwrap_small. unfold is_u, zlen in *. lia.
Qed.
End Lemmas.

(** ** Records *)

Lemma record_bytes r : mjoin (utxo_commitment_sha3_write_record r) =
  u_txid (row_utxo r) ++ le_encode 4 (u_vout (row_utxo r)) ++ le_encode 8 (u64 (u_value (row_utxo r))) ++
  le_encode 4 (zlen (row_script r)) ++ row_script r ++ le_encode 4 (u_height (row_utxo r)) ++
  [if row_coinbase r then 1 else 0].
Proof.
  unfold utxo_commitment_sha3_write_record, utxo_sha3_serialize_record. case_if; cbn [mjoin list_join app].
  - destruct (Z.gtb_spec (zlen (row_script r)) 0) as [|Hz]; cbn [app mjoin list_join]; rewrite ?app_nil_r; [done|].
    destruct (row_script r); [done|]. unfold zlen in Hz. cbn in Hz. lia.
  - by rewrite app_nil_r.
Qed.

Lemma le_encode_u_inj n x y : is_u (8 * Z.of_nat n) x -> is_u (8 * Z.of_nat n) y -> le_encode n x = le_encode n y -> x = y.
Proof.
  intros Hx Hy E. apply (f_equal le_decode) in E. rewrite !le_decode_encode in E.
  change 256 with (2 ^ 8) in E. rewrite <- Z.pow_mul_r in E by lia. unfold is_u in *. by rewrite !Z.mod_small in E.
Qed.

Lemma le_encode_s64_inj x y : is_s 64 x -> is_s 64 y -> le_encode 8 (u64 x) = le_encode 8 (u64 y) -> x = y.
Proof.
  intros Hx Hy E. apply le_encode_u_inj in E; [|by apply uwrap_range..]. apply (f_equal (swrap 64)) in E.
  rewrite !swrap_uwrap in E. by rewrite !swrap_small in E.
Qed.

Lemma record_inj r r' s s' : row_ok r -> row_ok r' ->
  mjoin (utxo_commitment_sha3_write_record r) ++ s = mjoin (utxo_commitment_sha3_write_record r') ++ s' -> r = r' /\ s = s'.
Proof.
  destruct r as [[t n v h] sc cb], r' as [[t' n' v' h'] sc' cb'].
  intros [((Ht & _) & Hn & Hv & Hh) [_ Hl]] [((Ht' & _) & Hn' & Hv' & Hh') [_ Hl']]. rewrite !record_bytes.
  cbn [row_utxo row_script row_coinbase u_txid u_vout u_value u_height] in *.
  rewrite <- !app_assoc. intros E.
  apply app_inj_1 in E as [-> E]; [|lia].
  apply app_inj_1 in E as [En E]; [|by rewrite !le_encode_length]. apply le_encode_u_inj in En as ->; [|done..].
  apply app_inj_1 in E as [Ev E]; [|by rewrite !le_encode_length]. apply le_encode_s64_inj in Ev as ->; [|done..].
  apply app_inj_1 in E as [El E]; [|by rewrite !le_encode_length].
  apply le_encode_u_inj in El; [|unfold is_u; change (2 ^ (8 * Z.of_nat 4)) with (2 ^ 32); unfold zlen in *; lia..].
  apply app_inj_1 in E as [-> E]; [|unfold zlen in El; lia].
  apply app_inj_1 in E as [Eh E]; [|by rewrite !le_encode_length]. apply le_encode_u_inj in Eh as ->; [|done..].
  cbn in E. injection E as Ec ->. by destruct cb, cb'.
Qed.

(** ** Properties *)

Section Theorems.
Context `{HashFunctionsOk}.

(** C23: The incremental commitment depends on the set only.  After any sequence of updates that
    turns the empty set into a set, removing members only, the commitment is the one computed
    from the rows of that set in any order: its accumulator is the XOR of the hashes and its
    count the number of outputs. *)
Theorem commitment_path_independent ops us rows : tracks ops us -> zlen ops < 2 ^ 64 -> rows ≡ₚ us ->
  foldl commitment_step utxo_commitment_init ops = utxo_commitment_compute_db rows.
Proof. apply path_independent_eq. Qed.

(** Merging a child cache that spent one output of its parent and added nothing leaves the
    parent's count, while the accumulator has lost the output: the count of a child stops at zero. *)
Theorem merge_miscounts parent u : is_u 64 (uc_count parent) ->
  utxo_commitment_merge parent (utxo_commitment_remove false utxo_commitment_init u) =
    {| accumulator := xor32 (accumulator parent) (xor32 (replicate 32 0) (hash_utxo u)); uc_count := uc_count parent |}.
Proof. intros Hc. unfold utxo_commitment_merge. cbn. rewrite Z.add_0_r. by rewrite uwrap_small. Qed.

(** The stored form of a commitment is read back. *)
Theorem commitment_roundtrip uc junk : length (accumulator uc) = 32%nat -> is_u 64 (uc_count uc) ->
  utxo_commitment_deserialize (utxo_commitment_serialize uc ++ junk) = Some uc.
Proof.
  intros Ha Hc. unfold utxo_commitment_deserialize, utxo_commitment_serialize.
  rewrite !zlen_app, zlen_le_encode. replace (zlen (accumulator uc)) with 32 by (unfold zlen; lia).
  replace (32 + Z.of_nat 8 + zlen junk <? 40) with false by (unfold zlen; lia).
  rewrite <- app_assoc, take_app_length', drop_app_length' by done.
  rewrite take_app_length' by (symmetry; apply le_encode_length). rewrite le_decode_encode, Z.mod_small by done. by destruct uc.
Qed.
End Theorems.

(** The byte stream hashed for the SHA3 commitment determines the table: two lists of rows
    with the same stream are the same list, whichever rows were written from the stack buffer and
    whichever field by field. *)
Theorem sha3_records_injective rows rows' : Forall row_ok rows -> Forall row_ok rows' ->
  utxo_commitment_sha3_stream rows = utxo_commitment_sha3_stream rows' -> rows = rows'.
Proof.
  unfold utxo_commitment_sha3_stream. intros Hr. revert rows'. induction Hr as [|r rows Hok _ IH]; intros rows' Hr'.
  - destruct Hr' as [|r' rows' _ _]; [done|]. cbn [map mjoin list_join]. rewrite join_app, record_bytes.
    intros E. apply (f_equal length) in E. rewrite !length_app, !le_encode_length in E. cbn in E. lia.
  - destruct Hr' as [|r' rows' Hok' Hr']; cbn [map mjoin list_join]; rewrite ?join_app.
    + rewrite record_bytes. intros E. apply (f_equal length) in E. rewrite !length_app, !le_encode_length in E. cbn in E. lia.
    + intros E. apply record_inj in E as [-> E]; [|done..]. f_equal. by apply IH.
Qed.

Definition sample_utxo (n : Z) : utxo := {| u_txid := replicate 32 7; u_vout := n; u_value := 5000; u_height := 3 |}.

Lemma commitment_path_independent_witness :
  @tracks [CommitAdd (sample_utxo 0); CommitAdd (sample_utxo 1); CommitRemove (sample_utxo 0)] [sample_utxo 1] /\
  foldl (@commitment_step checksum_hashes) utxo_commitment_init
    [CommitAdd (sample_utxo 0); CommitAdd (sample_utxo 1); CommitRemove (sample_utxo 0)] =
  @utxo_commitment_compute_db checksum_hashes [sample_utxo 1].
Proof.
  assert (tracks [CommitAdd (sample_utxo 0); CommitAdd (sample_utxo 1); CommitRemove (sample_utxo 0)] [sample_utxo 1]) as Ht.
  { apply (tracks_remove [CommitAdd (sample_utxo 0); CommitAdd (sample_utxo 1)] [sample_utxo 1; sample_utxo 0]).
    - apply (tracks_add [CommitAdd (sample_utxo 0)] [sample_utxo 0]). apply (tracks_add [] []), tracks_nil.
    - apply Permutation_swap. }
  split; [done|]. by apply (@commitment_path_independent _ checksum_hashes_ok _ _ _ Ht).
Defined.

Lemma sha3_records_injective_witness :
  let r := {| row_utxo := sample_utxo 0; row_script := [0x51]; row_coinbase := true |} in
  utxo_commitment_sha3_stream [r] = utxo_commitment_sha3_stream [r] /\ [r] = [r].
Proof.
  intros r. split; [done|]. apply sha3_records_injective; [..|done]; apply Forall_singleton; compute_decide.
Defined.
