(* ===== verification/CoinsView.v ===== *)
(** * The coins cache

    Models lib/coins/src/coins_view.c and coins.c: a cache of coin records over a backing view,
    which is a database or another cache.  The entries live in the hash table of file CoinsMap; a
    pointer to an entry is the number of its bucket.  The operations run in a state monad whose
    [None] is the undefined behaviour of the table.  A backing view is what its two read hooks
    answer; that reading through a cache changes what it holds but not what it answers is proved
    here ([coins_cache_transparent]).  The counter [cached_coins_usage] is never written after
    the initialisation and is left out. *)

From stdpp Require Import gmap fin_maps functions.
From S2P Require Import Prelude Hash Serialize Script Transaction CoinsMath Probing CoinsMap UtxoCommitment.

(** ** Coin records: coins.c *)

Definition SIZEOF_TX_OUT : Z := 10016.

Definition coins_free (c : coins) : coins := with_vout c [].

Definition coins_is_pruned : coins -> bool := coins_math_is_pruned.

Definition MAX_COIN_OUTPUTS : Z := 65536.

Section Records.
Context `{Allocator}.

(** The destination is overwritten; without memory it has no outputs. *)
Definition coins_copy (src : coins) : coins :=
  if (zlen (coins_vout src) >? 0) && negb (alloc_succeeds (zlen (coins_vout src) * SIZEOF_TX_OUT))
  then with_vout src [] else src.

Definition coins_alloc (c : coins) (num_outputs : Z) : bool * coins :=
  if negb (num_outputs =? 0) && negb (alloc_succeeds (num_outputs * SIZEOF_TX_OUT)) then (false, with_vout c [])
  else (true, with_vout c (replicate (Z.to_nat num_outputs) tx_out_set_null)).

Definition coins_from_transaction (tx : transaction) (height : Z) : bool * coins :=
  let c := {| is_coinbase := transaction_is_coinbase tx; coins_vout := []; coins_height := height;
              coins_version := version tx |} in
  if zlen (vout tx) >? MAX_COIN_OUTPUTS then (false, c)
  else
    let '(ok, c) := coins_alloc c (zlen (vout tx)) in
    if negb ok then (false, c)
    else (true, coins_math_cleanup
                  (with_vout c (map (fun o => if script_is_unspendable (script_pub_key o) then tx_out_set_null else o)
                                  (vout tx)))).
End Records.

(** ** The cache: coins_view.c *)

(** A backing view: a missing hook is one that answers nothing. *)
Record coins_view := CoinsView {
  cv_get_coins : uint256_t -> option coins;
  cv_get_best_block : option uint256_t;
}.

Record coins_view_cache := CoinsViewCache {
  cvc_base : coins_view;
  cache_coins : coins_map;
  cvc_hash_block : uint256_t;
  cvc_commitment : utxo_commitment;
}.

Definition with_map (c : coins_view_cache) (m : coins_map) : coins_view_cache :=
  {| cvc_base := cvc_base c; cache_coins := m; cvc_hash_block := cvc_hash_block c; cvc_commitment := cvc_commitment c |}.

Definition with_best (c : coins_view_cache) (h : uint256_t) : coins_view_cache :=
  {| cvc_base := cvc_base c; cache_coins := cache_coins c; cvc_hash_block := h; cvc_commitment := cvc_commitment c |}.

Definition with_commitment (c : coins_view_cache) (uc : utxo_commitment) : coins_view_cache :=
  {| cvc_base := cvc_base c; cache_coins := cache_coins c; cvc_hash_block := cvc_hash_block c; cvc_commitment := uc |}.

(** A computation on a cache; [None] is undefined behaviour. *)
Definition view_m (A : Type) : Type := coins_view_cache -> option (A * coins_view_cache).

#[export] Instance view_ret : MRet view_m := fun A a c => Some (a, c).

#[export] Instance view_bind : MBind view_m := fun A B f m c =>
  match m c with
  | Some (a, c') => f a c'
  | None => None
  end.

Definition update_cache (f : coins_view_cache -> coins_view_cache) : view_m unit := fun c => Some (tt, f c).

Definition find_entry (txid : uint256_t) : view_m (option nat) := fun c => Some (coins_map_find (cache_coins c) txid, c).

Definition insert_entry `{Allocator} (txid : uint256_t) : view_m (option nat) := fun c =>
  match coins_map_insert (cache_coins c) txid with
  | Some (slot, m) => Some (slot, with_map c m)
  | None => None
  end.

Definition read_entry (slot : nat) : view_m coins_cache_entry := fun c => Some (entry_at (cache_coins c) slot, c).

Definition store_entry (slot : nat) (e : coins_cache_entry) : view_m unit :=
  update_cache (fun c => with_map c (write_entry (cache_coins c) slot e)).

Definition backing_coins (txid : uint256_t) : view_m (option coins) := fun c => Some (cv_get_coins (cvc_base c) txid, c).

Definition set_coins (slot : nat) (r : coins) : view_m unit :=
  e ← read_entry slot; store_entry slot {| ce_coins := r; ce_flags := ce_flags e |}.

Definition set_flags (slot : nat) (flags : Z) : view_m unit :=
  e ← read_entry slot; store_entry slot {| ce_coins := ce_coins e; ce_flags := ce_flags e .| flags |}.

Section Cache.
Context `{Allocator}.

Definition coins_view_cache_init (backing : coins_view) : coins_view_cache :=
  {| cvc_base := backing; cache_coins := coins_map_init; cvc_hash_block := uint256_null;
     cvc_commitment := utxo_commitment_init |}.

Definition coins_view_cache_get_coins (txid : uint256_t) : view_m (option coins) :=
  entry ← find_entry txid;
  match entry with
  | Some slot => e ← read_entry slot;
                 mret (if coins_is_pruned (ce_coins e) then None else Some (coins_copy (ce_coins e)))
  | None =>
      fetched ← backing_coins txid;
      match fetched with
      | None => mret None
      | Some r =>
          new_entry ← insert_entry txid;
          match new_entry with
          | None => mret None
          | Some slot => set_coins slot r;; mret (if coins_is_pruned r then None else Some (coins_copy r))
          end
      end
  end.

Definition coins_view_cache_have_coins (txid : uint256_t) : view_m bool :=
  entry ← find_entry txid;
  match entry with
  | Some slot => e ← read_entry slot; mret (negb (coins_is_pruned (ce_coins e)))
  | None => r ← backing_coins txid; mret (bool_decide (is_Some r))
  end.

Definition coins_view_cache_get_best_block : view_m uint256_t := fun c =>
  let c := if uint256_is_null (cvc_hash_block c)
           then match cv_get_best_block (cvc_base c) with Some h => with_best c h | None => c end else c in
  Some (cvc_hash_block c, c).

Definition coins_view_cache_set_best_block (hash : uint256_t) : view_m unit := update_cache (fun c => with_best c hash).

Definition coins_view_cache_modify (txid : uint256_t) : view_m (option nat) :=
  entry ← find_entry txid;
  match entry with
  | Some slot => set_flags slot COINS_CACHE_DIRTY;; mret (Some slot)
  | None =>
      new_entry ← insert_entry txid;
      match new_entry with
      | None => mret None
      | Some slot =>
          fetched ← backing_coins txid;
          match fetched with Some r => set_coins slot r | None => mret tt end;;
          set_flags slot COINS_CACHE_DIRTY;; mret (Some slot)
      end
  end.

Definition coins_view_cache_modify_new (txid : uint256_t) : view_m (option nat) :=
  entry ← insert_entry txid;
  match entry with
  | None => mret None
  | Some slot => set_flags slot (COINS_CACHE_DIRTY .| COINS_CACHE_FRESH);; mret (Some slot)
  end.

Definition coins_view_cache_clear : view_m unit :=
  update_cache (fun c => with_commitment (with_map c coins_map_init) utxo_commitment_init).

Definition coins_view_cache_get_output_for (i : tx_in) : view_m (option tx_out) :=
  let txid := op_hash (prevout i) in
  let n := op_n (prevout i) in
  entry ← find_entry txid;
  entry ← match entry with
          | Some slot => mret (Some slot)
          | None =>
              fetched ← backing_coins txid;
              match fetched with
              | None => mret None
              | Some r =>
                  new_entry ← insert_entry txid;
                  match new_entry with
                  | None => mret None
                  | Some slot => store_entry slot {| ce_coins := r; ce_flags := 0 |};; mret (Some slot)
                  end
              end
          end;
  match entry with
  | None => mret None
  | Some slot =>
      e ← read_entry slot;
      mret (match coins_vout (ce_coins e) !! Z.to_nat n with
            | None => None
            | Some o => if tx_out_is_null o then None else Some o
            end)
  end.

Fixpoint have_all (ins : list tx_in) : view_m bool :=
  match ins with
  | [] => mret true
  | i :: rest => out ← coins_view_cache_get_output_for i;
                 match out with None => mret false | Some _ => have_all rest end
  end.

Definition coins_view_cache_have_inputs (tx : transaction) : view_m bool :=
  if transaction_is_coinbase tx then mret true else have_all (vin tx).

(** The sum of the spent outputs; [None]: the function returns -1 *)
Fixpoint sum_inputs (acc : Z) (ins : list tx_in) : view_m (option Z) :=
  match ins with
  | [] => mret (Some acc)
  | i :: rest =>
      out ← coins_view_cache_get_output_for i;
      match out with
      | None => mret None
      | Some o =>
          if negb (MoneyRange (value o)) then mret None
          else
            let acc := i64 (acc + value o) in
            if negb (MoneyRange acc) then mret None else sum_inputs acc rest
      end
  end.

Fixpoint add_vpub_new (acc : Z) (l : list js_description) : option Z :=
  match l with
  | [] => Some acc
  | js :: rest => let acc := i64 (acc + vpub_new js) in
                  if negb (MoneyRange acc) then None else add_vpub_new acc rest
  end.

Definition coins_view_cache_get_value_in (tx : transaction) : view_m Z :=
  if transaction_is_coinbase tx then mret 0
  else
    sum ← sum_inputs 0 (vin tx);
    mret (default (-1)
      (acc ← sum;
       acc ← (if value_balance tx >=? 0
              then let acc := i64 (acc + value_balance tx) in if negb (MoneyRange acc) then None else Some acc
              else Some acc);
       add_vpub_new acc (v_joinsplit tx))).

Definition coins_view_cache_have_joinsplit_requirements (tx : transaction) : view_m bool := mret true.

(** ** Stacked caches *)

(** The hooks of a cache as a backing view: what they answer *)
Definition coins_view_cache_as_view (cache : coins_view_cache) : coins_view := {|
  cv_get_coins := fun txid => match coins_view_cache_get_coins txid cache with Some (r, _) => r | None => None end;
  cv_get_best_block := match coins_view_cache_get_best_block cache with Some (h, _) => Some h | None => None end;
|}.

(** The loop over the buckets of the child: dirty records move up.  The result is the flag, the
    parent and the buckets of the child, whose moved records are empty. *)
Fixpoint move_dirty (bs : map_buckets) : view_m (bool * map_buckets) :=
  match bs with
  | [] => mret (true, [])
  | None :: rest => '(ok, rest) ← move_dirty rest; mret (ok, None :: rest)
  | Some (txid, e) :: rest =>
      if negb (ce_flags e .& COINS_CACHE_DIRTY =? 0) then
        dest ← insert_entry txid;
        match dest with
        | None => mret (false, bs)
        | Some slot =>
            set_coins slot (ce_coins e);; set_flags slot COINS_CACHE_DIRTY;;
            '(ok, rest) ← move_dirty rest;
            mret (ok, Some (txid, {| ce_coins := coins_init; ce_flags := ce_flags e |}) :: rest)
        end
      else '(ok, rest) ← move_dirty rest; mret (ok, Some (txid, e) :: rest)
  end.

Definition cvc_batch_write (map_coins : coins_map) (hash_block : uint256_t) : view_m (bool * coins_map) :=
  '(ok, bs) ← move_dirty (cm_buckets map_coins);
  (if ok && negb (uint256_is_null hash_block) then coins_view_cache_set_best_block hash_block else mret tt);;
  mret (ok, {| cm_buckets := bs; cm_size := cm_size map_coins |}).

Context `{HashFunctions}.

(** A flush of [child] into the parent cache the computation runs on: the flag and the child *)
Definition coins_view_cache_flush (child : coins_view_cache) : view_m (bool * coins_view_cache) :=
  '(ok, m) ← cvc_batch_write (cache_coins child) (cvc_hash_block child);
  if ok : bool then
    update_cache (fun parent =>
      with_commitment parent (utxo_commitment_merge (cvc_commitment parent) (cvc_commitment child)));;
    mret (true, with_commitment (with_map child coins_map_init) utxo_commitment_init)
  else mret (false, with_map child m).

(** ** The commitment of the cached set *)

Definition live_outputs (txid : uint256_t) (r : coins) : list utxo :=
  omap (fun '(i, o) => if tx_out_is_null o then None
                       else Some {| u_txid := txid; u_vout := Z.of_nat i; u_value := value o; u_height := coins_height r |})
    (imap pair (coins_vout r)).

Definition coins_view_cache_recompute_commitment (skip : bool) (c : coins_view_cache) : utxo_commitment :=
  foldl (fun uc b =>
           match b with
           | Some (txid, e) => if coins_is_pruned (ce_coins e) then uc
                               else foldl (utxo_commitment_add skip) uc (live_outputs txid (ce_coins e))
           | None => uc
           end) utxo_commitment_init (cm_buckets (cache_coins c)).
End Cache.

(** ** What a cache answers *)

(** The record a modification of [txid] starts from *)
Definition record_of (c : coins_view_cache) (txid : uint256_t) : coins :=
  match coins_contents (cache_coins c) !! txid with
  | Some e => ce_coins e
  | None => default coins_init (cv_get_coins (cvc_base c) txid)
  end.

(** A record without unspent outputs is as good as none. *)
Definition live (r : coins) : option coins := if coins_is_pruned r then None else Some r.

Definition output_of (r : coins) (n : Z) : option tx_out :=
  match coins_vout r !! Z.to_nat n with
  | None => None
  | Some o => if tx_out_is_null o then None else Some o
  end.

(** The outputs that a list of inputs spends, as the records [f] have them *)
Definition spent_outputs (f : uint256_t -> coins) (ins : list tx_in) : option (list tx_out) :=
  mapM (fun i => output_of (f (op_hash (prevout i))) (op_n (prevout i))) ins.

Definition inputs_ok (ins : list tx_in) : Prop := Forall (fun i => fixed 32 (op_hash (prevout i))) ins.

Definition dirty (e : coins_cache_entry) : Prop := ce_flags e .& COINS_CACHE_DIRTY <> 0.

(** The table is well formed, the backing view gives no empty records, and an entry that is not
    marked as changed agrees with the backing view. *)
Record cache_ok (c : coins_view_cache) : Prop := {
  cache_map_ok : coins_map_ok (cache_coins c);
  backing_live : forall t r, cv_get_coins (cvc_base c) t = Some r -> coins_is_pruned r = false;
  cache_coherent : forall t e, coins_contents (cache_coins c) !! t = Some e -> ~ dirty e ->
    live (ce_coins e) = cv_get_coins (cvc_base c) t;
}.

(** The record of [t] is in the table. *)
Definition cached (c : coins_view_cache) (t : uint256_t) : Prop := is_Some (coins_contents (cache_coins c) !! t).

Definition kept (c c' : coins_view_cache) : Prop := forall t, cached c t -> cached c' t.

Definition same_frame (c c' : coins_view_cache) : Prop :=
  cvc_base c' = cvc_base c /\ cvc_hash_block c' = cvc_hash_block c /\ cvc_commitment c' = cvc_commitment c.

(** The records of [c'] are those of [c] but for [t], whose record is [r]. *)
Definition changed (t : uint256_t) (r : coins) (c c' : coins_view_cache) : Prop :=
  cache_ok c' /\ same_frame c c' /\ kept c c' /\ forall t', record_of c' t' = if decide (t = t') then r else record_of c t'.

Definition unchanged (c c' : coins_view_cache) : Prop :=
  cache_ok c' /\ same_frame c c' /\ kept c c' /\ forall t, record_of c' t = record_of c t.

(** Bucket [slot] holds the entry of [t]. *)
Definition holds (c : coins_view_cache) (slot : nat) (t : uint256_t) (e : coins_cache_entry) : Prop :=
  cm_buckets (cache_coins c) !! slot = Some (Some (t, e)).

(** ** Lemmas *)

Section Theory.
Context `{AllocatorTotal}.

Lemma unchanged_refl c : cache_ok c -> unchanged c c.
Proof. intros Hc. split_and!; [done..|by intros t|done]. Qed.

Lemma unchanged_trans c c' c'' : unchanged c c' -> unchanged c' c'' -> unchanged c c''.
Proof.
  intros (_ & (E1 & E2 & E3) & K & E4) (Hc & (E1' & E2' & E3') & K' & E4').
  split_and!; [done|unfold same_frame; split_and!; congruence|intros t Ht; by apply K', K|]. intros t. by rewrite E4'.
Qed.

Lemma coins_copy_total r : coins_copy r = r.
Proof. unfold coins_copy. rewrite alloc_total. cbn. by rewrite andb_false_r. Qed.

Lemma holds_contents c slot t e : coins_map_ok (cache_coins c) -> holds c slot t e ->
  coins_contents (cache_coins c) !! t = Some e.
Proof. intros Hm. by apply contents_slot. Qed.

Lemma holds_entry c slot t e : holds c slot t e -> entry_at (cache_coins c) slot = e.
Proof. unfold holds, entry_at. by intros ->. Qed.

Lemma find_runs c t : coins_map_ok (cache_coins c) -> fixed 32 t ->
  exists entry, find_entry t c = Some (entry, c) /\
    match entry with
    | Some slot => exists e, holds c slot t e
    | None => coins_contents (cache_coins c) !! t = None
    end.
Proof.
  intros Hm Ht. exists (coins_map_find (cache_coins c) t). split; [done|].
  pose proof (find_spec _ t Hm Ht) as Hf. destruct (coins_map_find _ t); [done|by apply contents_absent].
Qed.

(** Storing into the bucket of [t] *)
Lemma store_runs c slot t e0 e : coins_map_ok (cache_coins c) -> holds c slot t e0 ->
  exists c', store_entry slot e c = Some (tt, c') /\ same_frame c c' /\ coins_map_ok (cache_coins c') /\
    holds c' slot t e /\ coins_contents (cache_coins c') = <[t := e]> (coins_contents (cache_coins c)).
Proof.
  intros Hm Hs. destruct (write_entry_spec _ slot t e0 e Hm Hs) as (Hok & Hc & Hs').
  exists (with_map c (write_entry (cache_coins c) slot e)). done.
Qed.

Lemma set_coins_runs c slot t e r : coins_map_ok (cache_coins c) -> holds c slot t e ->
  exists c', set_coins slot r c = Some (tt, c') /\ same_frame c c' /\ coins_map_ok (cache_coins c') /\
    holds c' slot t {| ce_coins := r; ce_flags := ce_flags e |} /\
    coins_contents (cache_coins c') = <[t := {| ce_coins := r; ce_flags := ce_flags e |}]> (coins_contents (cache_coins c)).
Proof.
  intros Hm Hs. unfold set_coins, read_entry, mbind, view_bind. rewrite (holds_entry _ _ _ _ Hs). by eapply store_runs.
Qed.

Lemma set_flags_runs c slot t e fl : coins_map_ok (cache_coins c) -> holds c slot t e ->
  exists c', set_flags slot fl c = Some (tt, c') /\ same_frame c c' /\ coins_map_ok (cache_coins c') /\
    holds c' slot t {| ce_coins := ce_coins e; ce_flags := ce_flags e .| fl |} /\
    coins_contents (cache_coins c') =
      <[t := {| ce_coins := ce_coins e; ce_flags := ce_flags e .| fl |}]> (coins_contents (cache_coins c)).
Proof.
  intros Hm Hs. unfold set_flags, read_entry, mbind, view_bind. rewrite (holds_entry _ _ _ _ Hs). by eapply store_runs.
Qed.

Lemma insert_runs c t : coins_map_ok (cache_coins c) -> fixed 32 t ->
  exists slot c' e, insert_entry t c = Some (Some slot, c') /\ same_frame c c' /\ coins_map_ok (cache_coins c') /\
    holds c' slot t e /\ e = default fresh_entry (coins_contents (cache_coins c) !! t) /\
    coins_contents (cache_coins c') = <[t := e]> (coins_contents (cache_coins c)).
Proof.
  intros Hm Ht. destruct (insert_total _ t Hm Ht) as (slot & m' & e & E & Hok & Hs & Hc).
  exists slot, (with_map c m'), e. unfold insert_entry. rewrite E. split_and!; try done; cbn [cache_coins with_map].
  - pose proof (contents_slot _ _ _ _ Hok Hs) as He. rewrite Hc in He.
    destruct (coins_contents (cache_coins c) !! t) eqn:E'; cbn; [congruence|]. rewrite lookup_insert_eq in He. congruence.
  - pose proof (contents_slot _ _ _ _ Hok Hs) as He. rewrite Hc in He |- *.
    destruct (coins_contents (cache_coins c) !! t) eqn:E'; [|rewrite lookup_insert_eq in He; congruence].
    symmetry. apply insert_id. congruence.
Qed.

Lemma same_frame_trans c c' c'' : same_frame c c' -> same_frame c' c'' -> same_frame c c''.
Proof. intros (? & ? & ?) (? & ? & ?). unfold same_frame. split_and!; congruence. Qed.

(** A cache whose table gained or changed the entry of [t] *)
Lemma cache_changed c c' t e : cache_ok c -> same_frame c c' -> coins_map_ok (cache_coins c') ->
  coins_contents (cache_coins c') = <[t := e]> (coins_contents (cache_coins c)) ->
  (dirty e \/ live (ce_coins e) = cv_get_coins (cvc_base c) t) -> changed t (ce_coins e) c c'.
Proof.
  intros [Hm Hb Hco] (Eb & Eh & Ec) Hm' E He. split_and!; [|done|intros t'; unfold cached; rewrite E, lookup_insert; by case_decide|].
  - constructor; [done|by rewrite Eb|]. rewrite Eb, E. intros t' e'. rewrite lookup_insert_Some.
    intros [[<- <-]|[_ He']] Hd; [|by apply Hco]. by destruct He.
  - intros t'. unfold record_of. rewrite E, Eb, lookup_insert. by case_decide.
Qed.

Lemma dirty_lor r fl k : dirty {| ce_coins := r; ce_flags := fl .| (COINS_CACHE_DIRTY .| k) |}.
Proof.
  unfold dirty. cbn [ce_flags]. intros E. apply (f_equal (fun x => Z.testbit x 0)) in E.
  rewrite Z.land_spec, !Z.lor_spec in E. cbn in E. by rewrite orb_true_r in E.
Qed.

Lemma changed_same t c c' : changed t (record_of c t) c c' -> unchanged c c'.
Proof. intros (Hc & Hf & Hk & Hr). split_and!; [done..|]. intros t'. rewrite Hr. case_decide; by subst. Qed.

(** What the searches of the backing view leave behind *)
Lemma fetch_changed c c' t r fl : cache_ok c -> same_frame c c' -> coins_map_ok (cache_coins c') ->
  coins_contents (cache_coins c) !! t = None -> cv_get_coins (cvc_base c) t = Some r ->
  coins_contents (cache_coins c') = <[t := {| ce_coins := r; ce_flags := fl |}]> (coins_contents (cache_coins c)) ->
  unchanged c c'.
Proof.
  intros Hc Hf Hm Hn Hr E. apply (changed_same t). replace (record_of c t) with r by (unfold record_of; by rewrite Hn, Hr).
  apply (cache_changed c c' t {| ce_coins := r; ce_flags := fl |}); try done. right. cbn. unfold live.
  by rewrite (backing_live c Hc t r Hr), Hr.
Qed.

Lemma bind_run {A B} (m : view_m A) (f : A -> view_m B) c a c' : m c = Some (a, c') -> (m ≫= f) c = f a c'.
Proof. unfold mbind, view_bind. by intros ->. Qed.

Lemma get_coins_runs c t : cache_ok c -> fixed 32 t ->
  exists c', coins_view_cache_get_coins t c = Some (live (record_of c t), c') /\ unchanged c c'.
Proof.
  intros Hc Ht. unfold coins_view_cache_get_coins. pose proof (cache_map_ok c Hc) as Hm.
  destruct (find_runs c t Hm Ht) as (entry & E & He). rewrite (bind_run _ _ _ _ _ E). destruct entry as [slot|].
  - destruct He as [e He]. exists c. split; [|by apply unchanged_refl]. unfold record_of, read_entry, mbind, view_bind.
    by rewrite (holds_entry _ _ _ _ He), (holds_contents _ _ _ _ Hm He), coins_copy_total.
  - unfold backing_coins, mbind, view_bind at 1. unfold record_of. rewrite He.
    destruct (cv_get_coins (cvc_base c) t) as [r|] eqn:Er; cbn [default]; [|exists c; split; [done|by apply unchanged_refl]].
    destruct (insert_runs c t Hm Ht) as (slot & c1 & e & E1 & Hf1 & Hm1 & Hs1 & He1 & Hc1). unfold view_bind. rewrite E1.
    destruct (set_coins_runs c1 slot t e r Hm1 Hs1) as (c2 & E2 & Hf2 & Hm2 & _ & Hc2). rewrite E2, coins_copy_total.
    exists c2. split; [done|]. rewrite Hc1, insert_insert_eq in Hc2.
    eapply (fetch_changed c c2 t r); eauto using same_frame_trans.
Qed.

Lemma have_coins_runs c t : cache_ok c -> fixed 32 t ->
  coins_view_cache_have_coins t c = Some (bool_decide (is_Some (live (record_of c t))), c).
Proof.
  intros Hc Ht. unfold coins_view_cache_have_coins. pose proof (cache_map_ok c Hc) as Hm.
  destruct (find_runs c t Hm Ht) as (entry & E & He). rewrite (bind_run _ _ _ _ _ E). unfold record_of. destruct entry as [slot|].
  - destruct He as [e He]. unfold read_entry, mbind, view_bind.
    rewrite (holds_entry _ _ _ _ He), (holds_contents _ _ _ _ Hm He). unfold live. by destruct (coins_is_pruned (ce_coins e)).
  - unfold backing_coins, mbind, view_bind. rewrite He. destruct (cv_get_coins (cvc_base c) t) as [r|] eqn:Er; [|done].
    cbn. unfold live. by rewrite (backing_live c Hc t r Er).
Qed.

(** After [modify] the bucket holds the record of [t], marked as changed. *)
Lemma modify_runs c t : cache_ok c -> fixed 32 t ->
  exists slot c' fl, coins_view_cache_modify t c = Some (Some slot, c') /\ unchanged c c' /\
    holds c' slot t {| ce_coins := record_of c t; ce_flags := fl |} /\ dirty {| ce_coins := record_of c t; ce_flags := fl |}.
Proof.
  intros Hc Ht. unfold coins_view_cache_modify. pose proof (cache_map_ok c Hc) as Hm.
  destruct (find_runs c t Hm Ht) as (entry & E & He). rewrite (bind_run _ _ _ _ _ E). clear E. destruct entry as [slot|].
  - destruct He as [e He]. pose proof (holds_contents _ _ _ _ Hm He) as Hce.
    destruct (set_flags_runs c slot t e COINS_CACHE_DIRTY Hm He) as (c' & E & Hf & Hm' & Hs & Hc').
    rewrite (bind_run _ _ _ _ _ E). replace (record_of c t) with (ce_coins e) by (unfold record_of; by rewrite Hce).
    exists slot, c', (ce_flags e .| COINS_CACHE_DIRTY). pose proof (dirty_lor (ce_coins e) (ce_flags e) 0) as Hd.
    split_and!; [done| |done|done]. apply (changed_same t).
    replace (record_of c t) with (ce_coins e) by (unfold record_of; by rewrite Hce).
    apply (cache_changed c c' t _ Hc Hf Hm' Hc'). by left.
  - destruct (insert_runs c t Hm Ht) as (slot & c1 & e & E1 & Hf1 & Hm1 & Hs1 & He1 & Hc1).
    rewrite (bind_run _ _ _ _ _ E1).
    assert (exists c2, match cv_get_coins (cvc_base c1) t with Some r => set_coins slot r | None => mret tt end c1 =
        Some (tt, c2) /\ same_frame c1 c2 /\ coins_map_ok (cache_coins c2) /\
        holds c2 slot t {| ce_coins := record_of c t; ce_flags := 0 |} /\
        coins_contents (cache_coins c2) = <[t := {| ce_coins := record_of c t; ce_flags := 0 |}]> (coins_contents (cache_coins c)))
      as (c2 & E2 & Hf2 & Hm2 & Hs2 & Hc2).
    { rewrite He in He1. cbn in He1. subst e. destruct Hf1 as (-> & _). unfold record_of. rewrite He.
      destruct (cv_get_coins (cvc_base c) t) as [r|]; cbn [default].
      - destruct (set_coins_runs c1 slot t fresh_entry r Hm1 Hs1) as (c2 & E2 & Hf2 & Hm2 & Hs2 & Hc2).
        exists c2. rewrite Hc1, insert_insert_eq in Hc2. done.
      - exists c1. done. }
    rewrite (bind_run (backing_coins t) _ c1 _ c1 eq_refl), (bind_run _ _ _ _ _ E2).
    destruct (set_flags_runs c2 slot t _ COINS_CACHE_DIRTY Hm2 Hs2) as (c3 & E3 & Hf3 & Hm3 & Hs3 & Hc3).
    rewrite (bind_run _ _ _ _ _ E3). cbn [ce_coins ce_flags] in *. rewrite Hc2, insert_insert_eq in Hc3.
    exists slot, c3, (0 .| COINS_CACHE_DIRTY). split_and!; [done| |done|done]. apply (changed_same t).
    apply (cache_changed c c3 t {| ce_coins := record_of c t; ce_flags := 0 .| COINS_CACHE_DIRTY |} Hc);
      [eauto using same_frame_trans|done|done|by left].
Qed.

Lemma modify_new_runs c t : cache_ok c -> fixed 32 t ->
  exists slot c' e, coins_view_cache_modify_new t c = Some (Some slot, c') /\ changed t (ce_coins e) c c' /\
    holds c' slot t e /\ dirty e.
Proof.
  intros Hc Ht. unfold coins_view_cache_modify_new. pose proof (cache_map_ok c Hc) as Hm.
  destruct (insert_runs c t Hm Ht) as (slot & c1 & e & E1 & Hf1 & Hm1 & Hs1 & He1 & Hc1). rewrite (bind_run _ _ _ _ _ E1).
  destruct (set_flags_runs c1 slot t e (COINS_CACHE_DIRTY .| COINS_CACHE_FRESH) Hm1 Hs1) as (c2 & E2 & Hf2 & Hm2 & Hs2 & Hc2).
  rewrite (bind_run _ _ _ _ _ E2). rewrite Hc1, insert_insert_eq in Hc2.
  pose proof (dirty_lor (ce_coins e) (ce_flags e) COINS_CACHE_FRESH) as Hd.
  eexists slot, c2, _. split_and!; [done| |exact Hs2|done].
  apply (cache_changed c c2 t _ Hc); [eauto using same_frame_trans|done|done|by left].
Qed.

(** Writing a record through the pointer to an entry that is marked as changed *)
Lemma set_coins_changed c slot t e r : cache_ok c -> holds c slot t e -> dirty e ->
  exists c', set_coins slot r c = Some (tt, c') /\ changed t r c c' /\
    holds c' slot t {| ce_coins := r; ce_flags := ce_flags e |}.
Proof.
  intros Hc Hs Hd. destruct (set_coins_runs c slot t e r (cache_map_ok c Hc) Hs) as (c' & E & Hf & Hm & Hs' & Hc').
  exists c'. split_and!; [done| |done]. apply (cache_changed c c' t _ Hc Hf Hm Hc'). by left.
Qed.

Lemma get_output_runs c i : cache_ok c -> fixed 32 (op_hash (prevout i)) ->
  exists c', coins_view_cache_get_output_for i c =
    Some (output_of (record_of c (op_hash (prevout i))) (op_n (prevout i)), c') /\ unchanged c c'.
Proof.
  intros Hc Ht. unfold coins_view_cache_get_output_for. cbv zeta. pose proof (cache_map_ok c Hc) as Hm.
  set (t := op_hash (prevout i)) in *. destruct (find_runs c t Hm Ht) as (entry & E & He).
  rewrite (bind_run _ _ _ _ _ E). clear E. destruct entry as [slot|].
  - destruct He as [e He]. exists c. split; [|by apply unchanged_refl]. unfold record_of.
    rewrite (holds_contents _ _ _ _ Hm He). unfold read_entry, mbind, view_bind, mret, view_ret.
    by rewrite (holds_entry _ _ _ _ He).
  - unfold backing_coins, mbind, view_bind, mret, view_ret. unfold record_of. rewrite He.
    destruct (cv_get_coins (cvc_base c) t) as [r|] eqn:Er; cbn [default].
    2: { exists c. split; [done|by apply unchanged_refl]. }
    destruct (insert_runs c t Hm Ht) as (slot & c1 & e & E1 & Hf1 & Hm1 & Hs1 & He1 & Hc1). rewrite E1.
    destruct (store_runs c1 slot t e {| ce_coins := r; ce_flags := 0 |} Hm1 Hs1) as (c2 & E2 & Hf2 & Hm2 & Hs2 & Hc2).
    rewrite E2. unfold read_entry. rewrite (holds_entry _ _ _ _ Hs2). cbn [ce_coins]. exists c2. split; [done|].
    rewrite Hc1, insert_insert_eq in Hc2. eapply (fetch_changed c c2 t r); eauto using same_frame_trans.
Qed.

Lemma get_output_cached c i o c' : cache_ok c -> fixed 32 (op_hash (prevout i)) ->
  coins_view_cache_get_output_for i c = Some (Some o, c') -> cached c' (op_hash (prevout i)).
Proof.
  intros Hc Ht. unfold coins_view_cache_get_output_for. cbv zeta. pose proof (cache_map_ok c Hc) as Hm.
  set (t := op_hash (prevout i)) in *. destruct (find_runs c t Hm Ht) as (entry & E & He).
  rewrite (bind_run _ _ _ _ _ E). clear E. unfold backing_coins, mbind, view_bind, mret, view_ret, read_entry. destruct entry as [slot|].
  - intros [= _ <-]. destruct He as [e He]. exists e. by apply (holds_contents _ _ _ _ Hm He).
  - destruct (cv_get_coins (cvc_base c) t) as [r|] eqn:Er; [|done].
    destruct (insert_runs c t Hm Ht) as (slot & c1 & e & E1 & Hf1 & Hm1 & Hs1 & He1 & Hc1). rewrite E1.
    destruct (store_runs c1 slot t e {| ce_coins := r; ce_flags := 0 |} Hm1 Hs1) as (c2 & E2 & Hf2 & Hm2 & Hs2 & Hc2).
    rewrite E2. intros [= _ <-]. eexists. by apply (holds_contents _ _ _ _ Hm2 Hs2).
Qed.

Lemma spent_outputs_ext f g ins : (forall t, f t = g t) -> spent_outputs f ins = spent_outputs g ins.
Proof. intros E. apply mapM_ext. intros i. by rewrite E. Qed.

Lemma have_all_runs ins c : cache_ok c -> inputs_ok ins ->
  exists c', have_all ins c = Some (bool_decide (is_Some (spent_outputs (record_of c) ins)), c') /\ unchanged c c'.
Proof.
  revert c. induction ins as [|i ins IH]; intros c Hc Hi; cbn [have_all]; [exists c; split; [done|by apply unchanged_refl]|].
  apply Forall_cons in Hi as [Hi Hins]. destruct (get_output_runs c i Hc Hi) as (c1 & E1 & Hu1). rewrite (bind_run _ _ _ _ _ E1).
  unfold spent_outputs. cbn [mapM]. destruct (output_of _ _) as [o|]; cbn [mbind option_bind]; [|by exists c1].
  pose proof Hu1 as (Hc1 & _ & _ & Er1). destruct (IH c1 Hc1 Hins) as (c2 & E2 & Hu2). rewrite E2.
  exists c2. split; [|by eapply unchanged_trans]. rewrite (spent_outputs_ext _ (record_of c)) by done.
  unfold spent_outputs. by destruct (mapM _ ins).
Qed.

Lemma sum_inputs_runs ins acc c : cache_ok c -> inputs_ok ins ->
  exists c', sum_inputs acc ins c =
    Some (outs ← spent_outputs (record_of c) ins; sum_amounts acc (map value outs), c') /\ unchanged c c'.
Proof.
  revert acc c. induction ins as [|i ins IH]; intros acc c Hc Hi; cbn [sum_inputs]; [exists c; split; [done|by apply unchanged_refl]|].
  apply Forall_cons in Hi as [Hi Hins]. destruct (get_output_runs c i Hc Hi) as (c1 & E1 & Hu1). rewrite (bind_run _ _ _ _ _ E1).
  unfold spent_outputs. cbn [mapM]. destruct (output_of _ _) as [o|]; cbn [mbind option_bind]; [|by exists c1].
  pose proof Hu1 as (Hc1 & _ & _ & Er1). destruct (IH (i64 (acc + value o)) c1 Hc1 Hins) as (c2 & E2 & Hu2).
  rewrite (spent_outputs_ext _ (record_of c)) in E2 by done. unfold spent_outputs in E2.
  destruct (MoneyRange (value o)) eqn:Eo; cbn [negb].
  2: { exists c1. split; [|done]. f_equal. f_equal. destruct (mapM _ ins); [|done]. cbn. by rewrite Eo. }
  destruct (MoneyRange (i64 (acc + value o))) eqn:Ea; cbn [negb].
  2: { exists c1. split; [|done]. f_equal. f_equal. destruct (mapM _ ins); [|done]. cbn. by rewrite Eo, Ea. }
  exists c2. rewrite E2. split; [|by eapply unchanged_trans]. f_equal. f_equal. destruct (mapM _ ins); [|done].
  cbn. by rewrite Eo, Ea.
Qed.

Lemma add_vpub_new_sum l acc : Forall (fun js => MoneyRange (vpub_new js) = true) l ->
  add_vpub_new acc l = sum_amounts acc (map vpub_new l).
Proof.
  intros Hl. revert acc. induction Hl as [|js l Hjs _ IH]; intros acc; [done|]. cbn. rewrite Hjs. cbn. case_if; [done|apply IH].
Qed.

(** The value that enters a transaction, when its shielded amounts are in the money range *)
Definition amounts_entering (outs : list tx_out) (tx : transaction) : list Z := map value outs ++ amounts_in tx.

Lemma value_in_runs tx c : cache_ok c -> inputs_ok (vin tx) -> transaction_is_coinbase tx = false ->
  (value_balance tx >= 0 -> MoneyRange (value_balance tx) = true) ->
  Forall (fun js => MoneyRange (vpub_new js) = true) (v_joinsplit tx) ->
  exists c', coins_view_cache_get_value_in tx c =
    Some (match spent_outputs (record_of c) (vin tx) with
          | Some outs => checked_sum (amounts_entering outs tx)
          | None => -1
          end, c') /\ unchanged c c'.
Proof.
  intros Hc Hi Hcb Hvb Hjs. unfold coins_view_cache_get_value_in. rewrite Hcb.
  destruct (sum_inputs_runs (vin tx) 0 c Hc Hi) as (c' & E & Hu). rewrite (bind_run _ _ _ _ _ E).
  exists c'. split; [|done]. unfold mret, view_ret. f_equal. f_equal.
  destruct (spent_outputs (record_of c) (vin tx)) as [outs|]; [|done]. cbn [mbind option_bind].
  rewrite <- checked_sum_amounts. f_equal. unfold amounts_entering, amounts_in. rewrite sum_amounts_app.
  destruct (sum_amounts 0 (map value outs)) as [acc|]; [|done]. cbn [mbind option_bind]. rewrite sum_amounts_app.
  destruct (Z.geb_spec (value_balance tx) 0) as [Hge|Hlt]; cbn [sum_amounts mbind option_bind].
  - rewrite Hvb by lia. cbn [negb orb]. case_if; [done|]. cbn [mbind option_bind]. by apply add_vpub_new_sum.
  - by apply add_vpub_new_sum.
Qed.

Lemma best_block_runs c : cache_ok c -> exists c', coins_view_cache_get_best_block c =
    Some (if uint256_is_null (cvc_hash_block c) then default (cvc_hash_block c) (cv_get_best_block (cvc_base c))
          else cvc_hash_block c, c') /\
  cache_ok c' /\ cvc_base c' = cvc_base c /\ cvc_commitment c' = cvc_commitment c /\ forall t, record_of c' t = record_of c t.
Proof.
  intros Hc. unfold coins_view_cache_get_best_block. eexists. split; [|].
  { f_equal. f_equal. destruct (uint256_is_null _); [|done]. by destruct (cv_get_best_block _). }
  destruct (uint256_is_null _); [|done]. destruct (cv_get_best_block _); [|done]. destruct Hc. by split_and!.
Qed.
End Theory.

(** ** Flushing a cache into the cache below it *)

Section Flush.
Context `{AllocatorTotal}.

Definition is_dirty (e : coins_cache_entry) : bool := negb (ce_flags e .& COINS_CACHE_DIRTY =? 0).

Lemma is_dirty_spec e : is_dirty e = true <-> dirty e.
Proof. unfold is_dirty, dirty. rewrite negb_true_iff, Z.eqb_neq. done. Qed.

(** The record of [t] after the dirty entries [m] were moved over the records [f] *)
Definition moved_over (m : gmap uint256_t coins_cache_entry) (f : uint256_t -> coins) (t : uint256_t) : coins :=
  match m !! t with
  | Some e => if is_dirty e then ce_coins e else f t
  | None => f t
  end.

(** One dirty record moves into the parent. *)
Lemma move_one p t e : cache_ok p -> fixed 32 t -> exists slot p1 p2 p3,
  insert_entry t p = Some (Some slot, p1) /\ set_coins slot (ce_coins e) p1 = Some (tt, p2) /\
  set_flags slot COINS_CACHE_DIRTY p2 = Some (tt, p3) /\ changed t (ce_coins e) p p3.
Proof.
  intros Hp Ht. destruct (insert_runs p t (cache_map_ok p Hp) Ht) as (slot & p1 & e1 & E1 & Hf1 & Hm1 & Hs1 & _ & Hc1).
  destruct (set_coins_runs p1 slot t e1 (ce_coins e) Hm1 Hs1) as (p2 & E2 & Hf2 & Hm2 & Hs2 & Hc2).
  destruct (set_flags_runs p2 slot t _ COINS_CACHE_DIRTY Hm2 Hs2) as (p3 & E3 & Hf3 & Hm3 & Hs3 & Hc3).
  exists slot, p1, p2, p3. split_and!; try done. rewrite Hc2, Hc1, !insert_insert_eq in Hc3. cbn [ce_coins ce_flags] in Hc3.
  eapply (cache_changed p p3 t {| ce_coins := ce_coins e; ce_flags := ce_flags e1 .| COINS_CACHE_DIRTY |} Hp);
    [eauto using same_frame_trans|done|done|left]. apply (dirty_lor _ _ 0).
Qed.

Lemma move_dirty_runs (bs : map_buckets) p : cache_ok p -> Forall (fun x => fixed 32 (fst x)) (entries bs) ->
  NoDup (entries bs).*1 ->
  exists bs' p', move_dirty bs p = Some ((true, bs'), p') /\ cache_ok p' /\ same_frame p p' /\
    forall t, record_of p' t = moved_over (list_to_map (entries bs)) (record_of p) t.
Proof.
  revert p. induction bs as [|[[t e]|] bs IH]; intros p Hp Hfix Hnd; cbn [move_dirty].
  - by exists [], p.
  - change (entries (Some (t, e) :: bs)) with ((t, e) :: entries bs) in *. apply Forall_cons in Hfix as [Ht Hfix].
    cbn in Hnd, Ht. apply NoDup_cons in Hnd as [Hni Hnd]. fold (is_dirty e).
    assert (forall f t', moved_over (list_to_map ((t, e) :: entries bs)) f t' =
      if decide (t = t') then (if is_dirty e then ce_coins e else f t) else moved_over (list_to_map (entries bs)) f t') as Hmo.
    { intros f t'. unfold moved_over. rewrite list_to_map_cons, lookup_insert. case_decide; by subst. }
    destruct (is_dirty e) eqn:Ed.
    + destruct (move_one p t e Hp Ht) as (slot & p1 & p2 & p3 & E1 & E2 & E3 & Hp3 & Hf3 & _ & Hr3).
      rewrite (bind_run _ _ _ _ _ E1), (bind_run _ _ _ _ _ E2), (bind_run _ _ _ _ _ E3).
      destruct (IH p3 Hp3 Hfix Hnd) as (bs' & p' & E & Hp' & Hf' & Hr'). rewrite (bind_run _ _ _ _ _ E).
      eexists _, p'. split_and!; [done|done|eauto using same_frame_trans|]. intros t'. rewrite Hr', Hmo. unfold moved_over.
      rewrite Hr3. case_decide as Hd; [|done]. subst t'. by rewrite (not_elem_of_list_to_map_1 _ t).
    + destruct (IH p Hp Hfix Hnd) as (bs' & p' & E & Hp' & Hf' & Hr'). rewrite (bind_run _ _ _ _ _ E).
      eexists _, p'. split_and!; [done|done|done|]. intros t'. rewrite Hr', Hmo. case_decide as Hd; [|done]. subst t'.
      unfold moved_over. by rewrite (not_elem_of_list_to_map_1 _ t).
  - destruct (IH p Hp Hfix Hnd) as (bs' & p' & E & Hp' & Hf' & Hr'). rewrite (bind_run _ _ _ _ _ E).
    by eexists _, p'.
Qed.

Lemma batch_write_runs m hb p : cache_ok p -> coins_map_ok m ->
  exists m' p', cvc_batch_write m hb p = Some ((true, m'), p') /\ cache_ok p' /\
    cvc_hash_block p' = (if uint256_is_null hb then cvc_hash_block p else hb) /\
    forall t, record_of p' t = moved_over (coins_contents m) (record_of p) t.
Proof.
  intros Hp [Hb _]. destruct (move_dirty_runs (cm_buckets m) p Hp (array_fixed _ _ Hb) (array_nodup _ _ Hb))
    as (bs' & p' & E & Hp' & (Eb & Eh & Ec) & Hr). unfold cvc_batch_write. rewrite (bind_run _ _ _ _ _ E). cbn [andb].
  destruct (uint256_is_null hb) eqn:En; cbn [negb].
  - eexists _, p'. split_and!; [done|done|done|exact Hr].
  - eexists _, (with_best p' hb). split_and!; [done| |done|exact Hr]. destruct Hp'. by constructor.
Qed.

Lemma as_view_get p t : cache_ok p -> fixed 32 t -> cv_get_coins (coins_view_cache_as_view p) t = live (record_of p t).
Proof. intros Hp Ht. cbn. destruct (get_coins_runs p t Hp Ht) as (c' & -> & _). done. Qed.

Lemma live_default r : live (default coins_init (live r)) = live r.
Proof. unfold live. destruct (coins_is_pruned r) eqn:E; [done|]. cbn. by rewrite E. Qed.

Lemma flush_view p child t : cache_ok p -> cache_ok child -> cvc_base child = coins_view_cache_as_view p -> fixed 32 t ->
  live (moved_over (coins_contents (cache_coins child)) (record_of p) t) = live (record_of child t).
Proof.
  intros Hp Hc Hb Ht. pose proof (as_view_get p t Hp Ht) as Hg. rewrite <- Hb in Hg. unfold moved_over. unfold record_of at 3.
  destruct (coins_contents (cache_coins child) !! t) as [e|] eqn:E.
  - destruct (is_dirty e) eqn:Ed; [done|]. rewrite <- Hg. symmetry. apply (cache_coherent child Hc t e E).
    rewrite <- is_dirty_spec. congruence.
  - by rewrite Hg, live_default.
Qed.

Lemma as_view_live p t r : cv_get_coins (coins_view_cache_as_view p) t = Some r -> coins_is_pruned r = false.
Proof.
  cbn. unfold coins_view_cache_get_coins, find_entry, read_entry, backing_coins, set_coins, store_entry, update_cache,
    mbind, view_bind, mret, view_ret.
  destruct (coins_map_find (cache_coins p) t) as [slot|].
  - rewrite coins_copy_total. destruct (coins_is_pruned _) eqn:E; [done|]. by intros [= <-].
  - destruct (cv_get_coins (cvc_base p) t) as [r'|]; [|done]. destruct (insert_entry t p) as [[[slot|] p']|]; [|done..].
    cbn. rewrite coins_copy_total. destruct (coins_is_pruned r') eqn:E; [done|]. by intros [= <-].
Qed.

Lemma child_cache_ok p : cache_ok (coins_view_cache_init (coins_view_cache_as_view p)).
Proof.
  constructor; [constructor; [apply nil_ok|done]|intros t r; apply as_view_live|]. intros t e E. cbn in E. done.
Qed.
End Flush.

(** ** Properties *)

Section Theorems.
Context `{AllocatorTotal}.

(** C16: The cache is transparent.  Over any backing view, reading a record, testing for it and
    resolving an input answer from one function of transaction ids, whether the record is cached,
    fetched or absent, and leave that function as it is, although they fill the table; a
    modification starts from the same record, and writing through its pointer changes the
    function at that transaction id only. *)
Theorem coins_cache_transparent c t i : cache_ok c -> fixed 32 t -> fixed 32 (op_hash (prevout i)) ->
  (exists c', coins_view_cache_get_coins t c = Some (live (record_of c t), c') /\ unchanged c c') /\
  coins_view_cache_have_coins t c = Some (bool_decide (is_Some (live (record_of c t))), c) /\
  (exists c', coins_view_cache_get_output_for i c =
     Some (output_of (record_of c (op_hash (prevout i))) (op_n (prevout i)), c') /\ unchanged c c') /\
  (exists slot c1 e, coins_view_cache_modify t c = Some (Some slot, c1) /\ unchanged c c1 /\
     holds c1 slot t e /\ ce_coins e = record_of c t /\
     forall r, exists c2, set_coins slot r c1 = Some (tt, c2) /\ changed t r c c2).
Proof.
  intros Hc Ht Hi. split_and!; [by apply get_coins_runs|by apply have_coins_runs|by apply get_output_runs|].
  destruct (modify_runs c t Hc Ht) as (slot & c1 & fl & E & Hu & Hs & Hd). exists slot, c1, {| ce_coins := record_of c t; ce_flags := fl |}.
  split_and!; [done|done|done|done|]. intros r. pose proof Hu as (Hc1 & Hf1 & Hk1 & Hr1).
  destruct (set_coins_changed c1 slot t _ r Hc1 Hs Hd) as (c2 & E2 & (Hc2 & Hf2 & Hk2 & Hr2) & _). exists c2. split; [done|].
  split_and!; [done|eauto using same_frame_trans|by intros t' Ht'; apply Hk2, Hk1|]. intros t'. rewrite Hr2. case_decide; [done|apply Hr1].
Qed.

(** C22: A flush publishes the child.  Flushing a cache into the cache it is stacked on makes the
    lower cache answer for every transaction id what the upper one answered, gives it the upper
    best block unless that is null, and empties the upper cache. *)
Theorem flush_publishes_child parent child : cache_ok parent -> cache_ok child ->
  cvc_base child = coins_view_cache_as_view parent ->
  exists parent' child', coins_view_cache_flush child parent = Some ((true, child'), parent') /\
    cache_ok parent' /\
    cvc_hash_block parent' = (if uint256_is_null (cvc_hash_block child) then cvc_hash_block parent
                              else cvc_hash_block child) /\
    cache_coins child' = coins_map_init /\
    forall t, fixed 32 t -> live (record_of parent' t) = live (record_of child t).
Proof.
  intros Hp Hc Hb. unfold coins_view_cache_flush.
  destruct (batch_write_runs (cache_coins child) (cvc_hash_block child) parent Hp (cache_map_ok child Hc))
    as (m' & p' & E & Hp' & Eh & Hr). rewrite (bind_run _ _ _ _ _ E).
  eexists (with_commitment p' _), _. split_and!; [reflexivity|destruct Hp'; by constructor|done|done|].
  intros t Ht. change (record_of (with_commitment p' _) t) with (record_of p' t). rewrite Hr. by apply flush_view.
Qed.

(** When a flush fails half way the records already moved are empty and marked as changed in the
    child, and the retry the callers are told to make writes the empty records over the moved ones. *)
Theorem failed_flush_loses_coins parent' child' hb k t e' : cache_ok parent' -> coins_map_ok child' ->
  cm_buckets child' !! k = Some (Some (t, e')) -> ce_coins e' = coins_init -> dirty e' ->
  exists m parent'', cvc_batch_write child' hb parent' = Some ((true, m), parent'') /\ live (record_of parent'' t) = None.
Proof.
  intros Hp Hm Hk He Hd. destruct (batch_write_runs child' hb parent' Hp Hm) as (m & p'' & E & _ & _ & Hr).
  exists m, p''. split; [done|]. rewrite Hr. unfold moved_over.
  rewrite (contents_slot _ _ _ _ Hm Hk), (proj2 (is_dirty_spec e') Hd), He. done.
Qed.
End Theorems.

(** ** A concrete stack of caches *)

Definition sample_record : coins :=
  {| is_coinbase := true; coins_vout := [{| value := 5000; script_pub_key := [0x51] |}]; coins_height := 7; coins_version := 1 |}.

Definition sample_backing : coins_view := {|
  cv_get_coins := fun t => if decide (t = sample_txid 1) then Some sample_record else None;
  cv_get_best_block := None;
|}.

Definition sample_cache : coins_view_cache := coins_view_cache_init sample_backing.

Lemma sample_cache_ok : cache_ok sample_cache.
Proof.
  constructor; [constructor; [apply nil_ok|done]| |intros t e E; done].
  intros t r. cbn. case_decide; [|done]. by intros [= <-].
Qed.

Definition sample_input : tx_in :=
  {| prevout := {| op_hash := sample_txid 1; op_n := 0 |}; script_sig := []; sequence := 0 |}.

Lemma coins_cache_transparent_witness : exists c',
  @coins_view_cache_get_output_for (fun _ => true) sample_input sample_cache =
    Some (Some {| value := 5000; script_pub_key := [0x51] |}, c') /\ unchanged sample_cache c'.
Proof.
  destruct (@coins_cache_transparent (fun _ => true) (fun _ => eq_refl) sample_cache (sample_txid 1) sample_input
    sample_cache_ok ltac:(by apply sample_txid_ok) ltac:(by apply sample_txid_ok)) as (_ & _ & (c' & E & Hu) & _).
  exists c'. split; [|done]. rewrite E. done.
Defined.

Lemma flush_publishes_child_witness :
  let child := coins_view_cache_init (@coins_view_cache_as_view (fun _ => true) sample_cache) in
  exists parent' child', @coins_view_cache_flush (fun _ => true) child sample_cache = Some ((true, child'), parent') /\
    live (record_of parent' (sample_txid 1)) = Some sample_record.
Proof.
  intros child.
  destruct (@flush_publishes_child (fun _ => true) (fun _ => eq_refl) sample_cache child sample_cache_ok
    (@child_cache_ok _ (fun _ => eq_refl) sample_cache) eq_refl) as (parent' & child' & E & _ & _ & _ & Hv).
  exists parent', child'. split; [exact E|]. rewrite Hv by (by apply sample_txid_ok). vm_compute. reflexivity.
Defined.
