(* ===== verification/BlockIndex.v ===== *)
(** * The block index

    Models lib/chain/src/chain.c (ancestors through skip pointers), the header-acceptance path
    of lib/validation/src/accept_block_header.c with its in-place height repair, and the policy
    of process_block_contextual_header.c that bypasses the contextual check.

    The nodes are shared and mutated in place, so the model keeps them in a store.  A node is
    allocated once, under the hash of its header, and never freed: its address is that hash, and
    the block map (file BlockMap) is the store itself. *)

From stdpp Require Import gmap.
From S2P Require Import Prelude Hash Arith256 Serialize Script Transaction Params TxCheck Pow Block BlockCheck.

(** ** Nodes *)

Definition BLOCK_VALID_TREE : Z := 2.
Definition BLOCK_VALID_MASK : Z := 7.
Definition BLOCK_FAILED_CHILD : Z := 64.
Definition BLOCK_FAILED_MASK : Z := 96.

Record node := Node {
  n_pprev : option uint256_t;
  n_pskip : option uint256_t;
  n_chain_work : arith_uint256;
  n_merkle_root : uint256_t;
  n_sapling_root : uint256_t;
  n_nonce : uint256_t;
  n_solution : bytes;
  n_height : Z;
  n_status : Z;
  n_version : Z;
  n_time : Z;
  n_bits : Z;
}.

Abbreviation index := (gmap uint256_t node).

Definition with_height (n : node) (h : Z) (work : arith_uint256) : node := {|
  n_pprev := n_pprev n; n_pskip := n_pskip n; n_chain_work := work; n_merkle_root := n_merkle_root n;
  n_sapling_root := n_sapling_root n; n_nonce := n_nonce n; n_solution := n_solution n; n_height := h;
  n_status := n_status n; n_version := n_version n; n_time := n_time n; n_bits := n_bits n |}.

Definition with_links (n : node) (pprev pskip : option uint256_t) : node := {|
  n_pprev := pprev; n_pskip := pskip; n_chain_work := n_chain_work n; n_merkle_root := n_merkle_root n;
  n_sapling_root := n_sapling_root n; n_nonce := n_nonce n; n_solution := n_solution n; n_height := n_height n;
  n_status := n_status n; n_version := n_version n; n_time := n_time n; n_bits := n_bits n |}.

Definition with_status (n : node) (status : Z) : node := {|
  n_pprev := n_pprev n; n_pskip := n_pskip n; n_chain_work := n_chain_work n; n_merkle_root := n_merkle_root n;
  n_sapling_root := n_sapling_root n; n_nonce := n_nonce n; n_solution := n_solution n; n_height := n_height n;
  n_status := status; n_version := n_version n; n_time := n_time n; n_bits := n_bits n |}.

(** The view of a node that the proof-of-work rules use *)
Definition view (n : node) : block_index :=
  {| bi_nHeight := n_height n; bi_nTime := n_time n; bi_nBits := n_bits n; bi_nChainWork := n_chain_work n |}.

Definition GetBlockProof (n : node) : arith_uint256 := domain_consensus_block_proof (n_bits n).

(** ** Ancestors (chain.c) *)

Definition invert_lowest_one (n : Z) : Z := n .& (n - 1).

Definition get_skip_height (height : Z) : Z :=
  if height <? 2 then 0
  else if height .& 1 =? 0 then invert_lowest_one height
  else invert_lowest_one (invert_lowest_one (height - 1)) + 1.

(** Whether the walk follows the skip pointer from height [h] towards [height] *)
Definition take_skip (h height : Z) : bool :=
  let skip_h := get_skip_height h in
  let skip_h_prev := get_skip_height (h - 1) in
  (skip_h =? height) ||
  ((skip_h >? height) && negb ((skip_h_prev <? skip_h - 2) && (skip_h_prev >=? height))).

(** [None] is NULL.  Each iteration lowers [h], so [h - height] iterations are enough. *)
Fixpoint ancestor_loop (ix : index) (fuel : nat) (walk : uint256_t) (h height : Z) : option uint256_t :=
  if h >? height then
    match fuel with
    | O => None
    | S fuel' =>
        n ← ix !! walk;
        match n_pskip n, n_pprev n with
        | Some s, p =>
            if take_skip h height then ancestor_loop ix fuel' s (get_skip_height h) height
            else match p with Some p => ancestor_loop ix fuel' p (h - 1) height | None => None end
        | None, Some p => ancestor_loop ix fuel' p (h - 1) height
        | None, None => None
        end
    end
  else Some walk.

Definition block_index_get_ancestor (ix : index) (bi : uint256_t) (height : Z) : option uint256_t :=
  n ← ix !! bi;
  if (height >? n_height n) || (height <? 0) then None
  else ancestor_loop ix (Z.to_nat (n_height n - height)) bi (n_height n) height.

(** Rebuilds the skip pointer of a node; a root keeps its own. *)
Definition block_index_build_skip (ix : index) (bi : uint256_t) : index :=
  match ix !! bi with
  | Some n =>
      match n_pprev n with
      | Some p => <[bi := with_links n (n_pprev n) (block_index_get_ancestor ix p (get_skip_height (n_height n)))]> ix
      | None => ix
      end
  | None => ix
  end.

(** ** Height repair *)

(** [nHeight] and [nChainWork] of a node from those of its predecessor *)
Definition fix_height (ix : index) (k : uint256_t) : index :=
  match ix !! k with
  | Some n =>
      match n_pprev n ≫= (ix !!.) with
      | Some p => <[k := with_height n (n_height p + 1) (arith_uint256_add (n_chain_work p) (GetBlockProof n))]> ix
      | None => ix
      end
  | None => ix
  end.

(** Is the height of [k] other than its predecessor's plus one? *)
Definition height_off (ix : index) (k : uint256_t) : bool :=
  match ix !! k with
  | Some n => match n_pprev n ≫= (ix !!.) with
              | Some p => negb (n_height n =? n_height p + 1)
              | None => false
              end
  | None => false
  end.

Definition REPAIR_DEPTH : nat := Z.to_nat 2048.

(** The walk towards the root: the nodes left behind, last first, and where it stops *)
Fixpoint repair_walk (ix : index) (room : nat) (cur : uint256_t) (stack : list uint256_t)
    : list uint256_t * uint256_t :=
  match room with
  | O => (stack, cur)
  | S room' =>
      match ix !! cur with
      | Some n =>
          match n_pprev n with
          | Some pk =>
              match ix !! pk with
              | Some p =>
                  if (n_height p <? n_height n) && negb (n_height n =? n_height p + 1)
                  then repair_walk ix room' pk (cur :: stack) else (stack, cur)
              | None => (stack, cur)
              end
          | None => (stack, cur)
          end
      | None => (stack, cur)
      end
  end.

Definition repair_heights (ix : index) (k : uint256_t) : index :=
  if height_off ix k then
    let '(stack, cur) := repair_walk ix REPAIR_DEPTH k [] in
    let ix := if height_off ix cur then fix_height ix cur else ix in
    foldl fix_height ix stack
  else ix.

(** ** Bypassing the contextual check (process_block_contextual_header.c) *)

(** A node and its ancestors, most recent first; there are at most as many as nodes. *)
Fixpoint chain_from (ix : index) (fuel : nat) (k : uint256_t) : list block_index :=
  match fuel with
  | O => []
  | S fuel' =>
      match ix !! k with
      | Some n => view n :: match n_pprev n with Some p => chain_from ix fuel' p | None => [] end
      | None => []
      end
  end.

Definition chain_of (ix : index) (k : uint256_t) : list block_index := chain_from ix (size ix) k.

(** The first loop: the rest of the chain after [pow_window] well-linked entries *)
Fixpoint window_walk (n : nat) (chain : list block_index) : option (list block_index) :=
  match n, chain with
  | O, _ => Some chain
  | S n', b :: ((p :: _) as rest) =>
      if (bi_nTime b =? 0) || negb (bi_nHeight b =? bi_nHeight p + 1) then None else window_walk n' rest
  | _, _ => None
  end.

(** The second loop: [n] entries with a time, linked to each other *)
Fixpoint median_walk (n : nat) (chain : list block_index) : bool :=
  match n, chain with
  | O, _ => true
  | S n', b :: rest =>
      if bi_nTime b =? 0 then false
      else match n', rest with
           | O, _ => true
           | _, p :: _ => if negb (bi_nHeight b =? bi_nHeight p + 1) then false else median_walk n' rest
           | _, [] => false
           end
  | S _, [] => false
  end.

Definition process_block_pow_window_complete (chain : list block_index) (pow_window : Z) : bool :=
  if pow_window <=? 0 then true
  else match window_walk (Z.to_nat pow_window) chain with
       | Some rest => median_walk MEDIAN_TIME_SPAN rest
       | None => false
       end.

Definition process_block_should_skip_contextual_header (tip_h : Z) (chain : list block_index)
    (params : consensus_params) : bool :=
  match chain with
  | [] => false
  | pindex_prev :: _ =>
      if (tip_h >? 100000) && (bi_nHeight pindex_prev <? tip_h - 1000) then true
      else (nPowAveragingWindow params >? 0) &&
           negb (process_block_pow_window_complete chain (nPowAveragingWindow params))
  end.

(** ** Accepting a header (accept_block_header.c) *)

(** What the function reads of the node besides the index: the active chain's height and tip *)
Record active_view := ActiveView {
  av_height : Z;
  av_tip : option uint256_t;
  av_checkpoints : bool;
}.

Section Accept.
Context `{Allocator} `{HashFunctions} `{CryptoRegistry} `{Clock}.
Context (params : chain_params).

(** The sizes of the C structures are those of a 64-bit build. *)
Definition BLOCK_INDEX_SIZE : Z := 296.

(** The node before it is linked; a failed allocation leaves the solution out. *)
Definition fresh_node (h : block_header) : node := {|
  n_pprev := None; n_pskip := None; n_chain_work := arith_uint256_set_zero;
  n_merkle_root := hashMerkleRoot h; n_sapling_root := hashFinalSaplingRoot h; n_nonce := nNonce h;
  n_solution := if (zlen (nSolution h) >? 0) && alloc_succeeds (zlen (nSolution h)) then nSolution h else [];
  n_height := 0; n_status := 0; n_version := nVersion h; n_time := nTime h; n_bits := nBits h |}.

(** [None] is NULL.  The allocation of the table itself is assumed to succeed here: the block
    map's own failures are in file BlockMap. *)
Definition add_to_block_index (ix : index) (h : block_header) : option index :=
  let hash := block_header_get_hash h in
  if negb (alloc_succeeds BLOCK_INDEX_SIZE) then None
  else
    match ix !! hash with
    | Some _ => Some ix
    | None =>
        let n := fresh_node h in
        let ix1 := <[hash := n]> ix in
        match ix1 !! hashPrevBlock h with
        | Some p =>
            let n1 := with_height (with_links n (Some (hashPrevBlock h)) None) (n_height p + 1) (n_chain_work n) in
            let ix2 := block_index_build_skip (<[hash := n1]> ix1) hash in
            (* the predecessor's work is read after the node was linked *)
            match ix2 !! hash, ix2 !! hashPrevBlock h with
            | Some n2, Some p2 =>
                Some (<[hash := with_height n2 (n_height n2)
                                  (arith_uint256_add (n_chain_work p2) (GetBlockProof n2))]> ix2)
            | _, _ => None
            end
        | None => Some (<[hash := with_height n 0 (GetBlockProof n)]> ix1)
        end
    end.

(** Raising the validity level of a node to [BLOCK_VALID_TREE] *)
Definition promote (ix : index) (k : uint256_t) : index :=
  match ix !! k with
  | Some n =>
      if (n_status n .& BLOCK_VALID_MASK) <? BLOCK_VALID_TREE
      then <[k := with_status n (Z.land (n_status n) (Z.lnot BLOCK_VALID_MASK) .| BLOCK_VALID_TREE)]> ix else ix
  | None => ix
  end.

(** The height the index should give a known header, and the correction of its predecessor when
    the header is the active tip *)
Definition expected_height (av : active_view) (ix : index) (hash prev : uint256_t) (prev_height : Z) : Z * index :=
  if (av_height av >? 0) && bool_decide (av_tip av = Some hash) then
    (av_height av,
     match ix !! prev with
     | Some p =>
         if n_height p =? av_height av - 1 then ix
         else
           let work := match n_pprev p ≫= (ix !!.) with
                       | Some pp => arith_uint256_add (n_chain_work pp) (GetBlockProof p)
                       | None => n_chain_work p
                       end in
           <[prev := with_height p (av_height av - 1) work]> ix
     | None => ix
     end)
  else if bool_decide (av_tip av = Some prev) then (av_height av + 1, ix)
  else (prev_height + 1, ix).

(** Relinking a known header to its predecessor *)
Definition relink (av : active_view) (ix : index) (hash prev : uint256_t) (p : node) : index :=
  let '(expected, ix1) := expected_height av ix hash prev (n_height p) in
  match ix1 !! hash with
  | Some n =>
      if negb (bool_decide (n_pprev n = Some prev)) || negb (n_height n =? expected) then
        let n1 := with_height (with_links n (Some prev) (n_pskip n)) expected (n_chain_work n) in
        let ix2 := block_index_build_skip (<[hash := n1]> ix1) hash in
        match ix2 !! hash, ix2 !! prev with
        | Some n2, Some p2 =>
            <[hash := with_height n2 (n_height n2) (arith_uint256_add (n_chain_work p2) (GetBlockProof n2))]> ix2
        | _, _ => ix2
        end
      else ix1
  | None => ix1
  end.

Definition clear_failed_child (ix : index) (k : uint256_t) : index :=
  match ix !! k with
  | Some n =>
      if (n_status n .& BLOCK_FAILED_MASK) =? BLOCK_FAILED_CHILD
      then <[k := with_status n (Z.land (n_status n) (Z.lnot BLOCK_FAILED_CHILD))]> ix else ix
  | None => ix
  end.

Definition promote_unfailed (ix : index) (k : uint256_t) : index :=
  match ix !! k with
  | Some n => if (n_status n .& BLOCK_FAILED_MASK) =? 0 then promote ix k else ix
  | None => ix
  end.

Definition bad_prevblk (code : Z) : verdict := RejectDos 0 code "bad-prevblk" false.

(** A header that is already in the index *)
Definition accept_known (av : active_view) (ix : index) (h : block_header) : check * index :=
  let hash := block_header_get_hash h in
  let finish ix := (mret tt, promote_unfailed (clear_failed_child (repair_heights ix hash) hash) hash) in
  if uint256_cmp hash (hashGenesisBlock (consensus params)) =? 0 then finish ix
  else
    match ix !! hashPrevBlock h with
    | None => (Err (bad_prevblk 0), ix)
    | Some p => finish (relink av ix hash (hashPrevBlock h) p)
    end.

(** The predecessor of a new header: NULL for the genesis block *)
Definition find_prev (ix : index) (h : block_header) : result verdict (option uint256_t) :=
  if uint256_cmp (block_header_get_hash h) (hashGenesisBlock (consensus params)) =? 0 then Ok None
  else
    match ix !! hashPrevBlock h with
    | None => Err (bad_prevblk 0)
    | Some p => if n_status p .& BLOCK_FAILED_MASK =? 0 then Ok (Some (hashPrevBlock h))
                else Err (bad_prevblk REJECT_INVALID)
    end.

Definition check_in_context (av : active_view) (ix : index) (h : block_header) (prev : option uint256_t) : check :=
  match prev with
  | None => mret tt
  | Some k =>
      let chain := chain_of ix k in
      if process_block_should_skip_contextual_header (av_height av) chain (consensus params) then mret tt
      else contextual_check_block_header h params chain (av_checkpoints av)
  end.

Definition accept_new (av : active_view) (ix : index) (h : block_header) : check * index :=
  match find_prev ix h with
  | Err v => (Err v, ix)
  | Ok prev =>
      match check_block_header h params true with
      | Err v => (Err v, ix)
      | Ok _ =>
          let ix1 := match prev with Some k => repair_heights ix k | None => ix end in
          match check_in_context av ix1 h prev with
          | Err v => (Err v, ix1)
          | Ok _ =>
              match add_to_block_index ix1 h with
              | None => (Err (RejectFatal "add-to-block-index-failed"), ix1)
              | Some ix2 => (mret tt, promote ix2 (block_header_get_hash h))
              end
          end
      end
  end.

Definition accept_block_header (av : active_view) (ix : index) (h : block_header) : check * index :=
  match ix !! block_header_get_hash h with
  | Some _ => accept_known av ix h
  | None => accept_new av ix h
  end.

End Accept.

(** ** Ancestors through skip pointers *)

Lemma land_le_r a b : 0 <= b -> 0 <= Z.land a b <= b.
Proof.
  intros Hb. apply Z.ldiff_le; [done|]. apply Z.bits_inj'. intros i Hi.
  rewrite Z.ldiff_spec, Z.land_spec, Z.bits_0. by destruct (Z.testbit a i), (Z.testbit b i).
Qed.

Lemma invert_lowest_one_bound n : 0 <= n -> 0 <= invert_lowest_one n <= Z.max 0 (n - 1).
Proof.
  intros Hn. unfold invert_lowest_one. destruct (decide (n = 0)) as [->|]; [done|].
  pose proof (land_le_r n (n - 1) ltac:(lia)). lia.
Qed.

Lemma get_skip_height_bound h : 1 <= h -> 0 <= get_skip_height h < h.
Proof.
  intros Hh. unfold get_skip_height. destruct (Z.ltb_spec h 2); [lia|]. case_if.
  - pose proof (invert_lowest_one_bound h ltac:(lia)). lia.
  - pose proof (invert_lowest_one_bound (h - 1) ltac:(lia)).
    pose proof (invert_lowest_one_bound (invert_lowest_one (h - 1)) ltac:(lia)). lia.
Qed.

(** The ancestor [j] steps towards the root *)
Fixpoint climb (ix : index) (j : nat) (k : uint256_t) : option uint256_t :=
  match j with
  | O => Some k
  | S j' => n ← ix !! k; p ← n_pprev n; climb ix j' p
  end.

Lemma climb_add ix i j k a : climb ix i k = Some a -> climb ix (i + j) k = climb ix j a.
Proof.
  revert k. induction i as [|i IH]; intros k; cbn; [by intros [= ->]|].
  destruct (ix !! k) as [n|]; [|done]. cbn. destruct (n_pprev n) as [p|]; [|done]. cbn. apply IH.
Qed.

(** Links and heights of an index: every predecessor is present, one lower, and a skip pointer
    points to the ancestor at the skip height. *)
Definition linked_node (ix : index) (k : uint256_t) (n : node) : Prop :=
  0 <= n_height n /\
  match n_pprev n with
  | Some p => exists m, ix !! p = Some m /\ n_height n = n_height m + 1
  | None => n_height n = 0
  end /\
  forall s, n_pskip n = Some s ->
    climb ix (Z.to_nat (n_height n - get_skip_height (n_height n))) k = Some s.

Definition links_ok (ix : index) : Prop := forall k n, ix !! k = Some n -> linked_node ix k n.

Lemma climb_height ix k n j : links_ok ix -> ix !! k = Some n -> Z.of_nat j <= n_height n ->
  exists a m, climb ix j k = Some a /\ ix !! a = Some m /\ n_height m = n_height n - Z.of_nat j.
Proof.
  intros Hix. revert k n. induction j as [|j IH]; intros k n Hk Hj.
  - exists k, n. split_and!; [done|done|lia].
  - destruct (Hix k n Hk) as (H0 & Hp & _). cbn. rewrite Hk. cbn. destruct (n_pprev n) as [p|]; [|lia].
    destruct Hp as (m & Hm & Eh). destruct (IH p m Hm ltac:(lia)) as (a & m' & E & Ha & Eh').
    exists a, m'. split_and!; [done|done|lia].
Qed.

Lemma ancestor_loop_climb ix fuel k n height : links_ok ix -> ix !! k = Some n -> 0 <= height <= n_height n ->
  n_height n - height <= Z.of_nat fuel ->
  ancestor_loop ix fuel k (n_height n) height = climb ix (Z.to_nat (n_height n - height)) k.
Proof.
  intros Hix. revert k n. induction fuel as [|fuel IH]; intros k n Hk Hh Hf; cbn [ancestor_loop].
  - replace (n_height n >? height) with false by lia. by replace (Z.to_nat (n_height n - height)) with 0%nat by lia.
  - destruct (Z.gtb_spec (n_height n) height) as [Hgt|]; [|by replace (Z.to_nat (n_height n - height)) with 0%nat by lia].
    rewrite Hk. cbn [mbind option_bind]. destruct (Hix k n Hk) as (_ & Hp & Hs).
    destruct (n_pprev n) as [p|] eqn:Ep; [|lia]. destruct Hp as (m & Hm & Eh).
    assert (ancestor_loop ix fuel p (n_height n - 1) height = climb ix (Z.to_nat (n_height n - height)) k) as Hprev.
    { replace (n_height n - 1) with (n_height m) by lia. rewrite (IH p m Hm) by lia.
      replace (Z.to_nat (n_height n - height)) with (S (Z.to_nat (n_height m - height))) by lia.
      cbn. by rewrite Hk; cbn; rewrite Ep. }
    destruct (n_pskip n) as [s|] eqn:Es; [|done]. destruct (take_skip (n_height n) height) eqn:Et; [|done].
    specialize (Hs s eq_refl). pose proof (get_skip_height_bound (n_height n) ltac:(lia)) as Hb.
    assert (height <= get_skip_height (n_height n)) by (unfold take_skip in Et; lia).
    destruct (climb_height ix k n (Z.to_nat (n_height n - get_skip_height (n_height n))) Hix Hk ltac:(lia))
      as (a & m' & E & Ha & Eh'). rewrite Hs in E. injection E as <-.
    replace (get_skip_height (n_height n)) with (n_height m') by lia. rewrite (IH s m' Ha) by lia.
    rewrite <- (climb_add ix _ _ k s Hs). f_equal. lia.
Qed.

Lemma ancestor_loop_fuel ix fuel fuel' k h height : 0 <= height ->
  h - height <= Z.of_nat fuel -> h - height <= Z.of_nat fuel' ->
  ancestor_loop ix fuel k h height = ancestor_loop ix fuel' k h height.
Proof.
  intros H0. revert fuel' k h. induction fuel as [|fuel IH]; intros fuel' k h Hf Hf';
    destruct (Z.gtb_spec h height) as [Hgt|Hle].
  1,2,4: destruct fuel'; cbn [ancestor_loop]; by replace (h >? height) with false by lia.
  destruct fuel' as [|fuel']; [lia|]. cbn [ancestor_loop]. replace (h >? height) with true by lia.
  pose proof (get_skip_height_bound h ltac:(lia)).
  destruct (ix !! k) as [n|]; [|done]. cbn [mbind option_bind].
  destruct (n_pskip n), (n_pprev n); try case_if; try done; apply IH; lia.
Qed.

Lemma get_ancestor_climb ix k n height : links_ok ix -> ix !! k = Some n ->
  block_index_get_ancestor ix k height =
  if decide (0 <= height <= n_height n) then climb ix (Z.to_nat (n_height n - height)) k else None.
Proof.
  intros Hix Hk. unfold block_index_get_ancestor. rewrite Hk. cbn [mbind option_bind]. case_decide.
  - replace ((height >? n_height n) || (height <? 0)) with false by lia. by apply ancestor_loop_climb; [..|lia].
  - by replace ((height >? n_height n) || (height <? 0)) with true by lia.
Qed.

(** ** The invariant of the index *)

Lemma climb_ext ix ix' j k : (forall x, n_pprev <$> ix !! x = n_pprev <$> ix' !! x) -> climb ix j k = climb ix' j k.
Proof.
  intros He. revert k. induction j as [|j IH]; intros k; cbn; [done|]. specialize (He k).
  destruct (ix !! k) as [n|], (ix' !! k) as [n'|]; cbn in *; try done. injection He as ->.
  destruct (n_pprev n') as [p|]; cbn; [apply IH|done].
Qed.

Lemma climb_fresh ix f n j k s : ix !! f = None -> climb ix j k = Some s -> climb (<[f := n]> ix) j k = Some s.
Proof.
  intros Hf. revert k. induction j as [|j IH]; intros k; cbn; [done|].
  destruct (decide (f = k)) as [->|Hne]; [by rewrite Hf|]. rewrite lookup_insert_ne by done.
  destruct (ix !! k) as [m|]; [|done]. cbn. destruct (n_pprev m); [apply IH|done].
Qed.

Lemma linked_fresh ix f n k m : ix !! f = None -> linked_node ix k m -> linked_node (<[f := n]> ix) k m.
Proof.
  intros Hf (H0 & Hp & Hs). split_and!; [done| |].
  - destruct (n_pprev m) as [p|]; [|done]. destruct Hp as (q & Hq & E). exists q. split; [|done].
    rewrite lookup_insert_ne; [done|]. by intros ->; rewrite Hf in Hq.
  - intros s E. by apply climb_fresh, Hs.
Qed.

Lemma links_insert ix f n : links_ok ix -> ix !! f = None -> linked_node (<[f := n]> ix) f n ->
  links_ok (<[f := n]> ix).
Proof.
  intros Hix Hf Hn k m. destruct (decide (f = k)) as [->|Hne].
  - rewrite lookup_insert_eq. by intros [= <-].
  - rewrite lookup_insert_ne by done. intros Hk. apply linked_fresh; auto.
Qed.

(** A node stands on a chain of as many distinct nodes as its height, and itself. *)
Lemma chain_in_set (ix : index) (k : uint256_t) (n : node) (X : gset uint256_t) : links_ok ix -> ix !! k = Some n ->
  (forall i a, Z.of_nat i <= n_height n -> climb ix i k = Some a -> a ∈ X) -> n_height n < Z.of_nat (size X).
Proof.
  intros Hl Hk. destruct (Hl k n Hk) as (Hh & _). remember (Z.to_nat (n_height n)) as j eqn:Ej.
  revert k n X Hk Hh Ej. induction j as [|j IH]; intros k n X Hk Hh Ej HX.
  - assert (k ∈ X) as Hin by (apply (HX 0%nat); [lia|done]).
    assert (size X <> 0%nat); [|lia]. intros E. apply size_empty_inv in E. set_solver.
  - destruct (Hl k n Hk) as (_ & Hp & _). destruct (n_pprev n) as [p|] eqn:Ep; [|lia]. destruct Hp as (m & Hm & Eh).
    assert (k ∈ X) as Hin by (apply (HX 0%nat); [lia|done]).
    assert (n_height m < Z.of_nat (size (X ∖ {[k]}))) as IHX.
    { apply (IH p m); [done|lia|lia|]. intros i a Hi Ha. apply elem_of_difference. split.
      - apply (HX (S i)); [lia|]. cbn. rewrite Hk. cbn. by rewrite Ep.
      - rewrite elem_of_singleton. intros ->.
        destruct (climb_height ix p m i Hl Hm Hi) as (a' & m' & E & Hm' & Eh'). simplify_eq. lia. }
    rewrite size_difference in IHX by set_solver. rewrite size_singleton in IHX.
    assert (size X <> 0%nat); [|lia]. intros E. apply size_empty_inv in E. set_solver.
Qed.

Lemma height_lt_size ix k n : links_ok ix -> ix !! k = Some n -> n_height n < Z.of_nat (size ix).
Proof.
  intros Hl Hk. rewrite <- (size_dom (D := gset uint256_t)). apply (chain_in_set ix k); [done|done|].
  intros i a Hi E. destruct (climb_height ix k n i Hl Hk Hi) as (a' & m & E' & Hm & _).
  simplify_eq. by eapply elem_of_dom_2.
Qed.

Lemma chain_from_step ix fuel k n : links_ok ix -> ix !! k = Some n -> n_height n < Z.of_nat fuel ->
  chain_from ix fuel k = view n :: match n_pprev n with Some p => chain_of ix p | None => [] end /\
  Z.of_nat (length (chain_from ix fuel k)) = n_height n + 1.
Proof.
  intros Hl. assert (forall f f' k n, ix !! k = Some n -> n_height n < Z.of_nat f -> n_height n < Z.of_nat f' ->
    chain_from ix f k = chain_from ix f' k /\ Z.of_nat (length (chain_from ix f k)) = n_height n + 1) as Hf.
  { induction f as [|f IH]; intros f' k' n' Hk Hf1 Hf2; destruct (Hl k' n' Hk) as (Hh & Hp & _); [lia|].
    destruct f' as [|f']; [lia|]. cbn. rewrite Hk. destruct (n_pprev n') as [p|]; cbn; [|split; [done|lia]].
    destruct Hp as (m & Hm & Eh). destruct (IH f' p m Hm ltac:(lia) ltac:(lia)) as [<- El]. split; [done|lia]. }
  intros Hk Hfuel. split; [|by apply (Hf fuel fuel)]. destruct fuel as [|fuel]; [destruct (Hl k n Hk); lia|].
  cbn. rewrite Hk. destruct (Hl k n Hk) as (_ & Hp & _). destruct (n_pprev n) as [p|]; [|done].
  destruct Hp as (m & Hm & Eh). f_equal. unfold chain_of. apply (Hf _ _ p m Hm); [lia|]. by apply (height_lt_size ix p).
Qed.

Lemma chain_of_step ix k n : links_ok ix -> ix !! k = Some n ->
  chain_of ix k = view n :: match n_pprev n with Some p => chain_of ix p | None => [] end /\
  Z.of_nat (length (chain_of ix k)) = n_height n + 1.
Proof. intros Hl Hk. apply chain_from_step; [done|done|]. by apply (height_lt_size ix k). Qed.

Section Index.
Context `{AllocatorTotal} `{HashFunctionsOk} `{CryptoRegistry} `{Clock}.
Context (params : chain_params) (seen : list block_header).

Definition genesis : uint256_t := hashGenesisBlock (consensus params).

Definition parent_work (ix : index) (n : node) : Z :=
  match n_pprev n ≫= (ix !!.) with Some m => limbs_Z (n_chain_work m) | None => 0 end.

(** A node comes from a well-formed header seen before, under whose hash it is filed and whose predecessor it
    points to; only the genesis block has none.  Its proof of work is valid and its chain work is
    its predecessor's plus its own. *)
Record node_ok (ix : index) (k : uint256_t) (n : node) : Prop := {
  nk_links : linked_node ix k n;
  nk_arith : arith_ok (n_chain_work n);
  nk_work : limbs_Z (n_chain_work n) = (parent_work ix n + limbs_Z (GetBlockProof n)) mod R256;
  nk_origin : exists h, h ∈ seen /\ header_ok h /\ block_header_get_hash h = k /\ n_bits n = nBits h /\ n_time n = nTime h /\
    match n_pprev n with Some p => p = hashPrevBlock h | None => k = genesis end;
  nk_pow : target_usable (n_bits n) /\ compact_value (n_bits n) <= le_decode (powLimit (consensus params)) /\
    le_decode k <= compact_value (n_bits n);
}.

Definition index_ok (ix : index) : Prop := forall k n, ix !! k = Some n -> node_ok ix k n.

Lemma index_links ix : index_ok ix -> links_ok ix.
Proof. intros Hix k n Hk. apply (Hix k n Hk). Qed.

Lemma parent_work_fresh ix f n k m : ix !! f = None -> linked_node ix k m ->
  parent_work (<[f := n]> ix) m = parent_work ix m.
Proof.
  intros Hf (_ & Hp & _). unfold parent_work. destruct (n_pprev m) as [p|]; [|done].
  destruct Hp as (q & Hq & _). cbn. rewrite lookup_insert_ne; [done|]. by intros ->; rewrite Hf in Hq.
Qed.

Lemma index_insert ix f n : index_ok ix -> ix !! f = None -> node_ok (<[f := n]> ix) f n -> index_ok (<[f := n]> ix).
Proof.
  intros Hix Hf Hn k m. destruct (decide (f = k)) as [->|Hne].
  - rewrite lookup_insert_eq. by intros [= <-].
  - rewrite lookup_insert_ne by done. intros Hk. destruct (Hix k m Hk) as [Hl Ha Hw Ho Hp].
    constructor; try done; [by apply linked_fresh|]. by rewrite (parent_work_fresh ix f n k m).
Qed.

(** Nothing in the invariant depends on the status. *)
Lemma index_status ix k n status : index_ok ix -> ix !! k = Some n -> index_ok (<[k := with_status n status]> ix).
Proof.
  intros Hix Hk. set (ix' := <[k := with_status n status]> ix).
  assert (forall x m, ix' !! x = Some m -> exists m0, ix !! x = Some m0 /\ (m = m0 \/ m = with_status m0 status)) as Hback.
  { intros x m. unfold ix'. destruct (decide (k = x)) as [<-|]; [rewrite lookup_insert_eq|rewrite lookup_insert_ne by done].
    - intros [= <-]. eauto.
    - eauto. }
  assert (forall x m0, ix !! x = Some m0 -> exists m, ix' !! x = Some m /\ n_height m = n_height m0 /\
    n_chain_work m = n_chain_work m0) as Hfwd.
  { intros x m0 Hx. unfold ix'. destruct (decide (k = x)) as [<-|]; [rewrite lookup_insert_eq|rewrite lookup_insert_ne by done];
      [|by eauto]. rewrite Hk in Hx. injection Hx as <-. eexists. split; [done|]. done. }
  assert (forall j x, climb ix' j x = climb ix j x) as Hc.
  { intros j x. apply climb_ext. intros y. unfold ix'. destruct (decide (k = y)) as [<-|];
      [by rewrite lookup_insert_eq, Hk|by rewrite lookup_insert_ne]. }
  intros x m Hm. destruct (Hback x m Hm) as (m0 & Hm0 & Em). destruct (Hix x m0 Hm0) as [(Hh0 & Hp & Hs) Ha Hw Ho Hpow].
  assert (linked_node ix' x m0 /\ parent_work ix' m0 = parent_work ix m0) as [Hl Ew].
  { unfold parent_work. destruct (n_pprev m0) as [p|] eqn:Ep; cbn.
    - destruct Hp as (q & Hq & Eh). destruct (Hfwd p q Hq) as (q' & Hq' & Eh' & Ew').
      rewrite Hq, Hq', Ew'. split; [|done]. unfold linked_node. rewrite Ep. split_and!; [done| |].
      + exists q'. split; [done|lia].
      + intros s Es. rewrite Hc. by apply Hs.
    - split; [|done]. unfold linked_node. rewrite Ep. split_and!; [done|done|]. intros s Es. rewrite Hc. by apply Hs. }
  rewrite <- Ew in Hw. destruct Em as [-> | ->]; by constructor.
Qed.

(** *** A new node *)

Lemma get_ancestor_fresh ix f n k m height : links_ok ix -> links_ok (<[f := n]> ix) -> ix !! f = None ->
  ix !! k = Some m -> block_index_get_ancestor (<[f := n]> ix) k height = block_index_get_ancestor ix k height.
Proof.
  intros Hix Hix' Hf Hk. assert (<[f := n]> ix !! k = Some m) as Hk'.
  { rewrite lookup_insert_ne; [done|]. intros ->. by rewrite Hf in Hk. }
  rewrite (get_ancestor_climb _ k m height Hix' Hk'), (get_ancestor_climb _ k m height Hix Hk). case_decide; [|done].
  destruct (climb_height ix k m (Z.to_nat (n_height m - height)) Hix Hk ltac:(lia)) as (a & m' & E & _).
  rewrite E. by apply climb_fresh.
Qed.

(** The node of a header below the node [p] *)
Definition child_node (ix : index) (h : block_header) (p : node) : node :=
  with_height (with_links (fresh_node h) (Some (hashPrevBlock h))
    (block_index_get_ancestor ix (hashPrevBlock h) (get_skip_height (n_height p + 1))))
    (n_height p + 1) (arith_uint256_add (n_chain_work p) (domain_consensus_block_proof (nBits h))).

Definition root_node (h : block_header) : node :=
  with_height (fresh_node h) 0 (domain_consensus_block_proof (nBits h)).

Lemma add_root ix h : ix !! block_header_get_hash h = None -> ix !! hashPrevBlock h = None ->
  hashPrevBlock h <> block_header_get_hash h ->
  add_to_block_index ix h = Some (<[block_header_get_hash h := root_node h]> ix).
Proof.
  intros Hf Hp Hne. unfold add_to_block_index. rewrite alloc_total, Hf. cbn [negb]. cbv zeta.
  rewrite lookup_insert_ne, Hp by done. by rewrite insert_insert_eq.
Qed.

Lemma add_child ix h p : links_ok ix -> ix !! block_header_get_hash h = None -> ix !! hashPrevBlock h = Some p ->
  add_to_block_index ix h = Some (<[block_header_get_hash h := child_node ix h p]> ix).
Proof.
  intros Hix Hf Hp. unfold add_to_block_index. rewrite alloc_total, Hf. cbn [negb]. cbv zeta.
  set (k := block_header_get_hash h) in *.
  assert (k <> hashPrevBlock h) as Hne by (intros E; rewrite <- E, Hf in Hp; done).
  rewrite lookup_insert_ne, Hp by done. rewrite insert_insert_eq.
  set (n1 := with_height _ _ _).
  assert (linked_node (<[k := n1]> ix) k n1) as Hl.
  { destruct (Hix _ _ Hp) as (Hh & _). unfold n1. split_and!; cbn; [lia| |done].
    exists p. by rewrite lookup_insert_ne. }
  assert (block_index_build_skip (<[k := n1]> ix) k = <[k := with_links n1 (Some (hashPrevBlock h))
    (block_index_get_ancestor ix (hashPrevBlock h) (get_skip_height (n_height p + 1)))]> ix) as ->.
  { unfold block_index_build_skip. rewrite lookup_insert_eq. cbn [n1 with_height with_links n_pprev n_height].
    fold n1. by rewrite insert_insert_eq, (get_ancestor_fresh ix k n1 (hashPrevBlock h) p) by auto using links_insert. }
  rewrite lookup_insert_eq, lookup_insert_ne, Hp by done. by rewrite insert_insert_eq.
Qed.

Context (Hlimit : uint256_ok (powLimit (consensus params))) (Hgenesis : fixed 32 genesis).

Lemma root_node_ok ix h : h ∈ seen -> header_ok h -> check_block_header h params true = Ok tt ->
  block_header_get_hash h = genesis ->
  node_ok (<[block_header_get_hash h := root_node h]> ix) (block_header_get_hash h) (root_node h).
Proof.
  intros Hs Hh Hc Hg. apply check_header_iff in Hc as (_ & _ & Hpow & _); [|done|done].
  pose proof Hh as (_ & _ & _ & _ & _ & Hb & _). destruct (block_proof_spec (nBits h) Hb) as (Ha & _).
  pose proof (arith_bound _ Ha).
  constructor; cbn; [split_and!; cbn; [lia|done|done]|done| |by exists h|done].
  rewrite Z.mod_small; [done|]. unfold GetBlockProof. cbn. lia.
Qed.

Lemma child_node_ok ix h p : index_ok ix -> h ∈ seen -> header_ok h -> check_block_header h params true = Ok tt ->
  ix !! block_header_get_hash h = None -> ix !! hashPrevBlock h = Some p ->
  node_ok (<[block_header_get_hash h := child_node ix h p]> ix) (block_header_get_hash h) (child_node ix h p).
Proof.
  intros Hix Hsn Hh Hc Hf Hp. apply check_header_iff in Hc as (_ & _ & Hpow & _); [|done|done].
  pose proof Hh as (_ & _ & _ & _ & _ & Hb & _). destruct (block_proof_spec (nBits h) Hb) as (Ha & _).
  set (k := block_header_get_hash h) in *.
  assert (k <> hashPrevBlock h) as Hne by (intros E; rewrite <- E, Hf in Hp; done).
  pose proof (index_links ix Hix) as Hl. destruct (Hix _ _ Hp) as [(Hh0 & _) Hpa _ _ _].
  constructor; [|by apply add_ok| |by exists h|done].
  - split_and!; cbn; [lia|exists p; by rewrite lookup_insert_ne|].
    intros s Es. rewrite (get_ancestor_climb ix _ p _ Hl Hp) in Es. case_decide as Hd; [|done].
    replace (Z.to_nat (n_height p + 1 - get_skip_height (n_height p + 1)))
      with (S (Z.to_nat (n_height p - get_skip_height (n_height p + 1)))) by lia.
    cbn. rewrite lookup_insert_eq. cbn. by apply climb_fresh.
  - unfold parent_work, GetBlockProof. cbn. rewrite lookup_insert_ne, Hp by done. by apply add_spec.
Qed.

(** *** The bypass *)

Lemma zero_time_skips tip_h b chain cp : 0 < nPowAveragingWindow cp -> bi_nTime b = 0 ->
  process_block_should_skip_contextual_header tip_h (b :: chain) cp = true.
Proof.
  intros Hw Hb. unfold process_block_should_skip_contextual_header. case_if; [done|].
  replace (nPowAveragingWindow cp >? 0) with true by lia. unfold process_block_pow_window_complete.
  replace (nPowAveragingWindow cp <=? 0) with false by lia.
  destruct (Z.to_nat (nPowAveragingWindow cp)) as [|w] eqn:Ew; [lia|]. cbn [window_walk]. rewrite Hb. cbn.
  by destruct chain.
Qed.

(** *** Preservation *)

Lemma climb_root ix k n : index_ok ix -> ix !! k = Some n ->
  climb ix (Z.to_nat (n_height n)) k = Some genesis /\ is_Some (ix !! genesis).
Proof.
  intros Hix Hk. pose proof (index_links ix Hix) as Hl. destruct (Hl k n Hk) as (Hh & _).
  destruct (climb_height ix k n (Z.to_nat (n_height n)) Hl Hk ltac:(lia)) as (a & m & E & Ha & Eh).
  destruct (Hl a m Ha) as (_ & Hp & _). destruct (Hix a m Ha) as [_ _ _ (h & _ & _ & _ & _ & _ & Hg) _].
  destruct (n_pprev m) as [p|].
  - destruct Hp as (q & Hq & Eq). destruct (Hl p q Hq) as (Hq0 & _). lia.
  - subst a. by rewrite Ha.
Qed.

Lemma height_off_ok ix k : links_ok ix -> height_off ix k = false.
Proof.
  intros Hl. unfold height_off. destruct (ix !! k) as [n|] eqn:Hk; [|done].
  destruct (Hl k n Hk) as (_ & Hp & _). destruct (n_pprev n) as [p|]; [|done].
  destruct Hp as (m & Hm & E). cbn. rewrite Hm. by replace (n_height n =? n_height m + 1) with true by lia.
Qed.

Lemma repair_heights_ok ix k : links_ok ix -> repair_heights ix k = ix.
Proof. intros Hl. unfold repair_heights. by rewrite height_off_ok. Qed.

Lemma promote_ok ix k : index_ok ix -> index_ok (promote ix k).
Proof.
  intros Hix. unfold promote. destruct (ix !! k) as [n|] eqn:Hk; [|done]. case_if; [|done]. by apply index_status.
Qed.

Lemma promote_fresh ix k n : n_status n = 0 -> promote (<[k := n]> ix) k = <[k := with_status n BLOCK_VALID_TREE]> ix.
Proof. intros E. unfold promote. by rewrite lookup_insert_eq, E, insert_insert_eq. Qed.

Lemma clear_failed_ok ix k : index_ok ix -> index_ok (clear_failed_child ix k).
Proof.
  intros Hix. unfold clear_failed_child. destruct (ix !! k) as [n|] eqn:Hk; [|done]. case_if; [|done]. by apply index_status.
Qed.

Lemma promote_unfailed_ok ix k : index_ok ix -> index_ok (promote_unfailed ix k).
Proof.
  intros Hix. unfold promote_unfailed. destruct (ix !! k); [|done]. case_if; [|done]. by apply promote_ok.
Qed.

(** The active tip, when the index has it, stands at the height of the active chain. *)
Definition view_ok (av : active_view) (ix : index) : Prop :=
  forall k n, av_tip av = Some k -> ix !! k = Some n -> n_height n = av_height av.

Lemma relink_ok av ix hash prev n p : view_ok av ix -> ix !! hash = Some n -> ix !! prev = Some p ->
  n_pprev n = Some prev -> n_height n = n_height p + 1 -> relink av ix hash prev p = ix.
Proof.
  intros Hv Hk Hp Ep Eh. assert (expected_height av ix hash prev (n_height p) = (n_height n, ix)) as Ee.
  { unfold expected_height. destruct (_ && _) eqn:E1; [|destruct (bool_decide (av_tip av = Some prev)) eqn:E2].
    - apply andb_true_iff in E1 as [_ E1%bool_decide_eq_true]. pose proof (Hv _ _ E1 Hk). rewrite Hp.
      replace (n_height p =? av_height av - 1) with true by lia. f_equal. lia.
    - apply bool_decide_eq_true in E2. pose proof (Hv _ _ E2 Hp). f_equal. lia.
    - f_equal. lia. }
  unfold relink. by rewrite Ee, Hk, Ep, bool_decide_eq_true_2, Z.eqb_refl.
Qed.

Lemma genesis_test h : header_ok h ->
  (uint256_cmp (block_header_get_hash h) (hashGenesisBlock (consensus params)) =? 0) = true <->
  block_header_get_hash h = genesis.
Proof.
  intros Hh. destruct (header_hash_ok h Hh). apply (fixed_same 32); [|done]. split; [unfold zlen; lia|done].
Qed.

Lemma accept_known_ok av ix h : index_ok ix -> view_ok av ix -> header_ok h ->
  is_Some (ix !! block_header_get_hash h) ->
  index_ok (snd (accept_known params av ix h)) \/
  exists h', h' ∈ seen /\ collision h_hash256 (header_bytes h) (header_bytes h').
Proof.
  intros Hix Hv Hh [n Hn]. pose proof (index_links ix Hix) as Hl.
  destruct (Hix _ _ Hn) as [(_ & Hp & _) _ _ (h' & Hs' & Hh' & E' & _ & _ & Hg) _].
  assert (index_ok (promote_unfailed (clear_failed_child (repair_heights ix (block_header_get_hash h))
    (block_header_get_hash h)) (block_header_get_hash h))) as Hfin.
  { rewrite repair_heights_ok by done. by apply promote_unfailed_ok, clear_failed_ok. }
  unfold accept_known. destruct (_ =? 0) eqn:Eg; [by left|].
  destruct (ix !! hashPrevBlock h) as [p|] eqn:Ep; [|by left].
  destruct (header_hash_inj h h') as [<-|Hcol]; [done|done|done| |by right; exists h'].
  left. destruct (n_pprev n) as [q|] eqn:Eq; [|apply genesis_test in Hg; congruence].
  destruct Hp as (m & Hm & Eh). subst q. rewrite Ep in Hm. injection Hm as <-.
  by rewrite (relink_ok av ix _ _ n p).
Qed.

(** What accepting a header that is not in the index does: the verdict and the index, when the
    index is well-formed. *)
Lemma accept_new_cases av ix h : index_ok ix -> h ∈ seen -> header_ok h -> ix !! block_header_get_hash h = None ->
  hashPrevBlock h <> block_header_get_hash h ->
  match accept_new params av ix h with
  | (Ok _, ix') => exists n, ix' = <[block_header_get_hash h := n]> ix /\ index_ok ix'
  | (Err _, ix') => ix' = ix
  end.
Proof.
  intros Hix Hsn Hh Hf Hne. pose proof (index_links ix Hix) as Hl. unfold accept_new.
  assert (forall n, node_ok (<[block_header_get_hash h := n]> ix) (block_header_get_hash h) n -> exists n',
    promote (<[block_header_get_hash h := n]> ix) (block_header_get_hash h) = <[block_header_get_hash h := n']> ix /\
    index_ok (promote (<[block_header_get_hash h := n]> ix) (block_header_get_hash h))) as Hput.
  { intros n Hn. assert (index_ok (<[block_header_get_hash h := n]> ix)) as Hi by (by apply index_insert).
    pose proof (promote_ok _ (block_header_get_hash h) Hi) as Hi'. revert Hi'. unfold promote.
    rewrite lookup_insert_eq. case_if; [rewrite insert_insert_eq|]; eauto. }
  destruct (find_prev params ix h) as [prev|] eqn:Ef; [|done].
  destruct (check_block_header h params true) as [[]|] eqn:Ec; [|done].
  assert (match prev with Some k => repair_heights ix k | None => ix end = ix) as ->
    by (destruct prev; [by apply repair_heights_ok|done]).
  destruct (check_in_context params av ix h prev); [|done].
  unfold find_prev in Ef. destruct (_ =? 0) eqn:Eg in Ef.
  - apply genesis_test in Eg; [|done]. injection Ef as <-.
    rewrite add_root; [by apply Hput, root_node_ok|done| |done].
    destruct (ix !! hashPrevBlock h) eqn:Ep; [|done].
    destruct (climb_root _ _ _ Hix Ep) as [_ [? Hs]]. rewrite <- Eg in Hs. congruence.
  - destruct (ix !! hashPrevBlock h) as [p|] eqn:Ep; [|done].
    rewrite (add_child ix h p) by done. by apply Hput, child_node_ok.
Qed.

(** The verdict on it *)
Lemma accept_new_verdict av ix h : index_ok ix -> header_ok h -> ix !! block_header_get_hash h = None ->
  hashPrevBlock h <> block_header_get_hash h ->
  fst (accept_new params av ix h) = Ok tt <->
  check_block_header h params true = Ok tt /\
  (block_header_get_hash h = genesis \/
   exists p, ix !! hashPrevBlock h = Some p /\ Z.land (n_status p) BLOCK_FAILED_MASK = 0 /\
     let chain := chain_of ix (hashPrevBlock h) in
     (process_block_should_skip_contextual_header (av_height av) chain (consensus params) = true \/
      contextual_check_block_header h params chain (av_checkpoints av) = Ok tt)).
Proof.
  intros Hix Hh Hf Hne. pose proof (index_links ix Hix) as Hl. unfold accept_new, find_prev.
  destruct (uint256_cmp _ _ =? 0) eqn:Eg.
  - apply genesis_test in Eg; [|done]. destruct (check_block_header h params true) as [[]|]; [|naive_solver].
    cbn [check_in_context]. rewrite add_root; [naive_solver|done| |done].
    destruct (ix !! hashPrevBlock h) eqn:Ep; [|done].
    destruct (climb_root _ _ _ Hix Ep) as [_ [? Hs]]. rewrite <- Eg in Hs. congruence.
  - assert (block_header_get_hash h <> genesis) by (rewrite <- genesis_test by done; congruence).
    destruct (ix !! hashPrevBlock h) as [p|] eqn:Ep; [|naive_solver].
    destruct (Z.eqb_spec (Z.land (n_status p) BLOCK_FAILED_MASK) 0); [|naive_solver].
    destruct (check_block_header h params true) as [[]|]; [|naive_solver]. rewrite repair_heights_ok by done.
    unfold check_in_context. destruct (process_block_should_skip_contextual_header _ _ _);
      [|destruct (contextual_check_block_header _ _ _ _) as [[]|]; [|naive_solver]];
      rewrite (add_child ix h p) by done; naive_solver.
Qed.

(** *** Chain work *)

(** The work of a chain *)
Definition total_work (chain : list block_index) : Z :=
  sum_Z (map (fun b => limbs_Z (domain_consensus_block_proof (bi_nBits b))) chain).

Lemma chain_work_sum ix k n : index_ok ix -> ix !! k = Some n ->
  limbs_Z (n_chain_work n) = total_work (chain_of ix k) mod R256.
Proof.
  intros Hix. pose proof (index_links ix Hix) as Hl. remember (Z.to_nat (n_height n)) as j eqn:Ej.
  revert k n Ej. induction j as [|j IH]; intros k n Ej Hk; destruct (Hix k n Hk) as [(Hh & Hp & _) _ Hw _ _];
    rewrite (proj1 (chain_of_step ix k n Hl Hk)), Hw; unfold parent_work, GetBlockProof, total_work; cbn -[chain_of];
    destruct (n_pprev n) as [p|] eqn:Ep; cbn -[chain_of].
  - destruct Hp as (m & Hm & Eh). destruct (Hl p m Hm). lia.
  - f_equal. lia.
  - destruct Hp as (m & Hm & Eh). rewrite Hm, (IH p m ltac:(lia) Hm), Z.add_mod_idemp_l by done.
    by rewrite Z.add_comm.
  - lia.
Qed.

End Index.

(** ** Properties *)

(** The ancestor walk terminates on every index, also one whose links form cycles or whose
    heights are wrong: after as many steps as the node is above the target its result is final,
    and more iterations change nothing. *)
Theorem ancestor_walk_terminates ix k n height fuel : ix !! k = Some n -> 0 <= height <= n_height n ->
  n_height n - height <= Z.of_nat fuel ->
  block_index_get_ancestor ix k height = ancestor_loop ix fuel k (n_height n) height.
Proof.
  intros Hk Hh Hf. unfold block_index_get_ancestor. rewrite Hk. cbn [mbind option_bind].
  replace ((height >? n_height n) || (height <? 0)) with false by lia. apply ancestor_loop_fuel; lia.
Qed.

Section Reachable.
Context `{AllocatorTotal} `{HashFunctionsOk} `{CryptoRegistry}.
Context (params : chain_params).

(** The indexes that accepting headers, in any order, builds from the empty one.  The clock
    and the active chain may change between two headers. *)
Inductive reach : list block_header -> index -> Prop :=
  | reach_empty : reach [] ∅
  | reach_accept hs ix (clock : Clock) av h :
      reach hs ix -> header_ok h -> hashPrevBlock h <> block_header_get_hash h -> view_ok av ix ->
      reach (h :: hs) (snd (accept_block_header params av ix h)).

Lemma index_more_seen seen seen' ix : seen ⊆ seen' -> index_ok params seen ix -> index_ok params seen' ix.
Proof.
  intros Hs Hix k n Hk. destruct (Hix k n Hk) as [Hl Ha Hw (h & Hh & Ho) Hp]. constructor; try done.
  exists h. split; [by apply Hs|done].
Qed.

Definition seen_collision (hs : list block_header) : Prop :=
  exists h h', h ∈ hs /\ h' ∈ hs /\ collision h_hash256 (header_bytes h) (header_bytes h').

Context (Hlimit : uint256_ok (powLimit (consensus params))) (Hgenesis : fixed 32 (genesis params)).

Lemma reach_index_ok hs ix : reach hs ix -> seen_collision hs \/ index_ok params hs ix.
Proof.
  induction 1 as [|hs ix clock av h _ IH Hh Hne Hv]; [by right; intros k n|].
  destruct IH as [(a & b & Ha & Hb & Hc)|Hix]; [left; exists a, b; split_and!; [by right|by right|done]|].
  apply (index_more_seen hs (h :: hs)) in Hix; [|set_solver].
  assert (h ∈ h :: hs) as Hin by set_solver. unfold accept_block_header.
  destruct (ix !! block_header_get_hash h) eqn:Hk.
  - destruct (accept_known_ok params (h :: hs) Hgenesis av ix h) as [|(h' & Hin' & Hc)]; [done|done|done|done|by right|].
    left. by exists h, h'.
  - right. pose proof (accept_new_cases params (h :: hs) Hlimit Hgenesis av ix h Hix Hin Hh Hk Hne) as Hn.
    destruct (accept_new params av ix h) as [[]]; cbn in *; [by destruct Hn as (? & _ & ?)|by subst].
Qed.

(** C4: The block index is a tree rooted at the genesis block.  After any sequence of headers
    was offered to [accept_block_header], in any order, from the empty index: every node is
    linked to the genesis block by as many predecessors as its height; [block_index_get_ancestor]
    ends on the right node of that line for every height, whatever skip pointers it takes; the
    chain work of the node is the sum of the proofs of its line modulo 2^256; and its hash
    meets its own target, which is below the limit.  Otherwise two of the headers offered are a
    collision of the double hash. *)
Theorem block_index_tree hs ix : reach hs ix -> seen_collision hs \/
  forall k n, ix !! k = Some n ->
    climb ix (Z.to_nat (n_height n)) k = Some (genesis params) /\
    (forall height, 0 <= height <= n_height n -> exists a m,
       block_index_get_ancestor ix k height = Some a /\
       climb ix (Z.to_nat (n_height n - height)) k = Some a /\ ix !! a = Some m /\ n_height m = height) /\
    Z.of_nat (length (chain_of ix k)) = n_height n + 1 /\
    limbs_Z (n_chain_work n) = total_work (chain_of ix k) mod R256 /\
    le_decode k <= compact_value (n_bits n) <= le_decode (powLimit (consensus params)).
Proof.
  intros [Hc|Hix]%reach_index_ok; [by left|right]. intros k n Hk. pose proof (index_links _ _ ix Hix) as Hl.
  split_and!.
  - by apply (climb_root params hs ix).
  - intros height Hh. destruct (climb_height ix k n (Z.to_nat (n_height n - height)) Hl Hk ltac:(lia))
      as (a & m & E & Hm & Eh). exists a, m. split_and!; [|done|done|lia].
    by rewrite (get_ancestor_climb ix k n height Hl Hk), decide_True.
  - apply (chain_of_step ix k n Hl Hk).
  - by apply (chain_work_sum params hs).
  - destruct (Hix k n Hk) as [_ _ _ _ (_ & ? & ?)]. lia.
  - destruct (Hix k n Hk) as [_ _ _ _ (_ & ? & ?)]. lia.
Qed.

(** What [accept_block_header] makes of a header it does not know, on an index built
    from headers: it is accepted exactly when its version, Equihash solution, proof of work and
    clock bound are right and it is the genesis block or its predecessor is known, has not failed,
    and the header obeys the difficulty, median time, checkpoint and solution-size rules of its
    chain (or those are bypassed).  An accepted header is the only change of the index; a
    rejected one leaves it as it was. *)
Theorem header_accepted_exact `{Clock} hs ix av h : reach hs ix -> ~ seen_collision hs -> header_ok h ->
  hashPrevBlock h <> block_header_get_hash h -> ix !! block_header_get_hash h = None ->
  let '(verdict, ix') := accept_block_header params av ix h in
  (verdict = Ok tt <->
   (4 <= nVersion h /\ check_equihash_solution_via_registry h = true /\
    (target_usable (nBits h) /\ compact_value (nBits h) <= le_decode (powLimit (consensus params)) /\
     le_decode (block_header_get_hash h) <= compact_value (nBits h)) /\ nTime h <= GetAdjustedTime + 7200) /\
   (block_header_get_hash h = genesis params \/
    exists p, ix !! hashPrevBlock h = Some p /\ Z.land (n_status p) BLOCK_FAILED_MASK = 0 /\
      let chain := chain_of ix (hashPrevBlock h) in
      (process_block_should_skip_contextual_header (av_height av) chain (consensus params) = true \/
       contextual_check_block_header h params chain (av_checkpoints av) = Ok tt))) /\
  (verdict = Ok tt -> exists n, ix' = <[block_header_get_hash h := n]> ix) /\
  (verdict <> Ok tt -> ix' = ix).
Proof.
  intros [Hc|Hix]%reach_index_ok Hno Hh Hne Hk; [done|].
  apply (index_more_seen hs (h :: hs)) in Hix; [|set_solver].
  pose proof (accept_new_cases params (h :: hs) Hlimit Hgenesis av ix h Hix ltac:(set_solver) Hh Hk Hne) as Hn.
  pose proof (accept_new_verdict params (h :: hs) Hgenesis av ix h Hix Hh Hk Hne) as Hv.
  rewrite (check_header_iff h params Hh Hlimit) in Hv.
  unfold accept_block_header. rewrite Hk. destruct (accept_new params av ix h) as [v ix'].
  split; [exact Hv|]. destruct v as [[]|].
  - destruct Hn as (n & -> & _). split; [by exists n|by intros []].
  - split; [intros [=]|by intros _].
Qed.

(** A header with time zero below a header with time zero escapes every contextual rule.
    The bypass meant for incomplete imports takes a zero time for a hole in the averaging window,
    so such a header is accepted with any difficulty up to the limit, whatever the active chain
    and the checkpoints are; and its own node has time zero again, so the chain above it never
    meets the difficulty rule. *)
Theorem zero_time_bypass `{Clock} hs ix av h p : reach hs ix -> ~ seen_collision hs -> header_ok h ->
  hashPrevBlock h <> block_header_get_hash h -> ix !! block_header_get_hash h = None ->
  0 < nPowAveragingWindow (consensus params) -> check_block_header h params true = Ok tt ->
  block_header_get_hash h <> genesis params ->
  ix !! hashPrevBlock h = Some p -> n_time p = 0 -> Z.land (n_status p) BLOCK_FAILED_MASK = 0 -> nTime h = 0 ->
  exists ix' n, accept_block_header params av ix h = (Ok tt, ix') /\
    ix' !! block_header_get_hash h = Some n /\ n_time n = 0 /\ Z.land (n_status n) BLOCK_FAILED_MASK = 0 /\
    n_height n = n_height p + 1.
Proof.
  intros [Hc|Hix]%reach_index_ok Hno Hh Hne Hk Hw Hchk Hg Hp Ht Hs Hth; [done|].
  pose proof (index_links _ _ ix Hix) as Hl.
  assert (process_block_should_skip_contextual_header (av_height av) (chain_of ix (hashPrevBlock h))
    (consensus params) = true) as Hskip.
  { rewrite (proj1 (chain_of_step ix _ p Hl Hp)). apply zero_time_skips; [lia|]. by cbn. }
  unfold accept_block_header, accept_new, find_prev. rewrite Hk, Hchk, Hp, Hs.
  destruct (uint256_cmp _ _ =? 0) eqn:Eg; [by apply genesis_test in Eg|].
  rewrite Z.eqb_refl, repair_heights_ok by done. unfold check_in_context. rewrite Hskip.
  rewrite (add_child ix h p), promote_fresh by done. eexists _, _. split; [done|]. by rewrite lookup_insert_eq.
Qed.

End Reachable.

(** The height repair stops at the first node that is not above its predecessor: two
    neighbours that both lost their height (a height of zero, as an import leaves them) are not
    repaired.  Only the node itself changes; it is put one above the wrong height of its
    predecessor. *)
Theorem repair_stops_at_lost_heights ix k n pk p : ix !! k = Some n -> n_pprev n = Some pk -> ix !! pk = Some p ->
  n_height n <= n_height p ->
  repair_heights ix k =
    <[k := with_height n (n_height p + 1) (arith_uint256_add (n_chain_work p) (GetBlockProof n))]> ix.
Proof.
  intros Hk Ep Hp Hh. assert (height_off ix k = true) as Ho.
  { unfold height_off. rewrite Hk, Ep. cbn. rewrite Hp. lia. }
  assert (repair_walk ix REPAIR_DEPTH k [] = ([], k)) as Hw.
  { unfold REPAIR_DEPTH. change (Z.to_nat 2048) with (S (Z.to_nat 2047)). cbn [repair_walk]. rewrite Hk, Ep, Hp.
    by replace (n_height p <? n_height n) with false by lia. }
  unfold repair_heights. rewrite Ho, Hw, Ho. unfold fix_height. cbn [foldl]. rewrite Hk, Ep. cbn. by rewrite Hp.
Qed.

(** ** Samples *)

Definition rooted_at (p : consensus_params) (g : uint256_t) : consensus_params := {|
  hashGenesisBlock := g; fCoinbaseMustBeProtected := fCoinbaseMustBeProtected p;
  nSubsidySlowStartInterval := nSubsidySlowStartInterval p;
  nPreButtercupSubsidyHalvingInterval := nPreButtercupSubsidyHalvingInterval p;
  nPostButtercupSubsidyHalvingInterval := nPostButtercupSubsidyHalvingInterval p;
  nMajorityEnforceBlockUpgrade := nMajorityEnforceBlockUpgrade p;
  nMajorityRejectBlockOutdated := nMajorityRejectBlockOutdated p; nMajorityWindow := nMajorityWindow p;
  vUpgrades := vUpgrades p; powLimit := powLimit p;
  nPowAllowMinDifficultyBlocksAfterHeight := nPowAllowMinDifficultyBlocksAfterHeight p;
  nPowAllowMinDifficultyEnabled := nPowAllowMinDifficultyEnabled p;
  scaleDifficultyAtUpgradeFork := scaleDifficultyAtUpgradeFork p; nPowAveragingWindow := nPowAveragingWindow p;
  nPowMaxAdjustDown := nPowMaxAdjustDown p; nPowMaxAdjustUp := nPowMaxAdjustUp p;
  nPreButtercupPowTargetSpacing := nPreButtercupPowTargetSpacing p;
  nPostButtercupPowTargetSpacing := nPostButtercupPowTargetSpacing p; nMinimumChainWork := nMinimumChainWork p |}.

Definition header_on (prev : uint256_t) : block_header := {|
  nVersion := 4; hashPrevBlock := prev; hashMerkleRoot := replicate 32 2; hashFinalSaplingRoot := replicate 32 3;
  nTime := 0; nBits := 0x1f07ffff; nNonce := replicate 32 4; nSolution := [9; 8; 7] |}.

Definition root_header : block_header := header_on (replicate 32 0).
Definition root_hash : uint256_t := Eval vm_compute in @block_header_get_hash (fun _ => true) checksum_hashes root_header.
Definition next_header : block_header := header_on root_hash.

Definition rooted_params : chain_params :=
  {| consensus := rooted_at init_main_params root_hash; nEquihashN := 200; nEquihashK := 9; checkpointData := [] |}.

Definition no_tip : active_view := {| av_height := -1; av_tip := None; av_checkpoints := true |}.

Definition sample_accept (ix : index) (h : block_header) : check * index :=
  @accept_block_header (fun _ => true) checksum_hashes sample_registry 1600000000 rooted_params no_tip ix h.

Definition root_index : index := snd (sample_accept ∅ root_header).
Definition next_index : index := snd (sample_accept root_index next_header).

Lemma root_header_ok : header_ok root_header.
Proof. unfold header_ok. split_and!; compute_decide. Qed.

Lemma next_header_ok : header_ok next_header.
Proof. unfold header_ok. split_and!; compute_decide. Qed.

Lemma root_index_reach : @reach (fun _ => true) checksum_hashes sample_registry rooted_params [root_header] root_index.
Proof.
  apply (@reach_accept (fun _ => true) checksum_hashes sample_registry rooted_params [] ∅ 1600000000 no_tip root_header);
    [constructor|exact root_header_ok|by vm_compute|intros k n [=]].
Qed.

Lemma next_index_reach :
  @reach (fun _ => true) checksum_hashes sample_registry rooted_params [next_header; root_header] next_index.
Proof.
  apply (@reach_accept (fun _ => true) checksum_hashes sample_registry rooted_params [root_header] root_index 1600000000
    no_tip next_header); [exact root_index_reach|exact next_header_ok|by vm_compute|intros k n [=]].
Qed.

Lemma root_no_collision : ~ @seen_collision checksum_hashes [root_header].
Proof. intros (h & h' & Hh & Hh' & [Hne _]). apply list_elem_of_singleton in Hh, Hh'. congruence. Qed.

Lemma rooted_limit : uint256_ok (powLimit (consensus rooted_params)).
Proof. compute_decide. Qed.

Lemma rooted_genesis : fixed 32 (genesis rooted_params).
Proof. compute_decide. Qed.

Lemma block_index_tree_witness : @seen_collision checksum_hashes [next_header; root_header] \/
  climb next_index 1 (@block_header_get_hash (fun _ => true) checksum_hashes next_header) = Some (genesis rooted_params).
Proof.
  destruct (@block_index_tree (fun _ => true) (fun _ => eq_refl) checksum_hashes checksum_hashes_ok sample_registry
    rooted_params rooted_limit rooted_genesis _ _ next_index_reach) as [Hc|Ht]; [by left|right].
  assert (exists n, next_index !! @block_header_get_hash (fun _ => true) checksum_hashes next_header = Some n /\ n_height n = 1)
    as (n & Hn & Eh) by (eexists; vm_compute; split; reflexivity).
  destruct (Ht _ n Hn) as [E _]. by rewrite Eh in E.
Defined.

Lemma header_accepted_exact_witness : fst (sample_accept root_index next_header) = Ok tt.
Proof.
  pose proof (@header_accepted_exact (fun _ => true) (fun _ => eq_refl) checksum_hashes checksum_hashes_ok sample_registry
    rooted_params rooted_limit rooted_genesis 1600000000 _ _ no_tip next_header root_index_reach root_no_collision
    next_header_ok ltac:(by vm_compute) ltac:(by vm_compute)) as Hx.
  unfold sample_accept. destruct (accept_block_header _ _ _ _) as [v ix']. apply Hx. clear Hx v ix'.
  assert (@check_block_header (fun _ => true) checksum_hashes sample_registry 1600000000 next_header rooted_params true
    = Ok tt) as Hc by by vm_compute.
  apply (@check_header_iff (fun _ => true) (fun _ => eq_refl) checksum_hashes checksum_hashes_ok sample_registry
    1600000000 next_header rooted_params next_header_ok rooted_limit) in Hc. split; [exact Hc|right].
  eexists. split; [vm_compute; reflexivity|]. split; [reflexivity|left]. by vm_compute.
Defined.

Lemma zero_time_bypass_witness : exists ix' n, sample_accept root_index next_header = (Ok tt, ix') /\
  ix' !! @block_header_get_hash (fun _ => true) checksum_hashes next_header = Some n /\ n_time n = 0 /\
  Z.land (n_status n) BLOCK_FAILED_MASK = 0 /\ n_height n = 1.
Proof.
  assert (exists p, root_index !! root_hash = Some p /\ n_time p = 0 /\ Z.land (n_status p) BLOCK_FAILED_MASK = 0 /\
    n_height p + 1 = 1) as (p & Hp & Ht & Hs & <-) by (eexists; vm_compute; split_and!; reflexivity).
  refine (@zero_time_bypass (fun _ => true) (fun _ => eq_refl) checksum_hashes checksum_hashes_ok sample_registry
    rooted_params rooted_limit rooted_genesis 1600000000 _ _ no_tip next_header p root_index_reach root_no_collision
    next_header_ok _ _ _ _ _ Hp Ht Hs eq_refl); by vm_compute.
Defined.

Definition lost_node (pprev : option uint256_t) (height : Z) : node :=
  with_height (with_links (@fresh_node (fun _ => true) root_header) pprev None) height arith_uint256_set_zero.

Definition lost_index : index :=
  <[[3] := lost_node (Some [2]) 0]> (<[[2] := lost_node (Some [1]) 0]> (<[[1] := lost_node None 100]> ∅)).

Lemma repair_stops_at_lost_heights_witness :
  n_height <$> repair_heights lost_index [3] !! [3] = Some 1 /\
  n_height <$> repair_heights lost_index [3] !! [2] = Some 0.
Proof.
  rewrite (repair_stops_at_lost_heights lost_index [3] (lost_node (Some [2]) 0) [2] (lost_node (Some [1]) 0));
    [|reflexivity|reflexivity|reflexivity|done]. split; reflexivity.
Defined.

(** Two nodes that are each other's predecessor *)
Definition cyclic_index : index := <[[2] := lost_node (Some [1]) 7]> (<[[1] := lost_node (Some [2]) 7]> ∅).

Lemma ancestor_walk_terminates_witness :
  block_index_get_ancestor cyclic_index [2] 4 = ancestor_loop cyclic_index 90 [2] 7 4.
Proof.
  apply (ancestor_walk_terminates cyclic_index [2] (lost_node (Some [1]) 7) 4 90); [reflexivity|cbn; lia|cbn; lia].
Defined.
