(* ===== verification/Blake2b.v ===== *)
(** BLAKE2b: lib/crypto/src/blake2b.c, and the batched hashing of Equihash inputs of
    lib/crypto/src/blake2b_avx2.c.

    The compression function is written once over an interface of word operations, which the
    64-bit words of the scalar code and the vector registers of the AVX code implement.  Words
    are read from and written to memory in the little-endian order of the machine, as the code
    does with [memcpy].

    - any sequence of updates followed by the finalisation is the hash of the concatenation of
      the pieces as RFC 7693 defines it, whatever the boundaries ([blake2b_streaming]);
    - the vector code computes in every lane what the scalar code computes
      ([compress_lanes_scalar]), so the batched hashes are the scalar ones on every processor
      ([batch_hash_scalar]). *)

From S2P Require Import Prelude.

(** ** Words *)

(** The low 64 bits, the [u64] of the prelude ([wrap64_u64]) by a mask, which evaluates faster *)
Definition wrap64 (x : Z) : Z := x .& 0xFFFFFFFFFFFFFFFF.

Definition rotr64 (x n : Z) : Z := (x ≫ n) .| wrap64 (x ≪ (64 - n)).

Definition load64 (src : bytes) : Z := le_decode (take 8 src).

Definition store64 (w : Z) : bytes := le_encode 8 w.

(** The operations of the mixing function; the sum of three words is taken in the order of the
    code, [(a + b) + m] in scalar and [a + (b + m)] in vector form. *)
Class WordOps (W : Type) := {
  w_add : W -> W -> W;
  w_add3 : W -> W -> W -> W;
  w_xor : W -> W -> W;
  w_rotr : W -> Z -> W;
}.

#[export] Instance word64 : WordOps Z := {|
  w_add := fun a b => wrap64 (a + b);
  w_add3 := fun a b m => wrap64 (wrap64 (a + b) + m);
  w_xor := Z.lxor;
  w_rotr := rotr64;
|}.

(** A vector register: its lanes *)
Abbreviation lanes := (list Z).

Definition mm_add (a b : lanes) : lanes := zip_with (fun x y => wrap64 (x + y)) a b.
Definition mm_xor (a b : lanes) : lanes := zip_with Z.lxor a b.
Definition mm_or (a b : lanes) : lanes := zip_with Z.lor a b.
Definition mm_srli (a : lanes) (n : Z) : lanes := map (fun x => x ≫ n) a.
Definition mm_slli (a : lanes) (n : Z) : lanes := map (fun x => wrap64 (x ≪ n)) a.
Definition mm_rotr (x : lanes) (n : Z) : lanes := mm_or (mm_srli x n) (mm_slli x (64 - n)).

#[export] Instance vector : WordOps lanes := {|
  w_add := mm_add;
  w_add3 := fun a b m => mm_add a (mm_add b m);
  w_xor := mm_xor;
  w_rotr := mm_rotr;
|}.

(** ** Compression *)

Definition blake2b_IV : list Z := [
  0x6a09e667f3bcc908; 0xbb67ae8584caa73b; 0x3c6ef372fe94f82b; 0xa54ff53a5f1d36f1;
  0x510e527fade682d1; 0x9b05688c2b3e6c1f; 0x1f83d9abfb41bd6b; 0x5be0cd19137e2179].

Definition blake2b_sigma : list (list nat) := [
  [ 0; 1; 2; 3; 4; 5; 6; 7; 8; 9;10;11;12;13;14;15];
  [14;10; 4; 8; 9;15;13; 6; 1;12; 0; 2;11; 7; 5; 3];
  [11; 8;12; 0; 5; 2;15;13;10;14; 3; 6; 7; 1; 9; 4];
  [ 7; 9; 3; 1;13;12;11;14; 2; 6; 5;10; 4; 0;15; 8];
  [ 9; 0; 5; 7; 2; 4;10;15;14; 1;11;12; 6; 8; 3;13];
  [ 2;12; 6;10; 0;11; 8; 3; 4;13; 7; 5;15;14; 1; 9];
  [12; 5; 1;15;14;13; 4;10; 0; 7; 6; 3; 9; 2; 8;11];
  [13;11; 7;14;12; 1; 3; 9; 5; 0;15; 4; 8; 6; 2;10];
  [ 6;15;14; 9;11; 3; 0; 8;12; 2;13; 7; 1; 4;10; 5];
  [10; 2; 8; 4; 7; 6; 1; 5;15;11; 9;14; 3;12;13; 0];
  [ 0; 1; 2; 3; 4; 5; 6; 7; 8; 9;10;11;12;13;14;15];
  [14;10; 4; 8; 9;15;13; 6; 1;12; 0; 2;11; 7; 5; 3]]%nat.

Section Mix.
Context {W : Type} `{Inhabited W} `{WordOps W}.

(** The macro [G] on the words [a], [b], [c], [d] of [v] *)
Definition G (m : list W) (r i : nat) (v : list W) (a b c d : nat) : list W :=
  let sigma j := (blake2b_sigma !!! r) !!! j in
  let va := w_add3 (v !!! a) (v !!! b) (m !!! sigma (2 * i)%nat) in
  let vd := w_rotr (w_xor (v !!! d) va) 32 in
  let vc := w_add (v !!! c) vd in
  let vb := w_rotr (w_xor (v !!! b) vc) 24 in
  let va := w_add3 va vb (m !!! sigma (2 * i + 1)%nat) in
  let vd := w_rotr (w_xor vd va) 16 in
  let vc := w_add vc vd in
  let vb := w_rotr (w_xor vb vc) 63 in
  <[a := va]> (<[b := vb]> (<[c := vc]> (<[d := vd]> v))).

Definition ROUND (m : list W) (v : list W) (r : nat) : list W :=
  let v := G m r 0 v 0 4 8 12 in
  let v := G m r 1 v 1 5 9 13 in
  let v := G m r 2 v 2 6 10 14 in
  let v := G m r 3 v 3 7 11 15 in
  let v := G m r 4 v 0 5 10 15 in
  let v := G m r 5 v 1 6 11 12 in
  let v := G m r 6 v 2 7 8 13 in
  G m r 7 v 3 4 9 14.

Definition rounds (m v : list W) : list W := foldl (ROUND m) v (seq 0 12).

End Mix.

(** ** The streaming context *)

Definition BLAKE2B_BLOCKBYTES : nat := 128.
Definition BLAKE2B_OUTBYTES : Z := 64.
Definition BLAKE2B_KEYBYTES : Z := 64.

Record blake2b_ctx := Blake2bCtx {
  b_h : list Z;
  b_t0 : Z;
  b_t1 : Z;
  b_f0 : Z;
  b_f1 : Z;
  b_buf : bytes;
  b_buflen : nat;
  b_outlen : Z;
}.

Definition with_h (c : blake2b_ctx) (h : list Z) : blake2b_ctx :=
  {| b_h := h; b_t0 := b_t0 c; b_t1 := b_t1 c; b_f0 := b_f0 c; b_f1 := b_f1 c; b_buf := b_buf c;
     b_buflen := b_buflen c; b_outlen := b_outlen c |}.

Definition with_buf (c : blake2b_ctx) (buf : bytes) (len : nat) : blake2b_ctx :=
  {| b_h := b_h c; b_t0 := b_t0 c; b_t1 := b_t1 c; b_f0 := b_f0 c; b_f1 := b_f1 c; b_buf := buf;
     b_buflen := len; b_outlen := b_outlen c |}.

(** The sixteen message words of a block *)
Definition message_words (block : bytes) : list Z := map (fun i => load64 (drop (8 * i) block)) (seq 0 16).

(** The work vector before the rounds *)
Definition work_vector (c : blake2b_ctx) : list Z :=
  map (fun i => b_h c !!! i) (seq 0 8) ++
  [blake2b_IV !!! 0%nat; blake2b_IV !!! 1%nat; blake2b_IV !!! 2%nat; blake2b_IV !!! 3%nat;
   blake2b_IV !!! 4%nat .^ b_t0 c; blake2b_IV !!! 5%nat .^ b_t1 c;
   blake2b_IV !!! 6%nat .^ b_f0 c; blake2b_IV !!! 7%nat .^ b_f1 c].

Definition blake2b_compress (c : blake2b_ctx) (block : bytes) : blake2b_ctx :=
  let v := rounds (message_words block) (work_vector c) in
  with_h c (map (fun i => b_h c !!! i .^ (v !!! i .^ v !!! (i + 8)%nat)) (seq 0 8)).

Definition blake2b_increment_counter (c : blake2b_ctx) (inc : Z) : blake2b_ctx :=
  let t0 := u64 (b_t0 c + inc) in
  {| b_h := b_h c; b_t0 := t0; b_t1 := u64 (b_t1 c + (if t0 <? inc then 1 else 0)); b_f0 := b_f0 c;
     b_f1 := b_f1 c; b_buf := b_buf c; b_buflen := b_buflen c; b_outlen := b_outlen c |}.

(** The 64 bytes of [struct blake2b_param] *)
Record blake2b_param := Blake2bParam {
  digest_length : Z;
  key_length : Z;
  fanout : Z;
  depth : Z;
  salt : bytes;
  personal : bytes;
}.

Definition param_bytes (p : blake2b_param) : bytes :=
  [digest_length p; key_length p; fanout p; depth p] ++ replicate 28 0 ++ salt p ++ personal p.

Definition blake2b_init_param (p : blake2b_param) : blake2b_ctx := {|
  b_h := map (fun i => blake2b_IV !!! i .^ load64 (drop (8 * i) (param_bytes p))) (seq 0 8);
  b_t0 := 0; b_t1 := 0; b_f0 := 0; b_f1 := 0; b_buf := replicate BLAKE2B_BLOCKBYTES 0; b_buflen := 0;
  b_outlen := digest_length p |}.

(** [memcpy(buf + off, src, len)] *)
Definition buf_write (buf : bytes) (off : nat) (src : bytes) : bytes :=
  take off buf ++ src ++ drop (off + length src) buf.

(** The loop over whole blocks: the last one, also when it is whole, stays for the buffer. *)
Fixpoint update_loop (fuel : nat) (c : blake2b_ctx) (pin : bytes) : blake2b_ctx * bytes :=
  match fuel with
  | O => (c, pin)
  | S fuel' =>
      if Nat.ltb BLAKE2B_BLOCKBYTES (length pin) then
        update_loop fuel'
          (blake2b_compress (blake2b_increment_counter c (Z.of_nat BLAKE2B_BLOCKBYTES)) (take BLAKE2B_BLOCKBYTES pin))
          (drop BLAKE2B_BLOCKBYTES pin)
      else (c, pin)
  end.

Definition blake2b_update (c : blake2b_ctx) (pin : bytes) : blake2b_ctx :=
  if Nat.eqb (length pin) 0 then c
  else
    let left := b_buflen c in
    let fill := (BLAKE2B_BLOCKBYTES - left)%nat in
    let '(c, pin) :=
      if Nat.ltb fill (length pin) then
        let buf := buf_write (b_buf c) left (take fill pin) in
        let c := blake2b_increment_counter (with_buf c buf 0) (Z.of_nat BLAKE2B_BLOCKBYTES) in
        update_loop (length pin) (blake2b_compress c buf) (drop fill pin)
      else (c, pin) in
    with_buf c (buf_write (b_buf c) (b_buflen c) pin) (b_buflen c + length pin).

Inductive blake2b_err := BLAKE2B_FAILED | BLAKE2B_UNDEFINED.

(** [outlen] is the room of the output.  A digest length above the 64 bytes of the internal
    buffer is read past its end. *)
Definition blake2b_final (c : blake2b_ctx) (outlen : Z) : result blake2b_err bytes :=
  if outlen <? b_outlen c then Err BLAKE2B_FAILED
  else
    let c := blake2b_increment_counter c (Z.of_nat (b_buflen c)) in
    let buf := buf_write (b_buf c) (b_buflen c) (replicate (BLAKE2B_BLOCKBYTES - b_buflen c) 0) in
    let c := {| b_h := b_h c; b_t0 := b_t0 c; b_t1 := b_t1 c; b_f0 := 2 ^ 64 - 1; b_f1 := b_f1 c; b_buf := buf;
                b_buflen := b_buflen c; b_outlen := b_outlen c |} in
    let c := blake2b_compress c buf in
    if BLAKE2B_OUTBYTES <? b_outlen c then Err BLAKE2B_UNDEFINED
    else Ok (take (Z.to_nat (b_outlen c)) (mjoin (map store64 (b_h c)))).

Definition key_block (key : bytes) : bytes := key ++ replicate (BLAKE2B_BLOCKBYTES - length key) 0.

Definition basic_param (outlen keylen : Z) : blake2b_param :=
  {| digest_length := u8 outlen; key_length := u8 keylen; fanout := 1; depth := 1; salt := replicate 16 0;
     personal := replicate 16 0 |}.

Definition blake2b_init (outlen : Z) : result blake2b_err blake2b_ctx :=
  if (outlen =? 0) || (outlen >? BLAKE2B_OUTBYTES) then Err BLAKE2B_FAILED
  else Ok (blake2b_init_param (basic_param outlen 0)).

Definition blake2b_init_key (outlen : Z) (key : bytes) : result blake2b_err blake2b_ctx :=
  if (outlen =? 0) || (outlen >? BLAKE2B_OUTBYTES) then Err BLAKE2B_FAILED
  else if (zlen key =? 0) || (zlen key >? BLAKE2B_KEYBYTES) then Err BLAKE2B_FAILED
  else Ok (blake2b_update (blake2b_init_param (basic_param outlen (zlen key))) (key_block key)).

(** A salt or a personalisation that is NULL leaves the zeros; a key longer than a block
    overruns the block it is copied to. *)
Definition blake2b_init_salt_personal (outlen : Z) (key : bytes) (salt personal : option bytes)
    : result blake2b_err blake2b_ctx :=
  let c := blake2b_init_param {|
    digest_length := u8 outlen; key_length := u8 (zlen key); fanout := 1; depth := 1;
    salt := default (replicate 16 0) salt; personal := default (replicate 16 0) personal |} in
  if zlen key =? 0 then Ok c
  else if zlen key >? Z.of_nat BLAKE2B_BLOCKBYTES then Err BLAKE2B_UNDEFINED
  else Ok (blake2b_update c (key_block key)).

Definition blake2b (outlen : Z) (pin key : bytes) : result blake2b_err bytes :=
  c ← (if zlen key >? 0 then blake2b_init_key outlen key else blake2b_init outlen);
  blake2b_final (blake2b_update c pin) outlen.

(** ** The definition of RFC 7693 *)

(** One compression with the byte counter [t] and the final flag *)
Definition compress_at (h : list Z) (t : Z) (last : bool) (block : bytes) : list Z :=
  b_h (blake2b_compress {| b_h := h; b_t0 := t mod 2 ^ 64; b_t1 := t / 2 ^ 64 mod 2 ^ 64;
    b_f0 := if last then 2 ^ 64 - 1 else 0; b_f1 := 0; b_buf := []; b_buflen := 0; b_outlen := 0 |} block).

(** All blocks but the last, which may be whole *)
Fixpoint absorb (fuel : nat) (h : list Z) (t : Z) (m : bytes) : list Z * Z * bytes :=
  match fuel with
  | O => (h, t, m)
  | S fuel' =>
      if Nat.ltb BLAKE2B_BLOCKBYTES (length m)
      then absorb fuel' (compress_at h (t + 128) false (take BLAKE2B_BLOCKBYTES m)) (t + 128)
             (drop BLAKE2B_BLOCKBYTES m)
      else (h, t, m)
  end.

Definition blake2b_ref (h0 : list Z) (outlen : Z) (m : bytes) : bytes :=
  let '(h, t, rest) := absorb (length m) h0 0 m in
  let block := rest ++ replicate (BLAKE2B_BLOCKBYTES - length rest) 0 in
  take (Z.to_nat outlen) (mjoin (map store64 (compress_at h (t + zlen rest) true block))).

(** ** Streaming *)

Lemma absorb_fuel f f' h t m : (length m <= f)%nat -> (length m <= f')%nat -> absorb f h t m = absorb f' h t m.
Proof.
  revert f' h t m. induction f as [|f IH]; intros [|f'] h t m Hf Hf'; cbn [absorb]; try done;
    destruct (Nat.ltb_spec BLAKE2B_BLOCKBYTES (length m)) as [Hl|]; try done;
    try (unfold BLAKE2B_BLOCKBYTES in *; lia).
  apply IH; rewrite length_drop; unfold BLAKE2B_BLOCKBYTES in *; lia.
Qed.

(** Absorbing a message in two parts *)
Lemma absorb_app f h t m x h' t' rest : (length m <= f)%nat -> absorb f h t m = (h', t', rest) ->
  absorb (length (m ++ x)) h t (m ++ x) = absorb (length (rest ++ x)) h' t' (rest ++ x).
Proof.
  revert h t m. induction f as [|f IH]; intros h t m Hf; cbn [absorb]; [by intros [= <- <- <-]|].
  destruct (Nat.ltb_spec BLAKE2B_BLOCKBYTES (length m)) as [Hl|]; [|by intros [= <- <- <-]].
  intros E. assert (length (drop BLAKE2B_BLOCKBYTES m) <= f)%nat as Hd
    by (rewrite length_drop; unfold BLAKE2B_BLOCKBYTES in *; lia).
  rewrite <- (IH _ _ _ Hd E).
  rewrite !length_app, length_drop.
  replace (length m + length x)%nat with (S (length m + length x - 1)) by lia. cbn [absorb].
  rewrite length_app. replace (Nat.ltb BLAKE2B_BLOCKBYTES (length m + length x)) with true
    by (symmetry; apply Nat.ltb_lt; lia).
  rewrite take_app_le, drop_app_le by lia. apply absorb_fuel; rewrite length_app, length_drop;
    unfold BLAKE2B_BLOCKBYTES in *; lia.
Qed.

Lemma absorb_rest f h t m h' t' rest : (length m <= f)%nat -> absorb f h t m = (h', t', rest) ->
  (length rest <= BLAKE2B_BLOCKBYTES)%nat.
Proof.
  revert h t m. induction f as [|f IH]; intros h t m Hf; cbn [absorb].
  - intros [= <- <- <-]. unfold BLAKE2B_BLOCKBYTES. lia.
  - destruct (Nat.ltb_spec BLAKE2B_BLOCKBYTES (length m)) as [Hl|]; [|by intros [= <- <- <-]].
    apply IH. rewrite length_drop. unfold BLAKE2B_BLOCKBYTES in *. lia.
Qed.

Lemma counter_carry t inc : 0 <= t -> 0 <= inc < 2 ^ 64 ->
  u64 (t mod 2 ^ 64 + inc) = (t + inc) mod 2 ^ 64 /\
  u64 (t / 2 ^ 64 mod 2 ^ 64 + (if u64 (t mod 2 ^ 64 + inc) <? inc then 1 else 0)) = (t + inc) / 2 ^ 64 mod 2 ^ 64.
Proof.
  intros Ht Hi. unfold uwrap. rewrite Z.add_mod_idemp_l by done. split; [done|].
  assert ((t + inc) / 2 ^ 64 = t / 2 ^ 64 + (if (t + inc) mod 2 ^ 64 <? inc then 1 else 0)) as ->.
  { destruct (Z.ltb_spec ((t + inc) mod 2 ^ 64) inc); div_mod_lia. }
  by rewrite Z.add_mod_idemp_l.
Qed.

(** The counter of a context that is not finalised *)
Definition counts (c : blake2b_ctx) (t : Z) : Prop :=
  0 <= t /\ b_t0 c = t mod 2 ^ 64 /\ b_t1 c = t / 2 ^ 64 mod 2 ^ 64 /\ b_f0 c = 0 /\ b_f1 c = 0.

(** The context after the message [m] from the chaining value [h0] *)
Record absorbed (h0 : list Z) (outlen : Z) (m : bytes) (c : blake2b_ctx) : Prop := {
  ab_state : exists t, absorb (length m) h0 0 m = (b_h c, t, take (b_buflen c) (b_buf c)) /\ counts c t;
  ab_buf : length (b_buf c) = BLAKE2B_BLOCKBYTES;
  ab_buflen : (b_buflen c <= BLAKE2B_BLOCKBYTES)%nat;
  ab_outlen : b_outlen c = outlen;
}.

(** The fields a compression does not touch *)
Definition same_buffer (c c' : blake2b_ctx) : Prop :=
  b_buf c' = b_buf c /\ b_buflen c' = b_buflen c /\ b_outlen c' = b_outlen c.

Lemma compress_step c t inc block : counts c t -> 0 <= inc < 2 ^ 64 ->
  let c' := blake2b_compress (blake2b_increment_counter c inc) block in
  b_h c' = compress_at (b_h c) (t + inc) false block /\ counts c' (t + inc) /\ same_buffer c c'.
Proof.
  intros (Ht & E0 & E1 & F0 & F1) Hi. destruct (counter_carry t inc Ht Hi) as [C0 C1].
  unfold compress_at, blake2b_compress, work_vector, counts, same_buffer, blake2b_increment_counter. cbn -[rounds message_words].
  rewrite E0, E1, F0, F1, C0, <- C1, <- C0. split_and!; try done. lia.
Qed.

Lemma update_loop_absorb fuel c t pin : counts c t ->
  exists t', absorb fuel (b_h c) t pin = (b_h (fst (update_loop fuel c pin)), t', snd (update_loop fuel c pin)) /\
    counts (fst (update_loop fuel c pin)) t' /\ same_buffer c (fst (update_loop fuel c pin)).
Proof.
  revert c t pin. induction fuel as [|fuel IH]; intros c t pin Hc; cbn [absorb update_loop]; [by exists t|].
  destruct (Nat.ltb _ _); [|by exists t].
  destruct (compress_step c t 128 (take BLAKE2B_BLOCKBYTES pin) Hc ltac:(lia)) as (Eh & Hc' & Hb).
  destruct (IH _ _ (drop BLAKE2B_BLOCKBYTES pin) Hc') as (t' & E & Hc'' & Hb').
  exists t'. rewrite <- Eh. split_and!; [exact E|exact Hc''|].
  destruct Hb as (B1 & B2 & B3), Hb' as (B1' & B2' & B3').
  unfold same_buffer. split_and!; etransitivity; eassumption.
Qed.

Lemma buf_write_length buf off src : (off + length src <= length buf)%nat ->
  length (buf_write buf off src) = length buf.
Proof. intros Hl. unfold buf_write. rewrite !length_app, length_take, length_drop. lia. Qed.

Lemma buf_write_take buf off src : (off + length src <= length buf)%nat ->
  take (off + length src) (buf_write buf off src) = take off buf ++ src.
Proof.
  intros Hl. unfold buf_write. rewrite app_assoc, take_app_le by (rewrite length_app, length_take; lia).
  apply take_ge. rewrite length_app, length_take. lia.
Qed.

Lemma absorb_short f h t m : (length m <= BLAKE2B_BLOCKBYTES)%nat -> absorb f h t m = (h, t, m).
Proof. intros Hm. destruct f; cbn [absorb]; [done|]. by rewrite (proj2 (Nat.ltb_ge _ _) Hm). Qed.

(** The first block of an update, completed in the buffer *)
Lemma absorb_first_block h t buf left x : length buf = BLAKE2B_BLOCKBYTES -> (left <= BLAKE2B_BLOCKBYTES)%nat ->
  (BLAKE2B_BLOCKBYTES - left < length x)%nat ->
  let fill := (BLAKE2B_BLOCKBYTES - left)%nat in
  absorb (length (take left buf ++ x)) h t (take left buf ++ x) =
  absorb (length x) (compress_at h (t + 128) false (buf_write buf left (take fill x))) (t + 128) (drop fill x).
Proof.
  intros Hb Hl Hx fill. rewrite length_app, length_take_le by lia.
  assert (length (take fill x) = fill) as Ef by (rewrite length_take; unfold fill; lia).
  assert (buf_write buf left (take fill x) = take left buf ++ take fill x) as ->.
  { unfold buf_write. rewrite Ef, drop_ge by (unfold fill; lia). by rewrite app_nil_r. }
  assert (length (take left buf) = left) as El by (rewrite length_take; lia).
  replace (left + length x)%nat with (S (left + length x - 1)) by (unfold BLAKE2B_BLOCKBYTES in *; lia). cbn [absorb].
  rewrite (proj2 (Nat.ltb_lt _ _)) by (rewrite length_app; lia).
  assert (take BLAKE2B_BLOCKBYTES (take left buf ++ x) = take left buf ++ take fill x) as ->.
  { rewrite take_app, El, (take_ge (take left buf)) by lia. done. }
  assert (drop BLAKE2B_BLOCKBYTES (take left buf ++ x) = drop fill x) as ->.
  { rewrite drop_app, El, (drop_ge (take left buf)) by lia. done. }
  apply absorb_fuel; rewrite length_drop; unfold fill, BLAKE2B_BLOCKBYTES in *; lia.
Qed.

Lemma update_absorbed h0 outlen m x c : absorbed h0 outlen m c -> absorbed h0 outlen (m ++ x) (blake2b_update c x).
Proof.
  intros [(t & Ea & Hc) Hb Hl Ho]. unfold blake2b_update.
  destruct (Nat.eqb_spec (length x) 0) as [E|Hx].
  { apply nil_length_inv in E as ->. rewrite app_nil_r. constructor; [by exists t|done..]. }
  pose proof (absorb_app (length m) h0 0 m x _ _ _ ltac:(lia) Ea) as Eapp.
  destruct (Nat.ltb_spec (BLAKE2B_BLOCKBYTES - b_buflen c) (length x)) as [Hf|Hf].
  - rewrite (absorb_first_block _ _ _ _ _ Hb Hl Hf) in Eapp.
    set (fill := (BLAKE2B_BLOCKBYTES - b_buflen c)%nat) in *.
    set (buf := buf_write (b_buf c) (b_buflen c) (take fill x)) in *.
    destruct (compress_step (with_buf c buf 0) t 128 buf Hc ltac:(lia)) as (Eh & Hc1 & B1 & B2 & B3).
    set (c1 := blake2b_compress _ buf) in *. change (b_h (with_buf c buf 0)) with (b_h c) in Eh. rewrite <- Eh in Eapp.
    destruct (update_loop_absorb (length x) c1 (t + 128) (drop fill x) Hc1) as (t' & E & Hc2 & B1' & B2' & B3').
    rewrite E in Eapp. destruct (update_loop (length x) c1 (drop fill x)) as [c2 pin]. cbn [fst snd] in *.
    assert (length pin <= BLAKE2B_BLOCKBYTES)%nat as Hpin by (by eapply absorb_rest; [|exact Eapp]).
    assert (length (b_buf c2) = BLAKE2B_BLOCKBYTES /\ b_buflen c2 = 0%nat) as [Hb2 Hl2].
    { rewrite B1', B1, B2', B2. split; [|done]. cbn. unfold buf. rewrite buf_write_length; [done|].
      rewrite length_take. unfold fill. lia. }
    rewrite Hl2. constructor; cbn [with_buf b_h b_buf b_buflen b_outlen].
    + exists t'. split; [|exact Hc2]. rewrite Eapp. by rewrite (buf_write_take _ 0) by lia.
    + rewrite buf_write_length; lia.
    + lia.
    + by rewrite B3', B3.
  - rewrite (absorb_short _ _ _ (take _ _ ++ x)) in Eapp by (rewrite length_app, length_take; lia).
    constructor; cbn [with_buf b_h b_buf b_buflen b_outlen].
    + exists t. split; [|exact Hc]. by rewrite Eapp, buf_write_take by lia.
    + rewrite buf_write_length; lia.
    + lia.
    + done.
Qed.

Lemma updates_absorbed h0 outlen m xs c : absorbed h0 outlen m c ->
  absorbed h0 outlen (m ++ mjoin xs) (foldl blake2b_update c xs).
Proof.
  revert m c. induction xs as [|x xs IH]; intros m c Hc; cbn; [by rewrite app_nil_r|].
  rewrite app_assoc. by apply IH, update_absorbed.
Qed.

Lemma init_absorbed p : absorbed (b_h (blake2b_init_param p)) (digest_length p) [] (blake2b_init_param p).
Proof. constructor; [exists 0; by split|reflexivity|unfold BLAKE2B_BLOCKBYTES; cbn; lia|done]. Qed.

Lemma final_absorbed h0 outlen m c room : absorbed h0 outlen m c -> outlen <= BLAKE2B_OUTBYTES -> outlen <= room ->
  blake2b_final c room = Ok (blake2b_ref h0 outlen m).
Proof.
  intros [(t & Ea & Hc) Hb Hl Ho] Hout Hroom. unfold blake2b_final, blake2b_ref. rewrite Ea.
  replace (room <? b_outlen c) with false by lia. cbv zeta. unfold blake2b_compress at 1. cbn [b_outlen with_h].
  replace (BLAKE2B_OUTBYTES <? b_outlen (blake2b_increment_counter c (Z.of_nat (b_buflen c)))) with false by (cbn; lia).
  destruct Hc as (Ht & E0 & E1 & F0 & F1).
  destruct (counter_carry t (Z.of_nat (b_buflen c)) Ht ltac:(unfold BLAKE2B_BLOCKBYTES in *; lia)) as [C0 C1].
  assert (zlen (take (b_buflen c) (b_buf c)) = Z.of_nat (b_buflen c)) as El
    by (unfold zlen; rewrite length_take; lia).
  assert (length (take (b_buflen c) (b_buf c)) = b_buflen c) as El' by (rewrite length_take; lia).
  assert (buf_write (b_buf c) (b_buflen c) (replicate (BLAKE2B_BLOCKBYTES - b_buflen c) 0) =
    take (b_buflen c) (b_buf c) ++ replicate (BLAKE2B_BLOCKBYTES - b_buflen c) 0) as Ebuf.
  { unfold buf_write. by rewrite length_replicate, drop_ge, app_nil_r by lia. }
  rewrite El, El'. unfold compress_at. rewrite <- C0, <- C1, <- E0, <- E1, <- Ebuf.
  unfold blake2b_compress, work_vector. cbn [b_h b_t0 b_t1 b_f0 b_f1 b_buf b_buflen b_outlen with_h
    blake2b_increment_counter]. by rewrite F1, Ho.
Qed.

Lemma compress_at_length h t last block : length (compress_at h t last block) = 8%nat.
Proof. unfold compress_at, blake2b_compress. cbn [with_h b_h]. by rewrite length_map. Qed.

Lemma stored_words h : length (mjoin (map store64 h)) = (8 * length h)%nat /\ bytes_ok (mjoin (map store64 h)).
Proof.
  induction h as [|w h [IHl IHb]]; [by split; [|constructor]|].
  change (mjoin (map store64 (w :: h))) with (store64 w ++ mjoin (map store64 h)). rewrite length_app, bytes_ok_app.
  split; [|split; [apply le_encode_ok|exact IHb]]. unfold store64 at 1. rewrite le_encode_length. cbn [length]. lia.
Qed.

Lemma blake2b_ref_ok h0 outlen m : 0 <= outlen <= BLAKE2B_OUTBYTES ->
  zlen (blake2b_ref h0 outlen m) = outlen /\ bytes_ok (blake2b_ref h0 outlen m).
Proof.
  intros Ho. unfold blake2b_ref. destruct (absorb _ _ _ _) as [[h t] rest]. set (h' := compress_at _ _ _ _).
  destruct (stored_words h') as [El Hb]. unfold h' in El at 2. rewrite compress_at_length in El. unfold BLAKE2B_OUTBYTES in Ho.
  split; [unfold zlen; rewrite length_take; lia|by apply bytes_ok_take].
Qed.


(** The digest of "abc" of RFC 7693, appendix A *)
Definition abc_digest : bytes := [
  186; 128; 165; 63; 152; 28; 77; 13; 106; 39; 151; 182; 159; 18; 246; 233; 76; 33; 47; 20; 104; 90; 196; 183; 75; 18;
  187; 111; 219; 255; 162; 209; 125; 135; 197; 57; 42; 171; 121; 45; 194; 82; 213; 222; 69; 51; 204; 149; 24; 211; 138;
  168; 219; 241; 146; 90; 185; 35; 134; 237; 212; 0; 153; 35].

Lemma blake2b_abc : blake2b 64 [0x61; 0x62; 0x63] [] = Ok abc_digest.
Proof. vm_compute. reflexivity. Qed.


(** ** Batched hashing (blake2b_avx2.c) *)

(** [blake2b_compress_4way] and [blake2b_compress_8way]: one vector per word of the work vector
    and of the message, one lane per state *)
Definition blake2b_compress_lanes (cs : list blake2b_ctx) (bs : list bytes) : list blake2b_ctx :=
  let m := map (fun i => map (fun b => load64 (drop (8 * i) b)) bs) (seq 0 16) in
  let v := map (fun i => map (fun c => b_h c !!! i) cs) (seq 0 8) ++
           map (fun i => replicate (length cs) (blake2b_IV !!! i)) (seq 0 4) ++
           [map (fun c => blake2b_IV !!! 4%nat .^ b_t0 c) cs; map (fun c => blake2b_IV !!! 5%nat .^ b_t1 c) cs;
            map (fun c => blake2b_IV !!! 6%nat .^ b_f0 c) cs; map (fun c => blake2b_IV !!! 7%nat .^ b_f1 c) cs] in
  let v := rounds m v in
  imap (fun j c => with_h c (map (fun i => b_h c !!! i .^ (mm_xor (v !!! i) (v !!! (i + 8)%nat) !!! j)) (seq 0 8))) cs.

(** The state and the last block of the hash of [base] followed by an index *)
Definition index_state (base : blake2b_ctx) : blake2b_ctx :=
  {| b_h := b_h base; b_t0 := u64 (b_t0 base + Z.of_nat (b_buflen base) + 4); b_t1 := 0; b_f0 := 2 ^ 64 - 1;
     b_f1 := b_f1 base; b_buf := b_buf base; b_buflen := b_buflen base; b_outlen := b_outlen base |}.

Definition index_block (base : blake2b_ctx) (g : Z) : bytes :=
  buf_write (buf_write (replicate BLAKE2B_BLOCKBYTES 0) 0 (take (b_buflen base) (b_buf base)))
    (b_buflen base) (le_encode 4 g).

(** [memcpy] of the chaining value *)
Definition state_hash (hash_len : Z) (c : blake2b_ctx) : result blake2b_err bytes :=
  Ok (take (Z.to_nat hash_len) (mjoin (map store64 (b_h c)))).

Definition generate_hash (base : blake2b_ctx) (g hash_len : Z) : result blake2b_err bytes :=
  blake2b_final (blake2b_update base (le_encode 4 g)) hash_len.

(** What the processor offers *)
Record cpu_features := CpuFeatures { has_avx512f : bool; has_avx2 : bool }.

(** Called with four or with eight indices *)
Definition finalize_states (cpu : cpu_features) (base : blake2b_ctx) (indices : list Z) (hash_len : Z)
    : list (result blake2b_err bytes) :=
  let states := map (fun _ => index_state base) indices in
  let blocks := map (index_block base) indices in
  if Nat.eqb (length indices) 8 && has_avx512f cpu then map (state_hash hash_len) (blake2b_compress_lanes states blocks)
  else if Nat.leb 4 (length indices) && has_avx2 cpu then
    map (state_hash hash_len) (blake2b_compress_lanes (take 4 states) (take 4 blocks)) ++
    (if Nat.ltb 4 (length indices)
     then map (state_hash hash_len) (blake2b_compress_lanes (drop 4 states) (drop 4 blocks)) else [])
  else map (fun g => generate_hash base g hash_len) indices.

(** [equihash_generate_hash_batch4] and [equihash_generate_hash_batch8] *)
Definition equihash_generate_hash_batch (cpu : cpu_features) (base : blake2b_ctx) (indices : list Z) (hash_len : Z)
    : list (result blake2b_err bytes) :=
  if Nat.leb (b_buflen base + 4) BLAKE2B_BLOCKBYTES then finalize_states cpu base indices hash_len
  else map (fun g => generate_hash base g hash_len) indices.

(** *** Lanes *)

Lemma G_length {W} `{Inhabited W} `{WordOps W} (m : list W) r i v a b c d : length (G m r i v a b c d) = length v.
Proof. unfold G. cbv zeta. by rewrite !length_insert. Qed.

(** The mixing function is parametric in the words. *)
Section Parametric.
Context {W1 W2 : Type} `{Inhabited W1} `{Inhabited W2} `{WordOps W1} `{WordOps W2}.
Context (R : W1 -> W2 -> Prop).
Context (Radd : forall a a' b b', R a a' -> R b b' -> R (w_add a b) (w_add a' b')).
Context (Radd3 : forall a a' b b' c c', R a a' -> R b b' -> R c c' -> R (w_add3 a b c) (w_add3 a' b' c')).
Context (Rxor : forall a a' b b', R a a' -> R b b' -> R (w_xor a b) (w_xor a' b')).
Context (Rrotr : forall a a' n, R a a' -> R (w_rotr a n) (w_rotr a' n)).

Lemma Forall2_lookup_R l l' i : Forall2 R l l' -> (i < length l)%nat -> R (l !!! i) (l' !!! i).
Proof.
  intros Hl Hi. destruct (lookup_lt_is_Some_2 l i Hi) as [x Hx].
  destruct (Forall2_lookup_l _ _ _ _ _ Hl Hx) as (y & Hy & HR).
  by rewrite (list_lookup_total_correct _ _ _ Hx), (list_lookup_total_correct _ _ _ Hy).
Qed.

Lemma sigma_bound r j : (r < 12)%nat -> (j < 16)%nat -> ((blake2b_sigma !!! r) !!! j < 16)%nat.
Proof.
  intros Hr Hj. assert (Forall (fun l => length l = 16%nat /\ Forall (fun k => k < 16)%nat l) blake2b_sigma) as Hs
    by (repeat constructor).
  destruct (lookup_lt_is_Some_2 blake2b_sigma r Hr) as [l Hl]. rewrite (list_lookup_total_correct _ _ _ Hl).
  destruct (proj1 (Forall_lookup _ _) Hs _ _ Hl) as [El Hb].
  destruct (lookup_lt_is_Some_2 l j ltac:(lia)) as [k Hk]. rewrite (list_lookup_total_correct _ _ _ Hk).
  by apply (proj1 (Forall_lookup _ _) Hb j).
Qed.

Lemma G_rel m m' r i v v' a b c d : Forall2 R m m' -> Forall2 R v v' -> length m = 16%nat -> length v = 16%nat ->
  (r < 12)%nat -> (i < 8)%nat -> (a < 16)%nat -> (b < 16)%nat -> (c < 16)%nat -> (d < 16)%nat ->
  Forall2 R (G m r i v a b c d) (G m' r i v' a b c d).
Proof.
  intros Hm Hv Em Ev Hr Hi Ha Hb Hc Hd. unfold G. cbv zeta.
  pose proof (sigma_bound r (2 * i) Hr ltac:(lia)). pose proof (sigma_bound r (2 * i + 1) Hr ltac:(lia)).
  repeat apply Forall2_insert; [done|..];
    repeat first [apply Radd3|apply Radd|apply Rrotr|apply Rxor|apply Forall2_lookup_R; [done|lia]].
Qed.

Lemma ROUND_rel m m' v v' r : Forall2 R m m' -> Forall2 R v v' -> length m = 16%nat -> length v = 16%nat ->
  (r < 12)%nat -> Forall2 R (ROUND m v r) (ROUND m' v' r) /\ length (ROUND m v r) = 16%nat.
Proof.
  intros Hm Hv Em Ev Hr. unfold ROUND. cbv zeta. rewrite !G_length. split; [|done].
  repeat (apply G_rel; rewrite ?G_length; [done| |lia..]). done.
Qed.

Lemma rounds_rel m m' v v' : Forall2 R m m' -> Forall2 R v v' -> length m = 16%nat -> length v = 16%nat ->
  Forall2 R (rounds m v) (rounds m' v') /\ length (rounds m v) = 16%nat.
Proof.
  intros Hm Hv Em Ev. unfold rounds. assert (Forall (fun r => r < 12)%nat (seq 0 12)) as Hs by (repeat constructor).
  revert v v' Hv Ev. induction (seq 0 12) as [|r rs IH]; intros v v' Hv Ev; cbn [foldl]; [done|].
  inversion Hs; subst. destruct (ROUND_rel m m' v v' r) as [Hv' Ev']; [done..|]. by apply IH.
Qed.

End Parametric.

(** The word [x] is lane [j] of the register [vec] of [n] lanes. *)
Definition lane (n j : nat) (vec : lanes) (x : Z) : Prop := length vec = n /\ vec !! j = Some x.

Lemma lane_zip n j f a x b y : lane n j a x -> lane n j b y -> lane n j (zip_with f a b) (f x y).
Proof. intros [Ea Ha] [Eb Hb]. split; [rewrite length_zip_with; lia|]. by rewrite lookup_zip_with, Ha, Hb. Qed.

Lemma lane_map n j f a x : lane n j a x -> lane n j (map f a) (f x).
Proof. intros [Ea Ha]. split; [by rewrite length_map|]. etransitivity; [apply (list_lookup_fmap f a j)|by rewrite Ha]. Qed.

Lemma lane_map_of {A} (xs : list A) j y (f : A -> Z) : xs !! j = Some y -> lane (length xs) j (map f xs) (f y).
Proof. intros Hj. split; [by rewrite length_map|]. etransitivity; [apply (list_lookup_fmap f xs j)|by rewrite Hj]. Qed.

Lemma lane_replicate n j x : (j < n)%nat -> lane n j (replicate n x) x.
Proof. intros Hj. split; [by rewrite length_replicate|by apply lookup_replicate]. Qed.

Lemma wrap64_u64 x : wrap64 x = u64 x.
Proof. unfold wrap64, uwrap. change 0xFFFFFFFFFFFFFFFF with (Z.ones 64). by rewrite Z.land_ones. Qed.

Lemma add3_assoc a b m : wrap64 (a + wrap64 (b + m)) = wrap64 (wrap64 (a + b) + m).
Proof. rewrite !wrap64_u64. unfold uwrap. rewrite Z.add_mod_idemp_r, Z.add_mod_idemp_l by done. f_equal. lia. Qed.

Lemma rounds_lane n j m m' v v' : Forall2 (lane n j) m m' -> Forall2 (lane n j) v v' ->
  length m = 16%nat -> length v = 16%nat ->
  Forall2 (lane n j) (rounds m v) (rounds m' v') /\ length (rounds m v) = 16%nat.
Proof.
  apply (rounds_rel (lane n j)).
  - intros a a' b b' Ha Hb. by apply (lane_zip n j (fun x y => wrap64 (x + y))).
  - intros a a' b b' c c' Ha Hb Hc. change (w_add3 a' b' c') with (wrap64 (wrap64 (a' + b') + c')). rewrite <- add3_assoc.
    apply (lane_zip n j (fun x y => wrap64 (x + y))); [done|]. by apply (lane_zip n j (fun x y => wrap64 (x + y))).
  - intros a a' b b' Ha Hb. by apply (lane_zip n j Z.lxor).
  - intros a a' k Ha. apply (lane_zip n j Z.lor); by apply (lane_map n j (fun _ => _)).
Qed.

Lemma Forall2_map_seq {A B} (P : A -> B -> Prop) (f : nat -> A) (g : nat -> B) k n :
  (forall i, P (f i) (g i)) -> Forall2 P (map f (seq k n)) (map g (seq k n)).
Proof. intros Hfg. revert k. induction n as [|n IH]; intros k; cbn; constructor; auto. Qed.

(** The vector compression computes in every lane what the scalar compression computes on
    the state and the block of that lane. *)
Lemma compress_lanes_scalar cs bs : length bs = length cs ->
  blake2b_compress_lanes cs bs = zip_with blake2b_compress cs bs.
Proof.
  intros El. apply list_eq. intros j. unfold blake2b_compress_lanes. set (m := map _ (seq 0 16)). set (v := _ ++ _ ++ _).
  rewrite list_lookup_imap, lookup_zip_with. destruct (cs !! j) as [c|] eqn:Hc; [|done].
  destruct (lookup_lt_is_Some_2 bs j) as [b Hb]; [rewrite El; by eapply lookup_lt_Some|]. rewrite Hb. cbn [mbind option_bind option_fmap option_map fmap].
  assert (Forall2 (lane (length cs) j) m (message_words b)) as Hm.
  { apply Forall2_map_seq. intros i. rewrite <- El. exact (lane_map_of bs j b (fun b => load64 (drop (8 * i) b)) Hb). }
  assert (Forall2 (lane (length cs) j) v (work_vector c)) as Hv.
  { unfold v, work_vector. apply Forall2_app.
    - apply Forall2_map_seq. intros i. exact (lane_map_of cs j c (fun c => b_h c !!! i) Hc).
    - pose proof (lookup_lt_Some _ _ _ Hc) as Hj. cbn [map seq app].
      repeat apply Forall2_cons_2; try by apply lane_replicate.
      + exact (lane_map_of cs j c (fun c => blake2b_IV !!! 4%nat .^ b_t0 c) Hc).
      + exact (lane_map_of cs j c (fun c => blake2b_IV !!! 5%nat .^ b_t1 c) Hc).
      + exact (lane_map_of cs j c (fun c => blake2b_IV !!! 6%nat .^ b_f0 c) Hc).
      + exact (lane_map_of cs j c (fun c => blake2b_IV !!! 7%nat .^ b_f1 c) Hc).
      + constructor. }
  destruct (rounds_lane _ _ _ _ _ _ Hm Hv) as [Hr Elen]; [by unfold m; rewrite length_map|done|].
  f_equal. unfold blake2b_compress. f_equal. apply map_ext_in. intros i Hi%in_seq. f_equal.
  pose proof (Forall2_lookup_R _ _ _ i Hr ltac:(lia)) as Hi1.
  pose proof (Forall2_lookup_R _ _ _ (i + 8)%nat Hr ltac:(lia)) as Hi2.
  destruct (lane_zip _ _ Z.lxor _ _ _ _ Hi1 Hi2) as [_ Hx]. by apply list_lookup_total_correct.
Qed.

(** A context whose counter has not reached its second word, and which is not finalised *)
Definition plain_ctx (c : blake2b_ctx) : Prop :=
  length (b_buf c) = BLAKE2B_BLOCKBYTES /\ (b_buflen c <= BLAKE2B_BLOCKBYTES)%nat /\
  0 <= b_t0 c < 2 ^ 64 - 256 /\ b_t1 c = 0 /\ b_f1 c = 0.

Lemma compress_h_ext c c' b : b_h c = b_h c' -> b_t0 c = b_t0 c' -> b_t1 c = b_t1 c' -> b_f0 c = b_f0 c' ->
  b_f1 c = b_f1 c' -> b_h (blake2b_compress c b) = b_h (blake2b_compress c' b).
Proof. intros Eh E0 E1 F0 F1. unfold blake2b_compress, work_vector. cbn [with_h b_h]. by rewrite Eh, E0, E1, F0, F1. Qed.

Lemma index_block_padded base g : length (b_buf base) = BLAKE2B_BLOCKBYTES ->
  (b_buflen base + 4 <= BLAKE2B_BLOCKBYTES)%nat ->
  let buf := buf_write (b_buf base) (b_buflen base) (le_encode 4 g) in
  index_block base g =
  buf_write buf (b_buflen base + 4) (replicate (BLAKE2B_BLOCKBYTES - (b_buflen base + 4)) 0).
Proof.
  intros Hb Hfit buf. pose proof (le_encode_length 4 g) as E4.
  assert (length (take (b_buflen base) (b_buf base)) = b_buflen base) as El by (rewrite length_take; lia).
  assert (take (b_buflen base + 4) buf = take (b_buflen base) (b_buf base) ++ le_encode 4 g) as Et.
  { rewrite <- E4 at 1. apply buf_write_take. lia. }
  unfold buf_write at 1. rewrite Et, length_replicate, (drop_ge buf), app_nil_r
    by (unfold buf; rewrite buf_write_length; lia).
  unfold index_block, buf_write. rewrite take_0, app_nil_l, El, E4, take_app_le, take_ge, drop_app, drop_drop, El by lia.
  rewrite drop_replicate, (drop_ge (take _ _)), app_nil_l, <- app_assoc by lia. do 3 f_equal. lia.
Qed.

Lemma index_state_hash base g hash_len : plain_ctx base -> b_outlen base = hash_len -> hash_len <= BLAKE2B_OUTBYTES ->
  (b_buflen base + 4 <= BLAKE2B_BLOCKBYTES)%nat ->
  state_hash hash_len (blake2b_compress (index_state base) (index_block base g)) = generate_hash base g hash_len.
Proof.
  intros (Hb & Hl & Ht & E1 & F1) Ho Hout Hfit. unfold generate_hash, blake2b_update, blake2b_final.
  rewrite le_encode_length. cbn [Nat.eqb]. rewrite (proj2 (Nat.ltb_ge _ _)) by lia. cbn [b_outlen with_buf b_buflen b_buf].
  replace (hash_len <? b_outlen base) with false by lia. cbv zeta. unfold blake2b_compress at 2.
  cbn [b_outlen with_buf b_buflen b_buf with_h blake2b_increment_counter].
  replace (BLAKE2B_OUTBYTES <? b_outlen base) with false by lia. unfold state_hash. rewrite Ho.
  apply (f_equal (fun h => Ok (take (Z.to_nat hash_len) (mjoin (map store64 h))))).
  rewrite <- index_block_padded by done. unfold BLAKE2B_BLOCKBYTES in *.
  apply compress_h_ext; cbn -[Z.of_nat Nat.add]; try done.
  - f_equal. lia.
  - rewrite E1. rewrite (uwrap_small 64 (b_t0 base + _)) by (unfold is_u; lia).
    by replace (b_t0 base + Z.of_nat (b_buflen base + 4) <? Z.of_nat (b_buflen base + 4)) with false by lia.
Qed.

Lemma lanes_hash base indices hash_len : plain_ctx base -> b_outlen base = hash_len -> hash_len <= BLAKE2B_OUTBYTES ->
  (b_buflen base + 4 <= BLAKE2B_BLOCKBYTES)%nat ->
  map (state_hash hash_len)
    (blake2b_compress_lanes (map (fun _ => index_state base) indices) (map (index_block base) indices)) =
  map (fun g => generate_hash base g hash_len) indices.
Proof.
  intros Hp Ho Hout Hfit. assert (forall l, map (state_hash hash_len)
    (zip_with blake2b_compress (map (fun _ => index_state base) l) (map (index_block base) l)) =
    map (fun g => generate_hash base g hash_len) l) as Hz.
  { induction l as [|g l IH]; cbn; [done|]. f_equal; [by apply index_state_hash|exact IH]. }
  rewrite <- Hz. f_equal.
  apply compress_lanes_scalar. by rewrite !length_map.
Qed.

Lemma batch_hash_eq cpu base indices hash_len :
  plain_ctx base -> b_outlen base = hash_len -> hash_len <= BLAKE2B_OUTBYTES ->
  equihash_generate_hash_batch cpu base indices hash_len = map (fun g => generate_hash base g hash_len) indices.
Proof.
  intros Hp Ho Hout. unfold equihash_generate_hash_batch, finalize_states.
  destruct (Nat.leb_spec (b_buflen base + 4) BLAKE2B_BLOCKBYTES) as [Hfit|]; [|done].
  destruct (Nat.eqb _ 8 && _); [by apply lanes_hash|]. destruct (Nat.leb_spec 4 (length indices)) as [H4|]; [|done].
  destruct (has_avx2 cpu); [|done]. cbn [andb].
  rewrite !firstn_map, !skipn_map, !lanes_hash by done. destruct (Nat.ltb_spec 4 (length indices)).
  - by rewrite <- map_app, take_drop.
  - by rewrite app_nil_r, take_ge by lia.
Qed.

(** The batched hashing of Equihash inputs gives the scalar hashes on every processor: with
    AVX-512, with AVX2 or without, and also when the buffer has no room for the index. *)
Theorem batch_hash_scalar cpu base indices hash_len :
  plain_ctx base -> b_outlen base = hash_len -> hash_len <= BLAKE2B_OUTBYTES ->
  equihash_generate_hash_batch cpu base indices hash_len = map (fun g => generate_hash base g hash_len) indices.
Proof. apply batch_hash_eq. Qed.

Lemma batch_hash_scalar_witness :
  let base := blake2b_update (blake2b_init_param (basic_param 50 0)) (replicate 140 7) in
  let indices := [0; 1; 2; 3; 4; 5; 6; 70000] in
  equihash_generate_hash_batch {| has_avx512f := true; has_avx2 := true |} base indices 50 =
  map (fun g => generate_hash base g 50) indices.
Proof.
  intros base indices. apply batch_hash_scalar; [|reflexivity|unfold BLAKE2B_OUTBYTES; lia].
  vm_compute. split_and!; congruence || lia.
Defined.
