(* ===== verification/Sighash.v ===== *)
(** * Signature hashes

    Models domain/consensus/src/sighash.c, its wrapper lib/validation/src/sighash.c and the
    signature checker of lib/validation/src/tx_verifier.c.  The digests are those of file Blake2b
    and, for transactions before Overwinter, the double SHA-256 parameter.  [SIGHASH_REJECT] is
    the return value false; [SIGHASH_UNDEFINED] is a read outside the array of inputs or outputs.
    What a signature signs is the record [signed_data] ([signed_of]), and the theorems show that
    the digest is a function of it and, short of a collision, determines it. *)

From stdpp Require Import sets.
From S2P Require Import Prelude Hash Serialize Script ScriptInterp Transaction Blake2b.

(** ** Hash types (script/sighashtype.h) *)

Definition SIGHASH_ALL : Z := 1.
Definition SIGHASH_ANYONECANPAY : Z := 0x80.
Definition BASE_SIGHASH_NONE : Z := 2.
Definition BASE_SIGHASH_SINGLE : Z := 3.

Definition sighash_get_base_type (raw : Z) : Z := raw .& 0x1f.

Definition sighash_has_anyone_can_pay (raw : Z) : bool := negb (raw .& SIGHASH_ANYONECANPAY =? 0).

Definition NOT_AN_INPUT : Z := UINT32_MAX.

(** ** The parts *)

Definition PREVOUTS_PERSONAL : bytes := [90; 99; 97; 115; 104; 80; 114; 101; 118; 111; 117; 116; 72; 97; 115; 104].
Definition SEQUENCE_PERSONAL : bytes := [90; 99; 97; 115; 104; 83; 101; 113; 117; 101; 110; 99; 72; 97; 115; 104].
Definition OUTPUTS_PERSONAL : bytes := [90; 99; 97; 115; 104; 79; 117; 116; 112; 117; 116; 115; 72; 97; 115; 104].
Definition JOINSPLITS_PERSONAL : bytes := [90; 99; 97; 115; 104; 74; 83; 112; 108; 105; 116; 115; 72; 97; 115; 104].
Definition SHIELDED_SPENDS_PERSONAL : bytes := [90; 99; 97; 115; 104; 83; 83; 112; 101; 110; 100; 115; 72; 97; 115; 104].
Definition SHIELDED_OUTPUTS_PERSONAL : bytes := [90; 99; 97; 115; 104; 83; 79; 117; 116; 112; 117; 116; 72; 97; 115; 104].

Inductive sighash_err := SIGHASH_REJECT | SIGHASH_UNDEFINED.

(** The digest of the pieces; the code drops the return values of the three calls, a failure of
    which would leave the digest uninitialised. *)
Definition blake2b_pieces (personal : bytes) (pieces : list bytes) : result sighash_err uint256_t :=
  match blake2b_init_salt_personal 32 [] None (Some personal) with
  | Ok ctx =>
      match blake2b_final (foldl blake2b_update ctx pieces) 32 with
      | Ok digest => Ok digest
      | Err _ => Err SIGHASH_UNDEFINED
      end
  | Err _ => Err SIGHASH_UNDEFINED
  end.

Definition blake2b_hash_personal (data personal : bytes) : result sighash_err uint256_t := blake2b_pieces personal [data].

(** A write whose return value is dropped *)
Definition ignore (m : stream_m unit) : stream_m unit := fun s => (Some tt, snd (m s)).

Record precomputed_tx_data := PrecomputedTxData {
  hash_prevouts : uint256_t;
  hash_sequence : uint256_t;
  hash_outputs : uint256_t;
  hash_joinsplits : uint256_t;
  hash_shielded_spends : uint256_t;
  hash_shielded_outputs : uint256_t;
}.

Definition js_pieces (js : js_description) : list bytes :=
  [le_encode 8 (u64 (vpub_old js)); le_encode 8 (u64 (vpub_new js)); js_anchor js] ++
  js_nullifiers js ++ js_commitments js ++ [js_ephemeral_key js; js_random_seed js] ++ js_macs js ++
  [take (Z.to_nat (if js_use_groth js then GROTH_PROOF_SIZE else PHGR_PROOF_SIZE)) (js_proof js)] ++
  js_ciphertexts js.

Definition get_joinsplits_hash (tx : transaction) : result sighash_err uint256_t :=
  blake2b_pieces JOINSPLITS_PERSONAL (mjoin (map js_pieces (v_joinsplit tx)) ++ [joinsplit_pubkey tx]).

Definition spend_pieces (sd : spend_description) : list bytes :=
  [sd_cv sd; sd_anchor sd; sd_nullifier sd; sd_rk sd; sd_zkproof sd].

Definition get_shielded_spends_hash (tx : transaction) : result sighash_err uint256_t :=
  blake2b_pieces SHIELDED_SPENDS_PERSONAL (mjoin (map spend_pieces (v_shielded_spend tx))).

Definition output_pieces (od : output_description) : list bytes :=
  [od_cv od; od_cm od; od_ephemeral_key od; od_enc_ciphertext od; od_out_ciphertext od; od_zkproof od].

Definition get_shielded_outputs_hash (tx : transaction) : result sighash_err uint256_t :=
  blake2b_pieces SHIELDED_OUTPUTS_PERSONAL (mjoin (map output_pieces (v_shielded_output tx))).

Inductive sig_version := SIGVERSION_SPROUT | SIGVERSION_OVERWINTER | SIGVERSION_SAPLING.

#[export] Instance sig_version_eq_dec : EqDecision sig_version.
Proof. solve_decision. Defined.

Definition domain_consensus_signature_hash_version (tx : transaction) : sig_version :=
  if overwintered tx then
    if version_group_id tx =? SAPLING_VERSION_GROUP_ID then SIGVERSION_SAPLING else SIGVERSION_OVERWINTER
  else SIGVERSION_SPROUT.

Definition tx_get_header (tx : transaction) : Z := u32 (version tx) .| (if overwintered tx then 2 ^ 31 else 0).

Section Hashes.
Context `{Allocator}.

(** The bytes a sequence of writes leaves in a stream of initial capacity 256 *)
Definition scratch (m : stream_m unit) : bytes := bs_data (snd (m (stream_init 256))).

Definition get_prevout_hash (tx : transaction) : result sighash_err uint256_t :=
  blake2b_hash_personal (scratch (write_items (fun i => ignore (outpoint_serialize (prevout i))) (vin tx))) PREVOUTS_PERSONAL.

Definition get_sequence_hash (tx : transaction) : result sighash_err uint256_t :=
  blake2b_hash_personal (scratch (write_items (fun i => ignore (stream_write_u32_le (sequence i))) (vin tx))) SEQUENCE_PERSONAL.

Definition get_outputs_hash (tx : transaction) : result sighash_err uint256_t :=
  blake2b_hash_personal (scratch (write_items (fun o => ignore (tx_out_serialize o)) (vout tx))) OUTPUTS_PERSONAL.

Definition domain_consensus_precompute_tx_data (tx : transaction) : result sighash_err precomputed_tx_data :=
  p ← get_prevout_hash tx;
  s ← get_sequence_hash tx;
  o ← get_outputs_hash tx;
  j ← (if zlen (v_joinsplit tx) >? 0 then get_joinsplits_hash tx else Ok uint256_null);
  ss ← (if zlen (v_shielded_spend tx) >? 0 then get_shielded_spends_hash tx else Ok uint256_null);
  so ← (if zlen (v_shielded_output tx) >? 0 then get_shielded_outputs_hash tx else Ok uint256_null);
  Ok {| hash_prevouts := p; hash_sequence := s; hash_outputs := o; hash_joinsplits := j;
        hash_shielded_spends := ss; hash_shielded_outputs := so |}.

(** [cache ? cache->field : compute] *)
Definition cached (cache : option precomputed_tx_data) (field : precomputed_tx_data -> uint256_t)
    (compute : result sighash_err uint256_t) : result sighash_err uint256_t :=
  match cache with
  | Some c => Ok (field c)
  | None => compute
  end.

(** The length prefix of the script code, as the code fills [varbuf] *)
Definition varbuf (size : Z) : bytes :=
  if size <? 0xfd then [u8 size]
  else if size <=? 0xffff then 0xfd :: le_encode 2 (u16 size)
  else if size <=? 0xffffffff then 0xfe :: le_encode 4 (u32 size)
  else 0xff :: le_encode 8 (u64 size).

(** "ZcashSigHash" and the branch *)
Definition sighash_personal (branch_id : Z) : bytes :=
  [90; 99; 97; 115; 104; 83; 105; 103; 72; 97; 115; 104] ++ le_encode 4 branch_id.

Definition array_at {A} (l : list A) (n : Z) : result sighash_err A :=
  match l !! Z.to_nat n with
  | Some a => Ok a
  | None => Err SIGHASH_UNDEFINED
  end.

Definition sighash_overwinter_sapling (script_code : script) (tx : transaction) (nIn hash_type amount branch_id : Z)
    (cache : option precomputed_tx_data) (sigversion : sig_version) : result sighash_err uint256_t :=
  let acp := sighash_has_anyone_can_pay hash_type in
  let base := sighash_get_base_type hash_type in
  let all := negb (base =? BASE_SIGHASH_SINGLE) && negb (base =? BASE_SIGHASH_NONE) in
  let sapling := bool_decide (sigversion = SIGVERSION_SAPLING) in
  p ← (if negb acp then cached cache hash_prevouts (get_prevout_hash tx) else Ok uint256_null);
  s ← (if negb acp && all then cached cache hash_sequence (get_sequence_hash tx) else Ok uint256_null);
  o ← (if all then cached cache hash_outputs (get_outputs_hash tx)
       else if (base =? BASE_SIGHASH_SINGLE) && (nIn <? zlen (vout tx)) then
         out ← array_at (vout tx) nIn;
         blake2b_hash_personal (scratch (ignore (tx_out_serialize out))) OUTPUTS_PERSONAL
       else Ok uint256_null);
  j ← (if zlen (v_joinsplit tx) >? 0 then cached cache hash_joinsplits (get_joinsplits_hash tx) else Ok uint256_null);
  shielded ← (if sapling then
       ss ← (if zlen (v_shielded_spend tx) >? 0 then cached cache hash_shielded_spends (get_shielded_spends_hash tx)
             else Ok uint256_null);
       so ← (if zlen (v_shielded_output tx) >? 0 then cached cache hash_shielded_outputs (get_shielded_outputs_hash tx)
             else Ok uint256_null);
       Ok [ss; so]
     else Ok []);
  input ← (if negb (nIn =? NOT_AN_INPUT) then
       i ← array_at (vin tx) nIn;
       Ok [op_hash (prevout i); le_encode 4 (op_n (prevout i)); varbuf (zlen script_code); script_code;
           le_encode 8 (u64 amount); le_encode 4 (sequence i)]
     else Ok []);
  blake2b_pieces (sighash_personal branch_id)
    ([le_encode 4 (tx_get_header tx); le_encode 4 (version_group_id tx); p; s; o; j] ++ shielded ++
     [le_encode 4 (lock_time tx); le_encode 4 (expiry_height tx)] ++
     (if sapling then [le_encode 8 (u64 (value_balance tx))] else []) ++ [le_encode 4 hash_type] ++ input).

Context `{HashFunctions}.

Definition sighash_sprout (script_code : script) (tx : transaction) (nIn hash_type : Z) : result sighash_err uint256_t :=
  let acp := sighash_has_anyone_can_pay hash_type in
  let base := sighash_get_base_type hash_type in
  let n_inputs := if acp then 1 else u32 (zlen (vin tx)) in
  ins ← mapM (fun idx => i ← array_at (vin tx) idx; Ok (idx, i))
          (if acp then [nIn] else map Z.of_nat (seq 0 (Z.to_nat n_inputs)));
  let n_outputs := if base =? BASE_SIGHASH_NONE then 0
                   else if base =? BASE_SIGHASH_SINGLE then u32 (nIn + 1) else u32 (zlen (vout tx)) in
  outs ← mapM (fun i => if (base =? BASE_SIGHASH_SINGLE) && negb (i =? nIn) then Ok None
                        else o ← array_at (vout tx) i; Ok (Some o))
          (map Z.of_nat (seq 0 (Z.to_nat n_outputs)));
  Ok (h_hash256 (scratch (
    ignore (stream_write_u32_le (u32 (version tx)));;
    ignore (stream_write_compact_size n_inputs);;
    write_items (fun '(idx, i) =>
      ignore (outpoint_serialize (prevout i));;
      (if negb (idx =? nIn) then ignore (stream_write_compact_size 0)
       else ignore (stream_write_compact_size (zlen script_code));; ignore (stream_write script_code));;
      (if negb (idx =? nIn) && ((base =? BASE_SIGHASH_SINGLE) || (base =? BASE_SIGHASH_NONE))
       then ignore (stream_write_u32_le 0) else ignore (stream_write_u32_le (sequence i)))) ins;;
    ignore (stream_write_compact_size n_outputs);;
    write_items (fun o =>
      match o with
      | None => ignore (stream_write_i64_le (-1));; ignore (stream_write_compact_size 0)
      | Some o => ignore (tx_out_serialize o)
      end) outs;;
    ignore (stream_write_u32_le (lock_time tx));;
    (if version tx >=? 2 then
       ignore (stream_write_compact_size (zlen (v_joinsplit tx)));;
       write_items (fun js => ignore (js_description_serialize js)) (v_joinsplit tx);;
       (if zlen (v_joinsplit tx) >? 0 then
          ignore (stream_write (joinsplit_pubkey tx));; ignore (stream_write (replicate 64 0))
        else mret tt)
     else mret tt);;
    ignore (stream_write_u32_le hash_type)))).

Definition domain_consensus_signature_hash (script_code : script) (tx : transaction) (n_in hash_type amount branch_id : Z)
    (cache : option precomputed_tx_data) : result sighash_err uint256_t :=
  ensure (negb ((n_in >=? zlen (vin tx)) && negb (n_in =? NOT_AN_INPUT))) SIGHASH_REJECT;;
  match domain_consensus_signature_hash_version tx with
  | SIGVERSION_SPROUT =>
      ensure (negb ((sighash_get_base_type hash_type =? BASE_SIGHASH_SINGLE) && (n_in >=? zlen (vout tx)))) SIGHASH_REJECT;;
      sighash_sprout script_code tx n_in hash_type
  | sigver => sighash_overwinter_sapling script_code tx n_in hash_type amount branch_id cache sigver
  end.
End Hashes.

(** ** What a signature signs *)

Record sig_request := SigRequest {
  rq_script : script;
  rq_tx : transaction;
  rq_in : Z;
  rq_type : Z;
  rq_amount : Z;
  rq_branch : Z;
}.

Record signed_data := SignedData {
  sg_branch : Z;
  sg_header : Z;
  sg_group : Z;
  sg_prevouts : option (list outpoint);
  sg_sequences : option (list Z);
  sg_outputs : option (list tx_out);
  sg_joinsplits : option (list js_description * uint256_t);
  sg_spends : option (list spend_description);
  sg_shielded : option (list output_description);
  sg_lock_time : Z;
  sg_expiry : Z;
  sg_balance : Z;
  sg_type : Z;
  sg_input : option (outpoint * script * Z * Z);
}.

Definition unsigned_spend (sd : spend_description) : spend_description := {|
  sd_cv := sd_cv sd; sd_anchor := sd_anchor sd; sd_nullifier := sd_nullifier sd; sd_rk := sd_rk sd;
  sd_zkproof := sd_zkproof sd; sd_spend_auth_sig := replicate 64 0 |}.

Definition non_empty {A} (l : list A) : option (list A) := match l with [] => None | _ => Some l end.

(** All prevouts unless anyone can pay; all sequence numbers and outputs unless the base type
    singles out an output or none; the shielded parts without their signatures *)
Definition signed_of (r : sig_request) : signed_data :=
  let tx := rq_tx r in
  let acp := sighash_has_anyone_can_pay (rq_type r) in
  let base := sighash_get_base_type (rq_type r) in
  let all := negb (base =? BASE_SIGHASH_SINGLE) && negb (base =? BASE_SIGHASH_NONE) in {|
    sg_branch := rq_branch r; sg_header := tx_get_header tx; sg_group := version_group_id tx;
    sg_prevouts := if acp then None else Some (map prevout (vin tx));
    sg_sequences := if negb acp && all then Some (map sequence (vin tx)) else None;
    sg_outputs := if all then Some (vout tx)
                  else if base =? BASE_SIGHASH_SINGLE
                       then o ← vout tx !! Z.to_nat (rq_in r); Some [o] else None;
    sg_joinsplits := l ← non_empty (v_joinsplit tx); Some (l, joinsplit_pubkey tx);
    sg_spends := non_empty (map unsigned_spend (v_shielded_spend tx));
    sg_shielded := non_empty (v_shielded_output tx);
    sg_lock_time := lock_time tx; sg_expiry := expiry_height tx; sg_balance := value_balance tx;
    sg_type := rq_type r;
    sg_input := i ← vin tx !! Z.to_nat (rq_in r); Some (prevout i, rq_script r, rq_amount r, sequence i) |}.

(** The BLAKE2b-256 digest of RFC 7693 with a personalisation *)
Definition personal_digest (e : bytes * bytes) : bytes :=
  blake2b_ref (b_h (blake2b_init_param {| digest_length := 32; key_length := 0; fanout := 1; depth := 1;
    salt := replicate 16 0; personal := e.1 |})) 32 e.2.

Definition spend_core (sd : spend_description) : bytes :=
  sd_cv sd ++ sd_anchor sd ++ sd_nullifier sd ++ sd_rk sd ++ sd_zkproof sd.

(** The messages of the parts *)
Definition prevouts_message (l : list outpoint) : bytes * bytes := (PREVOUTS_PERSONAL, mjoin (map outpoint_bytes l)).
Definition sequences_message (l : list Z) : bytes * bytes := (SEQUENCE_PERSONAL, mjoin (map (le_encode 4) l)).
Definition outputs_message (l : list tx_out) : bytes * bytes := (OUTPUTS_PERSONAL, mjoin (map tx_out_bytes l)).
Definition joinsplits_message (j : list js_description * uint256_t) : bytes * bytes :=
  (JOINSPLITS_PERSONAL, mjoin (map js_bytes j.1) ++ j.2).
Definition spends_message (l : list spend_description) : bytes * bytes :=
  (SHIELDED_SPENDS_PERSONAL, mjoin (map spend_core l)).
Definition shielded_message (l : list output_description) : bytes * bytes :=
  (SHIELDED_OUTPUTS_PERSONAL, mjoin (map output_bytes l)).

Definition part_digest {A} (message : A -> bytes * bytes) (part : option A) : bytes :=
  match part with
  | Some a => personal_digest (message a)
  | None => uint256_null
  end.

Definition input_bytes (i : outpoint * script * Z * Z) : bytes :=
  let '(op, sc, amount, seqno) := i in
  outpoint_bytes op ++ script_bytes sc ++ le_encode 8 (u64 amount) ++ le_encode 4 seqno.

Definition is_sapling_group (group : Z) : bool := group =? SAPLING_VERSION_GROUP_ID.

Definition sighash_message (g : signed_data) : bytes * bytes :=
  let sapling := is_sapling_group (sg_group g) in
  (sighash_personal (sg_branch g),
   le_encode 4 (sg_header g) ++ le_encode 4 (sg_group g) ++
   part_digest prevouts_message (sg_prevouts g) ++ part_digest sequences_message (sg_sequences g) ++
   part_digest outputs_message (sg_outputs g) ++ part_digest joinsplits_message (sg_joinsplits g) ++
   (if sapling then part_digest spends_message (sg_spends g) ++ part_digest shielded_message (sg_shielded g) else []) ++
   le_encode 4 (sg_lock_time g) ++ le_encode 4 (sg_expiry g) ++
   (if sapling then le_encode 8 (u64 (sg_balance g)) else []) ++ le_encode 4 (sg_type g) ++
   match sg_input g with Some i => input_bytes i | None => [] end).

(** The messages hashed for one signature hash *)
Definition hashed (g : signed_data) : list (bytes * bytes) :=
  sighash_message g :: omap id [
    prevouts_message <$> sg_prevouts g; sequences_message <$> sg_sequences g; outputs_message <$> sg_outputs g;
    joinsplits_message <$> sg_joinsplits g; spends_message <$> sg_spends g; shielded_message <$> sg_shielded g].

(** Two of the messages collide, or one has the digest that stands for a missing part. *)
Definition digest_broken (g g' : signed_data) : Prop :=
  (exists e e', e ∈ hashed g /\ e' ∈ hashed g' /\ e <> e' /\ personal_digest e = personal_digest e') \/
  (exists e, e ∈ hashed g ++ hashed g' /\ personal_digest e = uint256_null).

Definition request_ok (r : sig_request) : Prop :=
  tx_ok (rq_tx r) /\ script_ok (rq_script r) /\ is_s 64 (rq_amount r) /\ is_u 32 (rq_branch r) /\ is_u 32 (rq_type r) /\
  (0 <= rq_in r < zlen (vin (rq_tx r)) \/ rq_in r = NOT_AN_INPUT).

(** ** The digests of the parts *)

Lemma pieces_digest personal pieces : blake2b_pieces personal pieces = Ok (personal_digest (personal, mjoin pieces)).
Proof.
  unfold blake2b_pieces, blake2b_init_salt_personal. change (zlen []) with 0. cbv zeta. change (0 =? 0) with true. cbv iota.
  set (p := {| digest_length := u8 32 |}).
  rewrite (final_absorbed (b_h (blake2b_init_param p)) 32 (mjoin pieces)); [done| |done|done].
  apply (updates_absorbed _ _ []), init_absorbed.
Qed.

Lemma hash_personal_digest data personal : blake2b_hash_personal data personal = Ok (personal_digest (personal, data)).
Proof. unfold blake2b_hash_personal. rewrite pieces_digest. do 3 f_equal. apply app_nil_r. Qed.

Lemma part_digest_length {A} (message : A -> bytes * bytes) part : length (part_digest message part) = 32%nat.
Proof.
  destruct part as [a|]; [|done]. cbn [part_digest].
  destruct (blake2b_ref_ok (b_h (blake2b_init_param {| digest_length := 32; key_length := 0; fanout := 1; depth := 1;
    salt := replicate 16 0; personal := (message a).1 |})) 32 (message a).2) as [El _]; [by vm_compute|].
  unfold personal_digest, zlen in *. lia.
Qed.

Lemma varbuf_compact n : is_u 64 n -> varbuf n = compact_size_bytes n.
Proof.
  intros Hn. unfold is_u in *. unfold varbuf, compact_size_bytes.
  repeat case_if; try done; rewrite uwrap_small; (done || (unfold is_u; lia)).
Qed.

Section Exact.
Context `{AllocatorTotal} `{HashFunctions}.

Lemma emits_ignore m l : emits m l -> emits (ignore m) l.
Proof. intros E s Hw. destruct (E s Hw) as (s' & Em & Hs). exists s'. unfold ignore. by rewrite Em. Qed.

Lemma scratch_emits m l : emits m l -> zlen l <= SIZE_MAX -> scratch m = l.
Proof.
  intros E Hl. destruct (E (stream_init 256)) as (s & Em & Hd & _).
  - apply stream_init_writable; unfold zlen, SIZE_MAX in *; lia.
  - unfold scratch. rewrite Em. cbn [snd]. by rewrite Hd.
Qed.

Lemma scratch_items {A} (w : A -> stream_m unit) (enc : A -> bytes) (P : A -> Prop) max k l :
  (forall a, P a -> emits (w a) (enc a)) -> (forall a, P a -> zlen (enc a) <= k) -> 0 <= k -> k * max <= SIZE_MAX ->
  vector_ok max P l -> scratch (write_items (fun a => ignore (w a)) l) = mjoin (map enc l).
Proof.
  intros Hw Hk Hk0 Hm [Hl HP]. apply scratch_emits.
  - apply emits_items. eapply Forall_impl; [exact HP|]. intros a Ha. by apply emits_ignore, Hw.
  - pose proof (zlen_mjoin enc k l (Forall_impl _ _ _ HP Hk)). nia.
Qed.

Lemma mjoin_map_map {A B C} (f : A -> B) (g : B -> list C) l : mjoin (map g (map f l)) = mjoin (map (fun a => g (f a)) l).
Proof. by rewrite map_map. Qed.

Lemma mjoin_pieces {A} (pieces : A -> list bytes) (enc : A -> bytes) l :
  (forall a, mjoin (pieces a) = enc a) -> mjoin (mjoin (map pieces l)) = mjoin (map enc l).
Proof.
  intros E. induction l as [|a l IH]; [done|]. change (mjoin (map pieces (a :: l))) with (pieces a ++ mjoin (map pieces l)).
  by rewrite join_app, E, IH.
Qed.

Variable tx : transaction.
Hypothesis Htx : tx_ok tx.

Lemma tx_ok_ins : vector_ok MAX_TX_INPUTS tx_in_ok (vin tx).
Proof. apply Htx. Qed.

Lemma tx_ok_outs : vector_ok MAX_TX_OUTPUTS tx_out_ok (vout tx).
Proof. apply Htx. Qed.

Lemma prevout_hash_digest : get_prevout_hash tx = Ok (part_digest prevouts_message (Some (map prevout (vin tx)))).
Proof.
  unfold get_prevout_hash. rewrite hash_personal_digest. apply (f_equal (fun m => Ok (personal_digest (_, m)))).
  rewrite (scratch_items _ (fun i => outpoint_bytes (prevout i)) tx_in_ok MAX_TX_INPUTS 36), mjoin_map_map; try done.
  - intros i (Hp & _). apply emits_bind; apply emits_write.
  - intros i ((Hh & _) & _). unfold outpoint_bytes. rewrite zlen_app, zlen_le_encode, (fixed_zlen _ _ Hh). lia.
  - apply tx_ok_ins.
Qed.

Lemma sequence_hash_digest : get_sequence_hash tx = Ok (part_digest sequences_message (Some (map sequence (vin tx)))).
Proof.
  unfold get_sequence_hash. rewrite hash_personal_digest. apply (f_equal (fun m => Ok (personal_digest (_, m)))).
  rewrite (scratch_items _ (fun i => le_encode 4 (sequence i)) tx_in_ok MAX_TX_INPUTS 4), mjoin_map_map; try done.
  - intros i _. apply emits_write.
  - apply tx_ok_ins.
Qed.

Lemma outputs_hash_digest : get_outputs_hash tx = Ok (part_digest outputs_message (Some (vout tx))).
Proof.
  unfold get_outputs_hash. rewrite hash_personal_digest. apply (f_equal (fun m => Ok (personal_digest (_, m)))).
  apply (scratch_items _ _ tx_out_ok MAX_TX_OUTPUTS 10017); try done.
  - apply emits_tx_out.
  - apply zlen_tx_out_bytes.
  - apply tx_ok_outs.
Qed.

Lemma joinsplits_hash_digest : (zlen (v_joinsplit tx) >? 0) = true ->
  get_joinsplits_hash tx = Ok (part_digest joinsplits_message (l ← non_empty (v_joinsplit tx); Some (l, joinsplit_pubkey tx))).
Proof.
  intros Hn. unfold get_joinsplits_hash. rewrite pieces_digest. destruct (v_joinsplit tx) as [|js l] eqn:E; [done|].
  rewrite <- E at 1. do 3 f_equal. cbn [joinsplits_message fst snd]. f_equal. rewrite join_app.
  rewrite (mjoin_pieces _ js_bytes), E; [cbn; by rewrite app_nil_r|].
  intros a. unfold js_pieces, js_bytes. rewrite !map_id, !join_app. cbn [mjoin list_join].
  rewrite !app_nil_r, <- !app_assoc. done.
Qed.

Lemma spends_hash_digest : (zlen (v_shielded_spend tx) >? 0) = true ->
  get_shielded_spends_hash tx = Ok (part_digest spends_message (non_empty (map unsigned_spend (v_shielded_spend tx)))).
Proof.
  intros Hn. unfold get_shielded_spends_hash. rewrite pieces_digest. destruct (v_shielded_spend tx) as [|sd l] eqn:E; [done|].
  apply (f_equal (fun m => Ok (personal_digest (_, m)))).
  rewrite (mjoin_pieces _ spend_core); [change (unsigned_spend sd :: _) with (map unsigned_spend (sd :: l)); by rewrite mjoin_map_map|].
  intros a. unfold spend_pieces, spend_core. cbn. by rewrite app_nil_r.
Qed.

Lemma shielded_hash_digest : (zlen (v_shielded_output tx) >? 0) = true ->
  get_shielded_outputs_hash tx = Ok (part_digest shielded_message (non_empty (v_shielded_output tx))).
Proof.
  intros Hn. unfold get_shielded_outputs_hash. rewrite pieces_digest. destruct (v_shielded_output tx) as [|od l] eqn:E; [done|].
  do 3 f_equal. rewrite (mjoin_pieces _ output_bytes); [done|].
  intros a. unfold output_pieces, output_bytes. cbn. by rewrite app_nil_r.
Qed.

Abbreviation js_part := (l ← non_empty (v_joinsplit tx); Some (l, joinsplit_pubkey tx)).
Abbreviation spends_part := (non_empty (map unsigned_spend (v_shielded_spend tx))).

Definition tx_digests : precomputed_tx_data := {|
  hash_prevouts := part_digest prevouts_message (Some (map prevout (vin tx)));
  hash_sequence := part_digest sequences_message (Some (map sequence (vin tx)));
  hash_outputs := part_digest outputs_message (Some (vout tx));
  hash_joinsplits := part_digest joinsplits_message js_part;
  hash_shielded_spends := part_digest spends_message spends_part;
  hash_shielded_outputs := part_digest shielded_message (non_empty (v_shielded_output tx)) |}.

Lemma empty_part {A} (l : list A) : (zlen l >? 0) = false -> l = [].
Proof. destruct l; [done|]. unfold zlen. cbn. lia. Qed.

(** A part is hashed when it is not empty, from the cache or anew. *)
Lemma joinsplits_part cache : cache = None \/ cache = Some tx_digests ->
  (if zlen (v_joinsplit tx) >? 0 then cached cache hash_joinsplits (get_joinsplits_hash tx) else Ok uint256_null) =
  Ok (part_digest joinsplits_message js_part).
Proof.
  intros Hc. destruct (_ >? 0) eqn:E; [|by rewrite (empty_part _ E)].
  destruct Hc as [-> | ->]; [|done]. by apply joinsplits_hash_digest.
Qed.

Lemma spends_part_digest cache : cache = None \/ cache = Some tx_digests ->
  (if zlen (v_shielded_spend tx) >? 0 then cached cache hash_shielded_spends (get_shielded_spends_hash tx)
   else Ok uint256_null) = Ok (part_digest spends_message spends_part).
Proof.
  intros Hc. destruct (_ >? 0) eqn:E; [|by rewrite (empty_part _ E)].
  destruct Hc as [-> | ->]; [|done]. by apply spends_hash_digest.
Qed.

Lemma shielded_part_digest cache : cache = None \/ cache = Some tx_digests ->
  (if zlen (v_shielded_output tx) >? 0 then cached cache hash_shielded_outputs (get_shielded_outputs_hash tx)
   else Ok uint256_null) = Ok (part_digest shielded_message (non_empty (v_shielded_output tx))).
Proof.
  intros Hc. destruct (_ >? 0) eqn:E; [|by rewrite (empty_part _ E)].
  destruct Hc as [-> | ->]; [|done]. by apply shielded_hash_digest.
Qed.

Lemma precompute_digests : domain_consensus_precompute_tx_data tx = Ok tx_digests.
Proof.
  unfold domain_consensus_precompute_tx_data.
  rewrite prevout_hash_digest, sequence_hash_digest, outputs_hash_digest. cbn [mbind result_bind].
  pose proof (joinsplits_part None (or_introl eq_refl)) as Ej. pose proof (spends_part_digest None (or_introl eq_refl)) as Es.
  pose proof (shielded_part_digest None (or_introl eq_refl)) as Eo. cbn [cached] in Ej, Es, Eo. by rewrite Ej, Es, Eo.
Qed.
End Exact.

(** The cache argument of the callers: none, or the precomputed digests of the transaction *)
Definition cache_of `{Allocator} (use : bool) (tx : transaction) : option precomputed_tx_data :=
  match domain_consensus_precompute_tx_data tx with
  | Ok c => if use then Some c else None
  | Err _ => None
  end.

Section Requests.
Context `{AllocatorTotal} `{HashFunctions}.

Definition signature_hash (use_cache : bool) (r : sig_request) : result sighash_err uint256_t :=
  domain_consensus_signature_hash (rq_script r) (rq_tx r) (rq_in r) (rq_type r) (rq_amount r) (rq_branch r)
    (cache_of use_cache (rq_tx r)).

Lemma cache_of_digests use tx : tx_ok tx -> cache_of use tx = None \/ cache_of use tx = Some (tx_digests tx).
Proof. intros Htx. unfold cache_of. rewrite precompute_digests by done. destruct use; auto. Qed.

Lemma array_at_some {A} (l : list A) n : 0 <= n < zlen l -> exists a, array_at l n = Ok a /\ l !! Z.to_nat n = Some a.
Proof.
  intros Hn. unfold array_at. destruct (lookup_lt_is_Some_2 l (Z.to_nat n)) as [a E]; [unfold zlen in Hn; lia|].
  exists a. by rewrite E.
Qed.

Lemma not_an_input_beyond {A} max (P : A -> Prop) l : max < UINT32_MAX -> vector_ok max P l -> l !! Z.to_nat NOT_AN_INPUT = None.
Proof. intros Hm [Hl _]. apply lookup_ge_None_2. unfold zlen, NOT_AN_INPUT in *. lia. Qed.

Lemma single_output_hash out : tx_out_ok out ->
  blake2b_hash_personal (scratch (ignore (tx_out_serialize out))) OUTPUTS_PERSONAL =
  Ok (part_digest outputs_message (Some [out])).
Proof.
  intros Ho. rewrite hash_personal_digest. apply (f_equal (fun m => Ok (personal_digest (_, m)))).
  change (mjoin (map tx_out_bytes [out])) with (tx_out_bytes out ++ []). rewrite app_nil_r. apply scratch_emits.
  - by apply emits_ignore, emits_tx_out.
  - pose proof (zlen_tx_out_bytes out Ho). unfold SIZE_MAX. lia.
Qed.

(** The three digests that the hash type selects *)
Lemma prevouts_part tx cache acp : tx_ok tx -> cache = None \/ cache = Some (tx_digests tx) ->
  (if negb acp then cached cache hash_prevouts (get_prevout_hash tx) else Ok uint256_null) =
  Ok (part_digest prevouts_message (if acp then None else Some (map prevout (vin tx)))).
Proof. intros Htx [-> | ->]; destruct acp; try done. by apply prevout_hash_digest. Qed.

Lemma sequences_part tx cache (b : bool) : tx_ok tx -> cache = None \/ cache = Some (tx_digests tx) ->
  (if b then cached cache hash_sequence (get_sequence_hash tx) else Ok uint256_null) =
  Ok (part_digest sequences_message (if b then Some (map sequence (vin tx)) else None)).
Proof. intros Htx [-> | ->]; destruct b; try done. by apply sequence_hash_digest. Qed.

Lemma outputs_part tx cache (all single : bool) n : tx_ok tx -> cache = None \/ cache = Some (tx_digests tx) -> 0 <= n ->
  (if all then cached cache hash_outputs (get_outputs_hash tx)
   else if single && (n <? zlen (vout tx)) then
     out ← array_at (vout tx) n; blake2b_hash_personal (scratch (ignore (tx_out_serialize out))) OUTPUTS_PERSONAL
   else Ok uint256_null) =
  Ok (part_digest outputs_message (if all then Some (vout tx) else if single then o ← vout tx !! Z.to_nat n; Some [o] else None)).
Proof.
  intros Htx Hc Hn. pose proof (tx_ok_outs tx Htx) as [_ Ho].
  destruct all; [destruct Hc as [-> | ->]; [by apply outputs_hash_digest|done]|]. destruct single; [|done].
  destruct (Z.ltb_spec n (zlen (vout tx))) as [Hl|Hl]; cbn [andb].
  - destruct (array_at_some (vout tx) n ltac:(lia)) as (o & -> & E). rewrite E. cbn [mbind result_bind option_bind].
    apply single_output_hash. by eapply Forall_lookup_1.
  - rewrite (lookup_ge_None_2 (vout tx)) by (unfold zlen in Hl; lia). done.
Qed.

(** The pieces that describe the input *)
Lemma input_part tx sc amount n : tx_ok tx -> script_ok sc -> 0 <= n < zlen (vin tx) \/ n = NOT_AN_INPUT ->
  exists pieces, (if negb (n =? NOT_AN_INPUT) then
     i ← array_at (vin tx) n;
     Ok [op_hash (prevout i); le_encode 4 (op_n (prevout i)); varbuf (zlen sc); sc; le_encode 8 (u64 amount); le_encode 4 (sequence i)]
   else @Ok sighash_err _ []) = Ok pieces /\
  mjoin pieces = match (i ← vin tx !! Z.to_nat n; Some (prevout i, sc, amount, sequence i)) with
                 | Some i => input_bytes i | None => [] end.
Proof.
  intros Htx [Hsl _] Hn. pose proof (tx_ok_ins tx Htx) as Hv. destruct (Z.eqb_spec n NOT_AN_INPUT) as [->|Hne].
  - exists []. split; [done|]. by rewrite (not_an_input_beyond MAX_TX_INPUTS tx_in_ok _ eq_refl Hv).
  - destruct Hn as [Hn|]; [|done]. destruct (array_at_some _ _ Hn) as (i & -> & ->). eexists. split; [reflexivity|].
    cbn [mbind option_bind]. unfold input_bytes, outpoint_bytes, script_bytes.
    rewrite varbuf_compact by (unfold is_u, zlen, MAX_SCRIPT_SIZE in *; lia).
    cbn [mjoin list_join]. by rewrite app_nil_r, <- !app_assoc.
Qed.

(** The digest of an Overwinter or Sapling request is the digest of what it signs. *)
Lemma overwinter_digest use r : request_ok r -> overwintered (rq_tx r) = true ->
  signature_hash use r = Ok (personal_digest (sighash_message (signed_of r))).
Proof.
  intros (Htx & Hsc & Ha & Hb & Ht & Hn) How. destruct r as [sc tx n ht am br].
  cbn [rq_tx rq_script rq_in rq_type rq_amount rq_branch] in *.
  unfold signature_hash, domain_consensus_signature_hash. cbn [rq_tx rq_script rq_in rq_type rq_amount rq_branch].
  replace (negb ((n >=? zlen (vin tx)) && negb (n =? NOT_AN_INPUT))) with true by (unfold NOT_AN_INPUT, UINT32_MAX in *; lia). cbn [ensure mbind result_bind].
  pose proof (cache_of_digests use tx Htx) as Hc. set (cache := cache_of use tx) in *. clearbody cache.
  assert (forall v, v <> SIGVERSION_SPROUT -> bool_decide (v = SIGVERSION_SAPLING) = is_sapling_group (version_group_id tx) ->
    sighash_overwinter_sapling sc tx n ht am br cache v =
    Ok (personal_digest (sighash_message (signed_of (SigRequest sc tx n ht am br))))) as Hv.
  { intros v Hs Hd. unfold sighash_overwinter_sapling. rewrite Hd.
    rewrite prevouts_part, sequences_part, outputs_part, joinsplits_part, spends_part_digest, shielded_part_digest
      by (done || unfold NOT_AN_INPUT, UINT32_MAX in *; lia).
    destruct (input_part tx sc am n Htx Hsc Hn) as (pieces & -> & Ep). cbn [mbind result_bind].
    unfold sighash_message, signed_of.
    cbn [rq_tx rq_script rq_in rq_type rq_amount rq_branch sg_branch sg_header sg_group sg_prevouts sg_sequences sg_outputs
      sg_joinsplits sg_spends sg_shielded sg_lock_time sg_expiry sg_balance sg_type sg_input].
    destruct (is_sapling_group _); cbn [mbind result_bind]; rewrite pieces_digest; do 3 f_equal; rewrite !join_app, Ep;
      cbn [mjoin list_join]; by rewrite <- ?app_assoc, ?app_nil_r. }
  unfold domain_consensus_signature_hash_version. rewrite How. unfold is_sapling_group in Hv.
  destruct (_ =? SAPLING_VERSION_GROUP_ID); by apply Hv.
Qed.
End Requests.

(** ** The digest determines what is signed *)

Lemma parses_prefix {A} (m : stream_m A) l l' a a' r r' :
  parses m l a -> parses m l' a' -> l ++ r = l' ++ r' -> a = a' /\ r = r'.
Proof.
  intros P P' E. pose proof (parses_parsed m l a r P) as E1. pose proof (parses_parsed m l' a' r' P') as E2.
  rewrite E, E2 in E1. by simplify_eq.
Qed.

(** A concatenation of prefix-free codes determines the list. *)
Lemma mjoin_code_inj {A} (P : A -> Prop) (enc : A -> bytes) l l' :
  (forall a a' r r', P a -> P a' -> enc a ++ r = enc a' ++ r' -> a = a' /\ r = r') -> (forall a, P a -> enc a <> []) ->
  Forall P l -> Forall P l' -> mjoin (map enc l) = mjoin (map enc l') -> l = l'.
Proof.
  intros Hp Hn Hl. revert l'. induction Hl as [|a l Ha Hl IH]; intros l' Hl' E.
  - destruct Hl' as [|a' l' Ha' Hl']; [done|]. symmetry in E. apply app_eq_nil in E as [E _]. by destruct (Hn a' Ha').
  - destruct Hl' as [|a' l' Ha' Hl']; [apply app_eq_nil in E as [E _]; by destruct (Hn a Ha)|].
    change (enc a ++ mjoin (map enc l) = enc a' ++ mjoin (map enc l')) in E.
    destruct (Hp _ _ _ _ Ha Ha' E) as [-> Er]. f_equal. by apply IH.
Qed.

Lemma app_split {A} (a a' r r' : list A) n : length a = n -> length a' = n -> a ++ r = a' ++ r' -> a = a' /\ r = r'.
Proof. intros <- El. apply app_inj_1. done. Qed.

Record signed_ok (g : signed_data) : Prop := {
  so_branch : is_u 32 (sg_branch g);
  so_header : is_u 32 (sg_header g);
  so_group : is_u 32 (sg_group g);
  so_prevouts : forall l, sg_prevouts g = Some l -> Forall outpoint_ok l;
  so_sequences : forall l, sg_sequences g = Some l -> Forall (is_u 32) l;
  so_outputs : forall l, sg_outputs g = Some l -> Forall tx_out_ok l;
  so_joinsplits : forall j, sg_joinsplits g = Some j ->
    Forall (js_ok (is_sapling_group (sg_group g))) j.1 /\ fixed 32 j.2;
  so_spends : forall l, sg_spends g = Some l -> Forall (fun sd => spend_ok sd /\ sd = unsigned_spend sd) l;
  so_shielded : forall l, sg_shielded g = Some l -> Forall output_ok l;
  so_lock_time : is_u 32 (sg_lock_time g);
  so_expiry : is_u 32 (sg_expiry g);
  so_balance : is_s 64 (sg_balance g);
  so_type : is_u 32 (sg_type g);
  so_input : forall op sc am sq, sg_input g = Some (op, sc, am, sq) ->
    outpoint_ok op /\ script_ok sc /\ is_s 64 am /\ is_u 32 sq;
  so_transparent : is_sapling_group (sg_group g) = false -> sg_spends g = None /\ sg_shielded g = None /\ sg_balance g = 0;
}.

Lemma non_empty_some {A} (l l' : list A) : non_empty l = Some l' -> l' = l.
Proof. destruct l; [done|]. by intros [= <-]. Qed.

Lemma unsigned_spend_ok sd : spend_ok sd -> spend_ok (unsigned_spend sd) /\ unsigned_spend sd = unsigned_spend (unsigned_spend sd).
Proof.
  intros (H1 & H2 & H3 & H4 & H5 & _). split; [|done]. repeat split; try done; try apply H1; try apply H2; try apply H3; try apply H4; try apply H5.
  by apply Forall_replicate.
Qed.

(** The format of an Overwinter or Sapling transaction, by its version group *)
Lemma overwintered_format tx : tx_ok tx -> overwintered tx = true ->
  is_u 32 (version_group_id tx) /\ is_u 32 (expiry_height tx) /\
  (is_s 64 (value_balance tx) /\ Forall spend_ok (v_shielded_spend tx) /\ Forall output_ok (v_shielded_output tx)) /\
  Forall (js_ok (is_sapling_group (version_group_id tx))) (v_joinsplit tx) /\
  (is_sapling_group (version_group_id tx) = false ->
   value_balance tx = 0 /\ v_shielded_spend tx = [] /\ v_shielded_output tx = []).
Proof.
  intros (Hv & Hg & _ & _ & _ & Hex & Hsap & Hjs & _) How. cbv zeta in *. rewrite How in *. rewrite Hg in Hex.
  unfold is_overwinter_v3, is_sapling_v4, is_sapling_group in *. cbn [andb] in *.
  destruct (Z.eqb_spec (version_group_id tx) SAPLING_VERSION_GROUP_ID) as [Eg|Ng]; cbn [andb] in *.
  - rewrite Eg in *. change (SAPLING_VERSION_GROUP_ID =? OVERWINTER_VERSION_GROUP_ID) with false in *. cbn [andb orb] in *.
    rewrite Hg in Hsap. apply Z.eqb_eq in Hg. rewrite Hg in *. destruct Hsap as (? & [_ ?] & [_ ?]). destruct Hjs as [_ Hjs].
    split_and!; done.
  - rewrite orb_false_r in Hg. destruct Hsap as (-> & -> & ->). apply andb_prop in Hg as [Eg Ev]. apply Z.eqb_eq in Eg, Ev.
    rewrite Eg, Ev in *. destruct Hjs as [_ Hjs]. split_and!; try done; constructor.
Qed.

Lemma signed_of_ok r : request_ok r -> overwintered (rq_tx r) = true -> signed_ok (signed_of r).
Proof.
  intros (Htx & Hsc & Ha & Hb & Ht & Hn) How. destruct r as [sc tx n ht am br].
  cbn [rq_tx rq_script rq_in rq_type rq_amount rq_branch] in *.
  assert (is_u 32 (tx_get_header tx)) as Hh.
  { destruct (tx_header_fields tx) as [Hh _]; [apply Htx|]. unfold tx_header in Hh. unfold tx_get_header. by rewrite How in *. }
  destruct (overwintered_format tx Htx How) as (Hg & Hex & Hs4 & Hjs & Hs3).
  destruct Htx as (_ & _ & [_ Hin] & [_ Hout] & Hlt & _ & _ & _ & Hpk & _). cbv zeta in *.
  unfold signed_of. constructor;
    cbn [rq_tx rq_script rq_in rq_type rq_amount rq_branch sg_branch sg_header sg_group sg_prevouts sg_sequences sg_outputs
      sg_joinsplits sg_spends sg_shielded sg_lock_time sg_expiry sg_balance sg_type sg_input]; try done.
  - intros l. case_if; [done|]. intros [= <-]. rewrite Forall_map. eapply Forall_impl; [exact Hin|]. by intros i (? & _).
  - intros l. case_if; [|done]. intros [= <-]. rewrite Forall_map. eapply Forall_impl; [exact Hin|]. by intros i (_ & _ & ?).
  - intros l. case_if; [by intros [= <-]|]. case_if; [|done]. destruct (vout tx !! _) as [o|] eqn:E; [|done].
    intros [= <-]. apply Forall_singleton. by eapply Forall_lookup_1.
  - intros j. destruct (non_empty _) as [l'|] eqn:E; [|done]. intros [= <-]. apply non_empty_some in E as El. subst l'.
    split; [done|]. destruct (v_joinsplit tx); [done|]. apply Hpk.
  - intros l E. apply non_empty_some in E as ->. rewrite Forall_map. eapply Forall_impl; [apply Hs4|]. apply unsigned_spend_ok.
  - intros l E. apply non_empty_some in E as ->. apply Hs4.
  - apply Hs4.
  - intros op sc' am' sq. destruct (vin tx !! _) as [i|] eqn:E; [|done]. intros [= <- <- <- <-].
    destruct (Forall_lookup_1 _ _ _ _ Hin E) as (? & _ & ?). done.
  - intros E. destruct (Hs3 E) as (-> & -> & ->). done.
Qed.

(** *** The messages determine their parts *)

Lemma prevouts_message_inj l l' : Forall outpoint_ok l -> Forall outpoint_ok l' ->
  prevouts_message l = prevouts_message l' -> l = l'.
Proof.
  intros Hl Hl' [= E]. apply (mjoin_code_inj outpoint_ok outpoint_bytes); try done.
  - intros a a' r r' Ha Ha'. apply (parses_prefix outpoint_deserialize); by apply parses_outpoint.
  - intros a _ Ea. by apply app_eq_nil in Ea as [_ ?].
Qed.

Lemma sequences_message_inj l l' : Forall (is_u 32) l -> Forall (is_u 32) l' ->
  sequences_message l = sequences_message l' -> l = l'.
Proof.
  intros Hl Hl' [= E]. apply (mjoin_code_inj (is_u 32) (le_encode 4)); try done.
  intros a a' r r' Ha Ha'. apply (parses_prefix stream_read_u32_le); by apply parses_u32.
Qed.

Lemma outputs_message_inj l l' : Forall tx_out_ok l -> Forall tx_out_ok l' ->
  outputs_message l = outputs_message l' -> l = l'.
Proof.
  intros Hl Hl' [= E]. apply (mjoin_code_inj tx_out_ok tx_out_bytes); try done.
  intros a a' r r' Ha Ha'. apply (parses_prefix tx_out_deserialize); by apply parses_tx_out.
Qed.

Lemma joinsplits_message_inj groth j j' : Forall (js_ok groth) j.1 /\ fixed 32 j.2 -> Forall (js_ok groth) j'.1 /\ fixed 32 j'.2 ->
  joinsplits_message j = joinsplits_message j' -> j = j'.
Proof.
  destruct j as [l pk], j' as [l' pk']. cbn [fst snd]. intros (Hl & Hp & _) (Hl' & Hp' & _) [= E].
  apply app_inj_2 in E as [E ->]; [|lia]. f_equal. apply (mjoin_code_inj (js_ok groth) js_bytes); try done.
  intros a a' r r' Ha Ha'. apply (parses_prefix (js_description_deserialize groth)); by apply parses_js.
Qed.

Lemma spends_message_inj l l' : Forall (fun sd => spend_ok sd /\ sd = unsigned_spend sd) l ->
  Forall (fun sd => spend_ok sd /\ sd = unsigned_spend sd) l' -> spends_message l = spends_message l' -> l = l'.
Proof.
  intros Hl Hl' [= E]. refine (mjoin_code_inj _ spend_core _ _ _ _ Hl Hl' E).
  - intros a a' r r' [Ha Ea] [Ha' Ea'] E0. rewrite Ea, Ea' in E0 |- *. clear Ea Ea'.
    assert (forall sd, spend_ok sd -> length (spend_core sd) = 320%nat) as Hlen.
    { intros sd (H1 & H2 & H3 & H4 & H5 & _). unfold spend_core. rewrite !length_app.
      pose proof (fixed_zlen _ _ H1). pose proof (fixed_zlen _ _ H2). pose proof (fixed_zlen _ _ H3).
      pose proof (fixed_zlen _ _ H4). pose proof (fixed_zlen _ _ H5). unfold zlen, GROTH_PROOF_SIZE in *. lia. }
    apply app_split with (n := 320%nat) in E0 as [E0 ->]; [|apply (Hlen a Ha)|apply (Hlen a' Ha')]. split; [|done].
    assert (forall sd, spend_bytes (unsigned_spend sd) = spend_core sd ++ replicate 64 0) as Hb.
    { intros sd. unfold spend_bytes, spend_core. cbn [unsigned_spend sd_cv sd_anchor sd_nullifier sd_rk sd_zkproof sd_spend_auth_sig].
      by rewrite <- !app_assoc. }
    apply (parses_prefix spend_description_deserialize (spend_bytes (unsigned_spend a)) (spend_bytes (unsigned_spend a')) _ _ [] []).
    + by apply parses_spend, unsigned_spend_ok.
    + by apply parses_spend, unsigned_spend_ok.
    + change (spend_core a = spend_core a') in E0. by rewrite !Hb, E0.
  - intros sd [(H1 & _) _] E0. apply app_eq_nil in E0 as [E0 _]. destruct H1 as [H1 _]. by rewrite E0 in H1.
Qed.

Lemma shielded_message_inj l l' : Forall output_ok l -> Forall output_ok l' ->
  shielded_message l = shielded_message l' -> l = l'.
Proof.
  intros Hl Hl' [= E]. apply (mjoin_code_inj output_ok output_bytes); try done.
  - intros a a' r r' Ha Ha'. apply (parses_prefix output_description_deserialize); by apply parses_output.
  - intros od (H1 & _) E0. apply app_eq_nil in E0 as [E0 _]. destruct H1 as [H1 _]. by rewrite E0 in H1.
Qed.

Lemma input_bytes_inj op sc am sq op' sc' am' sq' :
  outpoint_ok op /\ script_ok sc /\ is_s 64 am /\ is_u 32 sq -> outpoint_ok op' /\ script_ok sc' /\ is_s 64 am' /\ is_u 32 sq' ->
  input_bytes (op, sc, am, sq) = input_bytes (op', sc', am', sq') -> (op, sc, am, sq) = (op', sc', am', sq').
Proof.
  intros (Ho & Hs & Ha & Hq) (Ho' & Hs' & Ha' & Hq') E. unfold input_bytes in E.
  apply (parses_prefix outpoint_deserialize _ _ op op') in E as [-> E]; [|by apply parses_outpoint|by apply parses_outpoint].
  apply (parses_prefix read_script _ _ sc sc') in E as [-> E]; [|by apply parses_script|by apply parses_script].
  apply (parses_prefix stream_read_i64_le _ _ am am') in E as [-> E]; [|by apply parses_i64|by apply parses_i64].
  rewrite <- (app_nil_r (le_encode 4 sq)), <- (app_nil_r (le_encode 4 sq')) in E.
  apply (parses_prefix stream_read_u32_le _ _ sq sq') in E as [-> _]; [done|by apply parses_u32|by apply parses_u32].
Qed.

(** *** The message of the whole *)

Lemma le_encode_inj n v v' : 0 <= v < 256 ^ Z.of_nat n -> 0 <= v' < 256 ^ Z.of_nat n -> le_encode n v = le_encode n v' -> v = v'.
Proof. intros Hv Hv' E. apply (f_equal le_decode) in E. by rewrite !le_decode_encode, !Z.mod_small in E by lia. Qed.

Lemma part_digest_broken {A} (message : A -> bytes * bytes) (P : A -> Prop) (f : signed_data -> option A) g g' :
  (forall a a', P a -> P a' -> message a = message a' -> a = a') ->
  (forall a, f g = Some a -> P a) -> (forall a, f g' = Some a -> P a) ->
  (forall h a, f h = Some a -> message a ∈ hashed h) ->
  part_digest message (f g) = part_digest message (f g') -> f g = f g' \/ digest_broken g g'.
Proof.
  intros Hinj Hg Hg' Hin. destruct (f g) as [a|] eqn:E, (f g') as [a'|] eqn:E'; cbn [part_digest]; intros Ed.
  - destruct (decide (message a = message a')) as [Em|Nm]; [left; f_equal; auto|].
    right. left. exists (message a), (message a'). auto.
  - right. right. exists (message a). rewrite elem_of_app. auto.
  - right. right. exists (message a'). rewrite elem_of_app. auto.
  - by left.
Qed.

Lemma u32_code_inj v v' r r' : is_u 32 v -> is_u 32 v' -> le_encode 4 v ++ r = le_encode 4 v' ++ r' -> v = v' /\ r = r'.
Proof. intros Hv Hv'. apply (parses_prefix stream_read_u32_le); by apply parses_u32. Qed.

Lemma digest_code_inj {A} (message : A -> bytes * bytes) p p' r r' :
  part_digest message p ++ r = part_digest message p' ++ r' -> part_digest message p = part_digest message p' /\ r = r'.
Proof. apply (app_split _ _ _ _ 32); apply part_digest_length. Qed.

Lemma input_field_inj g g' : signed_ok g -> signed_ok g' ->
  match sg_input g with Some i => input_bytes i | None => [] end =
  match sg_input g' with Some i => input_bytes i | None => [] end -> sg_input g = sg_input g'.
Proof.
  intros Hg Hg'. assert (forall i, input_bytes i <> []) as Hn.
  { intros [[[op sc] am] sq] E. unfold input_bytes, outpoint_bytes in E. rewrite <- app_assoc in E.
    apply app_eq_nil in E as [_ E]. by apply app_eq_nil in E as [E _]. }
  destruct (sg_input g) as [[[[op sc] am] sq]|] eqn:E, (sg_input g') as [[[[op' sc'] am'] sq']|] eqn:E'; intros Eb.
  - f_equal. apply input_bytes_inj; [by apply (so_input g)|by apply (so_input g')|done].
  - by destruct (Hn _ Eb).
  - by destruct (Hn _ (eq_sym Eb)).
  - done.
Qed.

Lemma hashed_part {A} (message : A -> bytes * bytes) (f : signed_data -> option A) h a :
  (message <$> f h) ∈ [prevouts_message <$> sg_prevouts h; sequences_message <$> sg_sequences h;
    outputs_message <$> sg_outputs h; joinsplits_message <$> sg_joinsplits h; spends_message <$> sg_spends h;
    shielded_message <$> sg_shielded h] ->
  f h = Some a -> message a ∈ hashed h.
Proof. intros Hin E. rewrite E in Hin. right. apply list_elem_of_omap. by exists (Some (message a)). Qed.

(** Equal digests of a part: equal parts, or a broken digest *)
Ltac signed_part E P inj Hg Hg' :=
  apply (part_digest_broken _ P) in E as [E|E];
    [|by right|apply inj|apply Hg|apply Hg'|intros ? ?; apply hashed_part; set_solver].

Lemma signed_parts_inj g g' : signed_ok g -> signed_ok g' ->
  sg_branch g = sg_branch g' -> sg_header g = sg_header g' -> sg_group g = sg_group g' ->
  sg_lock_time g = sg_lock_time g' -> sg_expiry g = sg_expiry g' -> sg_balance g = sg_balance g' ->
  sg_type g = sg_type g' -> sg_input g = sg_input g' ->
  part_digest prevouts_message (sg_prevouts g) = part_digest prevouts_message (sg_prevouts g') ->
  part_digest sequences_message (sg_sequences g) = part_digest sequences_message (sg_sequences g') ->
  part_digest outputs_message (sg_outputs g) = part_digest outputs_message (sg_outputs g') ->
  part_digest joinsplits_message (sg_joinsplits g) = part_digest joinsplits_message (sg_joinsplits g') ->
  part_digest spends_message (sg_spends g) = part_digest spends_message (sg_spends g') ->
  part_digest shielded_message (sg_shielded g) = part_digest shielded_message (sg_shielded g') ->
  g = g' \/ digest_broken g g'.
Proof.
  intros Hg Hg' Eb Eh Eg El Ee Ev Et Ei E1 E2 E3 E4 E5 E6.
  pose proof (so_joinsplits g Hg) as Hj. pose proof (so_joinsplits g' Hg') as Hj'. rewrite <- Eg in Hj'.
  signed_part E1 (Forall outpoint_ok) prevouts_message_inj Hg Hg'.
  signed_part E2 (Forall (is_u 32)) sequences_message_inj Hg Hg'.
  signed_part E3 (Forall tx_out_ok) outputs_message_inj Hg Hg'.
  signed_part E4 (fun j => Forall (js_ok (is_sapling_group (sg_group g))) j.1 /\ fixed 32 j.2) joinsplits_message_inj Hj Hj'.
  signed_part E5 (Forall (fun sd => spend_ok sd /\ sd = unsigned_spend sd)) spends_message_inj Hg Hg'.
  signed_part E6 (Forall output_ok) shielded_message_inj Hg Hg'.
  left. destruct g, g'. cbn in *. by subst.
Qed.

(** Two signed records with the same message agree in every field, or a part is broken. *)
Lemma sighash_message_inj g g' : signed_ok g -> signed_ok g' -> sighash_message g = sighash_message g' ->
  g = g' \/ digest_broken g g'.
Proof.
  intros Hg Hg' E. unfold sighash_message in E. cbv zeta in E. apply pair_equal_spec in E as [Eb E].
  unfold sighash_personal in Eb. apply app_inv_head in Eb.
  apply u32_code_inj in E as [Eh E]; [|apply Hg|apply Hg']. apply u32_code_inj in E as [Eg E]; [|apply Hg|apply Hg'].
  apply digest_code_inj in E as [E1 E]. apply digest_code_inj in E as [E2 E].
  apply digest_code_inj in E as [E3 E]. apply digest_code_inj in E as [E4 E].
  assert ((part_digest spends_message (sg_spends g) = part_digest spends_message (sg_spends g') /\
           part_digest shielded_message (sg_shielded g) = part_digest shielded_message (sg_shielded g')) /\
          sg_lock_time g = sg_lock_time g' /\ sg_expiry g = sg_expiry g' /\ sg_balance g = sg_balance g' /\
          sg_type g = sg_type g' /\ sg_input g = sg_input g') as ((E5 & E6) & El & Ee & Ev & Et & Ei).
  { rewrite <- Eg in E. pose proof (so_transparent g Hg) as Ht. pose proof (so_transparent g' Hg') as Ht'. rewrite <- Eg in Ht'.
    destruct (is_sapling_group (sg_group g)).
    - rewrite <- !app_assoc in E. apply digest_code_inj in E as [E5 E]. apply digest_code_inj in E as [E6 E].
      apply u32_code_inj in E as [El E]; [|apply Hg|apply Hg']. apply u32_code_inj in E as [Ee E]; [|apply Hg|apply Hg'].
      apply (parses_prefix stream_read_i64_le _ _ (sg_balance g) (sg_balance g')) in E as [Ev E];
        [|apply parses_i64, Hg|apply parses_i64, Hg'].
      apply u32_code_inj in E as [Et E]; [|apply Hg|apply Hg']. split_and!; try done. by apply input_field_inj.
    - destruct (Ht eq_refl) as (-> & -> & ->), (Ht' eq_refl) as (-> & -> & ->). cbn [app] in E.
      apply u32_code_inj in E as [El E]; [|apply Hg|apply Hg']. apply u32_code_inj in E as [Ee E]; [|apply Hg|apply Hg'].
      apply u32_code_inj in E as [Et E]; [|apply Hg|apply Hg']. split_and!; try done. by apply input_field_inj. }
  apply (le_encode_inj 4) in Eb; [|apply Hg|apply Hg'].
  apply signed_parts_inj; try done; congruence.
Qed.

(** ** Transactions before Overwinter

    The digest is the double hash of a transaction, the one that is signed, followed by the hash
    type: the inputs and outputs that the hash type leaves out are blank. *)

Definition sprout_inputs (r : sig_request) : list (Z * tx_in) :=
  if sighash_has_anyone_can_pay (rq_type r)
  then match vin (rq_tx r) !! Z.to_nat (rq_in r) with Some i => [(rq_in r, i)] | None => [] end
  else imap (fun k i => (Z.of_nat k, i)) (vin (rq_tx r)).

Definition sprout_input (r : sig_request) (e : Z * tx_in) : tx_in :=
  let base := sighash_get_base_type (rq_type r) in
  let here := e.1 =? rq_in r in {|
    prevout := prevout e.2;
    script_sig := if here then rq_script r else [];
    sequence := if negb here && ((base =? BASE_SIGHASH_SINGLE) || (base =? BASE_SIGHASH_NONE)) then 0 else sequence e.2 |}.

Definition sprout_outputs (r : sig_request) : list (option tx_out) :=
  let base := sighash_get_base_type (rq_type r) in
  if base =? BASE_SIGHASH_NONE then []
  else if base =? BASE_SIGHASH_SINGLE then
    match vout (rq_tx r) !! Z.to_nat (rq_in r) with
    | Some o => replicate (Z.to_nat (rq_in r)) None ++ [Some o]
    | None => []
    end
  else map Some (vout (rq_tx r)).

Definition sprout_signed (r : sig_request) : transaction :=
  let tx := rq_tx r in {|
    overwintered := false; version := version tx; version_group_id := 0;
    vin := map (sprout_input r) (sprout_inputs r); vout := map (default tx_out_set_null) (sprout_outputs r);
    lock_time := lock_time tx; expiry_height := 0; value_balance := 0; v_shielded_spend := []; v_shielded_output := [];
    v_joinsplit := v_joinsplit tx; joinsplit_pubkey := joinsplit_pubkey tx; joinsplit_sig := replicate 64 0;
    binding_sig := replicate 64 0; tx_hash := uint256_null |}.

(** Neither an input nor an output that the hash type singles out is missing. *)
Definition singled_out (r : sig_request) : Prop :=
  (sighash_has_anyone_can_pay (rq_type r) = true -> rq_in r <> NOT_AN_INPUT) /\
  (sighash_get_base_type (rq_type r) = BASE_SIGHASH_SINGLE -> rq_in r < zlen (vout (rq_tx r))).

Lemma mapM_ok {E A B} (f : A -> result E B) (g : A -> B) l : (forall a, a ∈ l -> f a = Ok (g a)) -> mapM f l = Ok (map g l).
Proof.
  induction l as [|a l IH]; intros Hf; [done|]. cbn [mapM map]. rewrite (Hf a) by left.
  cbn [mbind result_bind]. rewrite IH; [done|]. intros b Hb. apply Hf. by right.
Qed.

Lemma array_at_nat {A} (l : list A) k a : l !! k = Some a -> array_at l (Z.of_nat k) = Ok a.
Proof. intros E. unfold array_at. by rewrite Nat2Z.id, E. Qed.

Lemma mapM_array {A B} (h : Z -> A -> B) l :
  mapM (fun i => a ← array_at l i; Ok (h i a)) (map Z.of_nat (seq 0 (length l))) = Ok (imap (fun k => h (Z.of_nat k)) l).
Proof.
  assert (forall pre suf, l = pre ++ suf ->
    mapM (fun i => a ← array_at l i; Ok (h i a)) (map Z.of_nat (seq (length pre) (length suf))) =
    Ok (imap (fun k => h (Z.of_nat (length pre + k))) suf)) as Hg; [|exact (Hg [] l eq_refl)].
  intros pre suf. revert pre. induction suf as [|a suf IH]; intros pre El; [done|].
  cbn [length seq map mapM imap]. rewrite (array_at_nat l (length pre) a) by (by rewrite El, list_lookup_middle).
  cbn [mbind result_bind].
  specialize (IH (pre ++ [a])). rewrite length_app in IH. cbn [length] in IH. rewrite Nat.add_1_r in IH.
  rewrite IH by (by rewrite El, <- app_assoc). cbn [mbind result_bind mret result_ret].
  rewrite Nat.add_0_r. do 2 f_equal. apply imap_ext. intros k b _. cbn. f_equal. lia.
Qed.

Lemma Forall_numbered {A} (P : A -> Prop) l : Forall P l -> Forall (fun e => P e.2) (imap (fun k a => (Z.of_nat k, a)) l).
Proof.
  intros Hl. apply Forall_lookup. intros k e E. rewrite list_lookup_imap in E.
  destruct (l !! k) as [a|] eqn:Ea; [|done]. injection E as <-. by eapply Forall_lookup_1.
Qed.

Lemma mapM_single {E A} (f : Z -> result E (option A)) n o : 0 <= n -> (forall i, 0 <= i < n -> f i = Ok None) ->
  f n = Ok (Some o) -> mapM f (map Z.of_nat (seq 0 (Z.to_nat (n + 1)))) = Ok (replicate (Z.to_nat n) None ++ [Some o]).
Proof.
  intros Hn Hf Ho. replace (Z.to_nat (n + 1)) with (S (Z.to_nat n)) by lia. rewrite seq_S, map_app.
  rewrite (mapM_ok _ (fun i => if i =? n then Some o else None)).
  - f_equal. rewrite map_app. cbn [map Nat.add]. rewrite Z2Nat.id, Z.eqb_refl by lia. f_equal. symmetry. apply replicate_as_Forall.
    rewrite !length_map, length_seq. split; [done|]. rewrite !Forall_map. apply Forall_seq. intros k Hk.
    by replace (Z.of_nat k =? n) with false by lia.
  - intros i Hi. destruct (Z.eqb_spec i n) as [->|Hne]; [done|]. apply Hf.
    apply elem_of_app in Hi as [Hi|Hi%list_elem_of_singleton]; [|cbn [Nat.add] in Hi; lia].
    apply list_elem_of_fmap in Hi as (k & -> & Hk%elem_of_seq). lia.
Qed.

Section Sprout.
Context `{AllocatorTotal} `{HashFunctions}.
Variable r : sig_request.
Hypothesis Hr : request_ok r.
Hypothesis How : overwintered (rq_tx r) = false.
Hypothesis Hs : singled_out r.

Lemma rq_in_range : 0 <= rq_in r.
Proof. destruct Hr as (_ & _ & _ & _ & _ & [Hn|Hn]); [lia|by rewrite Hn]. Qed.

Lemma sprout_inputs_ok : Forall (fun e => tx_in_ok e.2) (sprout_inputs r) /\
  mapM (fun idx => i ← array_at (vin (rq_tx r)) idx; Ok (idx, i))
    (if sighash_has_anyone_can_pay (rq_type r) then [rq_in r]
     else map Z.of_nat (seq 0 (Z.to_nat (if sighash_has_anyone_can_pay (rq_type r) then 1 else u32 (zlen (vin (rq_tx r))))))) =
  Ok (sprout_inputs r) /\
  (if sighash_has_anyone_can_pay (rq_type r) then 1 else u32 (zlen (vin (rq_tx r)))) = zlen (sprout_inputs r).
Proof.
  destruct Hr as (Htx & _ & _ & _ & _ & Hn), Hs as [Ha _]. pose proof (tx_ok_ins _ Htx) as [Hl Hv].
  unfold sprout_inputs. destruct (sighash_has_anyone_can_pay _).
  - destruct Hn as [Hn|Hn]; [|by destruct (Ha eq_refl)]. destruct (array_at_some _ _ Hn) as (i & Ei & El). rewrite El.
    split_and!; [|cbn [mapM]; by rewrite Ei|done]. apply Forall_singleton. by eapply Forall_lookup_1.
  - rewrite uwrap_small by (unfold is_u, zlen, MAX_TX_INPUTS in *; lia).
    split_and!; [by apply Forall_numbered| |unfold zlen; by rewrite length_imap].
    unfold zlen. rewrite Nat2Z.id. apply mapM_array.
Qed.

Lemma sprout_outputs_ok : let base := sighash_get_base_type (rq_type r) in
  let n_outputs := if base =? BASE_SIGHASH_NONE then 0
                   else if base =? BASE_SIGHASH_SINGLE then u32 (rq_in r + 1) else u32 (zlen (vout (rq_tx r))) in
  Forall tx_out_ok (map (default tx_out_set_null) (sprout_outputs r)) /\ zlen (sprout_outputs r) <= MAX_TX_OUTPUTS /\
  mapM (fun i => if (base =? BASE_SIGHASH_SINGLE) && negb (i =? rq_in r) then Ok None
                 else o ← array_at (vout (rq_tx r)) i; Ok (Some o)) (map Z.of_nat (seq 0 (Z.to_nat n_outputs))) =
  Ok (sprout_outputs r) /\
  n_outputs = zlen (sprout_outputs r).
Proof.
  intros base n_outputs. destruct Hr as (Htx & _), Hs as [_ Ha]. pose proof (tx_ok_outs _ Htx) as [Hl Ho].
  pose proof rq_in_range as Hin. unfold sprout_outputs. fold base. subst n_outputs. fold base in Ha.
  destruct (Z.eqb_spec base BASE_SIGHASH_NONE) as [Eb|_]; [by rewrite Eb|].
  destruct (Z.eqb_spec base BASE_SIGHASH_SINGLE) as [Eb|_]; cbn [andb].
  - specialize (Ha Eb). destruct (array_at_some (vout (rq_tx r)) (rq_in r) ltac:(lia)) as (o & Eo & El). rewrite El.
    rewrite uwrap_small by (unfold is_u, zlen, MAX_TX_OUTPUTS in *; lia).
    assert (zlen (replicate (Z.to_nat (rq_in r)) None ++ [Some o]) = rq_in r + 1) as Ez
      by (rewrite zlen_app; unfold zlen; rewrite length_replicate; cbn; lia).
    split_and!; [|rewrite Ez; unfold MAX_TX_OUTPUTS in *; lia| |by rewrite Ez].
    + rewrite map_app, Forall_app. split; [|apply Forall_singleton; by eapply Forall_lookup_1].
      change (map (default tx_out_set_null)) with (fmap (M := list) (default tx_out_set_null)). rewrite fmap_replicate. apply Forall_replicate. split; [by unfold is_s|split; [done|constructor]].
    + apply mapM_single; [lia| |by rewrite Z.eqb_refl, Eo]. intros i Hi. by replace (i =? rq_in r) with false by lia.
  - rewrite uwrap_small by (unfold is_u, zlen, MAX_TX_OUTPUTS in *; lia). split_and!; [by rewrite map_map, map_id| | |].
    + unfold zlen in *. rewrite length_map. done.
    + unfold zlen. rewrite Nat2Z.id, (mapM_array (fun _ => Some)). f_equal. apply (imap_const Some).
    + unfold zlen. by rewrite length_map.
Qed.

Lemma sprout_signed_ok : tx_ok (sprout_signed r).
Proof.
  destruct sprout_inputs_ok as (Hi & _ & Hil), sprout_outputs_ok as (Ho & Hol & _).
  destruct Hr as (Htx & Hsc & _). pose proof (tx_ok_ins _ Htx) as [Hl _].
  destruct Htx as (Hv & Hg & _ & _ & Hlt & _ & _ & Hjs & Hpk & _). cbv zeta in *. rewrite How in *.
  unfold tx_ok, sprout_signed. cbn [overwintered version version_group_id vin vout lock_time expiry_height value_balance
    v_shielded_spend v_shielded_output v_joinsplit joinsplit_pubkey joinsplit_sig binding_sig].
  split_and!; try done.
  - apply Hv.
  - apply Hv.
  - split.
    + unfold zlen in *. rewrite length_map, <- Hil. destruct (sighash_has_anyone_can_pay _); [done|].
      rewrite uwrap_small; unfold is_u, MAX_TX_INPUTS in *; lia.
    + rewrite Forall_map. eapply Forall_impl; [exact Hi|]. intros [k i] (Hp & _ & Hq). cbn [snd] in *. unfold sprout_input, tx_in_ok.
      cbn [fst snd prevout script_sig sequence]. split_and!; [done|case_if; [done|by repeat constructor]|case_if; [by unfold is_u|done]].
  - split; [unfold zlen; by rewrite length_map|done].
  - destruct (zlen (v_joinsplit (rq_tx r)) >? 0); [|by destruct Hpk as [-> _]].
    split; [apply Hpk|split; [done|by apply Forall_replicate]].
Qed.

(** The bytes that are hashed *)
Definition sprout_message : bytes := tx_bytes (sprout_signed r) ++ le_encode 4 (rq_type r).

Lemma emits_code_0 : emits (stream_write_compact_size 0) (script_bytes []).
Proof. apply emits_compact_size. by unfold is_u. Qed.

Lemma emits_sprout_inputs : let base := sighash_get_base_type (rq_type r) in
  emits (write_items (fun '(idx, i) =>
      ignore (outpoint_serialize (prevout i));;
      (if negb (idx =? rq_in r) then ignore (stream_write_compact_size 0)
       else ignore (stream_write_compact_size (zlen (rq_script r)));; ignore (stream_write (rq_script r)));;
      (if negb (idx =? rq_in r) && ((base =? BASE_SIGHASH_SINGLE) || (base =? BASE_SIGHASH_NONE))
       then ignore (stream_write_u32_le 0) else ignore (stream_write_u32_le (sequence i)))) (sprout_inputs r))
    (mjoin (map tx_in_bytes (map (sprout_input r) (sprout_inputs r)))).
Proof.
  intros base. rewrite mjoin_map_map. apply emits_items. apply Forall_forall. intros [idx i] _. unfold tx_in_bytes, sprout_input.
  fold base. cbn [fst snd prevout script_sig sequence]. destruct Hr as (_ & [Hsc _] & _).
  apply emits_bind; [apply emits_ignore, emits_bind; apply emits_write|]. apply emits_bind.
  - destruct (idx =? rq_in r); cbn [negb]; [|apply emits_ignore, emits_code_0].
    apply emits_bind; apply emits_ignore; [|apply emits_write]. apply emits_compact_size.
    unfold is_u, zlen, MAX_SCRIPT_SIZE in *. lia.
  - case_if; apply emits_ignore, emits_write.
Qed.

Lemma emits_sprout_outputs :
  emits (write_items (fun o =>
      match o with
      | None => ignore (stream_write_i64_le (-1));; ignore (stream_write_compact_size 0)
      | Some o => ignore (tx_out_serialize o)
      end) (sprout_outputs r))
    (mjoin (map tx_out_bytes (map (default tx_out_set_null) (sprout_outputs r)))).
Proof.
  destruct sprout_outputs_ok as (Ho & _). rewrite Forall_map in Ho. rewrite mjoin_map_map. apply emits_items.
  eapply Forall_impl; [exact Ho|]. intros [o|]; cbn [default]; intros Hok; [by apply emits_ignore, emits_tx_out|].
  apply emits_bind; apply emits_ignore; [apply emits_write|apply emits_code_0].
Qed.

Lemma emits_sprout_joinsplits : let tx := rq_tx r in
  emits (if version tx >=? 2 then
       ignore (stream_write_compact_size (zlen (v_joinsplit tx)));;
       write_items (fun js => ignore (js_description_serialize js)) (v_joinsplit tx);;
       (if zlen (v_joinsplit tx) >? 0 then
          ignore (stream_write (joinsplit_pubkey tx));; ignore (stream_write (replicate 64 0))
        else mret tt)
     else mret tt)
    (if version tx >=? 2
     then vector_bytes js_bytes (v_joinsplit tx) ++
          (if zlen (v_joinsplit tx) >? 0 then joinsplit_pubkey tx ++ replicate 64 0 else [])
     else []).
Proof.
  intros tx. destruct Hr as ((_ & _ & _ & _ & _ & _ & _ & Hjs & _) & _). fold tx in Hjs. cbv zeta in Hjs.
  apply emits_if; intros E; [|apply emits_ret]. rewrite E in Hjs. destruct Hjs as [Hl Hjs].
  unfold vector_bytes. rewrite <- app_assoc. apply emits_bind; [|apply emits_bind].
  - apply emits_ignore, emits_compact_size. unfold is_u, zlen, MAX_JOINSPLITS in *. lia.
  - apply emits_items. apply Forall_forall. intros js _. apply emits_ignore, emits_js.
  - apply emits_if; intros _; [|apply emits_ret]. apply emits_bind; apply emits_ignore, emits_write.
Qed.

Lemma sprout_digest use : signature_hash use r = Ok (h_hash256 sprout_message).
Proof.
  pose proof sprout_signed_ok as Hok. pose proof (tx_bytes_size _ Hok) as Hsize.
  destruct sprout_inputs_ok as (Hi & Ei & Ni), sprout_outputs_ok as (Ho & _ & Eo & No). pose proof rq_in_range as Hin.
  destruct Hr as (Htx & Hsc & _ & _ & _ & Hn), Hs as [_ Hsingle]. cbv zeta in *.
  unfold signature_hash, domain_consensus_signature_hash, domain_consensus_signature_hash_version. rewrite How.
  rewrite (proj2 (negb_true_iff _)) by (unfold NOT_AN_INPUT, UINT32_MAX in *; lia). cbn [ensure mbind result_bind].
  rewrite (proj2 (negb_true_iff _)) by (destruct (Z.eqb_spec (sighash_get_base_type (rq_type r)) BASE_SIGHASH_SINGLE); lia).
  cbn [ensure mbind result_bind]. unfold sighash_sprout. rewrite Ei, Eo, Ni, No. cbn [mbind result_bind].
  destruct (tx_ok_ins _ Hok) as [Hli _], (tx_ok_outs _ Hok) as [Hlo _]. cbn [vin vout sprout_signed] in Hli, Hlo.
  unfold zlen in Hli, Hlo. rewrite length_map in Hli, Hlo. do 2 f_equal. apply scratch_emits.
  2:{ unfold sprout_message. rewrite zlen_app, zlen_le_encode. unfold SIZE_MAX. lia. }
  eapply emits_eq; [repeat first [apply emits_bind | apply emits_ignore]|].
  all: try apply emits_write.
  - apply emits_compact_size. unfold is_u, zlen, MAX_TX_INPUTS in *. lia.
  - apply emits_sprout_inputs.
  - apply emits_compact_size. unfold is_u, zlen, MAX_TX_OUTPUTS in *. lia.
  - apply emits_sprout_outputs.
  - apply emits_sprout_joinsplits.
  - unfold sprout_message, tx_bytes, vector_bytes. unfold zlen. cbn [sprout_signed overwintered version version_group_id vin vout lock_time expiry_height
      value_balance v_shielded_spend v_shielded_output v_joinsplit joinsplit_pubkey joinsplit_sig binding_sig
      is_overwinter_v3 is_sapling_v4 andb orb app]. rewrite !length_map. rewrite <- ?app_assoc. reflexivity.
Qed.
End Sprout.

(** ** Theorems *)

Section Theorems.
Context `{AllocatorTotal} `{HashFunctions}.

(** C12: An Overwinter or Sapling signature hash commits to exactly what its hash type selects.
    The digest of a well-formed request exists, with or without the precomputed parts, and depends
    only on the signed data (branch, header, prevouts, sequence numbers, outputs, joinsplits,
    shielded parts without their signatures, lock time, expiry, value balance, hash type and the
    input with its script code and amount); requests with the same digest sign the same data,
    unless two messages hashed for them collide or one has the null digest of a missing part. *)
Theorem sighash_commits use use' r r' : request_ok r -> request_ok r' ->
  overwintered (rq_tx r) = true -> overwintered (rq_tx r') = true ->
  exists d d', signature_hash use r = Ok d /\ signature_hash use' r' = Ok d' /\
    (signed_of r = signed_of r' -> d = d') /\
    (d = d' -> signed_of r = signed_of r' \/ digest_broken (signed_of r) (signed_of r')).
Proof.
  intros Hr Hr' Ho Ho'. exists (personal_digest (sighash_message (signed_of r))), (personal_digest (sighash_message (signed_of r'))).
  split_and!; [by apply overwinter_digest|by apply overwinter_digest|by intros ->|]. intros E.
  destruct (decide (sighash_message (signed_of r) = sighash_message (signed_of r'))) as [Em|Nm].
  - apply sighash_message_inj; [by apply signed_of_ok|by apply signed_of_ok|done].
  - right. left. exists (sighash_message (signed_of r)), (sighash_message (signed_of r')). split_and!; [left|left|done|done].
Qed.

(** The same for transactions before Overwinter: the digest is the double hash of the
    transaction with the parts the hash type leaves out blanked, followed by the hash type, and
    requests with the same digest sign the same transaction and hash type, unless those two byte
    strings are a collision. *)
Theorem sprout_sighash_commits use use' r r' : request_ok r -> request_ok r' ->
  overwintered (rq_tx r) = false -> overwintered (rq_tx r') = false -> singled_out r -> singled_out r' ->
  exists d d', signature_hash use r = Ok d /\ signature_hash use' r' = Ok d' /\
    (sprout_signed r = sprout_signed r' /\ rq_type r = rq_type r' -> d = d') /\
    (d = d' -> (sprout_signed r = sprout_signed r' /\ rq_type r = rq_type r') \/
               collision h_hash256 (sprout_message r) (sprout_message r')).
Proof.
  intros Hr Hr' Ho Ho' Hs Hs'. exists (h_hash256 (sprout_message r)), (h_hash256 (sprout_message r')).
  split_and!; [by apply sprout_digest|by apply sprout_digest|intros [E1 E2]; unfold sprout_message; by rewrite E1, E2|]. intros E.
  destruct (decide (sprout_message r = sprout_message r')) as [Em|Nm]; [left|by right].
  apply app_inj_2 in Em as [Em Et]; [|done]. apply tx_bytes_inj in Em; [|by apply sprout_signed_ok|by apply sprout_signed_ok].
  split; [exact Em|]. apply (le_encode_inj 4); [apply Hr|apply Hr'|done].
Qed.

(** The joinsplit signature is requested with no input; with ANYONECANPAY the code then reads
    the input of that index, far outside the array. *)
Theorem anyone_can_pay_without_input use r : request_ok r -> overwintered (rq_tx r) = false ->
  rq_in r = NOT_AN_INPUT -> sighash_get_base_type (rq_type r) <> BASE_SIGHASH_SINGLE ->
  sighash_has_anyone_can_pay (rq_type r) = true -> signature_hash use r = Err SIGHASH_UNDEFINED.
Proof.
  intros (Htx & _) How Hn Hb Ha. unfold signature_hash, domain_consensus_signature_hash, domain_consensus_signature_hash_version.
  rewrite How, Hn, Z.eqb_refl, andb_false_r. cbn [negb ensure mbind result_bind].
  rewrite (proj2 (Z.eqb_neq _ _) Hb). cbn [andb negb ensure mbind result_bind]. unfold sighash_sprout. rewrite Ha. cbn [mapM].
  unfold array_at. by rewrite (not_an_input_beyond MAX_TX_INPUTS tx_in_ok _ eq_refl (tx_ok_ins _ Htx)).
Qed.
End Theorems.

(** ** Concrete requests *)

(** A Sapling transaction with one input and one output; the unlocking script is not signed. *)
Definition sample_spend (sc : script) : transaction := {|
  overwintered := true; version := 4; version_group_id := SAPLING_VERSION_GROUP_ID;
  vin := [{| prevout := {| op_hash := replicate 32 7; op_n := 1 |}; script_sig := sc; sequence := UINT32_MAX |}];
  vout := [{| value := 5000; script_pub_key := [0x51] |}]; lock_time := 0; expiry_height := 100; value_balance := 0;
  v_shielded_spend := []; v_shielded_output := []; v_joinsplit := []; joinsplit_pubkey := uint256_null;
  joinsplit_sig := replicate 64 0; binding_sig := replicate 64 0; tx_hash := uint256_null |}.

Definition sample_request (sc : script) : sig_request := {|
  rq_script := [0x51]; rq_tx := sample_spend sc; rq_in := 0; rq_type := SIGHASH_ALL; rq_amount := 6000; rq_branch := 0x76b809bb |}.

Lemma sample_request_ok sc : script_ok sc -> request_ok (sample_request sc).
Proof.
  intros Hs. unfold request_ok. cbn [sample_request rq_tx rq_script rq_in rq_type rq_amount rq_branch]. split_and!.
  - assert (vector_ok MAX_TX_INPUTS tx_in_ok (vin (sample_spend sc))) as Hv.
    { split; [done|]. apply Forall_singleton. split_and!; [|done|by unfold is_u]. split; [|by unfold is_u].
      split; [done|]. by apply Forall_replicate. }
    split; [done|]. split; [done|]. split; [exact Hv|]. split; [split; [done|]|].
    { apply Forall_singleton. split; [by unfold is_s|]. split; [done|]. by repeat constructor. }
    split; [by unfold is_u|]. split; [by unfold is_u|]. split; [split; [by unfold is_s|]; split; split; (done || constructor)|].
    split; [split; [done|constructor]|]. done.
  - split; [done|]. by repeat constructor.
  - by unfold is_s.
  - by unfold is_u.
  - by unfold is_u.
  - left. by vm_compute.
Qed.

Lemma sighash_commits_witness :
  let A : Allocator := fun _ => true in
  @signature_hash A checksum_hashes false (sample_request []) = @signature_hash A checksum_hashes true (sample_request [0x51; 0x75]).
Proof.
  intros A.
  destruct (@sighash_commits A (fun _ => eq_refl) checksum_hashes false true (sample_request []) (sample_request [0x51; 0x75]))
    as (d & d' & E & E' & Hs & _); [| |reflexivity|reflexivity|].
  - apply sample_request_ok. split; [done|constructor].
  - apply sample_request_ok. split; [done|by repeat constructor].
  - rewrite E, E'. f_equal. apply Hs. reflexivity.
Defined.

(** A transaction of version 1; with ANYONECANPAY the second input is not signed. *)
Definition sample_sprout (n : Z) : sig_request := {|
  rq_script := [0x51];
  rq_tx := {|
    overwintered := false; version := 1; version_group_id := 0;
    vin := [{| prevout := {| op_hash := replicate 32 7; op_n := 1 |}; script_sig := []; sequence := 0 |};
            {| prevout := {| op_hash := replicate 32 8; op_n := n |}; script_sig := []; sequence := 0 |}];
    vout := [{| value := 5000; script_pub_key := [0x51] |}]; lock_time := 0; expiry_height := 0; value_balance := 0;
    v_shielded_spend := []; v_shielded_output := []; v_joinsplit := []; joinsplit_pubkey := uint256_null;
    joinsplit_sig := replicate 64 0; binding_sig := replicate 64 0; tx_hash := uint256_null |};
  rq_in := 0; rq_type := SIGHASH_ALL .| SIGHASH_ANYONECANPAY; rq_amount := 6000; rq_branch := 0 |}.

Lemma sample_sprout_ok n : is_u 32 n -> request_ok (sample_sprout n).
Proof.
  intros Hn. unfold request_ok. cbn [sample_sprout rq_tx rq_script rq_in rq_type rq_amount rq_branch]. split_and!.
  - split; [done|]. split; [done|]. split; [split; [done|]|].
    { repeat (apply Forall_cons; split); [| |constructor].
      all: split_and!; [split; [split; [done|by apply Forall_replicate]|]|split; [done|constructor]|]; (done || by unfold is_u). }
    split; [split; [done|]|].
    { apply Forall_singleton. split; [by unfold is_s|]. split; [done|]. by repeat constructor. }
    split; [by unfold is_u|]. done.
  - split; [done|]. by repeat constructor.
  - by unfold is_s.
  - by unfold is_u.
  - by unfold is_u.
  - left. by vm_compute.
Qed.

Lemma sprout_sighash_commits_witness :
  let A : Allocator := fun _ => true in
  @signature_hash A checksum_hashes false (sample_sprout 3) = @signature_hash A checksum_hashes false (sample_sprout 4).
Proof.
  intros A.
  destruct (@sprout_sighash_commits A (fun _ => eq_refl) checksum_hashes false false (sample_sprout 3) (sample_sprout 4))
    as (d & d' & E & E' & Hs & _); [by apply sample_sprout_ok|by apply sample_sprout_ok|reflexivity|reflexivity| | |].
  - split; [done|by vm_compute].
  - split; [done|by vm_compute].
  - rewrite E, E'. f_equal. apply Hs. split; reflexivity.
Defined.
