(* ===== verification/TxVerifier.v ===== *)
(** * Signature checking of a transaction

    Models lib/validation/src/tx_verifier.c with the public keys of lib/keys (pubkey.h, pubkey.c)
    and the ECDSA scheme of lib/crypto_registry/src/scheme_secp256k1_ecdsa.c.  The curve library
    is not part of the repository: parsing of keys and signatures, normalisation and verification
    are the operations of class [Secp256k1].  The checker plugs the signature hash of file Sighash
    into the script interpreter of file ScriptInterp. *)

From S2P Require Import Prelude Hash Serialize Script ScriptInterp Transaction Blake2b Sighash.

(** ** The curve library *)

Class Secp256k1 := {
  sec_key : Type;
  sec_sig : Type;
  ec_pubkey_parse : bytes -> option sec_key;
  ecdsa_signature_parse_der : bytes -> option sec_sig;
  (** whether the signature was changed, and its low-S form *)
  ecdsa_signature_normalize : sec_sig -> bool * sec_sig;
  ecdsa_verify : sec_sig -> bytes -> sec_key -> bool;
}.

(** ** Public keys *)

Definition PUBLIC_KEY_SIZE : Z := 65.

(** [struct pubkey] is its first [size] bytes. *)
Definition pubkey_set (data : bytes) : bytes := take (Z.to_nat PUBLIC_KEY_SIZE) data.

Definition pubkey_is_valid (pk : bytes) : bool := zlen pk >? 0.

Section Checker.
Context `{Allocator} `{HashFunctions} `{Secp256k1}.

Definition registry_ecdsa_verify (pubkey msg sig : bytes) : bool :=
  if negb (zlen msg =? 32) || (zlen pubkey >? PUBLIC_KEY_SIZE) || (zlen pubkey =? 0) || (zlen sig =? 0) then false
  else
    match ec_pubkey_parse pubkey with
    | None => false
    | Some key =>
        match ecdsa_signature_parse_der sig with
        | None => false
        | Some s => ecdsa_verify (snd (ecdsa_signature_normalize s)) msg key
        end
    end.

Definition pubkey_verify (pk hash sig : bytes) : bool :=
  if negb (pubkey_is_valid pk) then false
  else if zlen sig =? 0 then false
  else registry_ecdsa_verify pk hash sig.

Definition pubkey_low_s (sig : bytes) : bool :=
  match ecdsa_signature_parse_der sig with
  | None => false
  | Some s => negb (fst (ecdsa_signature_normalize s))
  end.

(** ** The callbacks *)

Record tx_sig_checker := TxSigChecker {
  c_tx : transaction;
  c_nIn : Z;
  c_amount : Z;
  c_branch_id : Z;
  c_txdata : option precomputed_tx_data;
}.

(** An undefined signature hash needs a request without an input, which no checker makes. *)
Definition check_sig_cb (c : tx_sig_checker) (sig pubkey : bytes) (script_code : script) (branch_id : Z) : bool :=
  if zlen sig =? 0 then false
  else
    let pk := pubkey_set pubkey in
    if negb (pubkey_is_valid pk) then false
    else
      let ht := sig !!! (length sig - 1)%nat in
      match domain_consensus_signature_hash script_code (c_tx c) (c_nIn c) ht (c_amount c) (c_branch_id c) (c_txdata c) with
      | Ok sighash => pubkey_verify pk sighash (take (length sig - 1) sig)
      | Err _ => false
      end.

Definition LOCKTIME_THRESHOLD : Z := 500000000.

Definition check_lock_time_cb (c : tx_sig_checker) (locktime : Z) : bool :=
  let lt := lock_time (c_tx c) in
  if negb (((lt <? LOCKTIME_THRESHOLD) && (locktime <? LOCKTIME_THRESHOLD)) ||
           ((lt >=? LOCKTIME_THRESHOLD) && (locktime >=? LOCKTIME_THRESHOLD))) then false
  else if locktime >? lt then false
  else
    match vin (c_tx c) !! Z.to_nat (c_nIn c) with
    | Some i => negb (sequence i =? UINT32_MAX)
    | None => false
    end.

Definition verify_sig_cb (sig pubkey sighash : bytes) : bool :=
  let pk := pubkey_set pubkey in
  if negb (pubkey_is_valid pk) then false else pubkey_verify pk sighash sig.

Definition tx_make_sig_checker (c : tx_sig_checker) : sig_checker := {|
  check_sig := Some (check_sig_cb c);
  check_lock_time := Some (check_lock_time_cb c);
  verify_signature := Some verify_sig_cb;
  pubkey_check_low_s := pubkey_low_s;
|}.

(** The request that a signature answers *)
Definition request_of (c : tx_sig_checker) (script_code : script) (ht : Z) : sig_request := {|
  rq_script := script_code; rq_tx := c_tx c; rq_in := c_nIn c; rq_type := ht; rq_amount := c_amount c; rq_branch := c_branch_id c |}.

(** A checker for an input of a well-formed transaction, with its precomputed parts or without *)
Definition checker_ok (c : tx_sig_checker) : Prop :=
  tx_ok (c_tx c) /\ 0 <= c_nIn c < zlen (vin (c_tx c)) /\ is_s 64 (c_amount c) /\ is_u 32 (c_branch_id c) /\
  exists use, c_txdata c = cache_of use (c_tx c).

(** What the curve library decides: the key and the DER part of the signature over a digest *)
Definition signed_by (pk digest sig : bytes) : Prop := exists key s,
  ec_pubkey_parse (pubkey_set pk) = Some key /\ ecdsa_signature_parse_der (take (length sig - 1) sig) = Some s /\
  ecdsa_verify (snd (ecdsa_signature_normalize s)) digest key = true.
End Checker.

(** ** What the checker accepts *)

Section Theory.
Context `{AllocatorTotal} `{HashFunctionsOk} `{Secp256k1}.

Lemma sighash_uncached use r : request_ok r -> signature_hash use r = signature_hash false r.
Proof.
  intros Hr. destruct (overwintered (rq_tx r)) eqn:E; [by rewrite !overwinter_digest by done|].
  unfold signature_hash, domain_consensus_signature_hash, domain_consensus_signature_hash_version. by rewrite E.
Qed.

Lemma sprout_digest_length sc tx n ht d : sighash_sprout sc tx n ht = Ok d -> zlen d = 32.
Proof.
  intros (ins & _ & E)%bind_ok. apply bind_ok in E as (outs & _ & [= <-]). unfold zlen. by rewrite (proj1 (hash256_ok _)).
Qed.

Lemma sighash_length r d : request_ok r -> signature_hash false r = Ok d -> zlen d = 32.
Proof.
  intros Hr. destruct (overwintered (rq_tx r)) eqn:E.
  - rewrite overwinter_digest by done. intros [= <-]. unfold zlen.
    pose proof (part_digest_length sighash_message (Some (signed_of r))) as El. cbn [part_digest] in El. by rewrite El.
  - unfold signature_hash, domain_consensus_signature_hash, domain_consensus_signature_hash_version. rewrite E.
    intros (_ & _ & Hd)%bind_ok. apply bind_ok in Hd as (_ & _ & Hd). by eapply sprout_digest_length.
Qed.

Lemma checker_request_ok c code ht : checker_ok c -> script_ok code -> is_u 32 ht -> request_ok (request_of c code ht).
Proof. intros (Htx & Hn & Ha & Hb & _) Hc Ht. unfold request_ok, request_of. cbn. split_and!; auto. Qed.

(** The callback accepts exactly a signature, of at least one byte before its hash type, that the
    curve library verifies for the digest of the request. *)
Lemma check_sig_cb_iff c sig pk code b : checker_ok c -> script_ok code -> bytes_ok sig -> 2 <= zlen sig -> 0 < zlen pk ->
  check_sig_cb c sig pk code b = true <->
  exists d, signature_hash false (request_of c code (sig !!! (length sig - 1)%nat)) = Ok d /\ signed_by pk d sig.
Proof.
  intros Hc Hcode Hs Hsl Hpk. unfold check_sig_cb. replace (zlen sig =? 0) with false by lia.
  assert (0 < zlen (pubkey_set pk) <= PUBLIC_KEY_SIZE) as Hp
    by (unfold pubkey_set, zlen, PUBLIC_KEY_SIZE in *; rewrite length_take; lia).
  unfold pubkey_is_valid. replace (zlen (pubkey_set pk) >? 0) with true by lia. cbn [negb]. cbv zeta.
  set (ht := sig !!! (length sig - 1)%nat). assert (is_u 32 ht) as Hht.
  { assert (is_u 8 ht); [|unfold is_u in *; lia]. eapply Forall_lookup_1; [exact Hs|]. apply list_lookup_lookup_total_lt.
    unfold zlen in Hsl. lia. }
  pose proof (checker_request_ok c code ht Hc Hcode Hht) as Hr. destruct Hc as (_ & _ & _ & _ & use & Hu).
  pose proof (sighash_uncached use _ Hr) as Eu. unfold signature_hash at 1 in Eu.
  cbn [request_of rq_script rq_tx rq_in rq_type rq_amount rq_branch] in Eu. rewrite Hu, Eu.
  destruct (signature_hash false _) as [d|] eqn:Ed; [|split; [done|by intros (d & ? & _)]].
  pose proof (sighash_length _ _ Hr Ed) as Hd. unfold pubkey_verify, pubkey_is_valid, registry_ecdsa_verify.
  replace (zlen (take (length sig - 1) sig) =? 0) with false by (unfold zlen in *; rewrite length_take; lia).
  replace (zlen (pubkey_set pk) >? 0) with true by lia. replace (zlen d =? 32) with true by lia.
  replace (zlen (pubkey_set pk) >? PUBLIC_KEY_SIZE) with false by lia. replace (zlen (pubkey_set pk) =? 0) with false by lia.
  cbn [negb orb]. unfold signed_by. split.
  - destruct (ec_pubkey_parse _) as [key|]; [|done]. destruct (ecdsa_signature_parse_der _) as [s|]; [|done]. naive_solver.
  - intros (d' & [= <-] & key & s & -> & -> & Ev). done.
Qed.

Lemma p2pkh_script_ok h : fixed 20 h -> script_ok (p2pkh_script h).
Proof.
  intros [Hl Hb]. split.
  - unfold p2pkh_script. rewrite !zlen_app. unfold zlen, MAX_SCRIPT_SIZE. cbn [length]. lia.
  - unfold p2pkh_script. rewrite !bytes_ok_app. split_and!; try done; repeat constructor; by vm_compute.
Qed.

(** C36: A key-hash output is spent exactly by a signature over the spending transaction.  For an
    input of a well-formed transaction and every flag set (CLEANSTACK only together with P2SH), the
    interpreter with the transaction's checker accepts the pushes of [sig] and [pk] if and only if
    the key hashes to [h], both encodings pass the checks of the flags, and the curve library
    verifies the DER part of the signature for the signature hash of this input under the hash
    type in its last byte. *)
Theorem p2pkh_spend_signed c branch_id flags h sig pk : checker_ok c -> fixed 20 h -> bytes_ok sig ->
  2 <= zlen sig <= 75 -> 2 <= zlen pk <= 75 ->
  (has_flag flags SCRIPT_VERIFY_CLEANSTACK = true -> has_flag flags SCRIPT_VERIFY_P2SH = true) ->
  domain_consensus_verify_script (tx_make_sig_checker c) branch_id flags
    (zlen sig :: sig ++ zlen pk :: pk) (p2pkh_script h) = Ok tt <->
  h_hash160 pk = h /\ check_transaction_signature_encoding (tx_make_sig_checker c) flags sig = Ok tt /\
  check_pubkey_encoding flags pk = Ok tt /\
  exists d, signature_hash false (request_of c (p2pkh_script h) (sig !!! (length sig - 1)%nat)) = Ok d /\ signed_by pk d sig.
Proof.
  intros Hc Hh Hs Hsl Hpl Hf. rewrite p2pkh_spend; [|destruct Hh; lia|done|done|done].
  change (run_check_sig (tx_make_sig_checker c) branch_id (p2pkh_script h) sig pk)
    with (check_sig_cb c sig pk (p2pkh_script h) branch_id).
  rewrite check_sig_cb_iff; [done|done|by apply p2pkh_script_ok|done|lia|lia].
Qed.

(** A key longer than 65 bytes is cut instead of being refused: whatever follows the first 65
    bytes, the callback answers as for those. *)
Theorem long_key_truncated c sig pk junk code b : zlen pk = PUBLIC_KEY_SIZE ->
  check_sig_cb c sig (pk ++ junk) code b = check_sig_cb c sig pk code b.
Proof.
  intros Hl. assert (pubkey_set (pk ++ junk) = pubkey_set pk) as E; [|unfold check_sig_cb; by rewrite E].
  unfold pubkey_set, zlen in *. rewrite take_app_le by lia. done.
Qed.
End Theory.

(** ** A concrete spend

    A toy curve whose signatures have the digest for their first number, after a leading one *)

Definition toy_curve : Secp256k1 := {|
  sec_key := bytes; sec_sig := bytes; ec_pubkey_parse := Some; ecdsa_signature_parse_der := fun s => Some (take 32 (drop 5 s));
  ecdsa_signature_normalize := fun s => (false, s); ecdsa_verify := fun s m _ => bool_decide (s = m) |}.

Definition sample_checker : tx_sig_checker := {|
  c_tx := sample_spend []; c_nIn := 0; c_amount := 6000; c_branch_id := 0x76b809bb; c_txdata := None |}.

Definition sample_digest : bytes := Eval vm_compute in
  match @signature_hash (fun _ => true) zero_hashes false (request_of sample_checker (p2pkh_script (replicate 20 0)) SIGHASH_ALL) with
  | Ok d => d
  | Err _ => []
  end.

Lemma p2pkh_spend_signed_witness :
  let A : Allocator := fun _ => true in
  let sig := [0x30; 38; 2; 33; 1] ++ sample_digest ++ [2; 1; 1; SIGHASH_ALL] in
  let pk := 2 :: replicate 32 9 in
  @domain_consensus_verify_script zero_hashes (@tx_make_sig_checker A zero_hashes toy_curve sample_checker) 0
    (SCRIPT_VERIFY_P2SH .| SCRIPT_VERIFY_CLEANSTACK) (zlen sig :: sig ++ zlen pk :: pk) (p2pkh_script (replicate 20 0)) = Ok tt.
Proof.
  intros A sig pk.
  apply (@p2pkh_spend_signed A (fun _ => eq_refl) zero_hashes zero_hashes_ok toy_curve sample_checker 0
    (SCRIPT_VERIFY_P2SH .| SCRIPT_VERIFY_CLEANSTACK) (replicate 20 0) sig pk).
  - destruct (sample_request_ok []) as (Htx & _); [split; [done|constructor]|].
    split; [exact Htx|]. split; [by vm_compute|]. split; [by unfold is_s|]. split; [by unfold is_u|].
    exists false. unfold cache_of. by destruct (domain_consensus_precompute_tx_data _).
  - split; [reflexivity|]. by apply Forall_replicate.
  - unfold sig. by repeat constructor.
  - by vm_compute.
  - by vm_compute.
  - done.
  - split; [reflexivity|]. split; [by vm_compute|]. split; [by vm_compute|].
    exists sample_digest. split; [vm_compute; reflexivity|].
    exists pk, sample_digest. split; [reflexivity|]. split; [reflexivity|]. by apply bool_decide_eq_true_2.
Defined.
