(* ===== verification/EhArray.v ===== *)
(** Bit packing of Equihash: the array routines of lib/crypto/src/equihash.c.

    [eh_expand_array] and [eh_compress_array] regroup a string of bits, most significant first,
    into groups of [bit_len] bits and back, through a 32-bit accumulator; solutions carry the
    indices in groups of [collision_bit_length + 1] bits.  The routines are proved to be the
    positional notation of one big number in base 2^[bit_len] and in base 2^8, so that decoding
    and encoding a solution are inverse ([minimal_indices_bijection]): a list of indices has
    exactly one encoding. *)

From S2P Require Import Prelude Serialize.

(** ** The routines *)

(** [None]: an assertion fails, or memory outside the arrays is read. *)

(** The bytes of one group of [expand] *)
Definition expand_group (bit_len byte_pad out_width : nat) (acc_value acc_bits : Z) : bytes :=
  let mask := 2 ^ Z.of_nat bit_len - 1 in
  replicate byte_pad 0 ++
  map (fun x => let sh := 8 * (Z.of_nat out_width - Z.of_nat x - 1) in
                u8 ((acc_value ≫ (acc_bits + sh)) .& ((mask ≫ sh) .& 0xFF)))
    (seq byte_pad (out_width - byte_pad)).

Fixpoint expand_loop (bit_len byte_pad out_width : nat) (acc_bits acc_value : Z) (pin : bytes) : bytes :=
  match pin with
  | [] => []
  | b :: rest =>
      let acc_value := u32 (acc_value ≪ 8) .| b in
      let acc_bits := acc_bits + 8 in
      if acc_bits >=? Z.of_nat bit_len then
        let acc_bits := acc_bits - Z.of_nat bit_len in
        expand_group bit_len byte_pad out_width acc_value acc_bits ++
        expand_loop bit_len byte_pad out_width acc_bits acc_value rest
      else expand_loop bit_len byte_pad out_width acc_bits acc_value rest
  end.

(** What is written from the start of the output *)
Definition eh_expand_array (pin : bytes) (out_len bit_len byte_pad : nat) : option bytes :=
  let out_width := ((bit_len + 7) / 8 + byte_pad)%nat in
  if Nat.leb 8 bit_len && Nat.leb (7 + bit_len) 32 && Nat.eqb out_len (8 * out_width * length pin / bit_len)
  then Some (expand_loop bit_len byte_pad out_width 0 0 pin) else None.

(** The value of one group of [compress] *)
Definition compress_group (bit_len byte_pad in_width : nat) (group : bytes) : Z :=
  let mask := 2 ^ Z.of_nat bit_len - 1 in
  foldl (fun acc x =>
      let sh := 8 * (Z.of_nat in_width - Z.of_nat x - 1) in
      acc .| ((group !!! x .& ((mask ≫ sh) .& 0xFF)) ≪ sh))
    0 (seq byte_pad (in_width - byte_pad)).

Fixpoint compress_loop (bit_len byte_pad in_width out_len : nat) (acc_bits acc_value : Z) (pin : bytes) : option bytes :=
  match out_len with
  | O => Some []
  | S out_len' =>
      '(acc_bits, acc_value, pin) ←
        (if acc_bits <? 8 then
           if Nat.ltb (length pin) in_width then None
           else Some (acc_bits + Z.of_nat bit_len,
                      u32 (acc_value ≪ Z.of_nat bit_len) .| compress_group bit_len byte_pad in_width pin,
                      drop in_width pin)
         else Some (acc_bits, acc_value, pin));
      let acc_bits := acc_bits - 8 in
      rest ← compress_loop bit_len byte_pad in_width out_len' acc_bits acc_value pin;
      Some (u8 ((acc_value ≫ acc_bits) .& 0xFF) :: rest)
  end.

Definition eh_compress_array (pin : bytes) (out_len bit_len byte_pad : nat) : option bytes :=
  let in_width := ((bit_len + 7) / 8 + byte_pad)%nat in
  if Nat.leb 8 bit_len && Nat.leb (7 + bit_len) 32 && Nat.eqb out_len (bit_len * length pin / (8 * in_width))
  then compress_loop bit_len byte_pad in_width out_len 0 0 pin else None.

(** Indices are stored big-endian. *)
Definition eh_index_to_array (i : Z) : bytes := rev (le_encode 4 i).

Definition eh_array_to_index (array : bytes) : Z := le_decode (rev (take 4 array)).

(** The indices read from an array, four bytes each *)
Fixpoint read_indices (fuel : nat) (array : bytes) : option (list Z) :=
  match fuel, array with
  | _, [] => Some []
  | O, _ => Some []
  | S fuel', _ =>
      if Nat.ltb (length array) 4 then None
      else rest ← read_indices fuel' (drop 4 array); Some (eh_array_to_index array :: rest)
  end.

Section Minimal.
Context `{Allocator}.

(** The array has [len_indices] bytes; the expansion has to fill it. *)
Definition eh_get_indices_from_minimal (minimal : bytes) (collision_bit_len max_indices : nat) : option (list Z) :=
  if negb (Nat.leb ((collision_bit_len + 1 + 7) / 8) 4) then None
  else
    let len_indices := (32 * length minimal / (collision_bit_len + 1))%nat in
    let byte_pad := (4 - (collision_bit_len + 1 + 7) / 8)%nat in
    if negb (alloc_succeeds (Z.of_nat len_indices)) then Some []
    else
      array ← eh_expand_array minimal len_indices (collision_bit_len + 1) byte_pad;
      if negb (Nat.eqb (length array) len_indices) then None else read_indices max_indices array.

(** The empty result is the length 0 of a failure. *)
Definition eh_get_minimal_from_indices (indices : list Z) (collision_bit_len max_len : nat) : option bytes :=
  if negb (Nat.leb ((collision_bit_len + 1 + 7) / 8) 4) then None
  else
    let len_indices := (length indices * 4)%nat in
    let min_len := ((collision_bit_len + 1) * len_indices / 32)%nat in
    let byte_pad := (4 - (collision_bit_len + 1 + 7) / 8)%nat in
    if Nat.ltb max_len min_len then Some []
    else if negb (alloc_succeeds (Z.of_nat len_indices)) then Some []
    else eh_compress_array (mjoin (map eh_index_to_array indices)) min_len (collision_bit_len + 1) byte_pad.

End Minimal.

(** ** Positional notation *)

(** The [n] most significant digits, of [b] bits each, of a number of [total] bits *)
Fixpoint digits (b : Z) (n : nat) (total v : Z) : list Z :=
  match n with
  | O => []
  | S n' => v / 2 ^ (total - b) :: digits b n' (total - b) (v mod 2 ^ (total - b))
  end.

Fixpoint number (b : Z) (l : list Z) : Z :=
  match l with
  | [] => 0
  | x :: l' => x * 2 ^ (b * zlen l') + number b l'
  end.

Definition be_encode (n : nat) (v : Z) : bytes := rev (le_encode n v).
Definition be_decode (l : bytes) : Z := le_decode (rev l).

Lemma pow_len_pos {A} b (l : list A) : 0 <= b -> 0 < 2 ^ (b * zlen l).
Proof. intros Hb. apply Z.pow_pos_nonneg; [lia|]. unfold zlen. nia. Qed.

Lemma value_range b l : 0 <= b -> Forall (is_u b) l -> 0 <= number b l < 2 ^ (b * zlen l).
Proof.
  intros Hb. unfold is_u. induction 1 as [|x l Hx _ IH].
  { unfold zlen. cbn. rewrite Z.mul_0_r. lia. }
  cbn [number]. rewrite zlen_cons, Z.mul_add_distr_l, Z.mul_1_r, Z.pow_add_r by (unfold zlen; nia).
  pose proof (pow_len_pos b l Hb). nia.
Qed.

Lemma digits_length b n total v : length (digits b n total v) = n.
Proof. revert total v. induction n as [|n IH]; intros total v; cbn; [done|]. by rewrite IH. Qed.

Lemma digits_value b l : 0 <= b -> Forall (is_u b) l -> digits b (length l) (b * zlen l) (number b l) = l.
Proof.
  intros Hb. induction 1 as [|x l Hx Hl IH]; [done|]. cbn [digits length number].
  pose proof (value_range b l Hb Hl) as Hv. rewrite zlen_cons.
  replace (b * (zlen l + 1) - b) with (b * zlen l) by lia.
  rewrite Z.div_add_l, Z.div_small, Z.add_0_r by lia. rewrite (Z.add_comm (_ * _)), Z.mod_add, Z.mod_small by lia.
  by rewrite IH.
Qed.

Lemma value_digits b n v : 0 <= b -> 0 <= v < 2 ^ (b * Z.of_nat n) ->
  number b (digits b n (b * Z.of_nat n) v) = v /\ Forall (is_u b) (digits b n (b * Z.of_nat n) v).
Proof.
  intros Hb. revert v. induction n as [|n IH]; intros v Hv; cbn [digits number].
  - rewrite Z.mul_0_r in Hv. split; [change (2 ^ 0) with 1 in Hv; lia|constructor].
  - replace (b * Z.of_nat (S n) - b) with (b * Z.of_nat n) in * by lia.
    assert (0 < 2 ^ (b * Z.of_nat n)) as Hpos by (apply Z.pow_pos_nonneg; nia).
    destruct (IH (v mod 2 ^ (b * Z.of_nat n))) as [IHv IHd]; [apply Z.mod_pos_bound; lia|].
    unfold zlen. rewrite digits_length, IHv. split; [pose proof (Z.div_mod v (2 ^ (b * Z.of_nat n))); lia|].
    constructor; [|done]. split; [apply Z.div_pos; lia|]. apply Z.div_lt_upper_bound; [lia|].
    rewrite <- Z.pow_add_r by nia. replace (b * Z.of_nat n + b) with (b * Z.of_nat (S n)) by lia. lia.
Qed.

(** *** Bytes *)

Lemma be_decode_value l : be_decode l = number 8 l.
Proof.
  induction l as [|x l IH]; [done|]. unfold be_decode in *. cbn [rev number].
  rewrite le_decode_app, IH, length_rev. cbn [le_decode].
  unfold zlen. rewrite <- (Z.pow_mul_r 2 8) by lia. change (2 ^ 8) with 256. lia.
Qed.

Lemma be_encode_bytes n v :
  be_encode n v = map (fun x => (v / 256 ^ (Z.of_nat n - Z.of_nat x - 1)) mod 256) (seq 0 n).
Proof.
  revert v. induction n as [|n IH]; intros v; [done|]. unfold be_encode in *. cbn [le_encode rev]. rewrite IH.
  rewrite seq_S, map_app. cbn [map]. unfold uwrap. rewrite shiftr_div by lia. f_equal.
  - apply map_ext_in. intros x Hx%in_seq. rewrite Z.div_div, <- Z.pow_succ_r by lia. do 3 f_equal. lia.
  - replace (Z.of_nat (S n) - Z.of_nat (0 + n) - 1) with 0 by lia. by rewrite Z.pow_0_r, Z.div_1_r.
Qed.

Lemma byte_at v sh : 0 <= sh -> (v / 256 ^ sh) mod 256 = (v ≫ (8 * sh)) .& 0xFF.
Proof.
  intros Hs. rewrite land_ff, shiftr_div by lia. by rewrite Z.pow_mul_r by lia.
Qed.

Lemma be_decode_encode n v : 0 <= v < 256 ^ Z.of_nat n -> be_decode (be_encode n v) = v.
Proof. intros Hv. unfold be_decode, be_encode. rewrite rev_involutive, le_decode_encode. by apply Z.mod_small. Qed.

Lemma be_encode_decode l : bytes_ok l -> be_encode (length l) (be_decode l) = l.
Proof.
  intros Hl. unfold be_decode, be_encode. rewrite <- length_rev, le_encode_decode; [apply rev_involutive|].
  apply Forall_rev. done.
Qed.

Lemma be_encode_length n v : length (be_encode n v) = n.
Proof. unfold be_encode. by rewrite length_rev, le_encode_length. Qed.

Lemma be_encode_ok n v : bytes_ok (be_encode n v).
Proof. apply Forall_rev, le_encode_ok. Qed.

Lemma foldl_ext_in {A B} (f g : A -> B -> A) a l : (forall a x, In x l -> f a x = g a x) -> foldl f a l = foldl g a l.
Proof.
  revert a. induction l as [|x l IH]; intros a He; cbn; [done|]. rewrite He by (by left). apply IH.
  intros a' y Hy. apply He. by right.
Qed.

(** Shifting [k] bits into the accumulator *)
Lemma acc_shift acc k bits x : 0 <= acc -> 0 <= k -> 0 <= bits -> bits + k <= 32 -> 0 <= x < 2 ^ k ->
  (u32 (acc ≪ k) .| x) mod 2 ^ (bits + k) = (acc mod 2 ^ bits) * 2 ^ k + x /\ 0 <= u32 (acc ≪ k) .| x.
Proof.
  intros Ha Hk Hb Hs Hx. assert (0 < 2 ^ k /\ 0 < 2 ^ bits) as [? ?] by (split; apply Z.pow_pos_nonneg; lia).
  assert (u32 (acc ≪ k) = (acc mod 2 ^ (32 - k)) * 2 ^ k) as ->.
  { unfold uwrap. rewrite Z.shiftl_mul_pow2 by lia. replace 32 with (32 - k + k) at 1 by lia.
    rewrite Z.pow_add_r, Z.mul_mod_distr_r by lia. done. }
  assert (0 <= acc mod 2 ^ (32 - k)) by (apply Z.mod_pos_bound; apply Z.pow_pos_nonneg; lia).
  rewrite Z.lor_comm, lor_disjoint_add by lia. split; [|nia].
  rewrite Z.pow_add_r, (Z.mul_comm (2 ^ bits)), Z.rem_mul_r by lia.
  rewrite Z.mod_add, Z.div_add, Z.mod_small, Z.div_small, Z.add_0_l by lia.
  replace (32 - k) with (bits + (32 - k - bits)) by lia.
  rewrite Z.pow_add_r, Z.rem_mul_r, (Z.mul_comm (2 ^ bits)), Z.mod_add, Z.mod_mod
    by (try apply Z.pow_nonzero; try apply Z.pow_pos_nonneg; lia). lia.
Qed.

(** The top [b] bits of the pending ones, and the others *)
Lemma pending_split v r b : 0 <= v -> 0 <= r -> 0 <= b ->
  v mod 2 ^ (r + b) / 2 ^ r = (v ≫ r) mod 2 ^ b /\ v mod 2 ^ (r + b) mod 2 ^ r = v mod 2 ^ r.
Proof.
  intros Hv Hr Hb. assert (0 < 2 ^ r /\ 0 < 2 ^ b) as [? ?] by (split; apply Z.pow_pos_nonneg; lia).
  rewrite Z.pow_add_r, Z.rem_mul_r, shiftr_div, (Z.mul_comm (2 ^ r)) by lia.
  rewrite Z.div_add, Z.mod_add, Z.mod_mod, Z.div_small by (lia || (apply Z.mod_pos_bound; lia)). lia.
Qed.

Lemma low_digits a P Q v : 0 < P -> 0 < Q -> 0 <= v < P -> (a * P + v) mod (P * Q) = (a mod Q) * P + v.
Proof.
  intros HP HQ Hv. rewrite Z.rem_mul_r by lia. rewrite Z.div_add_l, (Z.div_small v), Z.add_0_r by lia.
  rewrite (Z.add_comm (a * P)), Z.mod_add, Z.mod_small by lia. lia.
Qed.

(** Taking one digit of [d] bits from the pending ones *)
Lemma digits_step d n bits acc len v : 0 <= acc -> 0 <= d <= bits -> 0 <= len -> 0 <= v < 2 ^ len ->
  digits d (S n) (bits + len) ((acc mod 2 ^ bits) * 2 ^ len + v) =
  (acc ≫ (bits - d)) mod 2 ^ d :: digits d n (bits - d + len) ((acc mod 2 ^ (bits - d)) * 2 ^ len + v).
Proof.
  intros Ha Hd Hl Hv. cbn [digits]. replace (bits + len - d) with (bits - d + len) by lia.
  assert (0 < 2 ^ (bits - d) /\ 0 < 2 ^ len) as [? ?] by (split; apply Z.pow_pos_nonneg; lia).
  destruct (pending_split acc (bits - d) d) as [Ed Er]; [lia..|]. replace (bits - d + d) with bits in Ed, Er by lia.
  rewrite (Z.add_comm (bits - d)), Z.pow_add_r by lia. f_equal.
  - by rewrite <- Z.div_div, Z.div_add_l, (Z.div_small v), Z.add_0_r, Ed by lia.
  - by rewrite low_digits, Er by lia.
Qed.

(** *** One group *)

Section Group.
Context (bit_len byte_pad : nat).
Context (Hlen : (8 <= bit_len)%nat) (Hmax : (7 + bit_len <= 32)%nat).
Let width : nat := ((bit_len + 7) / 8 + byte_pad)%nat.
Let b : Z := Z.of_nat bit_len.

Lemma width_bound : 2 ^ b <= 256 ^ Z.of_nat (width - byte_pad) /\ (byte_pad <= width)%nat /\ (1 <= width - byte_pad)%nat.
Proof.
  unfold width. rewrite Nat.add_sub. change 256 with (2 ^ 8). rewrite <- Z.pow_mul_r by lia.
  pose proof (Nat.div_mod (bit_len + 7) 8 ltac:(lia)). pose proof (Nat.mod_upper_bound (bit_len + 7) 8 ltac:(lia)).
  split_and!; [apply Z.pow_le_mono_r; unfold b; lia|lia|lia].
Qed.

Lemma expand_group_spec acc bits : 0 <= bits ->
  expand_group bit_len byte_pad width acc bits = be_encode width ((acc ≫ bits) mod 2 ^ b).
Proof.
  intros Hb. rewrite be_encode_bytes. destruct width_bound as (Hw & Hp & _).
  replace (seq 0 width) with (seq 0 byte_pad ++ seq byte_pad (width - byte_pad))
    by (rewrite <- seq_app; f_equal; lia).
  rewrite map_app. unfold expand_group. set (g := (acc ≫ bits) mod 2 ^ b).
  assert (0 <= g < 2 ^ b) as Hg by (apply Z.mod_pos_bound; apply Z.pow_pos_nonneg; unfold b; lia).
  f_equal.
  - apply replicate_as_Forall_2; [by rewrite length_map, length_seq|]. apply Forall_map, Forall_forall.
    intros x Hx%list_elem_of_In%in_seq. symmetry. rewrite Z.div_small; [done|]. split; [lia|].
    eapply Z.lt_le_trans; [apply Hg|]. etransitivity; [exact Hw|]. apply Z.pow_le_mono_r; lia.
  - apply map_ext_in. intros x Hx%in_seq.
    rewrite byte_at by lia. set (sh := 8 * (Z.of_nat width - Z.of_nat x - 1)).
    unfold g. rewrite <- land_ones_mod, Z.shiftr_land, Z.shiftr_shiftr, Z.land_assoc by (unfold b, sh; lia).
    unfold uwrap. rewrite <- land_ff, <- !Z.land_assoc. change (0xFF .& 0xFF) with 0xFF. done.
Qed.

(** The bytes of [v] put back together *)
Lemma lor_bytes w k n v a : (k + n = w)%nat -> 0 <= v ->
  foldl (fun acc x => let sh := 8 * (Z.of_nat w - Z.of_nat x - 1) in acc .| (((v ≫ sh) .& 0xFF) ≪ sh)) a (seq k n) =
  a .| (v mod 256 ^ Z.of_nat n).
Proof.
  revert k a. induction n as [|n IH]; intros k a Hk Hv; [cbn; by rewrite Z.mod_1_r, Z.lor_0_r|].
  cbn [seq foldl]. cbv zeta. rewrite IH by lia. rewrite <- Z.lor_assoc. f_equal.
  replace (8 * (Z.of_nat w - Z.of_nat k - 1)) with (8 * Z.of_nat n) by lia. rewrite Z.lor_comm.
  rewrite Z.shiftl_mul_pow2, land_ff, shiftr_div, Z.pow_mul_r by lia. change (2 ^ 8) with 256.
  set (P := 256 ^ Z.of_nat n). assert (0 < P) by (apply Z.pow_pos_nonneg; lia).
  assert (P = 2 ^ (8 * Z.of_nat n)) as EP by (unfold P; by rewrite (Z.pow_mul_r 2 8) by lia). rewrite EP, lor_disjoint_add
    by (lia || (rewrite <- EP; apply Z.mod_pos_bound; lia)). rewrite <- EP.
  rewrite pow256_succ. fold P. rewrite (Z.mul_comm 256 P), Z.rem_mul_r by lia. lia.
Qed.

Lemma be_encode_lookup n v x : (x < n)%nat ->
  be_encode n v !!! x = (v ≫ (8 * (Z.of_nat n - Z.of_nat x - 1))) .& 0xFF.
Proof.
  intros Hx. rewrite be_encode_bytes, <- byte_at by lia. apply list_lookup_total_correct.
  etransitivity; [apply (list_lookup_fmap _ (seq 0 n) x)|]. by rewrite lookup_seq_lt.
Qed.

Lemma compress_group_spec group rest v : group = be_encode width v -> 0 <= v ->
  compress_group bit_len byte_pad width (group ++ rest) = v mod 2 ^ b.
Proof.
  intros -> Hv. destruct width_bound as (Hw & Hp & _). unfold compress_group.
  set (g := v .& (2 ^ b - 1)). assert (g = v mod 2 ^ b) as Eg by (apply land_ones_mod; unfold b; lia).
  assert (0 <= g < 2 ^ b) as Hg by (rewrite Eg; apply Z.mod_pos_bound; apply Z.pow_pos_nonneg; unfold b; lia).
  rewrite <- Eg. transitivity (0 .| (g mod 256 ^ Z.of_nat (width - byte_pad)));
    [|rewrite Z.lor_0_l; apply Z.mod_small; lia].
  rewrite <- (lor_bytes width byte_pad) by lia. apply foldl_ext_in.
  intros acc x Hx%in_seq. cbv zeta. f_equal. f_equal.
  rewrite lookup_total_app_l, be_encode_lookup by (rewrite ?be_encode_length; lia).
  set (sh := 8 * (Z.of_nat width - Z.of_nat x - 1)). unfold g.
  rewrite Z.shiftr_land, <- !Z.land_assoc. f_equal. rewrite !(Z.land_comm _ 0xFF), Z.land_assoc. done.
Qed.

(** The pending bits [a] and the rest of the input as one number *)
Lemma expand_loop_spec pin bits acc : bytes_ok pin -> 0 <= bits < b -> 0 <= acc ->
  let total := bits + 8 * zlen pin in
  expand_loop bit_len byte_pad width bits acc pin =
  mjoin (map (be_encode width) (digits b (Z.to_nat (total / b)) total ((acc mod 2 ^ bits) * 2 ^ (8 * zlen pin) + number 8 pin))).
Proof.
  intros Hpin. revert bits acc. induction Hpin as [|x pin Hx Hpin IH]; intros bits acc Hbits Hacc total.
  - unfold total. change (zlen []) with 0. by rewrite Z.div_small by lia.
  - cbn [expand_loop]. assert (b <= 25) by (unfold b; lia).
    destruct (acc_shift acc 8 bits x) as [Em Ha]; [lia..|exact Hx|].
    set (acc' := u32 (acc ≪ 8) .| x) in *. set (a' := acc mod 2 ^ bits * 2 ^ 8 + x) in *.
    pose proof (value_range 8 pin ltac:(lia) Hpin) as Hv. pose proof (pow_len_pos 8 pin ltac:(lia)) as HP.
    assert (acc mod 2 ^ bits * 2 ^ (8 * zlen (x :: pin)) + number 8 (x :: pin) = a' * 2 ^ (8 * zlen pin) + number 8 pin) as EV.
    { cbn [number]. rewrite zlen_cons. unfold a'. replace (8 * (zlen pin + 1)) with (8 + 8 * zlen pin) by lia.
      rewrite Z.pow_add_r by (unfold zlen; lia). lia. }
    assert (total = bits + 8 + 8 * zlen pin) as ET by (unfold total; rewrite zlen_cons; lia).
    rewrite EV, ET. clear EV. change (Z.of_nat bit_len) with b. destruct (Z.geb_spec (bits + 8) b) as [Hge|Hlt].
    + set (r := bits + 8 - b) in *. rewrite expand_group_spec, IH by lia.
      replace (Z.to_nat ((bits + 8 + 8 * zlen pin) / b)) with (S (Z.to_nat ((r + 8 * zlen pin) / b))).
      2: { replace (bits + 8 + 8 * zlen pin) with (r + 8 * zlen pin + 1 * b) by lia. rewrite Z.div_add by lia.
           rewrite Z2Nat.inj_add by (try apply Z.div_pos; unfold zlen; lia). lia. }
      rewrite <- Em, digits_step by (unfold zlen in *; lia). done.
    + rewrite IH by lia. by rewrite Em.
Qed.

Lemma compress_loop_spec n gs bits acc : Forall (is_u b) gs -> 0 <= bits < b -> 0 <= acc ->
  8 * Z.of_nat n <= bits + b * zlen gs ->
  compress_loop bit_len byte_pad width n bits acc (mjoin (map (be_encode width) gs)) =
  Some (digits 8 n (bits + b * zlen gs) ((acc mod 2 ^ bits) * 2 ^ (b * zlen gs) + number b gs)).
Proof.
  revert gs bits acc. induction n as [|n IH]; intros gs bits acc Hgs Hbits Hacc Hn; [done|]. cbn [compress_loop].
  assert (8 <= b <= 25) as Hb by (unfold b; lia).
  assert (forall gs bits acc, Forall (is_u b) gs -> 8 <= bits < 8 + b -> 0 <= acc ->
    8 * Z.of_nat (S n) <= bits + b * zlen gs ->
    (rest ← compress_loop bit_len byte_pad width n (bits - 8) acc (mjoin (map (be_encode width) gs));
     Some (u8 ((acc ≫ (bits - 8)) .& 0xFF) :: rest)) =
    Some (digits 8 (S n) (bits + b * zlen gs) ((acc mod 2 ^ bits) * 2 ^ (b * zlen gs) + number b gs))) as Hemit.
  { clear gs bits acc Hgs Hbits Hacc Hn. intros gs bits acc Hgs Hbits Hacc Hn.
    pose proof (value_range b gs ltac:(lia) Hgs). rewrite digits_step by (unfold zlen in *; nia). rewrite IH by (done || lia).
    cbn [mbind option_bind]. rewrite land_ff. unfold uwrap. by rewrite Z.mod_mod by done. }
  destruct (Z.ltb_spec bits 8) as [Hlt|Hge]; [|by apply Hemit; [|lia..]].
  destruct Hgs as [|g gs Hg Hgs]; [change (zlen []) with 0 in Hn; lia|].
  change (mjoin (map (be_encode width) (g :: gs))) with (be_encode width g ++ mjoin (map (be_encode width) gs)).
  rewrite (proj2 (Nat.ltb_ge _ _)) by (rewrite length_app, be_encode_length; lia).
  cbn [mbind option_bind]. rewrite (compress_group_spec _ _ g) by (done || apply Hg).
  rewrite (Z.mod_small g) by apply Hg. rewrite drop_app_length' by (by rewrite be_encode_length).
  destruct (acc_shift acc b bits g) as [Em Ha]; [lia..|exact Hg|]. change (Z.of_nat bit_len) with b. 
  rewrite Hemit; [|done|lia|done|rewrite zlen_cons in Hn; lia]. rewrite Em. do 2 f_equal.
  - rewrite zlen_cons. lia.
  - cbn [number]. rewrite zlen_cons. replace (b * (zlen gs + 1)) with (b + b * zlen gs) by lia.
    rewrite Z.pow_add_r by (unfold zlen; nia). lia.
Qed.

End Group.

(** ** Whole arrays *)

Lemma digits_bytes n v : 0 <= v < 256 ^ Z.of_nat n -> digits 8 n (8 * Z.of_nat n) v = be_encode n v.
Proof.
  intros Hv. pose proof (be_encode_length n v) as El.
  rewrite <- (be_decode_encode n v Hv) at 1. rewrite be_decode_value, <- El at 1.
  replace (Z.of_nat n) with (zlen (be_encode n v)) by (unfold zlen; lia).
  apply digits_value; [lia|]. apply be_encode_ok.
Qed.

Lemma groups_length w gs : length (mjoin (map (be_encode w) gs)) = (w * length gs)%nat.
Proof.
  induction gs as [|g gs IH]; [cbn; lia|].
  change (mjoin (map (be_encode w) (g :: gs))) with (be_encode w g ++ mjoin (map (be_encode w) gs)).
  rewrite length_app, be_encode_length, IH. cbn [length]. lia.
Qed.

(** The number in base 2^[bit_len] that the bytes hold, as groups of [out_width] bytes *)
Lemma expand_array_spec pin n bit_len byte_pad : (8 <= bit_len)%nat -> (7 + bit_len <= 32)%nat -> bytes_ok pin ->
  (8 * length pin = bit_len * n)%nat ->
  let w := ((bit_len + 7) / 8 + byte_pad)%nat in
  let b := Z.of_nat bit_len in
  eh_expand_array pin (w * n) bit_len byte_pad =
  Some (mjoin (map (be_encode w) (digits b n (b * Z.of_nat n) (number 8 pin)))).
Proof.
  intros H8 H32 Hpin El w b. unfold eh_expand_array. fold w.
  replace (8 * w * length pin)%nat with (w * n * bit_len)%nat by nia. rewrite Nat.div_mul, Nat.eqb_refl by lia.
  rewrite !(proj2 (Nat.leb_le _ _)) by lia. cbn [andb]. f_equal.
  pose proof (expand_loop_spec bit_len byte_pad H8 H32 pin 0 0 Hpin ltac:(lia) ltac:(lia)) as E.
  cbv zeta in E. fold w b in E. rewrite E, Z.pow_0_r, Z.mod_1_r.
  assert (8 * zlen pin = b * Z.of_nat n) as -> by (unfold zlen, b; lia). rewrite Z.mul_0_l, !Z.add_0_l.
  by rewrite (Z.mul_comm b), Z.div_mul, Nat2Z.id by (unfold b; lia).
Qed.

Lemma compress_array_spec gs len bit_len byte_pad : (8 <= bit_len)%nat -> (7 + bit_len <= 32)%nat ->
  Forall (is_u (Z.of_nat bit_len)) gs -> (8 * len = bit_len * length gs)%nat ->
  let w := ((bit_len + 7) / 8 + byte_pad)%nat in
  eh_compress_array (mjoin (map (be_encode w) gs)) len bit_len byte_pad =
  Some (be_encode len (number (Z.of_nat bit_len) gs)).
Proof.
  intros H8 H32 Hgs El w. unfold eh_compress_array. fold w.
  assert (1 <= w)%nat by (unfold w; pose proof (Nat.div_le_lower_bound (bit_len + 7) 8 1); lia).
  rewrite groups_length. replace (bit_len * (w * length gs))%nat with (len * (8 * w))%nat by nia.
  rewrite Nat.div_mul, Nat.eqb_refl by lia. rewrite !(proj2 (Nat.leb_le _ _)) by lia. cbn [andb].
  pose proof (compress_loop_spec bit_len byte_pad H8 H32 len gs 0 0 Hgs ltac:(lia) ltac:(lia) ltac:(unfold zlen; lia)) as E.
  fold w in E. rewrite E, Z.pow_0_r, Z.mod_1_r, Z.mul_0_l, !Z.add_0_l. f_equal.
  pose proof (value_range (Z.of_nat bit_len) gs ltac:(lia) Hgs) as Hv.
  assert (Z.of_nat bit_len * zlen gs = 8 * Z.of_nat len) as Et by (unfold zlen; lia).
  rewrite Et in *. apply digits_bytes. change 256 with (2 ^ 8). by rewrite <- Z.pow_mul_r by lia.
Qed.

Lemma read_indices_spec fuel gs : Forall (is_u 32) gs -> (length gs <= fuel)%nat ->
  read_indices fuel (mjoin (map (be_encode 4) gs)) = Some gs.
Proof.
  intros Hgs. revert fuel. induction Hgs as [|g gs Hg _ IH]; intros fuel Hf; [by destruct fuel|].
  destruct fuel as [|fuel]; [cbn in Hf; lia|].
  change (mjoin (map (be_encode 4) (g :: gs))) with (be_encode 4 g ++ mjoin (map (be_encode 4) gs)).
  pose proof (be_encode_length 4 g) as El. cbn [read_indices].
  destruct (be_encode 4 g ++ mjoin (map (be_encode 4) gs)) eqn:E; [apply (f_equal length) in E; rewrite length_app in E; cbn in E; lia|].
  rewrite <- E. rewrite (proj2 (Nat.ltb_ge _ _)) by (rewrite length_app; lia).
  rewrite drop_app_length' by lia. rewrite IH by (cbn in Hf; lia). cbn [mbind option_bind].
  unfold eh_array_to_index. rewrite take_app_length' by lia. do 2 f_equal. by apply (be_decode_encode 4).
Qed.

Section Bijection.
Context `{AllocatorTotal}.
Context (cbl n len : nat) (H8 : (8 <= cbl + 1)%nat) (H32 : (7 + (cbl + 1) <= 32)%nat)
  (El : (8 * len = (cbl + 1) * n)%nat).

Lemma index_width : ((cbl + 1 + 7) / 8 + (4 - (cbl + 1 + 7) / 8) = 4)%nat /\ ((cbl + 1 + 7) / 8 <= 4)%nat.
Proof. assert ((cbl + 1 + 7) / 8 <= 4)%nat by (apply Nat.Div0.div_le_upper_bound; lia). lia. Qed.

Lemma indices_from_minimal_spec minimal : bytes_ok minimal -> length minimal = len ->
  let b := Z.of_nat (cbl + 1) in
  eh_get_indices_from_minimal minimal cbl n = Some (digits b n (b * Z.of_nat n) (number 8 minimal)) /\
  number b (digits b n (b * Z.of_nat n) (number 8 minimal)) = number 8 minimal /\
  Forall (is_u b) (digits b n (b * Z.of_nat n) (number 8 minimal)).
Proof.
  intros Hm Hl b. destruct index_width as [Ew Hw].
  pose proof (value_range 8 minimal ltac:(lia) Hm) as Hv.
  destruct (value_digits b n (number 8 minimal)) as [Ev Hd]; [unfold b; lia| |].
  { replace (b * Z.of_nat n) with (8 * zlen minimal) by (unfold b, zlen; lia). done. }
  split; [|done]. unfold eh_get_indices_from_minimal. rewrite (proj2 (Nat.leb_le _ _)) by done.
  rewrite alloc_total. cbn [negb]. rewrite Hl.
  replace (32 * len / (cbl + 1))%nat with (4 * n)%nat
    by (symmetry; replace (32 * len)%nat with (4 * n * (cbl + 1))%nat by nia; apply Nat.div_mul; lia).
  pose proof (expand_array_spec minimal n (cbl + 1) (4 - (cbl + 1 + 7) / 8) H8 H32 Hm ltac:(lia)) as Ex.
  cbv zeta in Ex. rewrite Ew in Ex. rewrite Ex. cbn [mbind option_bind]. fold b.
  assert (Forall (is_u 32) (digits b n (b * Z.of_nat n) (number 8 minimal))) as Hd32.
  { eapply Forall_impl; [exact Hd|]. unfold is_u. intros x [? Hx]. split; [done|]. eapply Z.lt_le_trans; [exact Hx|].
    apply Z.pow_le_mono_r; unfold b; lia. }
  rewrite groups_length, digits_length.
  rewrite Nat.eqb_refl. cbn [negb]. apply read_indices_spec; [done|]. by rewrite digits_length.
Qed.

Lemma minimal_from_indices_spec indices max_len : Forall (is_u (Z.of_nat (cbl + 1))) indices -> length indices = n ->
  (len <= max_len)%nat ->
  eh_get_minimal_from_indices indices cbl max_len = Some (be_encode len (number (Z.of_nat (cbl + 1)) indices)).
Proof.
  intros Hi Hl Hmax. destruct index_width as [Ew Hw]. unfold eh_get_minimal_from_indices.
  rewrite (proj2 (Nat.leb_le _ _)) by done. cbn [negb]. rewrite Hl.
  replace ((cbl + 1) * (n * 4) / 32)%nat with len
    by (symmetry; replace ((cbl + 1) * (n * 4))%nat with (len * 32)%nat by nia; apply Nat.div_mul; lia).
  rewrite (proj2 (Nat.ltb_ge _ _)) by done. rewrite alloc_total. cbn [negb].
  pose proof (compress_array_spec indices len (cbl + 1) (4 - (cbl + 1 + 7) / 8) H8 H32 Hi ltac:(lia)) as Ec.
  cbv zeta in Ec. rewrite Ew in Ec. exact Ec.
Qed.

Lemma value_bytes_range indices : Forall (is_u (Z.of_nat (cbl + 1))) indices -> length indices = n ->
  0 <= number (Z.of_nat (cbl + 1)) indices < 256 ^ Z.of_nat len.
Proof.
  intros Hi Hl. pose proof (value_range (Z.of_nat (cbl + 1)) indices ltac:(lia) Hi) as Hv.
  change 256 with (2 ^ 8). rewrite <- Z.pow_mul_r by lia.
  by replace (8 * Z.of_nat len) with (Z.of_nat (cbl + 1) * zlen indices) by (unfold zlen; lia).
Qed.

(** Solutions and index lists are in bijection.  A byte string of the length of a solution
    decodes to the full number of indices, each of [collision_bit_length + 1] bits, and encoding
    them gives the byte string back; every list of that many such indices is decoded from its
    encoding.  So a set of indices has one encoding and a solution cannot be altered without
    altering an index. *)
Theorem minimal_indices_bijection max_len : (len <= max_len)%nat ->
  (forall minimal, bytes_ok minimal -> length minimal = len -> exists indices,
     eh_get_indices_from_minimal minimal cbl n = Some indices /\ length indices = n /\
     Forall (is_u (Z.of_nat (cbl + 1))) indices /\
     eh_get_minimal_from_indices indices cbl max_len = Some minimal) /\
  (forall indices, Forall (is_u (Z.of_nat (cbl + 1))) indices -> length indices = n -> exists minimal,
     eh_get_minimal_from_indices indices cbl max_len = Some minimal /\ length minimal = len /\ bytes_ok minimal /\
     eh_get_indices_from_minimal minimal cbl n = Some indices).
Proof.
  intros Hmax. split.
  - intros minimal Hm Hl. destruct (indices_from_minimal_spec minimal Hm Hl) as (E & Ev & Hd). cbv zeta in *.
    eexists. split; [exact E|]. rewrite digits_length. split_and!; [done|done|].
    rewrite minimal_from_indices_spec by (done || apply digits_length).
    by rewrite Ev, <- be_decode_value, <- Hl, be_encode_decode.
  - intros indices Hi Hl. pose proof (value_bytes_range indices Hi Hl) as Hv.
    exists (be_encode len (number (Z.of_nat (cbl + 1)) indices)).
    rewrite minimal_from_indices_spec by done. pose proof (be_encode_length len (number (Z.of_nat (cbl + 1)) indices)) as Eb.
    pose proof (be_encode_ok len (number (Z.of_nat (cbl + 1)) indices)) as Hb. split_and!; [done|done|done|].
    destruct (indices_from_minimal_spec _ Hb Eb) as (E & _). cbv zeta in E. rewrite E.
    rewrite <- be_decode_value, be_decode_encode by done. f_equal.
    rewrite <- Hl at 1. replace (Z.of_nat n) with (zlen indices) by (unfold zlen; lia). apply digits_value; [lia|done].
Qed.

End Bijection.

(** Four indices of sixteen bits: the parameters (N, K) = (45, 2) *)
Lemma minimal_indices_bijection_witness :
  exists minimal, @eh_get_minimal_from_indices (fun _ => true) [7; 0xFFFF; 256; 0] 15 100 = Some minimal /\
    length minimal = 8%nat /\ bytes_ok minimal /\
    @eh_get_indices_from_minimal (fun _ => true) minimal 15 4 = Some [7; 0xFFFF; 256; 0].
Proof.
  apply (proj2 (@minimal_indices_bijection (fun _ => true) (fun _ => eq_refl) 15 4 8 ltac:(lia) ltac:(lia) ltac:(lia) 100
    ltac:(lia))); [|reflexivity].
  repeat (constructor; [by split|]). constructor.
Defined.
