(* ===== verification/Equihash.v ===== *)
(** Equihash: lib/crypto/src/equihash.c, domain/consensus/src/equihash.c and the registry's
    lib/crypto_registry/src/scheme_equihash_200_9.c.

    A row of the verifier and of the solver is a byte array of the fixed width
    [final_full_width]: the remaining hash bytes, then the indices, then zeros.  Reads and writes
    are checked against the width, so that leaving the array is visible as [EH_UNDEFINED]. *)

From S2P Require Import Prelude Serialize Script Transaction Blake2b EhArray Block BlockCheck.

(** ** Parameters *)

Record equihash_params := EquihashParams {
  eh_N : nat;
  eh_K : nat;
  indices_per_hash_output : nat;
  hash_output : nat;
  collision_bit_length : nat;
  collision_byte_length : nat;
  hash_length : nat;
  final_full_width : nat;
  solution_width : nat;
}.

Definition equihash_params_init (N K : nat) : equihash_params :=
  let iph := (512 / N)%nat in
  let cbl := (N / (K + 1))%nat in
  let cbyte := ((cbl + 7) / 8)%nat in
  {| eh_N := N; eh_K := K; indices_per_hash_output := iph; hash_output := iph * N / 8;
     collision_bit_length := cbl; collision_byte_length := cbyte; hash_length := (K + 1) * cbyte;
     final_full_width := 2 * cbyte + 4 * 2 ^ K; solution_width := 2 ^ K * (cbl + 1) / 8 |}.

Definition equihash_solution_params (solution_len : Z) : option (nat * nat) :=
  if solution_len =? 1344 then Some (200, 9)%nat
  else if solution_len =? 400 then Some (192, 7)%nat
  else if solution_len =? 68 then Some (96, 5)%nat
  else if solution_len =? 36 then Some (48, 5)%nat
  else None.

(** "ZcashPoW" and the parameters *)
Definition equihash_personal (p : equihash_params) : bytes :=
  [0x5A; 0x63; 0x61; 0x73; 0x68; 0x50; 0x6F; 0x57] ++ le_encode 4 (Z.of_nat (eh_N p)) ++ le_encode 4 (Z.of_nat (eh_K p)).

Definition equihash_initialise_state (p : equihash_params) : result blake2b_err blake2b_ctx :=
  blake2b_init_salt_personal (Z.of_nat (hash_output p)) [] None (Some (equihash_personal p)).

(** ** Rows *)

(** [EH_REJECT]: the function returns false. *)
Inductive eh_stop := EH_REJECT | EH_UNDEFINED.

Abbreviation eh_row := bytes.

Definition slice (off len : nat) (row : bytes) : result eh_stop bytes :=
  if Nat.leb (off + len) (length row) then Ok (take len (drop off row)) else Err EH_UNDEFINED.

Definition row_write (row : bytes) (off : nat) (src : bytes) : result eh_stop bytes :=
  if Nat.leb (off + length src) (length row) then Ok (buf_write row off src) else Err EH_UNDEFINED.

Definition defined {A} (o : option A) : result eh_stop A :=
  match o with Some a => Ok a | None => Err EH_UNDEFINED end.

Definition eh_row_has_collision (a b : eh_row) (collision_byte_len : nat) : result eh_stop bool :=
  x ← slice 0 collision_byte_len a; y ← slice 0 collision_byte_len b; mret (bool_decide (x = y)).

Definition eh_row_indices_before (a b : eh_row) (hash_len len_indices : nat) : result eh_stop bool :=
  x ← slice hash_len len_indices a; y ← slice hash_len len_indices b; mret (memcmp x y <? 0).

(** The [i]-th index of an index array *)
Definition index_bytes (x : bytes) (i : nat) : bytes := take 4 (drop (4 * i) x).

Definition eh_row_distinct_indices (a b : eh_row) (hash_len len_indices : nat) : result eh_stop bool :=
  x ← slice hash_len len_indices a; y ← slice hash_len len_indices b;
  mret (forallb (fun i => forallb (fun j => negb (bool_decide (index_bytes x i = index_bytes y j)))
                            (seq 0 (len_indices / 4))) (seq 0 (len_indices / 4))).

Definition eh_row_is_zero (row : eh_row) (len : nat) : result eh_stop bool :=
  x ← slice 0 len row; mret (forallb (fun c => c =? 0) x).

Section Rows.
Context `{Allocator}.

(** A row that cannot be allocated makes the caller give up. *)
Definition new_row (width : nat) : result eh_stop eh_row :=
  ensure (alloc_succeeds (Z.of_nat width)) EH_REJECT;; mret (replicate width 0).

Definition eh_row_from_hash (hash_in : bytes) (h_len collision_bit_len : nat) (idx : Z) (width : nat)
    : result eh_stop eh_row :=
  row ← new_row width;
  expanded ← defined (eh_expand_array hash_in h_len collision_bit_len 0);
  row ← row_write row 0 expanded;
  row_write row h_len (eh_index_to_array idx).

Definition eh_row_xor_merge (a b : eh_row) (hash_len len_indices collision_byte_len width : nat)
    : result eh_stop eh_row :=
  row ← new_row width;
  let trim := collision_byte_len in
  ensure (Nat.leb trim hash_len) EH_UNDEFINED;;
  x ← slice trim (hash_len - trim) a; y ← slice trim (hash_len - trim) b;
  row ← row_write row 0 (zip_with Z.lxor x y);
  before ← eh_row_indices_before a b hash_len len_indices;
  ia ← slice hash_len len_indices a; ib ← slice hash_len len_indices b;
  let '(first, second) := if before : bool then (ia, ib) else (ib, ia) in
  row ← row_write row (hash_len - trim) first;
  row_write row (hash_len - trim + len_indices) second.

(** ** The verifier *)

(** The hashes of the indices in batches of eight, then of four, then one by one *)
Fixpoint generate_hashes (cpu : cpu_features) (base : blake2b_ctx) (hash_len : Z) (fuel : nat) (gs : list Z)
    : list (result blake2b_err bytes) :=
  match fuel with
  | O => []
  | S fuel' =>
      if Nat.leb 8 (length gs) then
        equihash_generate_hash_batch cpu base (take 8 gs) hash_len ++ generate_hashes cpu base hash_len fuel' (drop 8 gs)
      else if Nat.leb 4 (length gs) then
        equihash_generate_hash_batch cpu base (take 4 gs) hash_len ++ generate_hashes cpu base hash_len fuel' (drop 4 gs)
      else map (fun g => generate_hash base g hash_len) gs
  end.

(** The row of an index; a hash that was not written is not defined. *)
Definition leaf_row (p : equihash_params) (idx : Z) (hash : result blake2b_err bytes) : result eh_stop eh_row :=
  th ← match hash with Ok th => Ok th | Err _ => Err EH_UNDEFINED end;
  let offset := Z.to_nat (idx mod Z.of_nat (indices_per_hash_output p) * Z.of_nat (eh_N p) / 8) in
  part ← slice offset (eh_N p / 8) th;
  eh_row_from_hash part (hash_length p) (collision_bit_length p) idx (final_full_width p).

Fixpoint leaf_rows (p : equihash_params) (indices : list Z) (hashes : list (result blake2b_err bytes))
    : result eh_stop (list eh_row) :=
  match indices, hashes with
  | idx :: indices', hash :: hashes' =>
      row ← leaf_row p idx hash; rows ← leaf_rows p indices' hashes'; mret (row :: rows)
  | [], _ => mret []
  | _, [] => Err EH_UNDEFINED
  end.

(** One level: neighbours are compared and merged. *)
Fixpoint merge_level (p : equihash_params) (hash_len len_indices : nat) (rows : list eh_row)
    : result eh_stop (list eh_row) :=
  match rows with
  | [] => mret []
  | [_] => Err EH_UNDEFINED
  | a :: b :: rest =>
      collision ← eh_row_has_collision a b (collision_byte_length p);
      ensure collision EH_REJECT;;
      swapped ← eh_row_indices_before b a hash_len len_indices;
      ensure (negb swapped) EH_REJECT;;
      distinct ← eh_row_distinct_indices a b hash_len len_indices;
      ensure distinct EH_REJECT;;
      row ← eh_row_xor_merge a b hash_len len_indices (collision_byte_length p) (final_full_width p);
      rows ← merge_level p hash_len len_indices rest;
      mret (row :: rows)
  end.

(** Each level halves the number of rows: [K] levels are enough for 2^K rows. *)
Fixpoint verify_levels (p : equihash_params) (fuel hash_len len_indices : nat) (rows : list eh_row)
    : result eh_stop bool :=
  if Nat.ltb 1 (length rows) then
    match fuel with
    | O => Err EH_UNDEFINED
    | S fuel' =>
        ensure (alloc_succeeds (Z.of_nat (length rows / 2 * 8))) EH_REJECT;;
        rows ← merge_level p hash_len len_indices rows;
        verify_levels p fuel' (hash_len - collision_byte_length p) (len_indices * 2) rows
    end
  else
    match rows with
    | [row] => eh_row_is_zero row hash_len
    | _ => Err EH_UNDEFINED
    end.

Definition verify_solution (cpu : cpu_features) (p : equihash_params) (base : blake2b_ctx) (soln : bytes)
    : result eh_stop bool :=
  ensure (Nat.eqb (length soln) (solution_width p)) EH_REJECT;;
  let num_indices := (2 ^ eh_K p)%nat in
  ensure (alloc_succeeds (Z.of_nat (num_indices * 4))) EH_REJECT;;
  indices ← defined (eh_get_indices_from_minimal soln (collision_bit_length p) num_indices);
  ensure (Nat.eqb (length indices) num_indices) EH_REJECT;;
  ensure (alloc_succeeds (Z.of_nat (num_indices * 8))) EH_REJECT;;
  ensure (alloc_succeeds (Z.of_nat (hash_output p * 8))) EH_REJECT;;
  let gs := map (fun i => i / Z.of_nat (indices_per_hash_output p)) indices in
  rows ← leaf_rows p indices (generate_hashes cpu base (Z.of_nat (hash_output p)) (S num_indices) gs);
  verify_levels p (eh_K p) (hash_length p) 4 rows.

(** [None]: undefined behaviour *)
Definition equihash_is_valid_solution (cpu : cpu_features) (p : equihash_params) (base : blake2b_ctx) (soln : bytes)
    : option bool :=
  match verify_solution cpu p base soln with
  | Ok valid => Some valid
  | Err EH_REJECT => Some false
  | Err EH_UNDEFINED => None
  end.

(** ** Callers *)

Definition le32_into (v : Z) : bytes := [v .& 0xff; (v ≫ 8) .& 0xff; (v ≫ 16) .& 0xff; (v ≫ 24) .& 0xff].

(** The state of the domain layer, fed field by field *)
Definition header_state (p : equihash_params) (h : block_header) : result blake2b_err blake2b_ctx :=
  state ← equihash_initialise_state p;
  mret (foldl blake2b_update state [le32_into (u32 (nVersion h)); hashPrevBlock h; hashMerkleRoot h;
    hashFinalSaplingRoot h; le32_into (nTime h); le32_into (nBits h); nNonce h]).

Inductive equihash_err := EQUIHASH_BAD_SOL_SIZE | EQUIHASH_UNDEFINED.

Definition domain_consensus_verify_equihash_solution (cpu : cpu_features) (h : block_header) : result equihash_err bool :=
  match equihash_solution_params (zlen (nSolution h)) with
  | None => Err EQUIHASH_BAD_SOL_SIZE
  | Some (n, k) =>
      let ep := equihash_params_init n k in
      match header_state ep h with
      | Err _ => Err EQUIHASH_UNDEFINED
      | Ok state =>
          match equihash_is_valid_solution cpu ep state (nSolution h) with
          | Some valid => Ok valid
          | None => Err EQUIHASH_UNDEFINED
          end
      end
  end.

Definition registry_equihash_200_9_verify (cpu : cpu_features) (public_inputs proof : bytes) : option bool :=
  if (zlen public_inputs =? 0) || (zlen proof =? 0) then Some false
  else
    match equihash_solution_params (zlen proof) with
    | None => Some false
    | Some (n, k) =>
        let ep := equihash_params_init n k in
        match equihash_initialise_state ep with
        | Err _ => None
        | Ok state => equihash_is_valid_solution cpu ep (blake2b_update state public_inputs) proof
        end
    end.

End Rows.

(** ** Byte arrays *)

Lemma slice_ok off len row x y z : row = x ++ y ++ z -> length x = off -> length y = len -> slice off len row = Ok y.
Proof.
  intros -> Hx Hy. unfold slice. rewrite (proj2 (Nat.leb_le _ _)) by (rewrite !length_app; lia).
  by rewrite drop_app_length', take_app_length' by done.
Qed.

Lemma row_write_ok row off src x y z : row = x ++ y ++ z -> length x = off -> length y = length src ->
  row_write row off src = Ok (x ++ src ++ z).
Proof.
  intros -> Hx Hy. unfold row_write. rewrite (proj2 (Nat.leb_le _ _)) by (rewrite !length_app; lia).
  unfold buf_write. rewrite take_app_length', <- Hy, drop_app, (drop_ge x), Hx, app_nil_l by lia.
  replace (off + length y - off)%nat with (length y) by lia. by rewrite drop_app_length.
Qed.

Lemma memcmp_value a b : bytes_ok a -> bytes_ok b -> length a = length b ->
  (memcmp a b <? 0) = (number 8 a <? number 8 b).
Proof.
  intros Ha. revert b. induction Ha as [|x a Hx Ha IH]; intros b Hb El; destruct Hb as [|y b Hy Hb]; try done.
  cbn [memcmp number length] in *. specialize (IH b Hb ltac:(lia)).
  assert (zlen a = zlen b) as -> by (unfold zlen; lia).
  pose proof (value_range 8 a ltac:(lia) Ha). pose proof (value_range 8 b ltac:(lia) Hb).
  assert (zlen a = zlen b) as E by (unfold zlen; lia). rewrite E in *. pose proof (pow_len_pos 8 b ltac:(lia)).
  destruct (Z.eqb_spec x y) as [->|Hne].
  - destruct (Z.ltb_spec (number 8 a) (number 8 b)), (Z.ltb_spec (y * 2 ^ (8 * zlen b) + number 8 a) (y * 2 ^ (8 * zlen b) + number 8 b)); lia.
  - destruct (Z.ltb_spec x y), (Z.ltb_spec (x * 2 ^ (8 * zlen b) + number 8 a) (y * 2 ^ (8 * zlen b) + number 8 b)); nia.
Qed.

(** An array of indices *)
Definition index_array (l : list Z) : bytes := mjoin (map (be_encode 4) l).

Lemma index_array_cons i l : index_array (i :: l) = be_encode 4 i ++ index_array l.
Proof. done. Qed.

Lemma index_array_app l1 l2 : index_array (l1 ++ l2) = index_array l1 ++ index_array l2.
Proof. induction l1 as [|i l1 IH]; [done|]. cbn [app]. by rewrite !index_array_cons, IH, app_assoc. Qed.

Lemma index_array_length l : length (index_array l) = (4 * length l)%nat.
Proof. apply groups_length. Qed.

Lemma groups_ok w gs : bytes_ok (mjoin (map (be_encode w) gs)).
Proof.
  induction gs as [|g gs IH]; [constructor|]. change (mjoin (map (be_encode w) (g :: gs))) with
    (be_encode w g ++ mjoin (map (be_encode w) gs)). apply bytes_ok_app. split; [apply be_encode_ok|done].
Qed.

Lemma value_app b l1 l2 : 0 <= b -> number b (l1 ++ l2) = number b l1 * 2 ^ (b * zlen l2) + number b l2.
Proof.
  intros Hb. induction l1 as [|x l1 IH]; [done|]. cbn [app number].
  rewrite IH, zlen_app, Z.mul_add_distr_l, Z.pow_add_r by (unfold zlen; nia). lia.
Qed.

Lemma index_array_value l : Forall (is_u 32) l -> number 8 (index_array l) = number 32 l.
Proof.
  induction 1 as [|i l Hi _ IH]; [done|].
  rewrite index_array_cons, value_app, IH, <- be_decode_value, (be_decode_encode 4 i Hi) by lia.
  cbn [number]. unfold zlen. rewrite index_array_length. do 3 f_equal. lia.
Qed.

Lemma index_bytes_array l i : (i < length l)%nat -> index_bytes (index_array l) i = be_encode 4 (l !!! i).
Proof.
  revert i. induction l as [|x l IH]; intros i Hi; [cbn in Hi; lia|]. unfold index_bytes in *. rewrite index_array_cons.
  destruct i as [|i].
  - rewrite Nat.mul_0_r, drop_0, take_app_length' by (by rewrite be_encode_length). done.
  - rewrite drop_app, (drop_ge (be_encode 4 x)), app_nil_l, be_encode_length by (rewrite be_encode_length; lia).
    replace (4 * S i - 4)%nat with (4 * i)%nat by lia. change ((x :: l) !!! S i) with (l !!! i). apply IH. cbn in Hi. lia.
Qed.

Lemma be4_inj x y : is_u 32 x -> is_u 32 y -> be_encode 4 x = be_encode 4 y -> x = y.
Proof. intros Hx Hy E. by rewrite <- (be_decode_encode 4 x), E, be_decode_encode by done. Qed.

(** The two loops of [eh_row_distinct_indices] *)
Lemma distinct_loops l1 l2 : Forall (is_u 32) l1 -> Forall (is_u 32) l2 -> length l1 = length l2 ->
  forallb (fun i => forallb (fun j => negb (bool_decide (index_bytes (index_array l1) i = index_bytes (index_array l2) j)))
    (seq 0 (length l1))) (seq 0 (length l1)) = true <-> (forall x, x ∈ l1 -> x ∈ l2 -> False).
Proof.
  intros H1 H2 El. rewrite forallb_forall. split.
  - intros Hall x Hx1 Hx2. apply list_elem_of_lookup in Hx1 as [i Hi], Hx2 as [j Hj].
    pose proof (lookup_lt_Some _ _ _ Hi). pose proof (lookup_lt_Some _ _ _ Hj).
    specialize (Hall i ltac:(apply in_seq; lia)). rewrite forallb_forall in Hall.
    specialize (Hall j ltac:(apply in_seq; lia)). rewrite !index_bytes_array in Hall by lia.
    rewrite (list_lookup_total_correct _ _ _ Hi), (list_lookup_total_correct _ _ _ Hj) in Hall.
    by rewrite bool_decide_eq_true_2 in Hall.
  - intros Hd i Hi%in_seq. rewrite forallb_forall. intros j Hj%in_seq. rewrite !index_bytes_array by lia.
    apply negb_true_iff, bool_decide_eq_false. intros E.
    destruct (lookup_lt_is_Some_2 l1 i ltac:(lia)) as [x Hx], (lookup_lt_is_Some_2 l2 j ltac:(lia)) as [y Hy].
    rewrite (list_lookup_total_correct _ _ _ Hx), (list_lookup_total_correct _ _ _ Hy) in E.
    apply be4_inj in E as ->; [|exact (Forall_lookup_1 _ _ _ _ H1 Hx)|exact (Forall_lookup_1 _ _ _ _ H2 Hy)].
    apply (Hd y); eapply list_elem_of_lookup_2; eauto.
Qed.

(** ** Exclusive or of digit lists *)

Lemma zip_xor_app l1 l2 k1 k2 : length l1 = length k1 ->
  zip_with Z.lxor (l1 ++ l2) (k1 ++ k2) = zip_with Z.lxor l1 k1 ++ zip_with Z.lxor l2 k2.
Proof. intros El. by rewrite zip_with_app by done. Qed.

Lemma uwrap_lxor w x y : 0 <= w -> uwrap w (Z.lxor x y) = Z.lxor (uwrap w x) (uwrap w y).
Proof.
  intros Hw. unfold uwrap. rewrite <- !Z.land_ones by done. apply Z.bits_inj'. intros i Hi.
  rewrite !Z.land_spec, !Z.lxor_spec, !Z.land_spec. by destruct (Z.testbit (Z.ones w) i), (Z.testbit x i), (Z.testbit y i).
Qed.

Lemma le_encode_lxor n x y : zip_with Z.lxor (le_encode n x) (le_encode n y) = le_encode n (Z.lxor x y).
Proof.
  revert x y. induction n as [|n IH]; intros x y; cbn [le_encode zip_with]; [done|].
  by rewrite IH, uwrap_lxor, Z.shiftr_lxor by lia.
Qed.

Lemma be_encode_lxor n x y : zip_with Z.lxor (be_encode n x) (be_encode n y) = be_encode n (Z.lxor x y).
Proof.
  unfold be_encode. rewrite <- le_encode_lxor. generalize (le_encode_length n x) (le_encode_length n y).
  generalize (le_encode n x) (le_encode n y). intros l k <- El. revert k El.
  induction l as [|a l IH]; intros [|b k] El; cbn in *; try lia; [done|].
  rewrite zip_xor_app by (rewrite !length_rev; lia). by rewrite IH by lia.
Qed.

Lemma groups_lxor w l k : length l = length k ->
  zip_with Z.lxor (mjoin (map (be_encode w) l)) (mjoin (map (be_encode w) k)) =
  mjoin (map (be_encode w) (zip_with Z.lxor l k)).
Proof.
  revert k. induction l as [|x l IH]; intros [|y k] El; cbn [length] in El; try lia; [done|].
  change (mjoin (map (be_encode w) (x :: l))) with (be_encode w x ++ mjoin (map (be_encode w) l)).
  change (mjoin (map (be_encode w) (y :: k))) with (be_encode w y ++ mjoin (map (be_encode w) k)).
  rewrite zip_xor_app, be_encode_lxor, IH by (rewrite ?be_encode_length; lia). done.
Qed.

Lemma lxor_is_u w x y : 0 <= w -> is_u w x -> is_u w y -> is_u w (Z.lxor x y).
Proof.
  intros Hw Hx Hy. rewrite <- (uwrap_small w x), <- (uwrap_small w y), <- uwrap_lxor by done. by apply uwrap_range.
Qed.

Lemma zip_xor_zero l n : length l = n -> zip_with Z.lxor l (replicate n 0) = l.
Proof. intros <-. induction l as [|x l IH]; cbn; [done|]. by rewrite IH, Z.lxor_0_r. Qed.

Lemma zip_xor_comm l k : zip_with Z.lxor l k = zip_with Z.lxor k l.
Proof. revert k. induction l as [|x l IH]; intros [|y k]; cbn; try done. by rewrite IH, Z.lxor_comm. Qed.

Lemma zip_xor_assoc l k m : zip_with Z.lxor l (zip_with Z.lxor k m) = zip_with Z.lxor (zip_with Z.lxor l k) m.
Proof. revert k m. induction l as [|x l IH]; intros [|y k] [|z m]; cbn; try done. by rewrite IH, Z.lxor_assoc. Qed.

(** ** The problem *)

(** What the verifier needs of the parameters *)
Record eh_ok (p : equihash_params) : Prop := {
  ok_K : (1 <= eh_K p)%nat;
  ok_N : eh_N p = ((eh_K p + 1) * collision_bit_length p)%nat;
  ok_bits : (8 <= collision_bit_length p <= 24)%nat;
  ok_bytes : (8 * (eh_N p / 8) = eh_N p)%nat;
  ok_iph : (1 <= indices_per_hash_output p)%nat;
  ok_output : hash_output p = (indices_per_hash_output p * (eh_N p / 8))%nat;
  ok_digest : (hash_output p <= 64)%nat;
  ok_cbyte : collision_byte_length p = ((collision_bit_length p + 7) / 8)%nat;
  ok_hash : hash_length p = ((eh_K p + 1) * collision_byte_length p)%nat;
  ok_width : forall r, (r <= eh_K p)%nat ->
    ((eh_K p + 1 - r) * collision_byte_length p + 4 * 2 ^ r <= final_full_width p)%nat;
  ok_solution : (8 * solution_width p = (collision_bit_length p + 1) * 2 ^ eh_K p)%nat;
}.

Lemma supported_ok len n k : equihash_solution_params len = Some (n, k) ->
  eh_ok (equihash_params_init n k) /\ len = Z.of_nat (solution_width (equihash_params_init n k)).
Proof.
  unfold equihash_solution_params. intros E.
  assert (forall N K, (forallb (fun r => Nat.leb ((K + 1 - r) * collision_byte_length (equihash_params_init N K) + 4 * 2 ^ r)
    (final_full_width (equihash_params_init N K))) (seq 0 (K + 1)) = true) -> forall r, (r <= K)%nat ->
    ((K + 1 - r) * collision_byte_length (equihash_params_init N K) + 4 * 2 ^ r <=
     final_full_width (equihash_params_init N K))%nat) as Hw.
  { intros N K Hall r Hr. rewrite forallb_forall in Hall. apply Nat.leb_le, Hall, in_seq. lia. }
  assert (forall N K, eh_ok (equihash_params_init N K) ->
    Z.of_nat (solution_width (equihash_params_init N K)) = len -> Some (N, K) = Some (n, k) ->
    eh_ok (equihash_params_init n k) /\ len = Z.of_nat (solution_width (equihash_params_init n k))) as Hone
    by (intros N K Hok Hl [= <- <-]; done).
  destruct (Z.eqb_spec len 1344) as [->|]; [|destruct (Z.eqb_spec len 400) as [->|];
    [|destruct (Z.eqb_spec len 68) as [->|]; [|destruct (Z.eqb_spec len 36) as [->|]; [|done]]]];
    (apply Hone in E; [done| |vm_compute; reflexivity]);
    constructor; first [apply Hw; vm_compute; reflexivity|vm_compute; reflexivity|vm_compute; lia].
Qed.

Section Problem.
Context (p : equihash_params) (Hp : eh_ok p).
Context (Hash : Z -> bytes) (Hash_len : forall g, length (Hash g) = hash_output p) (Hash_ok : forall g, bytes_ok (Hash g)).

Let K : nat := eh_K p.
Let cbl : nat := collision_bit_length p.
Let cbyte : nat := collision_byte_length p.

(** The [N] bits of an index: part of the hash that it shares with its neighbours *)
Definition leaf_hash (i : Z) : bytes :=
  take (eh_N p / 8)
    (drop (Z.to_nat (i mod Z.of_nat (indices_per_hash_output p) * Z.of_nat (eh_N p) / 8))
       (Hash (i / Z.of_nat (indices_per_hash_output p)))).

(** They are read as [K + 1] digits. *)
Definition leaf_digits (i : Z) : list Z :=
  let b := Z.of_nat (collision_bit_length p) in
  digits b (eh_K p + 1) (b * Z.of_nat (eh_K p + 1)) (number 8 (leaf_hash i)).

Definition xor_digits (l : list Z) : list Z :=
  foldr (fun i acc => zip_with Z.lxor (leaf_digits i) acc) (replicate (eh_K p + 1) 0) l.

(** Two neighbouring halves of a subtree whose leaves are 2^[r] indices each *)
Definition siblings_ok (r : nat) (l1 l2 : list Z) : Prop :=
  xor_digits (l1 ++ l2) !!! r = 0 /\ l1 !!! 0%nat < l2 !!! 0%nat /\ forall i, i ∈ l1 -> i ∈ l2 -> False.

(** The conditions on a subtree of 2^[r] leaves *)
Fixpoint wagner (r : nat) (l : list Z) : Prop :=
  match r with
  | O => True
  | S r' =>
      let l1 := take (2 ^ r') l in
      let l2 := drop (2 ^ r') l in
      wagner r' l1 /\ wagner r' l2 /\ xor_digits l !!! r' = 0 /\ l1 !!! 0%nat < l2 !!! 0%nat
  end.

(** A solution of the generalised birthday problem *)
Definition equihash_solution (l : list Z) : Prop :=
  length l = (2 ^ eh_K p)%nat /\ NoDup l /\ wagner (eh_K p) l /\ xor_digits l !!! eh_K p = 0.

(** *** Digits *)

Lemma leaf_hash_ok i : 0 <= i -> length (leaf_hash i) = (eh_N p / 8)%nat /\ bytes_ok (leaf_hash i) /\
  Z.to_nat (i mod Z.of_nat (indices_per_hash_output p) * Z.of_nat (eh_N p) / 8) =
    (Z.to_nat (i mod Z.of_nat (indices_per_hash_output p)) * (eh_N p / 8))%nat /\
  (Z.to_nat (i mod Z.of_nat (indices_per_hash_output p)) * (eh_N p / 8) + eh_N p / 8 <= hash_output p)%nat.
Proof.
  intros Hi. pose proof (ok_iph p Hp). pose proof (ok_bytes p Hp) as E8. pose proof (ok_output p Hp) as Eo.
  pose proof (Z.mod_pos_bound i (Z.of_nat (indices_per_hash_output p)) ltac:(lia)) as Hm.
  assert (Z.to_nat (i mod Z.of_nat (indices_per_hash_output p) * Z.of_nat (eh_N p) / 8) =
    (Z.to_nat (i mod Z.of_nat (indices_per_hash_output p)) * (eh_N p / 8))%nat) as Eoff.
  { rewrite <- E8 at 1. rewrite Nat2Z.inj_mul.
    replace (i mod Z.of_nat (indices_per_hash_output p) * (Z.of_nat 8 * Z.of_nat (eh_N p / 8)))
      with (i mod Z.of_nat (indices_per_hash_output p) * Z.of_nat (eh_N p / 8) * 8) by lia.
    rewrite Z.div_mul by done. rewrite Z2Nat.inj_mul by lia. by rewrite Nat2Z.id. }
  assert (Z.to_nat (i mod Z.of_nat (indices_per_hash_output p)) * (eh_N p / 8) + eh_N p / 8 <= hash_output p)%nat as Hfit
    by (rewrite Eo; nia).
  split_and!; [|by apply bytes_ok_take, bytes_ok_drop, Hash_ok|done|done].
  unfold leaf_hash. rewrite length_take, length_drop, Hash_len, Eoff. lia.
Qed.

Lemma leaf_digits_ok i : 0 <= i -> length (leaf_digits i) = (K + 1)%nat /\ Forall (is_u (Z.of_nat cbl)) (leaf_digits i).
Proof.
  intros Hi. unfold leaf_digits. split; [apply digits_length|]. apply value_digits; [lia|].
  destruct (leaf_hash_ok i Hi) as (El & Hb & _). pose proof (value_range 8 _ ltac:(lia) Hb) as Hv.
  replace (8 * zlen (leaf_hash i)) with (Z.of_nat (collision_bit_length p) * Z.of_nat (eh_K p + 1)) in Hv; [done|].
  unfold zlen. rewrite El. pose proof (ok_bytes p Hp). pose proof (ok_N p Hp). lia.
Qed.

Lemma xor_digits_ok l : Forall (is_u 32) l ->
  length (xor_digits l) = (K + 1)%nat /\ Forall (is_u (Z.of_nat cbl)) (xor_digits l).
Proof.
  induction 1 as [|i l Hi _ [IHl IHd]]; cbn [xor_digits foldr].
  - rewrite length_replicate. split; [done|]. apply Forall_replicate. split; [lia|]. apply Z.pow_pos_nonneg; lia.
  - destruct (leaf_digits_ok i ltac:(apply Hi)) as [El Hd]. fold (xor_digits l).
    split; [rewrite length_zip_with; lia|].
    apply Forall_lookup. intros j x Hx. rewrite lookup_zip_with in Hx.
    destruct (leaf_digits i !! j) as [a|] eqn:Ea; [|done]. destruct (xor_digits l !! j) as [c|] eqn:Ec; [|done].
    injection Hx as <-. apply lxor_is_u; [lia|exact (Forall_lookup_1 _ _ _ _ Hd Ea)|exact (Forall_lookup_1 _ _ _ _ IHd Ec)].
Qed.

Lemma xor_digits_app l1 l2 : Forall (is_u 32) l1 -> Forall (is_u 32) l2 ->
  xor_digits (l1 ++ l2) = zip_with Z.lxor (xor_digits l1) (xor_digits l2).
Proof.
  intros H1 H2. induction H1 as [|i l1 Hi H1 IH]; cbn [app xor_digits foldr].
  - fold (xor_digits l2). rewrite zip_xor_comm, zip_xor_zero; [done|]. by apply xor_digits_ok.
  - fold (xor_digits (l1 ++ l2)) (xor_digits l1). by rewrite IH, zip_xor_assoc.
Qed.

Lemma xor_digits_single i : 0 <= i -> xor_digits [i] = leaf_digits i.
Proof. intros Hi. cbn. apply zip_xor_zero. by apply leaf_digits_ok. Qed.

Lemma xor_digit_zero l1 l2 r : Forall (is_u 32) l1 -> Forall (is_u 32) l2 -> (r <= K)%nat ->
  xor_digits (l1 ++ l2) !!! r = 0 <-> xor_digits l1 !!! r = xor_digits l2 !!! r.
Proof.
  intros H1 H2 Hr. rewrite xor_digits_app by done.
  destruct (xor_digits_ok l1 H1) as [E1 _], (xor_digits_ok l2 H2) as [E2 _].
  destruct (lookup_lt_is_Some_2 (xor_digits l1) r ltac:(lia)) as [a Ha],
    (lookup_lt_is_Some_2 (xor_digits l2) r ltac:(lia)) as [c Hc].
  rewrite (list_lookup_total_correct _ _ _ Ha), (list_lookup_total_correct _ _ _ Hc).
  rewrite (list_lookup_total_correct _ r (Z.lxor a c)) by (by rewrite lookup_zip_with, Ha, Hc).
  split; [apply Z.lxor_eq|intros ->; apply Z.lxor_nilpotent].
Qed.

(** *** Rows *)

Definition hash_part (r : nat) (l : list Z) : bytes :=
  mjoin (map (be_encode (collision_byte_length p)) (drop r (xor_digits l))).

(** The row of the subtree with the leaves [l] *)
Definition row_of (r : nat) (l : list Z) : eh_row :=
  hash_part r l ++ index_array l ++
  replicate (final_full_width p - ((eh_K p + 1 - r) * collision_byte_length p + 4 * length l)) 0.

Definition eh_node (r : nat) (l : list Z) : Prop := length l = (2 ^ r)%nat /\ Forall (is_u 32) l.

Lemma hash_part_length r l : eh_node r l -> length (hash_part r l) = ((K + 1 - r) * cbyte)%nat.
Proof.
  intros [_ Hl]. unfold hash_part. rewrite groups_length, length_drop, (proj1 (xor_digits_ok l Hl)). apply Nat.mul_comm.
Qed.

Lemma hash_part_step r l : eh_node r l -> (r <= K)%nat ->
  hash_part r l = be_encode cbyte (xor_digits l !!! r) ++ hash_part (S r) l.
Proof.
  intros [_ Hl] Hr. unfold hash_part. destruct (xor_digits_ok l Hl) as [El _].
  destruct (lookup_lt_is_Some_2 (xor_digits l) r ltac:(lia)) as [a Ha].
  rewrite (drop_S _ _ _ Ha), (list_lookup_total_correct _ _ _ Ha). done.
Qed.

(** The slices the row operations read *)
Lemma row_slices r l : eh_node r l -> (r <= K)%nat ->
  slice 0 cbyte (row_of r l) = Ok (be_encode cbyte (xor_digits l !!! r)) /\
  slice ((K + 1 - r) * cbyte) (4 * 2 ^ r) (row_of r l) = Ok (index_array l) /\
  slice cbyte ((K + 1 - r) * cbyte - cbyte) (row_of r l) = Ok (hash_part (S r) l) /\
  slice 0 ((K + 1 - r) * cbyte) (row_of r l) = Ok (hash_part r l).
Proof.
  intros Hn Hr. pose proof (hash_part_length r l Hn) as Eh. pose proof (hash_part_step r l Hn Hr) as Es.
  destruct Hn as [El Hl]. assert (length (be_encode cbyte (xor_digits l !!! r)) = cbyte) as Eb by apply be_encode_length.
  assert (length (hash_part (S r) l) = ((K + 1 - r) * cbyte - cbyte)%nat) as Es'
    by (apply (f_equal length) in Es; rewrite length_app in Es; lia).
  unfold row_of. split_and!.
  - rewrite Es, <- app_assoc. by apply (slice_ok _ _ _ [] _ _ eq_refl).
  - by eapply slice_ok; [reflexivity|done|rewrite index_array_length; lia].
  - rewrite Es, <- app_assoc. by eapply slice_ok; [reflexivity|done|done].
  - by apply (slice_ok _ _ _ [] _ _ eq_refl).
Qed.

Lemma digit_bytes_inj x y : is_u (Z.of_nat cbl) x -> is_u (Z.of_nat cbl) y ->
  be_encode cbyte x = be_encode cbyte y <-> x = y.
Proof.
  intros Hx Hy. split; [|by intros ->]. pose proof (ok_bits p Hp).
  destruct (width_bound cbl 0 ltac:(unfold cbl; lia) ltac:(unfold cbl; lia)) as (Hw & _).
  rewrite Nat.add_0_r, Nat.sub_0_r in Hw. unfold cbyte. rewrite (ok_cbyte p Hp). fold cbl. unfold is_u in *.
  intros E. rewrite <- (be_decode_encode ((cbl + 7) / 8) x), E, be_decode_encode by lia. done.
Qed.

Lemma xor_digit_range l r : Forall (is_u 32) l -> (r <= K)%nat -> is_u (Z.of_nat cbl) (xor_digits l !!! r).
Proof.
  intros Hl Hr. destruct (xor_digits_ok l Hl) as [El Hd].
  destruct (lookup_lt_is_Some_2 (xor_digits l) r ltac:(lia)) as [a Ha].
  rewrite (list_lookup_total_correct _ _ _ Ha). exact (Forall_lookup_1 _ _ _ _ Hd Ha).
Qed.

Lemma node_app r l1 l2 : eh_node r l1 -> eh_node r l2 -> eh_node (S r) (l1 ++ l2).
Proof. intros [E1 F1] [E2 F2]. split; [rewrite length_app, E1, E2; cbn; lia|by apply Forall_app]. Qed.

Section Pair.
Context (r : nat) (l1 l2 : list Z) (H1 : eh_node r l1) (H2 : eh_node r l2) (Hr : (r < K)%nat).

Lemma has_collision_spec : exists b, eh_row_has_collision (row_of r l1) (row_of r l2) cbyte = Ok b /\
  (b = true <-> xor_digits (l1 ++ l2) !!! r = 0).
Proof.
  destruct (row_slices r l1 H1 ltac:(lia)) as (S1 & _), (row_slices r l2 H2 ltac:(lia)) as (S2 & _).
  unfold eh_row_has_collision. rewrite S1, S2. eexists. split; [reflexivity|].
  rewrite bool_decide_eq_true, digit_bytes_inj by (apply xor_digit_range; [apply H1 || apply H2|lia]).
  rewrite xor_digit_zero by (apply H1 || apply H2 || lia). done.
Qed.

Lemma indices_before_spec : eh_row_indices_before (row_of r l1) (row_of r l2) ((K + 1 - r) * cbyte) (4 * 2 ^ r) =
  Ok (number 32 l1 <? number 32 l2).
Proof.
  destruct (row_slices r l1 H1 ltac:(lia)) as (_ & S1 & _), (row_slices r l2 H2 ltac:(lia)) as (_ & S2 & _).
  unfold eh_row_indices_before. rewrite S1, S2. cbn [mbind result_bind]. unfold mret, result_ret. f_equal.
  rewrite memcmp_value, !index_array_value; [done|apply H2|apply H1|apply groups_ok|apply groups_ok|].
  rewrite !index_array_length. destruct H1 as [-> _], H2 as [-> _]. done.
Qed.

Lemma distinct_spec : exists b, eh_row_distinct_indices (row_of r l1) (row_of r l2) ((K + 1 - r) * cbyte) (4 * 2 ^ r) = Ok b /\
  (b = true <-> forall i, i ∈ l1 -> i ∈ l2 -> False).
Proof.
  destruct (row_slices r l1 H1 ltac:(lia)) as (_ & S1 & _), (row_slices r l2 H2 ltac:(lia)) as (_ & S2 & _).
  unfold eh_row_distinct_indices. rewrite S1, S2. eexists. split; [reflexivity|].
  rewrite (Nat.mul_comm 4), Nat.div_mul by lia. destruct H1 as [E1 F1], H2 as [E2 F2]. rewrite <- E1.
  apply distinct_loops; [done|done|lia].
Qed.

(** The order of two disjoint index lists is that of their first indices. *)
Lemma order_heads : (forall i, i ∈ l1 -> i ∈ l2 -> False) ->
  (number 32 l1 < number 32 l2 <-> l1 !!! 0%nat < l2 !!! 0%nat) /\ number 32 l1 <> number 32 l2.
Proof.
  destruct H1 as [E1 F1], H2 as [E2 F2]. assert (2 ^ r <> 0)%nat by (apply Nat.pow_nonzero; lia).
  destruct l1 as [|x k1], l2 as [|y k2]; cbn [length] in *; try lia. intros Hd. cbn [number].
  inversion F1 as [|? ? Fx F1']; inversion F2 as [|? ? Fy F2']; subst.
  assert (x <> y) by (intros ->; apply (Hd y); apply elem_of_cons; by left).
  pose proof (value_range 32 k1 ltac:(lia) F1'). pose proof (value_range 32 k2 ltac:(lia) F2').
  assert (zlen k1 = zlen k2) as E by (unfold zlen; lia). rewrite E in *. pose proof (pow_len_pos 32 k2 ltac:(lia)).
  change ((x :: k1) !!! 0%nat) with x. change ((y :: k2) !!! 0%nat) with y. nia.
Qed.

Lemma hash_part_xor : zip_with Z.lxor (hash_part (S r) l1) (hash_part (S r) l2) = hash_part (S r) (l1 ++ l2).
Proof.
  destruct H1 as [_ F1], H2 as [_ F2]. unfold hash_part. destruct (xor_digits_ok l1 F1) as [E1 _], (xor_digits_ok l2 F2) as [E2 _].
  rewrite groups_lxor by (rewrite !length_drop; lia). by rewrite xor_digits_app, zip_with_drop by done.
Qed.

End Pair.

Lemma xor_merge_spec `{AllocatorTotal} r l1 l2 : eh_node r l1 -> eh_node r l2 -> (r < K)%nat ->
  eh_row_xor_merge (row_of r l1) (row_of r l2) ((K + 1 - r) * cbyte) (4 * 2 ^ r) cbyte (final_full_width p) =
  Ok (row_of (S r) (if number 32 l1 <? number 32 l2 then l1 ++ l2 else l2 ++ l1)).
Proof.
  intros H1 H2 Hr. unfold eh_row_xor_merge, new_row. rewrite alloc_total. cbn [ensure mbind result_bind].
  assert (cbyte <= (K + 1 - r) * cbyte)%nat as Ht by nia. rewrite (proj2 (Nat.leb_le _ _)) by exact Ht. cbn [ensure mbind result_bind].
  destruct (row_slices r l1 H1 ltac:(lia)) as (_ & S1 & T1 & _), (row_slices r l2 H2 ltac:(lia)) as (_ & S2 & T2 & _).
  rewrite T1, T2, indices_before_spec, S1, S2 by (done || lia). cbn [mbind result_bind].
  rewrite (hash_part_xor r l1 l2) by (done || lia).
  pose proof (hash_part_length (S r) (l1 ++ l2) (node_app r l1 l2 H1 H2)) as EX.
  assert ((K + 1 - r) * cbyte - cbyte = (K + 1 - S r) * cbyte)%nat as Es by nia. rewrite Es.
  set (X := hash_part (S r) (l1 ++ l2)) in *. pose proof (ok_width p Hp (S r) ltac:(unfold K in *; lia)) as Hw.
  fold K cbyte in Hw. cbn [Nat.pow] in Hw.
  assert (forall k1 k2, eh_node r k1 -> eh_node r k2 -> hash_part (S r) (k1 ++ k2) = X ->
    (row ← row_write (replicate (final_full_width p) 0) 0 X;
     row ← row_write row ((K + 1 - S r) * cbyte) (index_array k1);
     row_write row ((K + 1 - S r) * cbyte + 4 * 2 ^ r) (index_array k2)) = Ok (row_of (S r) (k1 ++ k2))) as Hwrite.
  { intros k1 k2 [N1 _] [N2 _] EXk. set (rest := (final_full_width p - ((K + 1 - S r) * cbyte + 4 * (2 ^ r + 2 ^ r)))%nat).
    assert (replicate (final_full_width p) 0 = [] ++ replicate ((K + 1 - S r) * cbyte) 0 ++
      (replicate (4 * 2 ^ r) 0 ++ (replicate (4 * 2 ^ r) 0 ++ replicate rest 0))) as Er.
    { rewrite app_nil_l, <- !replicate_add. f_equal. unfold rest. lia. }
    rewrite (row_write_ok _ _ _ _ _ _ Er) by (rewrite ?length_replicate; lia || done). cbn [mbind result_bind app].
    rewrite (row_write_ok _ _ (index_array k1) X (replicate (4 * 2 ^ r) 0) _ eq_refl)
      by (rewrite ?length_replicate, ?index_array_length; lia). cbn [mbind result_bind].
    rewrite (row_write_ok _ _ (index_array k2) (X ++ index_array k1) (replicate (4 * 2 ^ r) 0) (replicate rest 0));
      [|by rewrite <- app_assoc|rewrite length_app, index_array_length; lia|rewrite length_replicate, index_array_length; lia].
    unfold row_of. rewrite EXk, index_array_app, <- !app_assoc, length_app. do 5 f_equal.
    unfold rest, K, cbyte. rewrite N1, N2. lia. }
  destruct (number 32 l1 <? number 32 l2).
  - exact (Hwrite l1 l2 H1 H2 eq_refl).
  - apply (Hwrite l2 l1 H2 H1). unfold X, hash_part.
    by rewrite !xor_digits_app, zip_xor_comm by (apply H1 || apply H2).
Qed.

Lemma leaf_row_spec `{AllocatorTotal} i : is_u 32 i ->
  leaf_row p i (Ok (Hash (i / Z.of_nat (indices_per_hash_output p)))) = Ok (row_of 0 [i]).
Proof.
  intros Hi. destruct (leaf_hash_ok i ltac:(apply Hi)) as (El & Hb & Eoff & Hfit).
  pose proof (ok_bits p Hp). unfold leaf_row. cbn [mbind result_bind]. cbv zeta.
  assert (slice (Z.to_nat (i mod Z.of_nat (indices_per_hash_output p) * Z.of_nat (eh_N p) / 8)) (eh_N p / 8)
    (Hash (i / Z.of_nat (indices_per_hash_output p))) = Ok (leaf_hash i)) as ->.
  { unfold slice. by rewrite (proj2 (Nat.leb_le _ _)) by (rewrite Hash_len, Eoff; lia). }
  cbn [mbind result_bind]. unfold eh_row_from_hash, new_row. rewrite alloc_total.
  cbn [ensure mret result_ret mbind result_bind].
  pose proof (expand_array_spec (leaf_hash i) (K + 1) cbl 0 ltac:(unfold cbl; lia) ltac:(unfold cbl; lia) Hb) as Ex.
  cbv zeta in Ex. rewrite Nat.add_0_r in Ex. unfold cbl in Ex. rewrite <- (ok_cbyte p Hp) in Ex. fold cbl cbyte in Ex.
  assert (hash_length p = cbyte * (K + 1))%nat as -> by (rewrite (ok_hash p Hp); apply Nat.mul_comm). fold cbl.
  rewrite Ex by (rewrite El, (ok_bytes p Hp), (ok_N p Hp); fold K cbl; lia). cbn [defined mbind result_bind].
  set (X := mjoin _). assert (X = hash_part 0 [i]) as EX.
  { unfold hash_part. rewrite drop_0, xor_digits_single by apply Hi. done. }
  pose proof (hash_part_length 0 [i]) as Elen. rewrite <- EX in Elen. rewrite Nat.sub_0_r in Elen.
  specialize (Elen ltac:(split; [done|by apply Forall_singleton])).
  pose proof (ok_width p Hp 0 ltac:(lia)) as Hw. fold K cbyte in Hw. rewrite Nat.sub_0_r in Hw. cbn [Nat.pow] in Hw.
  set (rest := (final_full_width p - ((K + 1) * cbyte + 4))%nat).
  rewrite (row_write_ok _ _ X [] (replicate ((K + 1) * cbyte) 0) (replicate 4 0 ++ replicate rest 0));
    [|rewrite app_nil_l, <- !replicate_add; f_equal; unfold rest; lia|done|by rewrite length_replicate].
  cbn [mbind result_bind app].
  rewrite (row_write_ok _ _ (eh_index_to_array i) X (replicate 4 0) (replicate rest 0));
    [|done|lia|by unfold eh_index_to_array; rewrite length_rev, le_encode_length].
  unfold row_of. rewrite EX. f_equal. f_equal. change (index_array [i]) with (be_encode 4 i ++ []). rewrite app_nil_r.
  unfold rest, K, cbyte. rewrite Nat.sub_0_r. done.
Qed.

(** *** Levels *)

Fixpoint pair_up (bs : list (list Z)) : list (list Z) :=
  match bs with
  | a :: b :: rest => (a ++ b) :: pair_up rest
  | _ => []
  end.

Fixpoint pairs_ok (r : nat) (bs : list (list Z)) : Prop :=
  match bs with
  | a :: b :: rest => siblings_ok r a b /\ pairs_ok r rest
  | _ => True
  end.

(** One pair of rows *)
Lemma pair_spec r a b : eh_node r a -> eh_node r b -> (r < K)%nat ->
  exists collision swapped distinct,
    eh_row_has_collision (row_of r a) (row_of r b) cbyte = Ok collision /\
    eh_row_indices_before (row_of r b) (row_of r a) ((K + 1 - r) * cbyte) (4 * 2 ^ r) = Ok swapped /\
    eh_row_distinct_indices (row_of r a) (row_of r b) ((K + 1 - r) * cbyte) (4 * 2 ^ r) = Ok distinct /\
    (collision && negb swapped && distinct = true <-> siblings_ok r a b) /\
    (siblings_ok r a b -> (number 32 a <? number 32 b) = true).
Proof.
  intros Ha Hb Hr. destruct (has_collision_spec r a b Ha Hb Hr) as (c & Ec & Hc).
  destruct (distinct_spec r a b Ha Hb Hr) as (d & Ed & Hd). pose proof (indices_before_spec r b a Hb Ha Hr) as Es.
  exists c, (number 32 b <? number 32 a), d. unfold siblings_ok. rewrite !andb_true_iff, negb_true_iff, Hc, Hd.
  pose proof (order_heads r a b Ha Hb Hr) as Ho. split_and!; [done|done|done| |].
  - split.
    + intros [[H0 Hs] Hdis]. destruct (Ho Hdis) as [Hlt Hne]. split_and!; [done|apply Hlt; lia|done].
    + intros (H0 & Hlt & Hdis). destruct (Ho Hdis) as [Hlt' Hne]. split_and!; [done|apply Hlt' in Hlt; lia|done].
  - intros (H0 & Hlt & Hdis). destruct (Ho Hdis) as [Hlt' _]. apply Hlt' in Hlt. lia.
Qed.

Lemma merge_level_spec `{AllocatorTotal} n r bs : length bs = (2 * n)%nat -> Forall (eh_node r) bs -> (r < K)%nat ->
  let res := merge_level p ((K + 1 - r) * cbyte) (4 * 2 ^ r) (map (row_of r) bs) in
  (res = Ok (map (row_of (S r)) (pair_up bs)) /\ pairs_ok r bs) \/ (res = Err EH_REJECT /\ ~ pairs_ok r bs).
Proof.
  intros El Hbs Hr. cbv zeta. revert bs El Hbs. induction n as [|n IH]; intros bs El Hbs.
  - destruct bs; [by left|cbn in El; lia].
  - destruct bs as [|a [|b bs]]; cbn [length] in El; try lia.
    inversion Hbs as [|? ? Ha Hbs']; subst. inversion Hbs' as [|? ? Hb Hbs'']; subst.
    cbn [map merge_level pair_up pairs_ok]. change (collision_byte_length p) with cbyte.
    destruct (pair_spec r a b Ha Hb Hr) as (c & sw & d & -> & -> & -> & Hiff & Hv).
    cbn [mbind result_bind]. destruct c, sw, d; cbn [ensure negb mbind result_bind andb] in *; try (right; split; [done|]; intros [Hs _];
      apply Hiff in Hs; done).
    assert (siblings_ok r a b) as Hs by (by apply Hiff). rewrite xor_merge_spec, (Hv Hs) by done. cbn [mbind result_bind].
    destruct (IH bs ltac:(lia) Hbs'') as [[-> Hok]|[-> Hno]]; [left; by split|right]. split; [done|]. by intros [_ ?].
Qed.

(** The conditions on 2^[n] subtrees of 2^[r] leaves each, from the root *)
Fixpoint tree (n r : nat) (bs : list (list Z)) : Prop :=
  match n with
  | O => True
  | S n' =>
      let b1 := take (2 ^ n') bs in
      let b2 := drop (2 ^ n') bs in
      tree n' r b1 /\ tree n' r b2 /\ siblings_ok (r + n') (mjoin b1) (mjoin b2)
  end.

Lemma pair_up_app n bs1 bs2 : length bs1 = (2 * n)%nat -> pair_up (bs1 ++ bs2) = pair_up bs1 ++ pair_up bs2.
Proof.
  revert bs1. induction n as [|n IH]; intros [|a [|b bs1]] El; cbn [length] in El; try lia; [done|].
  cbn [app pair_up]. by rewrite IH by lia.
Qed.

Lemma pairs_ok_app n r bs1 bs2 : length bs1 = (2 * n)%nat -> pairs_ok r (bs1 ++ bs2) <-> pairs_ok r bs1 /\ pairs_ok r bs2.
Proof.
  revert bs1. induction n as [|n IH]; intros [|a [|b bs1]] El; cbn [length] in El; try lia; [cbn; tauto|].
  cbn [app pairs_ok]. rewrite IH by lia. tauto.
Qed.

Lemma pair_up_props n bs : length bs = (2 * n)%nat -> length (pair_up bs) = n /\ mjoin (pair_up bs) = mjoin bs.
Proof.
  revert bs. induction n as [|n IH]; intros [|a [|b bs]] El; cbn [length] in El; try lia; [done|].
  destruct (IH bs ltac:(lia)) as [E1 E2]. cbn [pair_up length]. split; [lia|].
  change (mjoin ((a ++ b) :: pair_up bs)) with ((a ++ b) ++ mjoin (pair_up bs)).
  change (mjoin (a :: b :: bs)) with (a ++ b ++ mjoin bs). by rewrite E2, app_assoc.
Qed.

Lemma tree_level n r bs : length bs = (2 ^ S n)%nat -> tree (S n) r bs <-> pairs_ok r bs /\ tree n (S r) (pair_up bs).
Proof.
  revert bs. induction n as [|n IH]; intros bs El.
  - destruct bs as [|a [|b [|]]]; cbn [length Nat.pow] in El; try (cbn in El; lia). cbn. rewrite Nat.add_0_r, !app_nil_r. tauto.
  - assert (length (take (2 ^ S n) bs) = (2 ^ S n)%nat) as E1 by (rewrite length_take; cbn [Nat.pow] in *; lia).
    assert (length (drop (2 ^ S n) bs) = (2 ^ S n)%nat) as E2 by (rewrite length_drop; cbn [Nat.pow] in *; lia).
    change (tree (S (S n)) r bs) with (tree (S n) r (take (2 ^ S n) bs) /\ tree (S n) r (drop (2 ^ S n) bs) /\
      siblings_ok (r + S n) (mjoin (take (2 ^ S n) bs)) (mjoin (drop (2 ^ S n) bs))).
    set (b1 := take (2 ^ S n) bs) in *. set (b2 := drop (2 ^ S n) bs) in *.
    assert (bs = b1 ++ b2) as Eb by (unfold b1, b2; by rewrite take_drop). rewrite Eb at 1 2. clearbody b1 b2. clear Eb bs El.
    cbn [Nat.pow] in E1, E2.
    assert (length b1 = (2 * 2 ^ n)%nat) as E1' by lia. assert (length b2 = (2 * 2 ^ n)%nat) as E2' by lia.
    rewrite (IH b1), (IH b2) by (cbn [Nat.pow]; lia).
    rewrite (pairs_ok_app (2 ^ n)), (pair_up_app (2 ^ n)) by done.
    destruct (pair_up_props _ _ E1') as [L1 J1], (pair_up_props _ _ E2') as [L2 J2].
    cbn [tree]. rewrite take_app_length', drop_app_length', J1, J2 by done.
    replace (S r + n)%nat with (r + S n)%nat by lia. tauto.
Qed.

Lemma join_singles (l : list Z) : mjoin (map (fun i => [i]) l) = l.
Proof. induction l as [|x l IH]; [done|exact (f_equal (cons x) IH)]. Qed.

(** The leaves one by one *)
Lemma tree_wagner n l : length l = (2 ^ n)%nat -> tree n 0 (map (fun i => [i]) l) <-> wagner n l /\ NoDup l.
Proof.
  revert l. induction n as [|n IH]; intros l El.
  - destruct l as [|x [|]]; cbn in El; try lia. cbn. split; [|done]. intros _. split; [done|]. apply NoDup_singleton.
  - cbn [tree wagner]. rewrite firstn_map, skipn_map, !join_singles. unfold siblings_ok. rewrite take_drop.
    assert (length (take (2 ^ n) l) = (2 ^ n)%nat) as E1 by (rewrite length_take; cbn [Nat.pow] in *; lia).
    assert (length (drop (2 ^ n) l) = (2 ^ n)%nat) as E2 by (rewrite length_drop; cbn [Nat.pow] in *; lia).
    assert (NoDup l <-> NoDup (take (2 ^ n) l) /\ (forall x, x ∈ take (2 ^ n) l -> x ∉ drop (2 ^ n) l) /\
      NoDup (drop (2 ^ n) l)) as -> by (rewrite <- (take_drop (2 ^ n) l) at 1; apply NoDup_app).
    rewrite !IH by done. cbn [Nat.add]. unfold not. tauto.
Qed.

Lemma forallb_zero w gs : Forall (is_u (8 * Z.of_nat w)) gs ->
  forallb (fun c => c =? 0) (mjoin (map (be_encode w) gs)) = true <-> Forall (fun g => g = 0) gs.
Proof.
  induction 1 as [|g gs Hg _ IH]; [done|].
  change (mjoin (map (be_encode w) (g :: gs))) with (be_encode w g ++ mjoin (map (be_encode w) gs)).
  rewrite forallb_app, andb_true_iff, IH, Forall_cons. apply and_iff_compat_r. split.
  - intros Hz. rewrite <- (be_decode_encode w g) by (unfold is_u in Hg; change 256 with (2 ^ 8); by rewrite <- Z.pow_mul_r by lia).
    rewrite be_decode_value. clear -Hz. induction (be_encode w g) as [|x l IH]; [done|]. cbn [forallb number] in *.
    apply andb_true_iff in Hz as [->%Z.eqb_eq Hz]. rewrite IH by done. lia.
  - intros ->. rewrite be_encode_bytes. apply forallb_forall. intros x Hx%in_map_iff. destruct Hx as (y & <- & Hy%in_seq).
    by rewrite Z.div_0_l by (apply Z.pow_nonzero; lia).
Qed.

Lemma pair_up_nodes r n bs : length bs = (2 * n)%nat -> Forall (eh_node r) bs -> Forall (eh_node (S r)) (pair_up bs).
Proof.
  revert bs. induction n as [|n IH]; intros [|a [|b bs]] El Hbs; cbn [length] in El; try lia; [done|].
  inversion Hbs as [|? ? Ha Hbs']; subst. inversion Hbs' as [|? ? Hb Hbs'']; subst. cbn [pair_up].
  constructor; [by apply node_app|]. apply IH; [lia|done].
Qed.

Lemma root_zero_spec l : eh_node K l -> exists b, eh_row_is_zero (row_of K l) cbyte = Ok b /\
  (b = true <-> xor_digits l !!! K = 0).
Proof.
  intros Hn. destruct (row_slices K l Hn ltac:(lia)) as (S0 & _). unfold eh_row_is_zero. rewrite S0. eexists. split; [reflexivity|].
  pose proof (xor_digit_range l K ltac:(apply Hn) ltac:(lia)) as Hd. pose proof (ok_bits p Hp).
  pose proof (forallb_zero cbyte [xor_digits l !!! K]) as Hz.
  change (mjoin (map (be_encode cbyte) [xor_digits l !!! K])) with (be_encode cbyte (xor_digits l !!! K) ++ []) in Hz.
  rewrite app_nil_r, Forall_singleton in Hz. rewrite Hz; [by rewrite Forall_singleton|].
  destruct Hd as [Hd0 Hd1]. split; [done|]. eapply Z.lt_le_trans; [exact Hd1|]. apply Z.pow_le_mono_r; [lia|].
  unfold cbyte, cbl. rewrite (ok_cbyte p Hp).
  pose proof (Nat.div_mod (collision_bit_length p + 7) 8 ltac:(lia)).
  pose proof (Nat.mod_upper_bound (collision_bit_length p + 7) 8 ltac:(lia)). lia.
Qed.

Lemma verify_levels_spec `{AllocatorTotal} n r bs : (r + n = K)%nat -> length bs = (2 ^ n)%nat -> Forall (eh_node r) bs ->
  let res := verify_levels p n ((K + 1 - r) * cbyte) (4 * 2 ^ r) (map (row_of r) bs) in
  res <> Err EH_UNDEFINED /\ (res = Ok true <-> tree n r bs /\ xor_digits (mjoin bs) !!! K = 0).
Proof.
  cbv zeta. revert r bs. induction n as [|n IH]; intros r bs Er El Hbs; cbn [verify_levels].
  - destruct bs as [|l [|]]; cbn [length Nat.pow] in El; try (cbn in El; lia). cbn [map length Nat.ltb Nat.leb].
    replace r with K in * by lia. inversion Hbs as [|? ? Hl _]; subst.
    replace ((K + 1 - K) * cbyte)%nat with cbyte by lia. destruct (root_zero_spec l Hl) as (b & -> & Hb).
    change (mjoin [l]) with (l ++ []). rewrite app_nil_r. cbn [tree]. split; [done|].
    destruct b; [|rewrite <- Hb; naive_solver]. naive_solver.
  - rewrite length_map, (proj2 (Nat.ltb_lt _ _)) by (rewrite El; cbn [Nat.pow]; pose proof (Nat.pow_nonzero 2 n); lia).
    rewrite alloc_total. cbn [ensure mbind result_bind].
    assert (length bs = (2 * 2 ^ n)%nat) as El' by (rewrite El; cbn [Nat.pow]; lia).
    rewrite (tree_level n r bs El). destruct (pair_up_props _ _ El') as [Lp Jp].
    destruct (merge_level_spec (2 ^ n) r bs El' Hbs ltac:(lia)) as [[-> Hok]|[-> Hno]]; [|split; [done|naive_solver]].
    cbn [mbind result_bind]. change (collision_byte_length p) with cbyte.
    replace ((K + 1 - r) * cbyte - cbyte)%nat with ((K + 1 - S r) * cbyte)%nat by nia.
    replace (4 * 2 ^ r * 2)%nat with (4 * 2 ^ S r)%nat by (cbn [Nat.pow]; lia).
    destruct (IH (S r) (pair_up bs) ltac:(lia) Lp (pair_up_nodes r _ bs El' Hbs)) as [Hu Hiff].
    rewrite Jp in Hiff. split; [done|]. rewrite Hiff. tauto.
Qed.

(** *** The verifier *)

Section Verify.
Context `{AllocatorTotal} (cpu : cpu_features) (base : blake2b_ctx).
Context (Hbase : plain_ctx base) (Hout : b_outlen base = Z.of_nat (hash_output p)).
Context (Hgen : forall g, is_u 32 g -> generate_hash base g (Z.of_nat (hash_output p)) = Ok (Hash g)).

Lemma generate_hashes_spec fuel gs : (length gs < fuel)%nat ->
  generate_hashes cpu base (Z.of_nat (hash_output p)) fuel gs =
  map (fun g => generate_hash base g (Z.of_nat (hash_output p))) gs.
Proof.
  pose proof (ok_digest p Hp) as Hd. revert gs. induction fuel as [|fuel IH]; intros gs Hf; [lia|]. cbn [generate_hashes].
  assert (forall k, (0 < k <= length gs)%nat ->
    equihash_generate_hash_batch cpu base (take k gs) (Z.of_nat (hash_output p)) ++
    generate_hashes cpu base (Z.of_nat (hash_output p)) fuel (drop k gs) =
    map (fun g => generate_hash base g (Z.of_nat (hash_output p))) gs) as Hk.
  { intros k Hk. rewrite batch_hash_eq by (done || unfold BLAKE2B_OUTBYTES; lia).
    rewrite IH by (rewrite length_drop; lia). by rewrite <- map_app, take_drop. }
  destruct (Nat.leb_spec 8 (length gs)); [apply Hk; lia|]. destruct (Nat.leb_spec 4 (length gs)); [apply Hk; lia|done].
Qed.

Lemma leaf_rows_spec indices : Forall (is_u 32) indices ->
  leaf_rows p indices (map (fun g => generate_hash base g (Z.of_nat (hash_output p)))
    (map (fun i => i / Z.of_nat (indices_per_hash_output p)) indices)) = Ok (map (fun i => row_of 0 [i]) indices).
Proof.
  pose proof (ok_iph p Hp) as Hi. induction 1 as [|i l Hl _ IH]; [done|]. cbn [map leaf_rows].
  assert (is_u 32 (i / Z.of_nat (indices_per_hash_output p))) as Hu.
  { destruct Hl. split; [apply Z.div_pos; lia|]. eapply Z.le_lt_trans; [apply Z.div_le_upper_bound|]; [| |eassumption]; nia. }
  rewrite Hgen, leaf_row_spec by done. cbn [mbind result_bind]. by rewrite IH.
Qed.

(** The indices a solution encodes *)
Definition solution_indices (soln : bytes) : list Z :=
  let b := Z.of_nat (collision_bit_length p + 1) in
  digits b (2 ^ eh_K p) (b * Z.of_nat (2 ^ eh_K p)) (number 8 soln).

Lemma is_valid_solution_spec soln : bytes_ok soln -> exists valid,
  equihash_is_valid_solution cpu p base soln = Some valid /\
  (valid = true <-> length soln = solution_width p /\ equihash_solution (solution_indices soln)).
Proof.
  intros Hs. unfold equihash_is_valid_solution, verify_solution. pose proof (ok_bits p Hp) as Hbits.
  destruct (Nat.eqb_spec (length soln) (solution_width p)) as [El|Hne]; cbn [ensure mbind result_bind].
  2: { exists false. split; [done|]. split; [done|]. by intros [? _]. }
  rewrite alloc_total. cbn [ensure mbind result_bind].
  destruct (indices_from_minimal_spec (collision_bit_length p) (2 ^ eh_K p) (solution_width p) ltac:(lia) ltac:(lia)
    (ok_solution p Hp) soln Hs El) as (-> & _ & Hd). cbv zeta in Hd. fold (solution_indices soln) in *.
  cbn [defined mbind result_bind]. assert (length (solution_indices soln) = (2 ^ eh_K p)%nat) as Ei by apply digits_length.
  rewrite Ei, Nat.eqb_refl, !alloc_total. cbn [ensure mbind result_bind].
  assert (Forall (is_u 32) (solution_indices soln)) as H32.
  { eapply Forall_impl; [exact Hd|]. unfold is_u. intros x [? Hx]. split; [done|]. eapply Z.lt_le_trans; [exact Hx|].
    apply Z.pow_le_mono_r; lia. }
  rewrite generate_hashes_spec by (rewrite length_map; lia). rewrite leaf_rows_spec by done. cbn [mbind result_bind].
  destruct (verify_levels_spec (eh_K p) 0 (map (fun i => [i]) (solution_indices soln))) as [Hu Hiff];
    [done|by rewrite length_map| |].
  { apply Forall_map. eapply Forall_impl; [exact H32|]. intros i Hi. split; [done|by apply Forall_singleton]. }
  rewrite map_map, Nat.sub_0_r in Hu, Hiff. unfold K, cbyte in Hu, Hiff. rewrite <- (ok_hash p Hp) in Hu, Hiff. cbn [Nat.pow Nat.mul] in Hu, Hiff.
  rewrite tree_wagner, join_singles in Hiff by done. fold K in Hiff.
  change (1 + (1 + (1 + (1 + 0))))%nat with 4%nat in Hu, Hiff. unfold equihash_solution. rewrite Ei.
  destruct (verify_levels _ _ _ _ _) as [valid|[]]; [exists valid|exists false|done].
  - split; [done|]. split; [intros ->; split; [done|]; tauto|].
    intros (_ & _ & ? & ? & ?). assert (Ok valid = Ok true) as [= ->] by (apply Hiff; tauto). done.
  - split; [done|]. split; [done|]. intros (_ & _ & ? & ? & ?).
    assert (Err EH_REJECT = Ok true) by (apply Hiff; tauto). done.
Qed.

End Verify.

End Problem.

(** ** The hash of a header and an index *)

(** The chaining value of the personalised hash *)
Definition personal_state (p : equihash_params) : list Z :=
  b_h (blake2b_init_param {| digest_length := u8 (Z.of_nat (hash_output p)); key_length := 0; fanout := 1; depth := 1;
    salt := replicate 16 0; personal := equihash_personal p |}).

(** The hash of the [g]-th block of indices for the input [m], as RFC 7693 defines it *)
Definition input_hash (p : equihash_params) (m : bytes) (g : Z) : bytes :=
  blake2b_ref (personal_state p) (Z.of_nat (hash_output p)) (m ++ le_encode 4 g).

Lemma input_hash_ok p m g : eh_ok p -> length (input_hash p m g) = hash_output p /\ bytes_ok (input_hash p m g).
Proof.
  intros Hp. pose proof (ok_digest p Hp). unfold input_hash.
  destruct (blake2b_ref_ok (personal_state p) (Z.of_nat (hash_output p)) (m ++ le_encode 4 g)) as [El Hb];
    [unfold BLAKE2B_OUTBYTES; lia|]. split; [|done]. unfold zlen in El. lia.
Qed.

Lemma initialise_state_absorbed p : eh_ok p -> exists c, equihash_initialise_state p = Ok c /\
  absorbed (personal_state p) (Z.of_nat (hash_output p)) [] c.
Proof.
  intros Hp. pose proof (ok_digest p Hp). unfold equihash_initialise_state, blake2b_init_salt_personal. cbn [zlen length Z.of_nat Z.eqb].
  eexists. split; [reflexivity|]. unfold personal_state. cbn [default].
  assert (u8 (Z.of_nat (hash_output p)) = Z.of_nat (hash_output p)) as Eu by (apply u8_small; lia).
  rewrite Eu. apply init_absorbed.
Qed.

Lemma absorb_count f h t m h' t' rest : 0 <= t -> absorb f h t m = (h', t', rest) -> 0 <= t' <= t + zlen m.
Proof.
  revert h t m. induction f as [|f IH]; intros h t m Ht; cbn [absorb]; [intros [= <- <- <-]; unfold zlen; lia|].
  destruct (Nat.ltb_spec BLAKE2B_BLOCKBYTES (length m)); [|intros [= <- <- <-]; unfold zlen; lia].
  intros E. apply IH in E; [|lia]. unfold zlen in *. rewrite length_drop in E. unfold BLAKE2B_BLOCKBYTES in *. lia.
Qed.

Lemma absorbed_plain h0 outlen m c : absorbed h0 outlen m c -> zlen m < 2 ^ 63 -> plain_ctx c.
Proof.
  intros [(t & Ea & Ht & E0 & E1 & F0 & F1) Hb Hl Ho] Hm. apply absorb_count in Ea; [|lia].
  unfold plain_ctx. rewrite E0, E1, Z.mod_small, Z.div_small by lia. split_and!; try done; lia.
Qed.

Lemma generate_absorbed p m c g : eh_ok p -> absorbed (personal_state p) (Z.of_nat (hash_output p)) m c ->
  generate_hash c g (Z.of_nat (hash_output p)) = Ok (input_hash p m g).
Proof.
  intros Hp Hc. pose proof (ok_digest p Hp).
  apply final_absorbed; [by apply update_absorbed|unfold BLAKE2B_OUTBYTES; lia|lia].
Qed.

(** The verifier on a state that has absorbed the input [m] *)
Lemma verify_absorbed `{AllocatorTotal} cpu p m c soln : eh_ok p -> absorbed (personal_state p) (Z.of_nat (hash_output p)) m c ->
  zlen m < 2 ^ 63 -> bytes_ok soln -> exists valid,
  equihash_is_valid_solution cpu p c soln = Some valid /\
  (valid = true <-> length soln = solution_width p /\ equihash_solution p (input_hash p m) (solution_indices p soln)).
Proof.
  intros Hp Hc Hm Hs. pose proof (ok_digest p Hp).
  apply (is_valid_solution_spec p Hp (input_hash p m)); try done.
  - intros g. by apply input_hash_ok.
  - intros g. by apply input_hash_ok.
  - by eapply absorbed_plain.
  - apply Hc.
  - intros g _. by apply generate_absorbed.
Qed.

(** ** Headers *)

(** The header up to its solution *)
Definition header_input (h : block_header) : bytes :=
  le_encode 4 (nVersion h) ++ hashPrevBlock h ++ hashMerkleRoot h ++ hashFinalSaplingRoot h ++
  le_encode 4 (nTime h) ++ le_encode 4 (nBits h) ++ nNonce h.

Lemma le32_bytes v : le32_into v = le_encode 4 v.
Proof.
  unfold le32_into. cbn [le_encode]. unfold uwrap. rewrite !land_ff, !Z.shiftr_shiftr by lia. done.
Qed.

Lemma le32_wrapped v : le32_into (u32 v) = le_encode 4 v.
Proof. rewrite le32_bytes. apply (le_encode_mod 4). Qed.

Lemma header_input_length h : header_ok h -> zlen (header_input h) = 140.
Proof.
  intros (_ & Hp1 & Hp2 & Hp3 & _ & _ & Hp4 & _). unfold header_input.
  rewrite !zlen_app, !zlen_le_encode, (fixed_zlen _ _ Hp1), (fixed_zlen _ _ Hp2), (fixed_zlen _ _ Hp3), (fixed_zlen _ _ Hp4). lia.
Qed.

Lemma equihash_input_spec h : header_ok h -> block_header_equihash_input h = Some (header_input h).
Proof.
  intros Hh. unfold block_header_equihash_input, write_i32_le_buf. change write_u32_le_buf with le32_into.
  rewrite le32_wrapped, !le32_bytes. change ((if zlen (header_input h) =? BLOCK_HEADER_SIZE then Some (header_input h) else None) =
    Some (header_input h)). by rewrite header_input_length.
Qed.

Lemma header_state_absorbed p h : eh_ok p -> exists c, header_state p h = Ok c /\
  absorbed (personal_state p) (Z.of_nat (hash_output p)) (header_input h) c.
Proof.
  intros Hp. destruct (initialise_state_absorbed p Hp) as (c & E & Hc). unfold header_state. rewrite E. cbn [mbind result_bind].
  eexists. split; [reflexivity|]. apply (updates_absorbed _ _ [] [le32_into (u32 (nVersion h)); hashPrevBlock h; hashMerkleRoot h;
    hashFinalSaplingRoot h; le32_into (nTime h); le32_into (nBits h); nNonce h]) in Hc.
  rewrite le32_wrapped, !le32_bytes in *. cbn [mjoin list_join app] in Hc. rewrite app_nil_r in Hc. exact Hc.
Qed.

(** The solution of a header solves the problem that the header poses. *)
Definition header_solved (p : equihash_params) (h : block_header) : Prop :=
  equihash_solution p (input_hash p (header_input h)) (solution_indices p (nSolution h)).

Lemma callers_spec `{AllocatorTotal} cpu h : header_ok h ->
  match equihash_solution_params (zlen (nSolution h)) with
  | None => domain_consensus_verify_equihash_solution cpu h = Err EQUIHASH_BAD_SOL_SIZE /\
            registry_equihash_200_9_verify cpu (header_input h) (nSolution h) = Some false
  | Some (n, k) => exists valid,
      domain_consensus_verify_equihash_solution cpu h = Ok valid /\
      registry_equihash_200_9_verify cpu (header_input h) (nSolution h) = Some valid /\
      (valid = true <-> header_solved (equihash_params_init n k) h)
  end.
Proof.
  intros Hh. pose proof (header_input_length h Hh) as Elen. pose proof Hh as (_ & _ & _ & _ & _ & _ & _ & _ & Hs).
  unfold domain_consensus_verify_equihash_solution, registry_equihash_200_9_verify. rewrite Elen. cbn [Z.eqb orb].
  destruct (equihash_solution_params (zlen (nSolution h))) as [[n k]|] eqn:Ep; [|split; [done|by destruct (_ =? 0)]].
  destruct (supported_ok _ _ _ Ep) as [Hok Ewid].
  destruct (Z.eqb_spec (zlen (nSolution h)) 0) as [E0|_]; [by rewrite E0 in Ep|].
  destruct (header_state_absorbed _ h Hok) as (c1 & -> & Hc1).
  destruct (initialise_state_absorbed _ Hok) as (c2 & -> & Hc2). apply (update_absorbed _ _ _ (header_input h)) in Hc2.
  destruct (verify_absorbed cpu _ _ _ (nSolution h) Hok Hc1 ltac:(lia) Hs) as (v1 & -> & Hv1).
  destruct (verify_absorbed cpu _ _ _ (nSolution h) Hok Hc2 ltac:(cbn [app]; lia) Hs) as (v2 & -> & Hv2).
  assert (length (nSolution h) = solution_width (equihash_params_init n k)) as Ew by (unfold zlen in Ewid; lia).
  exists v1. cbn [app] in Hv2. fold (header_solved (equihash_params_init n k) h) in Hv1, Hv2.
  split; [reflexivity|]. split; [f_equal; apply eq_true_iff_eq; tauto|].
  rewrite Hv1. split; [intros [_ Hx]; exact Hx|intros Hx; split; [exact Ew|exact Hx]].
Qed.

Section Theorems.
Context `{AllocatorTotal}.

(** C6: The Equihash verifier is exact, and defined on every input.  A header of one of the four
    solution sizes is accepted exactly when the indices it encodes are a solution: 2^K distinct
    indices whose subtrees are in order and collide, level by level, on the digits of their
    BLAKE2b hashes, and whose hashes together cancel; no memory outside the rows is read or
    written and no assertion fails.  The check of the domain layer, which feeds the header
    field by field, and that of the registry, which feeds it at once, agree, on every processor. *)
Theorem equihash_verify_exact cpu h : header_ok h ->
  match equihash_solution_params (zlen (nSolution h)) with
  | None => domain_consensus_verify_equihash_solution cpu h = Err EQUIHASH_BAD_SOL_SIZE /\
            registry_equihash_200_9_verify cpu (header_input h) (nSolution h) = Some false
  | Some (n, k) => exists valid,
      domain_consensus_verify_equihash_solution cpu h = Ok valid /\
      registry_equihash_200_9_verify cpu (header_input h) (nSolution h) = Some valid /\
      (valid = true <-> header_solved (equihash_params_init n k) h)
  end.
Proof. apply callers_spec. Qed.

End Theorems.

(** A header with a solution for (N, K) = (48, 5) *)
Definition solved_header : block_header := {|
  nVersion := 4; hashPrevBlock := replicate 32 1; hashMerkleRoot := replicate 32 2; hashFinalSaplingRoot := replicate 32 3;
  nTime := 1600000000; nBits := 0x200f0f0f; nNonce := 1 :: replicate 31 0;
  nSolution := [0; 195; 23; 178; 37; 87; 57; 151; 47; 41; 62; 97; 58; 51; 66; 251; 175; 245; 5; 25; 79; 17; 16; 183;
    220; 232; 145; 39; 127; 218; 145; 211; 95; 53; 65; 77] |}.

Lemma solved_header_ok : header_ok solved_header.
Proof. unfold header_ok. split_and!; compute_decide. Qed.

Definition all_features : cpu_features := {| has_avx512f := true; has_avx2 := true |}.

Lemma solved_header_accepted :
  @registry_equihash_200_9_verify (fun _ => true) all_features (header_input solved_header) (nSolution solved_header) = Some true.
Proof. vm_compute. reflexivity. Qed.

Lemma equihash_verify_exact_witness : header_solved (equihash_params_init 48 5) solved_header.
Proof.
  pose proof (@equihash_verify_exact (fun _ => true) (fun _ => eq_refl) all_features solved_header solved_header_ok) as Hx.
  change (equihash_solution_params (zlen (nSolution solved_header))) with (Some (48, 5)%nat) in Hx. cbv iota beta in Hx.
  destruct Hx as (valid & _ & Er & Hiff). rewrite solved_header_accepted in Er. injection Er as <-. by apply Hiff.
Defined.
