(* ===== verification/EquihashSolve.v ===== *)
(** The Equihash solver of lib/crypto/src/equihash.c ([equihash_basic_solve]).

    The sort of the C library is a parameter: all that is used of it is that it permutes the
    rows.  A solution the solver returns is one: it has the length of a solution and the verifier
    accepts it ([basic_solve_sound]). *)

From S2P Require Import Prelude Serialize Transaction Blake2b EhArray Equihash.

(** [SOLVE_FAILED]: the function returns false. *)
Inductive solve_stop := SOLVE_FOUND (soln : bytes) | SOLVE_FAILED | SOLVE_UNDEFINED.

Definition rows_op {A} (m : result eh_stop A) : result solve_stop A :=
  match m with
  | Ok a => Ok a
  | Err EH_REJECT => Err SOLVE_FAILED
  | Err EH_UNDEFINED => Err SOLVE_UNDEFINED
  end.

(** The indices that follow the hash in a row *)
Definition row_indices (row : eh_row) (hash_len n : nat) : result eh_stop (list Z) :=
  x ← slice hash_len (4 * n) row; mret (map (fun t => eh_array_to_index (drop (4 * t) x)) (seq 0 n)).

Section Solver.
Context `{Allocator} (qsort_rows : nat -> list eh_row -> list eh_row).
Context (p : equihash_params) (room : nat).

(** The leaf rows; [tmp] is the last hash that was computed. *)
Fixpoint solve_leaves (base : blake2b_ctx) (n g : nat) (tmp : result blake2b_err bytes)
    : result solve_stop (list eh_row) :=
  match n with
  | O => mret []
  | S n' =>
      let iph := indices_per_hash_output p in
      let tmp := if Nat.eqb (g mod iph) 0 then generate_hash base (Z.of_nat (g / iph)) (Z.of_nat (hash_output p)) else tmp in
      row ← rows_op (leaf_row p (Z.of_nat g) tmp);
      rows ← solve_leaves base n' (S g) tmp;
      mret (row :: rows)
  end.

(** The last round: a pair whose whole hashes are equal is a solution. *)
Definition final_pair (hash_len len_indices : nat) (_ : unit) (a b : eh_row) : result solve_stop unit :=
  equal ← rows_op (eh_row_has_collision a b hash_len);
  if negb equal then mret tt
  else
    distinct ← rows_op (eh_row_distinct_indices a b hash_len len_indices);
    if negb distinct then mret tt
    else
      let num_idx := (2 ^ eh_K p)%nat in
      ensure (alloc_succeeds (Z.of_nat (num_idx * 4))) SOLVE_FAILED;;
      swapped ← rows_op (eh_row_indices_before b a hash_len len_indices);
      let '(a, b) := if swapped : bool then (b, a) else (a, b) in
      ia ← rows_op (row_indices a hash_len (num_idx / 2));
      ib ← rows_op (row_indices b hash_len (num_idx / 2));
      got ← rows_op (defined (eh_get_minimal_from_indices (ia ++ ib) (collision_bit_length p) room));
      if Nat.eqb (length got) (solution_width p) then Err (SOLVE_FOUND got) else mret tt.

(** An earlier round: pairs of disjoint index lists are merged; the array is grown when it is
    full.  The state is the capacity and the rows, last first. *)
Definition merge_pair (hash_len len_indices : nat) (st : nat * list eh_row) (a b : eh_row)
    : result solve_stop (nat * list eh_row) :=
  let '(cap, out) := st in
  distinct ← rows_op (eh_row_distinct_indices a b hash_len len_indices);
  if negb distinct then mret st
  else
    cap ← (if Nat.leb cap (length out) then
             ensure (alloc_succeeds (Z.of_nat (cap * 2 * 8))) SOLVE_FAILED;; mret (cap * 2)%nat
           else mret cap);
    row ← rows_op (eh_row_xor_merge a b hash_len len_indices (collision_byte_length p) (final_full_width p));
    mret (cap, row :: out).

Section Pairs.
Context {S : Type} (f : S -> eh_row -> eh_row -> result solve_stop S).

Fixpoint pairs_with (st : S) (a : eh_row) (rest : list eh_row) : result solve_stop S :=
  match rest with
  | [] => mret st
  | b :: rest' => st ← f st a b; pairs_with st a rest'
  end.

(** All pairs of a run *)
Fixpoint run_pairs (st : S) (run : list eh_row) : result solve_stop S :=
  match run with
  | [] => mret st
  | a :: rest => st ← pairs_with st a rest; run_pairs st rest
  end.

(** The rows that collide with [a], and the others *)
Fixpoint split_run (a : eh_row) (rows : list eh_row) : result solve_stop (list eh_row * list eh_row) :=
  match rows with
  | [] => mret ([], [])
  | b :: rest =>
      c ← rows_op (eh_row_has_collision a b (collision_byte_length p));
      if negb c then mret ([], rows)
      else '(run, rest) ← split_run a rest; mret (b :: run, rest)
  end.

(** Every iteration takes at least one row. *)
Fixpoint all_runs (fuel : nat) (st : S) (rows : list eh_row) : result solve_stop S :=
  match fuel, rows with
  | Datatypes.S fuel', a :: ((_ :: _) as rest) =>
      '(run, rest) ← split_run a rest;
      st ← run_pairs st (a :: run);
      all_runs fuel' st rest
  | _, _ => mret st
  end.

End Pairs.

(** The rounds from [round] on; there are [K] of them. *)
Fixpoint solve_rounds (fuel round hash_len len_indices : nat) (rows : list eh_row) : result solve_stop unit :=
  match fuel with
  | O => Err SOLVE_FAILED
  | S fuel' =>
      let rows := qsort_rows hash_len rows in
      let cap := Nat.max (length rows) 1 in
      ensure (alloc_succeeds (Z.of_nat (cap * 8))) SOLVE_FAILED;;
      if Nat.eqb round (eh_K p) then
        all_runs (final_pair hash_len len_indices) (length rows) tt rows;; Err SOLVE_FAILED
      else
        '(_, out) ← all_runs (merge_pair hash_len len_indices) (length rows) (cap, []) rows;
        if Nat.eqb (length out) 0 then Err SOLVE_FAILED
        else solve_rounds fuel' (S round) (hash_len - collision_byte_length p) (len_indices * 2) (rev out)
  end.

Definition solve (base : blake2b_ctx) : result solve_stop unit :=
  ensure (Nat.leb (solution_width p) room) SOLVE_FAILED;;
  let init_size := (2 ^ (collision_bit_length p + 1))%nat in
  ensure (alloc_succeeds (Z.of_nat init_size * 8)) SOLVE_FAILED;;
  ensure (alloc_succeeds (Z.of_nat (hash_output p))) SOLVE_FAILED;;
  rows ← solve_leaves base init_size 0 (Err BLAKE2B_FAILED);
  solve_rounds (eh_K p) 1 (hash_length p) 4 rows.

(** The solution, when there is one; the outer [None] is undefined behaviour. *)
Definition equihash_basic_solve (base : blake2b_ctx) : option (option bytes) :=
  match solve base with
  | Err (SOLVE_FOUND soln) => Some (Some soln)
  | Err SOLVE_UNDEFINED => None
  | _ => Some None
  end.

End Solver.

(** ** Soundness *)

(** A computation that ends in a good state, or stops with a good solution or without one *)
Definition safely {A} (P : A -> Prop) (Q : bytes -> Prop) (m : result solve_stop A) : Prop :=
  match m with
  | Ok a => P a
  | Err (SOLVE_FOUND soln) => Q soln
  | Err SOLVE_FAILED => True
  | Err SOLVE_UNDEFINED => False
  end.

Lemma safely_bind {A B} (P : A -> Prop) (P' : B -> Prop) Q (m : result solve_stop A) (k : A -> result solve_stop B) :
  safely P Q m -> (forall a, P a -> safely P' Q (k a)) -> safely P' Q (m ≫= k).
Proof. intros Hm Hk. destruct m as [a|[]]; cbn in *; auto. Qed.

Lemma safely_ensure {A} (P : A -> Prop) Q (c : bool) (k : result solve_stop A) :
  safely P Q k -> safely P Q (ensure c SOLVE_FAILED;; k).
Proof. intros Hk. by destruct c. Qed.

Section Sound.
Context `{AllocatorTotal} (qsort_rows : nat -> list eh_row -> list eh_row).
Context (Hsort : forall n rows, qsort_rows n rows ≡ₚ rows).
Context (p : equihash_params) (Hp : eh_ok p) (room : nat) (Hroom : (solution_width p <= room)%nat).
Context (Hash : Z -> bytes) (Hash_len : forall g, length (Hash g) = hash_output p) (Hash_ok : forall g, bytes_ok (Hash g)).

Let K : nat := eh_K p.
Let cbyte : nat := collision_byte_length p.

(** A partial solution of [r] rounds *)
Definition partial (r : nat) (l : list Z) : Prop :=
  length l = (2 ^ r)%nat /\ Forall (is_u (Z.of_nat (collision_bit_length p + 1))) l /\ NoDup l /\ wagner p Hash r l.

Definition key (r : nat) (l : list Z) : Z := xor_digits p Hash l !!! r.

Definition is_solution (soln : bytes) : Prop :=
  length soln = solution_width p /\ bytes_ok soln /\ equihash_solution p Hash (solution_indices p soln).

Lemma partial_node r l : partial r l -> eh_node r l.
Proof.
  intros (El & Hl & _). split; [done|]. eapply Forall_impl; [exact Hl|]. pose proof (ok_bits p Hp).
  unfold is_u. intros x [? Hx]. split; [done|]. eapply Z.lt_le_trans; [exact Hx|]. apply Z.pow_le_mono_r; lia.
Qed.

Lemma collides_spec r l1 l2 : partial r l1 -> partial r l2 -> (r < K)%nat ->
  rows_op (eh_row_has_collision (row_of p Hash r l1) (row_of p Hash r l2) cbyte) = Ok (bool_decide (key r l1 = key r l2)).
Proof.
  intros H1%partial_node H2%partial_node Hr. destruct (has_collision_spec p Hp Hash Hash_len Hash_ok r l1 l2 H1 H2 Hr) as (b & E & Hb).
  fold cbyte in E. rewrite E. cbn [rows_op]. f_equal. apply eq_true_iff_eq. rewrite bool_decide_eq_true, Hb. unfold key.
  apply (xor_digit_zero p Hp Hash Hash_len Hash_ok); [apply H1|apply H2|lia].
Qed.

(** Merging two colliding partial solutions with no common index *)
Lemma partial_merge r l1 l2 : partial r l1 -> partial r l2 -> (r < K)%nat -> key r l1 = key r l2 ->
  (forall i, i ∈ l1 -> i ∈ l2 -> False) ->
  partial (S r) (if number 32 l1 <? number 32 l2 then l1 ++ l2 else l2 ++ l1).
Proof.
  intros H1 H2 Hr Hk Hd. pose proof (partial_node _ _ H1) as N1. pose proof (partial_node _ _ H2) as N2.
  assert (forall a b, partial r a -> partial r b -> key r a = key r b -> (forall i, i ∈ a -> i ∈ b -> False) ->
    number 32 a < number 32 b -> partial (S r) (a ++ b)) as Hgen.
  { intros a b Ha Hb Hkab Hdab Hlt. pose proof (partial_node _ _ Ha) as Na. pose proof (partial_node _ _ Hb) as Nb.
    destruct (order_heads p r a b Na Nb Hr Hdab) as [Hord _]. destruct Ha as (Ea & Fa & Da & Wa), Hb as (Eb & Fb & Db & Wb).
    split_and!; [rewrite length_app, Ea, Eb; cbn; lia|by apply Forall_app|apply NoDup_app; split_and!; [done|by intros i Hi Hi'; apply (Hdab i)|done]|].
    cbn [wagner]. rewrite take_app_length', drop_app_length' by done. split_and!; [done|done| |by apply Hord].
    apply (xor_digit_zero p Hp Hash Hash_len Hash_ok); [apply Na|apply Nb|lia|done]. }
  destruct (order_heads p r l1 l2 N1 N2 Hr Hd) as [_ Hne].
  destruct (Z.ltb_spec (number 32 l1) (number 32 l2)) as [Hlt|Hge]; [by apply Hgen|].
  apply Hgen; [done|done|done|by intros i Hi1 Hi2; apply (Hd i)|lia].
Qed.

(** *** Runs *)

Section Runs.
Context {S : Type} (f : S -> eh_row -> eh_row -> result solve_stop S) (P : S -> Prop) (Q : bytes -> Prop).
Context (r : nat) (Hr : (r < K)%nat).
Context (Hf : forall st l1 l2, P st -> partial r l1 -> partial r l2 -> key r l1 = key r l2 ->
  safely P Q (f st (row_of p Hash r l1) (row_of p Hash r l2))).

Lemma pairs_with_safe st a ls : P st -> partial r a -> Forall (partial r) ls -> Forall (fun l => key r a = key r l) ls ->
  safely P Q (pairs_with f st (row_of p Hash r a) (map (row_of p Hash r) ls)).
Proof.
  intros Hst Ha Hls. revert st Hst. induction Hls as [|b ls Hb _ IH]; intros st Hst Hk; cbn [map pairs_with]; [done|].
  inversion Hk; subst. eapply safely_bind; [by apply Hf|]. intros st' Hst'. by apply IH.
Qed.

Lemma run_pairs_safe st ls k : P st -> Forall (partial r) ls -> Forall (fun l => key r l = k) ls ->
  safely P Q (run_pairs f st (map (row_of p Hash r) ls)).
Proof.
  intros Hst Hls. revert st Hst. induction Hls as [|a ls Ha Hls IH]; intros st Hst Hk; cbn [map run_pairs]; [done|].
  inversion Hk as [|? ? Hka Hks]; subst. eapply safely_bind; [apply pairs_with_safe; try done|intros st' Hst'; by apply IH].
  eapply Forall_impl; [exact Hks|]. by intros l ->.
Qed.

Lemma split_run_spec a ls : partial r a -> Forall (partial r) ls -> exists run rest,
  split_run p (row_of p Hash r a) (map (row_of p Hash r) ls) = Ok (map (row_of p Hash r) run, map (row_of p Hash r) rest) /\
  ls = run ++ rest /\ Forall (fun l => key r l = key r a) run.
Proof.
  intros Ha. induction 1 as [|b ls Hb _ IH]; cbn [map split_run]; [by exists [], []|].
  fold cbyte. rewrite collides_spec by done. cbn [mbind result_bind]. case_bool_decide as Hk; cbn [negb].
  - destruct IH as (run & rest & -> & -> & Hrun). cbn [mbind result_bind].
    exists (b :: run), rest. split_and!; [done|done|]. by constructor.
  - by exists [], (b :: ls).
Qed.

Lemma all_runs_safe fuel st ls : P st -> Forall (partial r) ls ->
  safely P Q (all_runs p f fuel st (map (row_of p Hash r) ls)).
Proof.
  revert st ls. induction fuel as [|fuel IH]; intros st ls Hst Hls; [done|].
  destruct Hls as [|a ls Ha Hls]; [done|]. destruct ls as [|b ls]; [done|].
  destruct (split_run_spec a (b :: ls) Ha Hls) as (run & rest & E & El & Hrun).
  cbn [map all_runs] in *. rewrite E. cbn [mbind result_bind]. rewrite El in Hls. apply Forall_app in Hls as [Hl1 Hl2].
  eapply safely_bind.
  - apply (run_pairs_safe st (a :: run) (key r a)); [done|by constructor|by constructor].
  - intros st' Hst'. by apply IH.
Qed.

End Runs.

(** *** Pairs *)

Definition good_rows (r : nat) (rows : list eh_row) : Prop :=
  exists ls, rows = map (row_of p Hash r) ls /\ Forall (partial r) ls.

Lemma merge_pair_safe r st l1 l2 Q : (S r < K)%nat -> good_rows (S r) (snd st) ->
  partial r l1 -> partial r l2 -> key r l1 = key r l2 ->
  safely (fun st => good_rows (S r) (snd st)) Q
    (merge_pair p ((K + 1 - r) * cbyte) (4 * 2 ^ r) st (row_of p Hash r l1) (row_of p Hash r l2)).
Proof.
  intros Hr Hst H1 H2 Hk. pose proof (partial_node _ _ H1) as N1. pose proof (partial_node _ _ H2) as N2.
  destruct st as [cap out]. unfold merge_pair.
  destruct (distinct_spec p Hp Hash Hash_len Hash_ok r l1 l2 N1 N2 ltac:(lia)) as (d & E & Hd). fold K cbyte in E. rewrite E.
  cbn [rows_op mbind result_bind]. destruct d; [|done]. cbn [negb].
  assert (forall c : nat, safely (fun st : nat * list eh_row => good_rows (S r) (snd st)) Q
    (row ← rows_op (eh_row_xor_merge (row_of p Hash r l1) (row_of p Hash r l2) ((K + 1 - r) * cbyte) (4 * 2 ^ r)
       (collision_byte_length p) (final_full_width p)); mret (c, row :: out))) as Hrow.
  { intros c. pose proof (xor_merge_spec p Hp Hash Hash_len Hash_ok r l1 l2 N1 N2 ltac:(unfold K in *; lia)) as Em.
    fold K cbyte in Em. fold cbyte. rewrite Em. cbn. destruct Hst as (ls & Eo & Hls). cbn in Eo.
    eexists (_ :: ls). split; [cbn; by rewrite Eo|]. constructor; [|done].
    apply partial_merge; try done; [lia|by apply Hd]. }
  destruct (Nat.leb cap (length out)); cbn [mbind result_bind]; [|apply Hrow].
  destruct (alloc_succeeds _); cbn [ensure mbind result_bind mret result_ret]; [apply Hrow|done].
Qed.

Lemma row_indices_spec r l : eh_node r l -> (r <= K)%nat ->
  row_indices (row_of p Hash r l) ((K + 1 - r) * cbyte) (2 ^ r) = Ok l.
Proof.
  intros Hn Hr. destruct (row_slices p Hp Hash Hash_len Hash_ok r l Hn Hr) as (_ & S1 & _). fold K cbyte in S1.
  unfold row_indices. rewrite S1. cbn [mbind result_bind mret result_ret]. f_equal. destruct Hn as [El Hl].
  apply list_eq. intros t. destruct (decide (t < 2 ^ r)%nat) as [Ht|Hge].
  - etransitivity; [apply (list_lookup_fmap _ (seq 0 (2 ^ r)) t)|]. rewrite lookup_seq_lt by done. cbn.
    destruct (lookup_lt_is_Some_2 l t ltac:(lia)) as [x Hx]. rewrite Hx. f_equal.
    unfold eh_array_to_index. change (be_decode (index_bytes (index_array l) t) = x).
    rewrite index_bytes_array, (list_lookup_total_correct _ _ _ Hx) by lia.
    apply be_decode_encode. exact (Forall_lookup_1 _ _ _ _ Hl Hx).
  - rewrite !lookup_ge_None_2; [done|lia|rewrite length_map, length_seq; lia].
Qed.

(** Equal hash parts of two digits *)
Lemma hash_parts_equal r l1 l2 : eh_node r l1 -> eh_node r l2 -> S r = K -> hash_part p Hash r l1 = hash_part p Hash r l2 ->
  key r l1 = key r l2 /\ key K l1 = key K l2.
Proof.
  intros N1 N2 Hr E. assert (forall l k, eh_node k l -> (k <= K)%nat -> hash_part p Hash k l =
    be_encode cbyte (key k l) ++ hash_part p Hash (S k) l) as Hstep by (intros l k Hn Hk; by apply hash_part_step).
  assert (forall l k, Forall (is_u 32) l -> (k <= K)%nat -> is_u (Z.of_nat (collision_bit_length p)) (key k l)) as Hrange
    by (intros l k Hl Hk; by apply xor_digit_range).
  rewrite (Hstep l1), (Hstep l2) in E by (done || lia).
  apply app_inj_1 in E as [E1 E2]; [|by rewrite !be_encode_length].
  assert (forall l, eh_node r l -> hash_part p Hash (S r) l = be_encode cbyte (key K l) ++ hash_part p Hash (S K) l) as Hlast.
  { intros l [_ Hl]. rewrite Hr. unfold hash_part. destruct (xor_digits_ok p Hp Hash Hash_len Hash_ok l Hl) as [El _].
    destruct (lookup_lt_is_Some_2 (xor_digits p Hash l) K) as [a Ha]; [fold K in El; lia|].
    rewrite (drop_S _ _ _ Ha). unfold key. by rewrite (list_lookup_total_correct _ _ _ Ha). }
  rewrite !Hlast in E2 by done. apply app_inj_1 in E2 as [E2 _]; [|by rewrite !be_encode_length].
  split; [apply (digit_bytes_inj p Hp) in E1|apply (digit_bytes_inj p Hp) in E2]; try done;
    apply Hrange; (apply N1 || apply N2 || lia).
Qed.

(** The encoding of a complete solution *)
Lemma found_solution l : partial K l -> xor_digits p Hash l !!! K = 0 ->
  eh_get_minimal_from_indices l (collision_bit_length p) room =
    Some (be_encode (solution_width p) (number (Z.of_nat (collision_bit_length p + 1)) l)) /\
  is_solution (be_encode (solution_width p) (number (Z.of_nat (collision_bit_length p + 1)) l)).
Proof.
  intros (El & Hl & Hd & Hw) H0K. pose proof (ok_bits p Hp). pose proof (ok_solution p Hp) as Es.
  split; [apply (minimal_from_indices_spec _ (2 ^ K)); try done; lia|].
  split_and!; [apply be_encode_length|apply be_encode_ok|].
  assert (solution_indices p (be_encode (solution_width p) (number (Z.of_nat (collision_bit_length p + 1)) l)) = l) as ->.
  { unfold solution_indices. rewrite <- be_decode_value, be_decode_encode.
    - fold K. rewrite <- El. apply digits_value; [lia|done].
    - apply (value_bytes_range _ (2 ^ K)); try done; lia. }
  by split_and!.
Qed.

Lemma final_pair_safe r l1 l2 : S r = K -> partial r l1 -> partial r l2 ->
  safely (fun _ => True) is_solution
    (final_pair p room ((K + 1 - r) * cbyte) (4 * 2 ^ r) tt (row_of p Hash r l1) (row_of p Hash r l2)).
Proof.
  intros Hr H1 H2. pose proof (partial_node _ _ H1) as N1. pose proof (partial_node _ _ H2) as N2. unfold final_pair.
  destruct (row_slices p Hp Hash Hash_len Hash_ok r l1 N1 ltac:(unfold K in *; lia)) as (_ & _ & _ & S1).
  destruct (row_slices p Hp Hash Hash_len Hash_ok r l2 N2 ltac:(unfold K in *; lia)) as (_ & _ & _ & S2).
  fold K cbyte in S1, S2. unfold eh_row_has_collision. rewrite S1, S2. cbn [mbind result_bind mret result_ret rows_op].
  case_bool_decide as Heq; [|done]. cbn [negb]. destruct (hash_parts_equal r l1 l2 N1 N2 Hr Heq) as [Hk HkK].
  destruct (distinct_spec p Hp Hash Hash_len Hash_ok r l1 l2 N1 N2 ltac:(unfold K in *; lia)) as (d & E & Hd).
  fold K cbyte in E. rewrite E. cbn [rows_op mbind result_bind]. destruct d; [|done]. cbn [negb].
  apply safely_ensure. pose proof (indices_before_spec p Hp Hash Hash_len Hash_ok r l2 l1 N2 N1 ltac:(unfold K in *; lia)) as Eb.
  fold K cbyte in Eb. rewrite Eb. cbn [rows_op mbind result_bind]. fold K.
  replace (2 ^ K / 2)%nat with (2 ^ r)%nat by (rewrite <- Hr; cbn [Nat.pow]; symmetry; rewrite Nat.mul_comm; apply Nat.div_mul; lia).
  pose proof (proj1 Hd eq_refl) as Hdis. pose proof (partial_merge r l1 l2 H1 H2 ltac:(lia) Hk Hdis) as Hm. rewrite Hr in Hm.
  assert (forall a b, partial K (a ++ b) -> key K a = key K b -> eh_node r a -> eh_node r b ->
    safely (fun _ => True) is_solution
      (ia ← rows_op (row_indices (row_of p Hash r a) ((K + 1 - r) * cbyte) (2 ^ r));
       ib ← rows_op (row_indices (row_of p Hash r b) ((K + 1 - r) * cbyte) (2 ^ r));
       got ← rows_op (defined (eh_get_minimal_from_indices (ia ++ ib) (collision_bit_length p) room));
       if Nat.eqb (length got) (solution_width p) then Err (SOLVE_FOUND got) else mret tt)) as Hfin.
  { intros a b Hab Hkab Na Nb. rewrite !row_indices_spec by (done || lia). cbn [rows_op mbind result_bind].
    destruct (found_solution (a ++ b) Hab) as [-> Hsol].
    { apply (xor_digit_zero p Hp Hash Hash_len Hash_ok); [apply Na|apply Nb|done|done]. }
    cbn [defined rows_op mbind result_bind]. destruct (Nat.eqb _ _); [exact Hsol|done]. }
  destruct (order_heads p r l1 l2 N1 N2 ltac:(unfold K in *; lia) Hdis) as [_ Hne].
  destruct (Z.ltb_spec (number 32 l1) (number 32 l2)), (Z.ltb_spec (number 32 l2) (number 32 l1)); try lia; apply Hfin; done.
Qed.

Lemma succ_div g n : (1 <= n)%nat -> (S g mod n <> 0)%nat -> (S g / n = g / n)%nat.
Proof.
  intros Hn Hnz. pose proof (Nat.div_mod_eq (S g) n). pose proof (Nat.div_mod_eq g n).
  pose proof (Nat.mod_upper_bound (S g) n ltac:(lia)). pose proof (Nat.mod_upper_bound g n ltac:(lia)). nia.
Qed.

(** *** Rounds *)

Lemma good_rows_perm r rows rows' : good_rows r rows -> rows' ≡ₚ rows -> good_rows r rows'.
Proof.
  intros (ls & -> & Hls) Hperm. apply Permutation_map_inv in Hperm as (ls' & -> & Hp').
  exists ls'. split; [done|]. by rewrite <- Hp'.
Qed.

Lemma solve_rounds_safe fuel r rows : good_rows r rows -> (r + fuel = K)%nat ->
  safely (fun _ => True) is_solution
    (solve_rounds qsort_rows p room fuel (S r) ((K + 1 - r) * cbyte) (4 * 2 ^ r) rows).
Proof.
  revert r rows. induction fuel as [|fuel IH]; intros r rows Hg Er; cbn [solve_rounds]; [done|].
  pose proof (good_rows_perm r rows _ Hg (Hsort ((K + 1 - r) * cbyte) rows)) as (ls & -> & Hls).
  apply safely_ensure. fold K. destruct (Nat.eqb_spec (S r) K) as [HrK|HrK].
  - eapply safely_bind; [|done]. apply (all_runs_safe _ (fun _ => True) is_solution r ltac:(lia)); [|done|done].
    intros [] l1 l2 _ H1 H2 _. by apply final_pair_safe.
  - eapply safely_bind.
    + apply (all_runs_safe _ (fun st => good_rows (S r) (snd st)) is_solution r ltac:(lia)); [|by exists []|done].
      intros st l1 l2 Hst H1 H2 Hk. apply merge_pair_safe; try done. lia.
    + intros [cap out] Hout. cbn [snd] in Hout. destruct (Nat.eqb (length out) 0); [done|]. fold cbyte.
      replace ((K + 1 - r) * cbyte - cbyte)%nat with ((K + 1 - S r) * cbyte)%nat by nia.
      replace (4 * 2 ^ r * 2)%nat with (4 * 2 ^ S r)%nat by (cbn [Nat.pow]; lia).
      apply IH; [|lia]. eapply good_rows_perm; [exact Hout|]. symmetry. apply Permutation_rev.
Qed.

Context (base : blake2b_ctx).
Context (Hgen : forall g, is_u 32 g -> generate_hash base g (Z.of_nat (hash_output p)) = Ok (Hash g)).

Lemma solve_leaves_safe n g tmp : Z.of_nat (g + n) <= 2 ^ Z.of_nat (collision_bit_length p + 1) ->
  ((g mod indices_per_hash_output p = 0)%nat \/ tmp = Ok (Hash (Z.of_nat (g / indices_per_hash_output p)))) ->
  safely (good_rows 0) is_solution (solve_leaves p base n g tmp).
Proof.
  pose proof (ok_bits p Hp) as Hbits. pose proof (ok_iph p Hp) as Hiph.
  assert (2 ^ Z.of_nat (collision_bit_length p + 1) <= 2 ^ 25) as H25 by (apply Z.pow_le_mono_r; lia).
  revert g tmp. induction n as [|n IH]; intros g tmp Hg Htmp; cbn [solve_leaves]; [by exists []|].
  set (iph := indices_per_hash_output p) in *. set (tmp' := if Nat.eqb _ 0 then _ else _).
  assert (tmp' = Ok (Hash (Z.of_nat (g / iph)))) as Etmp.
  { unfold tmp'. destruct (Nat.eqb_spec (g mod iph) 0); [|by destruct Htmp].
    apply Hgen. split; [lia|]. assert (g / iph <= g)%nat by (apply Nat.Div0.div_le_upper_bound; nia). lia. }
  rewrite Etmp, Nat2Z.inj_div. unfold iph.
  rewrite (leaf_row_spec p Hp Hash Hash_len Hash_ok (Z.of_nat g)) by (split; lia). cbn [rows_op mbind result_bind].
  eapply safely_bind.
  - apply IH; [lia|]. destruct (decide (S g mod iph = 0)%nat) as [|Hnz]; [by left|right].
    rewrite <- Nat2Z.inj_div, (succ_div g iph) by (unfold iph in *; lia). done.
  - intros rows (ls & -> & Hls). exists ([Z.of_nat g] :: ls). split; [done|]. constructor; [|done].
    split_and!; [done| |apply NoDup_singleton|done]. apply Forall_singleton. split; lia.
Qed.

Lemma solve_safe : safely (fun _ => True) is_solution (solve qsort_rows p room base).
Proof.
  unfold solve. do 3 apply safely_ensure. eapply safely_bind.
  - apply solve_leaves_safe; [|left; apply Nat.Div0.mod_0_l]. cbn [Nat.add]. rewrite Nat2Z.inj_pow. lia.
  - intros rows Hrows. pose proof (solve_rounds_safe K 0 rows Hrows ltac:(lia)) as Hs. rewrite Nat.sub_0_r in Hs.
    unfold K, cbyte in Hs. rewrite <- (ok_hash p Hp) in Hs. exact Hs.
Qed.

End Sound.

Section Theorems.
Context `{AllocatorTotal} (qsort_rows : nat -> list eh_row -> list eh_row).

Lemma solve_absorbed cpu p m c room : (forall n rows, qsort_rows n rows ≡ₚ rows) -> eh_ok p ->
  absorbed (personal_state p) (Z.of_nat (hash_output p)) m c -> zlen m < 2 ^ 63 ->
  exists found, equihash_basic_solve qsort_rows p room c = Some found /\
    forall soln, found = Some soln ->
      length soln = solution_width p /\ bytes_ok soln /\
      equihash_solution p (input_hash p m) (solution_indices p soln) /\
      equihash_is_valid_solution cpu p c soln = Some true.
Proof.
  intros Hsort Hp Hc Hm. unfold equihash_basic_solve.
  destruct (Nat.leb_spec (solution_width p) room) as [Hroom|Hroom].
  2: { exists None. split; [|done]. unfold solve. by rewrite (proj2 (Nat.leb_gt _ _)) by done. }
  pose proof (solve_safe qsort_rows Hsort p Hp room Hroom (input_hash p m)
    (fun g => proj1 (input_hash_ok p m g Hp)) (fun g => proj2 (input_hash_ok p m g Hp)) c) as Hs.
  specialize (Hs (fun g _ => generate_absorbed p m c g Hp Hc)). destruct (solve qsort_rows p room c) as [[]|[soln| |]]; cbn [safely] in Hs; try done;
    [by exists None| |by exists None].
  exists (Some soln). split; [done|]. intros _ [= <-]. destruct Hs as (El & Hb & Hsol). split_and!; try done.
  destruct (verify_absorbed cpu p m c soln Hp Hc Hm Hb) as (valid & -> & Hv). f_equal. by apply Hv.
Qed.

(** What the solver returns is a solution.  On a state that has absorbed an input, with any
    sort that permutes the rows, the solver is defined, and a solution it returns has the length
    of a solution, solves the problem, and is accepted by the verifier on every processor. *)
Theorem basic_solve_sound cpu p m c room : (forall n rows, qsort_rows n rows ≡ₚ rows) -> eh_ok p ->
  absorbed (personal_state p) (Z.of_nat (hash_output p)) m c -> zlen m < 2 ^ 63 ->
  exists found, equihash_basic_solve qsort_rows p room c = Some found /\
    forall soln, found = Some soln ->
      length soln = solution_width p /\ bytes_ok soln /\
      equihash_solution p (input_hash p m) (solution_indices p soln) /\
      equihash_is_valid_solution cpu p c soln = Some true.
Proof. apply solve_absorbed. Qed.

End Theorems.

(** Rows in the order of the first [n] bytes, as [qsort] with the code's comparison leaves them *)
Fixpoint insert_row (n : nat) (r : eh_row) (rows : list eh_row) : list eh_row :=
  match rows with
  | [] => [r]
  | x :: rest => if memcmp (take n r) (take n x) <=? 0 then r :: rows else x :: insert_row n r rest
  end.

Definition sort_rows (n : nat) (rows : list eh_row) : list eh_row := foldr (insert_row n) [] rows.

Lemma sort_rows_perm n rows : sort_rows n rows ≡ₚ rows.
Proof.
  assert (forall r l, insert_row n r l ≡ₚ r :: l) as Hi.
  { intros r. induction l as [|x l IH]; [done|]. cbn [insert_row]. case_if; [done|]. rewrite IH. apply Permutation_swap. }
  induction rows as [|r rows IH]; [done|]. cbn [sort_rows foldr]. fold (sort_rows n rows). by rewrite Hi, IH.
Qed.

Lemma basic_solve_sound_witness : exists c found,
  equihash_initialise_state (equihash_params_init 48 5) = Ok c /\
  @equihash_basic_solve (fun _ => true) sort_rows (equihash_params_init 48 5) 36 c = Some found /\
  forall soln, found = Some soln ->
    @equihash_is_valid_solution (fun _ => true) all_features (equihash_params_init 48 5) c soln = Some true.
Proof.
  destruct (supported_ok 36 48 5 eq_refl) as [Hp _].
  destruct (initialise_state_absorbed (equihash_params_init 48 5) Hp) as (c & Hc & Ha).
  destruct (@basic_solve_sound (fun _ => true) (fun _ => eq_refl) sort_rows all_features _ [] c 36
    sort_rows_perm Hp Ha eq_refl) as (found & Hf & Hs).
  exists c, found. split_and!; [done|done|]. intros soln E. apply Hs in E. tauto.
Defined.
