(* ===== verification/Finality.v ===== *)
(** * Finality policy

    Models lib/validation/src/checkpoint.c and sync_evidence_policy.c: how deep a
    reorganisation may reach, which heights are immutable, which anchors a snapshot may
    have, and the comparison of chain works as 32-byte little-endian numbers. *)

From S2P Require Import Prelude.

Definition ZCL_FINALITY_DEPTH : Z := 10.
Definition MAX_IBD_REORG_LENGTH : Z := 1000.

Definition zcl_immutable_height (tip_height : Z) : Z :=
  if tip_height <? 0 then -1 else tip_height - ZCL_FINALITY_DEPTH.

Definition zcl_is_finality_safe_anchor (anchor_height peer_tip_height : Z) : bool :=
  let immutable := zcl_immutable_height peer_tip_height in
  (0 <=? immutable) && (0 <=? anchor_height) && (anchor_height <=? immutable).

Definition zcl_is_snapshot_anchor_acceptable (anchor_height peer_tip_height : Z) : bool :=
  if zcl_is_finality_safe_anchor anchor_height peer_tip_height then true
  else (0 <=? anchor_height) && (anchor_height =? peer_tip_height).

Definition zcl_ibd_reorg_allowed (reorg_depth : Z) : bool :=
  (0 <=? reorg_depth) && (reorg_depth <=? MAX_IBD_REORG_LENGTH).

Inductive reorg_reason := no_tip | no_disconnect | within_finality_depth | ibd_reorg_allowed | below_finality_depth.

(** The verdict and the reason *)
Definition zcl_reorg_allowed (tip_height fork_height : Z) (in_ibd : bool) : bool * reorg_reason :=
  if tip_height <? 0 then (true, no_tip)
  else if fork_height >=? tip_height then (true, no_disconnect)
  else
    let depth := tip_height - fork_height in
    if depth <=? ZCL_FINALITY_DEPTH then (true, within_finality_depth)
    else if in_ibd && zcl_ibd_reorg_allowed depth then (true, ibd_reorg_allowed)
    else (false, below_finality_depth).

Definition reorg_is_allowed (tip_h target_fork_h : Z) : bool := (zcl_reorg_allowed tip_h target_fork_h false).1.

Definition height_is_immutable (tip_h h : Z) : bool :=
  let immutable := zcl_immutable_height tip_h in (0 <=? immutable) && (h <=? immutable).

(** A chain work is 32 bytes, least significant first. *)
Definition zcl_chainwork_is_zero (w : bytes) : bool := forallb (fun b => b =? 0) w.

(** From the most significant byte down *)
Fixpoint compare_be (a b : bytes) : Z :=
  match a, b with
  | x :: a', y :: b' => if x <? y then -1 else if x >? y then 1 else compare_be a' b'
  | _, _ => 0
  end.

Definition zcl_chainwork_compare_le (a b : bytes) : Z := compare_be (reverse a) (reverse b).

Definition zcl_chainwork_below_floor (w floor_le : bytes) : bool :=
  if zcl_chainwork_is_zero floor_le then false else zcl_chainwork_compare_le w floor_le <? 0.

(** ** Depth *)

Lemma reorg_is_allowed_spec tip fork : 0 <= tip -> reorg_is_allowed tip fork = true <-> tip - fork <= ZCL_FINALITY_DEPTH.
Proof.
  intros Ht. unfold reorg_is_allowed, zcl_reorg_allowed, ZCL_FINALITY_DEPTH. replace (tip <? 0) with false by lia.
  case_if; [split; [lia|done]|]. case_if; cbn; (split; [|]; (done || lia)).
Qed.

(** ** Chain work *)

Lemma compare_be_snoc a b x y : length a = length b ->
  compare_be (a ++ [x]) (b ++ [y]) = if compare_be a b =? 0 then (if x <? y then -1 else if x >? y then 1 else 0) else compare_be a b.
Proof.
  revert b. induction a as [|x' a IH]; intros [|y' b] E; try done; cbn [app compare_be].
  destruct (x' <? y'); [done|]. destruct (x' >? y'); [done|]. apply IH. by injection E.
Qed.

(** The comparison is that of the numbers. *)
Lemma chainwork_compare_exact a b : length a = length b -> bytes_ok a -> bytes_ok b ->
  zcl_chainwork_compare_le a b =
  match le_decode a ?= le_decode b with Lt => -1 | Eq => 0 | Gt => 1 end.
Proof.
  intros E Ha Hb. unfold zcl_chainwork_compare_le. revert b E Hb. induction Ha as [|x a Hx Ha IH]; intros [|y b] E Hb; try done.
  apply Forall_cons in Hb as [Hy Hb]. injection E as E. rewrite !reverse_cons.
  rewrite compare_be_snoc by (by rewrite !length_reverse). rewrite IH by done. cbn [le_decode]. unfold is_u in *.
  destruct (Z.compare_spec (le_decode a) (le_decode b)); cbn [Z.eqb].
  - destruct (Z.compare_spec (x + 256 * le_decode a) (y + 256 * le_decode b)); repeat case_if; lia.
  - destruct (Z.compare_spec (x + 256 * le_decode a) (y + 256 * le_decode b)); lia.
  - destruct (Z.compare_spec (x + 256 * le_decode a) (y + 256 * le_decode b)); lia.
Qed.

Lemma chainwork_is_zero_exact w : bytes_ok w -> zcl_chainwork_is_zero w = (le_decode w =? 0).
Proof.
  unfold zcl_chainwork_is_zero. induction 1 as [|x w Hx Hw IH]; [done|]. cbn [forallb le_decode]. rewrite IH.
  pose proof (le_decode_range w Hw). unfold is_u in *. lia.
Qed.

(** ** Theorems *)

(** An allowed reorganisation never disconnects an immutable height, the deepest allowed one
    disconnects exactly the ten heights above the immutable ones, and a work is below the
    floor exactly when there is a floor and the number is smaller. *)
Theorem finality_policy tip fork h work floor : 0 <= tip -> length work = length floor -> bytes_ok work -> bytes_ok floor ->
  (reorg_is_allowed tip fork = true -> height_is_immutable tip h = true -> h <= fork) /\
  reorg_is_allowed tip (tip - ZCL_FINALITY_DEPTH) = true /\ reorg_is_allowed tip (tip - ZCL_FINALITY_DEPTH - 1) = false /\
  zcl_chainwork_below_floor work floor = negb (le_decode floor =? 0) && (le_decode work <? le_decode floor).
Proof.
  intros Ht El Hw Hf. split_and!.
  - rewrite reorg_is_allowed_spec by done. unfold height_is_immutable, zcl_immutable_height.
    replace (tip <? 0) with false by lia. lia.
  - apply reorg_is_allowed_spec; [done|]. lia.
  - apply not_true_iff_false. rewrite reorg_is_allowed_spec by done. lia.
  - unfold zcl_chainwork_below_floor. rewrite chainwork_is_zero_exact, chainwork_compare_exact by done.
    destruct (Z.eqb_spec (le_decode floor) 0); [done|].
    destruct (Z.compare_spec (le_decode work) (le_decode floor)); cbn [negb andb]; lia.
Qed.

Lemma finality_policy_witness :
  (reorg_is_allowed 100 95 = true -> height_is_immutable 100 90 = true -> 90 <= 95) /\
  reorg_is_allowed 100 (100 - ZCL_FINALITY_DEPTH) = true /\ reorg_is_allowed 100 (100 - ZCL_FINALITY_DEPTH - 1) = false /\
  zcl_chainwork_below_floor [1; 2] [0; 3] = negb (le_decode [0; 3] =? 0) && (le_decode [1; 2] <? le_decode [0; 3]).
Proof. apply finality_policy; [lia|done|compute_decide..]. Defined.
