(* ===== verification/UtxoStage.v ===== *)
(** * The apply stage

    Models the stage runner (lib/util/src/stage.c), the utxo_apply stage
    (app/jobs/src/utxo_apply_stage.c, utxo_apply_log_store.c) and its reorg unwind
    (utxo_apply_delta_reorg.c) over the progress store: a tick first disconnects the applied
    blocks that left the active chain, then applies the next block of the active chain,
    each in one SQLite transaction.

    SQLite itself is not under src/.  Modelled is its documented behaviour: a statement
    takes effect or fails without an effect, ROLLBACK restores the state at BEGIN, reads see
    the connection's own writes.  Which statements fail is a schedule ([write_faults] for
    writes, BEGIN and COMMIT; [read_faults] for reads), over which the theorems quantify.
    The in-memory active chain, the block reader and the author flag are the environment of
    a tick. *)

From stdpp Require Import gmap.
From S2P Require Import Prelude Serialize Script Transaction Params Block CoinsMath Coins UtxoDelta Finality.

(** ** The progress store *)

Record delta_row := DeltaRow { row_branch_hash : uint256_t; row_spent_blob : bytes; row_added_blob : bytes }.

Inductive apply_status := verified | nullifier_conflict | rejected (s : delta_status).

(** The text columns of a row; the counts are those of an accepted block *)
Record log_row := LogRow {
  log_status : apply_status;
  log_ok : bool;
  log_counts : Z * Z * Z;
  log_kind : option failure_kind;
  log_detail : option bytes;
}.

Record progress := Progress {
  p_coins : coins_table;
  p_delta : gmap Z delta_row;
  p_log : gmap Z log_row;
  p_cursor : option Z;            (* stage_cursor row of utxo_apply *)
  p_applied : option Z;           (* progress_meta row of the applied height *)
  p_pv_cursor : option Z;         (* stage_cursor row of proof_validate *)
  p_pv_log : gmap Z Z;            (* the ok column of proof_validate_log *)
}.

Definition set_coins (f : coins_table -> coins_table) (p : progress) : progress :=
  {| p_coins := f (p_coins p); p_delta := p_delta p; p_log := p_log p; p_cursor := p_cursor p;
     p_applied := p_applied p; p_pv_cursor := p_pv_cursor p; p_pv_log := p_pv_log p |}.

Definition set_delta (f : gmap Z delta_row -> gmap Z delta_row) (p : progress) : progress :=
  {| p_coins := p_coins p; p_delta := f (p_delta p); p_log := p_log p; p_cursor := p_cursor p;
     p_applied := p_applied p; p_pv_cursor := p_pv_cursor p; p_pv_log := p_pv_log p |}.

Definition set_log (f : gmap Z log_row -> gmap Z log_row) (p : progress) : progress :=
  {| p_coins := p_coins p; p_delta := p_delta p; p_log := f (p_log p); p_cursor := p_cursor p;
     p_applied := p_applied p; p_pv_cursor := p_pv_cursor p; p_pv_log := p_pv_log p |}.

Definition set_cursor (c : Z) (p : progress) : progress :=
  {| p_coins := p_coins p; p_delta := p_delta p; p_log := p_log p; p_cursor := Some c;
     p_applied := p_applied p; p_pv_cursor := p_pv_cursor p; p_pv_log := p_pv_log p |}.

Definition set_applied (h : Z) (p : progress) : progress :=
  {| p_coins := p_coins p; p_delta := p_delta p; p_log := p_log p; p_cursor := p_cursor p;
     p_applied := Some h; p_pv_cursor := p_pv_cursor p; p_pv_log := p_pv_log p |}.

(** The process: the progress store, the nullifiers of the separate node database when it
    is open, and the fates of the statements to come (an exhausted schedule succeeds) *)
Inductive read_fault := ReadFine | PrepareFails | StepFails.

Record world := World {
  store : progress;
  node_db : option (gset uint256_t);
  write_faults : list bool;       (* true: the statement fails *)
  read_faults : list read_fault;
}.

(** ** Statements *)

Definition sql (A : Type) : Type := world -> A * world.

#[export] Instance sql_ret : MRet sql := fun A a w => (a, w).

#[export] Instance sql_bind : MBind sql := fun A B f m w => let '(a, w) := m w in f a w.

Definition read_fate : sql read_fault := fun w =>
  match read_faults w with
  | [] => (ReadFine, w)
  | f :: r => (f, {| store := store w; node_db := node_db w; write_faults := write_faults w; read_faults := r |})
  end.

(** Whether the next write succeeds *)
Definition write_fate : sql bool := fun w =>
  match write_faults w with
  | [] => (true, w)
  | f :: r => (negb f, {| store := store w; node_db := node_db w; write_faults := r; read_faults := read_faults w |})
  end.

Definition modify (f : progress -> progress) : sql unit := fun w =>
  (tt, {| store := f (store w); node_db := node_db w; write_faults := write_faults w; read_faults := read_faults w |}).

Definition get_store : sql progress := fun w => (store w, w).

Definition get_node_db : sql (option (gset uint256_t)) := fun w => (node_db w, w).

Definition modify_node_db (f : gset uint256_t -> gset uint256_t) : sql unit := fun w =>
  (tt, {| store := store w; node_db := f <$> node_db w; write_faults := write_faults w; read_faults := read_faults w |}).

(** A write: prepare, bind, step to SQLITE_DONE *)
Definition update (f : progress -> progress) : sql bool :=
  ok ← write_fate; if ok : bool then modify f ≫= (fun _ => mret true) else mret false.

Inductive answer (R : Type) := PrepareFailed | Row (r : R) | NoRow | StepFailed.
Arguments PrepareFailed {R}.
Arguments Row {R} r.
Arguments NoRow {R}.
Arguments StepFailed {R}.

Definition select {R} (f : progress -> option R) : sql (answer R) :=
  fate ← read_fate; p ← get_store;
  mret (match fate with
        | PrepareFails => PrepareFailed
        | StepFails => StepFailed
        | ReadFine => match f p with Some r => Row r | None => NoRow end
        end).

(** BEGIN IMMEDIATE; the state to go back to *)
Definition begin_immediate : sql (option progress) :=
  ok ← write_fate; p ← get_store; mret (if ok : bool then Some p else None).

Definition rollback (p0 : progress) : sql unit := modify (fun _ => p0).

Definition commit : sql bool := write_fate.

(** ** The stage runner *)

Inductive job_result := JOB_ADVANCED | JOB_BLOCKED | JOB_IDLE | JOB_FATAL.

#[export] Instance job_result_eq_dec : EqDecision job_result.
Proof. solve_decision. Defined.

(** What a step leaves in its context: its result, [cursor_out], and whether it filled the
    blocker record *)
Record step_outcome := StepOutcome { outcome : job_result; cursor_out : Z; blocker_filled : bool }.

Definition cursor_read : sql (option Z) :=
  a ← select p_cursor;
  mret (match a with Row c => Some (u64 c) | NoRow => Some 0 | PrepareFailed | StepFailed => None end).

Definition cursor_write_locked (v : Z) : sql bool := update (set_cursor (i64 v)).

Definition stage_run_once (step : Z -> sql step_outcome) : sql job_result :=
  oc ← cursor_read;
  match oc with
  | None => mret JOB_FATAL
  | Some cur =>
      ob ← begin_immediate;
      match ob with
      | None => mret JOB_FATAL
      | Some p0 =>
          o ← step cur;
          match outcome o with
          | JOB_ADVANCED =>
              if cursor_out o <=? cur then rollback p0 ≫= (fun _ => mret JOB_FATAL)
              else
                wrote ← cursor_write_locked (cursor_out o);
                if negb wrote then rollback p0 ≫= (fun _ => mret JOB_FATAL)
                else
                  committed ← commit;
                  if negb committed then rollback p0 ≫= (fun _ => mret JOB_FATAL) else mret JOB_ADVANCED
          | JOB_BLOCKED => rollback p0 ≫= (fun _ => mret (if blocker_filled o then JOB_BLOCKED else JOB_FATAL))
          | JOB_IDLE => rollback p0 ≫= (fun _ => mret JOB_IDLE)
          | JOB_FATAL => rollback p0 ≫= (fun _ => mret JOB_FATAL)
          end
      end
  end.

(** Setting a cursor outside a step *)
Definition stage_set_cursor (v : Z) : sql bool :=
  ob ← begin_immediate;
  match ob with
  | None => mret false
  | Some p0 =>
      wrote ← cursor_write_locked v;
      if negb wrote then rollback p0 ≫= (fun _ => mret false)
      else
        committed ← commit;
        if negb committed then rollback p0 ≫= (fun _ => mret false) else mret true
  end.

Definition stage_set_cursor_if_behind (v : Z) : sql bool :=
  ob ← begin_immediate;
  match ob with
  | None => mret false
  | Some p0 =>
      oc ← cursor_read;
      match oc with
      | None => rollback p0 ≫= (fun _ => mret false)
      | Some current =>
          if current >=? v then rollback p0 ≫= (fun _ => mret true)
          else
            wrote ← cursor_write_locked v;
            if negb wrote then rollback p0 ≫= (fun _ => mret false)
            else
              committed ← commit;
              if negb committed then rollback p0 ≫= (fun _ => mret false) else mret true
      end
  end.

(** 0 without a row and on every failure *)
Definition stage_cursor_persisted (column : progress -> option Z) : sql Z :=
  a ← select column; mret (match a with Row c => u64 c | _ => 0 end).

(** ** The environment of a tick *)

Record index_entry := IndexEntry {
  bi_hash : option uint256_t;     (* phashBlock *)
  bi_prev : option uint256_t;     (* the hash of pprev *)
  bi_have_data : bool;            (* nStatus & BLOCK_HAVE_DATA *)
}.

Record active_chain := ActiveChain { chain_slots : list (option index_entry); chain_height : Z }.

Definition active_chain_at (c : active_chain) (height : Z) : option index_entry :=
  if (height <? 0) || (height >? chain_height c) then None else mjoin (chain_slots c !! Z.to_nat height).

Record tick := Tick {
  chain_active : active_chain;
  reader : index_entry -> option (list transaction);
  author_stage : bool;
}.

Section Stage.
Context (params : consensus_params) (lookup : coins_table -> outpoint -> option utxo_apply_lookup) (env : tick).

(** ** Applying a block *)

(** The writes of [coins_kv_add] and [coins_kv_spend] for every entry, until one fails *)
Fixpoint update_all {A} (f : A -> progress -> progress) (l : list A) : sql bool :=
  match l with
  | [] => mret true
  | a :: r => ok ← update (f a); if ok : bool then update_all f r else mret false
  end.

Definition stage_apply_coins_kv (s : delta_summary) (height : Z) : sql bool :=
  ok ← update_all (fun e => set_coins (fun t => add_entry height t e)) (added s);
  if ok : bool then update_all (fun e => set_coins (fun t => spend_entry t e)) (spent s) else mret false.

(** The NOT NULL constraint refuses a block index without a hash. *)
Definition utxo_apply_delta_persist (height : Z) (branch_hash : option uint256_t) (s : delta_summary) : sql bool :=
  match branch_hash with
  | Some hash => update (set_delta <[height := {| row_branch_hash := hash; row_spent_blob := serialize_spent s;
                                                   row_added_blob := serialize_added s |}]>)
  | None => mret false
  end.

Definition utxo_apply_log_insert (height : Z) (row : log_row) : sql bool := update (set_log <[height := row]>).

Definition coins_kv_set_applied_height_in_tx (height : Z) : sql bool := update (set_applied height).

(** [None] on a failed read, else the height if the row is there *)
Definition coins_kv_get_applied_height : sql (option (option Z)) :=
  a ← select p_applied;
  mret (match a with Row h => Some (Some (i32 h)) | NoRow => Some None | PrepareFailed | StepFailed => None end).

Definition utxo_apply_cursor_persisted : sql (option (option Z)) :=
  a ← select p_cursor;
  mret (match a with Row c => Some (Some c) | NoRow => Some None | PrepareFailed | StepFailed => None end).

Definition coins_kv_backfill_applied_height_if_absent : sql bool :=
  present ← coins_kv_get_applied_height;
  match present with
  | None => mret false
  | Some (Some _) => mret true
  | Some None =>
      cursor ← utxo_apply_cursor_persisted;
      match cursor with
      | None => mret false
      | Some None => mret true
      | Some (Some c) =>
          ob ← begin_immediate;
          match ob with
          | None => mret false
          | Some p0 =>
              set ← coins_kv_set_applied_height_in_tx (i32 c);
              if negb set then rollback p0 ≫= (fun _ => mret false)
              else
                committed ← commit;
                if negb committed then rollback p0 ≫= (fun _ => mret false) else mret true
          end
      end
  end.

Definition utxo_apply_stage_succeeded_at (height : Z) : sql bool :=
  if height <? 0 then mret false
  else a ← select (fun p => p_log p !! height); mret (match a with Row r => log_ok r | _ => false end).

(** -1, 0 or 1 with the column *)
Definition utxo_apply_proof_validate_log_at (height : Z) : sql (option (option Z)) :=
  a ← select (fun p => p_pv_log p !! height);
  mret (match a with PrepareFailed => None | Row ok => Some (Some ok) | NoRow | StepFailed => Some None end).

(** Sprout nullifiers live in the node database; every failure reads as "not there" and a
    failed insertion is not reported. *)
Definition node_db_sprout_nullifier_exists (nf : uint256_t) : sql bool :=
  fate ← read_fate; db ← get_node_db;
  mret (match fate, db with ReadFine, Some nfs => bool_decide (nf ∈ nfs) | _, _ => false end).

Definition node_db_sync_sprout_nullifier (nf : uint256_t) : sql unit :=
  ok ← write_fate; if ok : bool then modify_node_db (fun nfs => {[nf]} ∪ nfs) else mret tt.

Definition sprout_nullifiers (txs : list transaction) : list uint256_t :=
  mjoin (map (fun tx => mjoin (map js_nullifiers (v_joinsplit tx))) txs).

Definition node_db_open : sql bool := db ← get_node_db; mret (if db is Some _ then true else false).

Fixpoint any_nullifier_exists (nfs : list uint256_t) : sql bool :=
  match nfs with
  | [] => mret false
  | nf :: r => found ← node_db_sprout_nullifier_exists nf; if found : bool then mret true else any_nullifier_exists r
  end.

Definition nullifier_reused (txs : list transaction) : sql bool :=
  opened ← node_db_open; if opened : bool then any_nullifier_exists (sprout_nullifiers txs) else mret false.

Fixpoint sync_nullifiers (nfs : list uint256_t) : sql unit :=
  match nfs with [] => mret tt | nf :: r => node_db_sync_sprout_nullifier nf ≫= (fun _ => sync_nullifiers r) end.

Definition record_nullifiers (txs : list transaction) : sql unit :=
  opened ← node_db_open; if opened : bool then sync_nullifiers (sprout_nullifiers txs) else mret tt.

Definition conflict_row : log_row :=
  {| log_status := nullifier_conflict; log_ok := false; log_counts := (0, 0, 0); log_kind := None; log_detail := None |}.

Definition verified_row (s : delta_summary) : log_row :=
  {| log_status := verified; log_ok := true; log_counts := (zlen (spent s), zlen (added s), total_value_delta s);
     log_kind := None; log_detail := None |}.

Definition rejected_row (f : delta_failure) : log_row :=
  {| log_status := rejected (failure_status f); log_ok := false; log_counts := (0, 0, 0);
     log_kind := Some (failed_kind f); log_detail := Some (failure_detail f) |}.

(** A blocked step with its blocker record filled *)
Definition block_apply_failure (cursor_in : Z) : step_outcome :=
  {| outcome := JOB_BLOCKED; cursor_out := cursor_in; blocker_filled := true |}.

Definition stop (r : job_result) (cursor_in : Z) : step_outcome :=
  {| outcome := r; cursor_out := cursor_in; blocker_filled := false |}.

(** The block has been read *)
Definition apply_block (cursor_in next_h : Z) (bi : index_entry) (txs : list transaction) : sql step_outcome :=
  reused ← nullifier_reused txs;
  if reused : bool then utxo_apply_log_insert next_h conflict_row ≫= (fun _ => mret (block_apply_failure cursor_in))
  else
    p ← get_store;
    match utxo_apply_compute_block_delta params (u32 next_h) (lookup (p_coins p)) txs with
    | Ok s =>
        applied ← (if author_stage env then stage_apply_coins_kv s next_h else mret true);
        if negb applied then mret (stop JOB_FATAL cursor_in)
        else
          persisted ← utxo_apply_delta_persist next_h (bi_hash bi) s;
          if negb persisted then mret (stop JOB_FATAL cursor_in)
          else
            record_nullifiers txs ≫= fun _ =>
            logged ← utxo_apply_log_insert next_h (verified_row s);
            if negb logged then mret (stop JOB_FATAL cursor_in)
            else
              let next_cursor := u64 (cursor_in + 1) in
              set ← coins_kv_set_applied_height_in_tx (i32 next_cursor);
              if negb set then mret (stop JOB_FATAL cursor_in)
              else mret {| outcome := JOB_ADVANCED; cursor_out := next_cursor; blocker_filled := false |}
    | Err f =>
        logged ← utxo_apply_log_insert next_h (rejected_row f);
        if negb logged then mret (stop JOB_FATAL cursor_in) else mret (block_apply_failure cursor_in)
    end.

Definition step_apply (cursor_in : Z) : sql step_outcome :=
  let next_h := i32 cursor_in in
  if next_h <? 0 then mret (stop JOB_FATAL cursor_in)
  else
    pv_cursor ← stage_cursor_persisted p_pv_cursor;
    if next_h >=? pv_cursor then mret (stop JOB_IDLE cursor_in)
    else
      found ← utxo_apply_proof_validate_log_at next_h;
      match found with
      | None => mret (stop JOB_FATAL cursor_in)
      | Some None => mret (stop JOB_IDLE cursor_in)
      | Some (Some ok) =>
          if ok =? 0 then mret (block_apply_failure cursor_in)
          else
            match active_chain_at (chain_active env) next_h with
            | None => mret (stop JOB_IDLE cursor_in)
            | Some bi =>
                if negb (bi_have_data bi) then mret (stop JOB_IDLE cursor_in)
                else
                  match reader env bi with
                  | None => mret (stop JOB_IDLE cursor_in)
                  | Some txs => apply_block cursor_in next_h bi txs
                  end
            end
      end.

(** ** The reorg unwind *)

(** -1, 0 or 1 with the hash; a stored hash has 32 bytes *)
Definition delta_branch_hash_at (height : Z) : sql (option (option uint256_t)) :=
  a ← select (fun p => p_delta p !! height);
  mret (match a with
        | PrepareFailed => None
        | Row r => Some (if zlen (row_branch_hash r) =? 32 then Some (row_branch_hash r) else None)
        | NoRow | StepFailed => Some None
        end).

(** The loops of [utxo_apply_emit_inverse_delta], as in [inverse_adds] and
    [inverse_spends] with the statements executed one by one *)
Fixpoint emit_inverse_adds (fuel : nat) (p : bytes) : sql bool :=
  match fuel with
  | O => mret true
  | S f =>
      match blob_take 32 p ≫= (fun '(txid, p) => '(vout, p) ← blob_get_u32 p; Some (txid, vout, p)) with
      | Some (txid, vout, p) =>
          ok ← update (set_coins (coins_kv_spend {| op_hash := txid; op_n := vout |}));
          if ok : bool then emit_inverse_adds f p else mret false
      | None => mret true
      end
  end.

Fixpoint emit_inverse_spends (fuel : nat) (p : bytes) : sql bool :=
  match p with
  | [] => mret true
  | _ =>
      match fuel with
      | O => mret false
      | S f =>
          match parse_spent p with
          | Some (e, p) =>
              ok ← update (set_coins (fun t => add_entry (i32 (d_height e)) t e));
              if ok : bool then emit_inverse_spends f p else mret false
          | None => mret false
          end
      end
  end.

Definition stage_emit_inverse_delta (height : Z) : sql bool :=
  a ← select (fun p => p_delta p !! height);
  match a with
  | PrepareFailed => mret false
  | NoRow | StepFailed => mret true
  | Row r =>
      ok1 ← emit_inverse_adds (length (row_added_blob r)) (row_added_blob r);
      ok2 ← emit_inverse_spends (length (row_spent_blob r)) (row_spent_blob r);
      mret (ok1 && ok2)
  end.

(** [for (h = C - 1; h >= fork_plus1; h--)], [n] heights from [h] down *)
Fixpoint emit_inverse_down (n : nat) (h : Z) : sql bool :=
  match n with
  | O => mret true
  | S n => ok ← stage_emit_inverse_delta h; if ok : bool then emit_inverse_down n (h - 1) else mret false
  end.

Definition delete_heights {R} (lo hi : Z) (m : gmap Z R) : gmap Z R :=
  filter (fun '(k, _) => ~ (lo <= k <= hi)) m.

Definition utxo_apply_delete_rows_above (fork_plus1 last_h : Z) : sql bool :=
  ok ← update (set_log (delete_heights fork_plus1 last_h));
  if ok : bool then update (set_delta (delete_heights fork_plus1 last_h)) else mret false.

Definition utxo_apply_unwind_write_cursor (v : Z) : sql bool := update (set_cursor (i64 v)).

(** [for (h = C - 2; h >= 0; h--)]: the highest height below whose row matches the active
    chain, -1 without one, [None] on a failed prepare *)
Fixpoint find_fork (n : nat) (h : Z) : sql (option Z) :=
  match n with
  | O => mret (Some (-1))
  | S n =>
      rec_h ← delta_branch_hash_at h;
      match rec_h with
      | None => mret None
      | Some hv =>
          match hv, active_chain_at (chain_active env) h ≫= bi_hash with
          | Some rec, Some act => if uint256_eq rec act then mret (Some h) else find_fork n (h - 1)
          | _, _ => find_fork n (h - 1)
          end
      end
  end.

(** The unwind transaction *)
Definition unwind_txn (C fork_plus1 : Z) : sql bool :=
  ob ← begin_immediate;
  match ob with
  | None => mret false
  | Some p0 =>
      inverted ← (if author_stage env then emit_inverse_down (Z.to_nat (C - fork_plus1)) (C - 1) else mret true);
      if negb inverted then rollback p0 ≫= (fun _ => mret false)
      else
        deleted ← utxo_apply_delete_rows_above fork_plus1 (C - 1);
        if negb deleted then rollback p0 ≫= (fun _ => mret false)
        else
          wrote ← utxo_apply_unwind_write_cursor fork_plus1;
          if negb wrote then rollback p0 ≫= (fun _ => mret false)
          else
            set ← coins_kv_set_applied_height_in_tx fork_plus1;
            if negb set then rollback p0 ≫= (fun _ => mret false)
            else
              committed ← commit;
              if negb committed then rollback p0 ≫= (fun _ => mret false) else mret true
  end.

Definition INT32_MAX : Z := 2 ^ 31 - 1.

Definition utxo_apply_reorg_unwind_if_needed : sql bool :=
  C ← stage_cursor_persisted p_cursor;
  if C =? 0 then mret true
  else if C >? INT32_MAX then mret false
  else
    have ← delta_branch_hash_at (C - 1);
    match have with
    | None => mret false
    | Some None => mret true
    | Some (Some recorded) =>
        match active_chain_at (chain_active env) (C - 1) ≫= bi_hash with
        | None => mret true
        | Some act =>
            if uint256_eq recorded act then mret true
            else
              ofork ← find_fork (Z.to_nat (C - 1)) (C - 2);
              match ofork with
              | None => mret false
              | Some fork => if negb (reorg_is_allowed (C - 1) fork) then mret false else unwind_txn C (fork + 1)
              end
        end
    end.

(** ** A tick of the stage *)

Definition utxo_apply_stage_step_once : sql job_result :=
  unwind_ok ← utxo_apply_reorg_unwind_if_needed;
  if negb unwind_ok then mret JOB_FATAL else stage_run_once step_apply.

End Stage.

(** [STAGE_DRAIN_IMPL]: the number of ticks that advanced; each tick has its environment *)
Fixpoint utxo_apply_stage_drain (params : consensus_params) (lookup : coins_table -> outpoint -> option utxo_apply_lookup)
    (ticks : list tick) : sql Z :=
  match ticks with
  | [] => mret 0
  | env :: r =>
      res ← utxo_apply_stage_step_once params lookup env;
      match res with
      | JOB_ADVANCED => n ← utxo_apply_stage_drain params lookup r; mret (n + 1)
      | _ => mret 0
      end
  end.

(** ** Reasoning about statements

    [wp m Q w]: running [m] from [w] ends in a result and a world that satisfy [Q]. *)

Definition wp {A} (m : sql A) (Q : A -> world -> Prop) (w : world) : Prop := Q (m w).1 (m w).2.

Lemma wp_run {A} (m : sql A) Q w a w' : wp m Q w -> m w = (a, w') -> Q a w'.
Proof. unfold wp. intros H E. by rewrite E in H. Qed.

Lemma wp_mono {A} (m : sql A) (Q Q' : A -> world -> Prop) w : wp m Q w -> (forall a w', Q a w' -> Q' a w') -> wp m Q' w.
Proof. unfold wp. auto. Qed.

Lemma wp_ret {A} (a : A) Q w : Q a w -> wp (mret a) Q w.
Proof. done. Qed.

Lemma wp_bind {A B} (m : sql A) (f : A -> sql B) Q w : wp m (fun a => wp (f a) Q) w -> wp (m ≫= f) Q w.
Proof. unfold wp, mbind, sql_bind. by destruct (m w). Qed.

Lemma wp_get_store Q p n wf rf : Q p (World p n wf rf) -> wp get_store Q (World p n wf rf).
Proof. done. Qed.

Lemma wp_modify Q f p n wf rf : Q tt (World (f p) n wf rf) -> wp (modify f) Q (World p n wf rf).
Proof. done. Qed.

Lemma wp_write_fate Q p n wf rf : (forall ok wf', Q ok (World p n wf' rf)) -> wp write_fate Q (World p n wf rf).
Proof. intros H. unfold wp, write_fate. destruct wf; apply H. Qed.

Lemma wp_update Q f p n wf rf : (forall wf', Q true (World (f p) n wf' rf)) -> (forall wf', Q false (World p n wf' rf)) ->
  wp (update f) Q (World p n wf rf).
Proof. intros H1 H2. unfold update. apply wp_bind, wp_write_fate. intros [] wf'; [apply H1|apply H2]. Qed.

(** What a read may answer under a schedule *)
Definition answers {R} (rf : list read_fault) (v : option R) (a : answer R) (rf' : list read_fault) : Prop :=
  (rf = [] -> rf' = [] /\ a = match v with Some r => Row r | None => NoRow end) /\
  match a with Row r => v = Some r | NoRow => v = None | _ => True end.

Lemma wp_select {R} Q (f : progress -> option R) p n wf rf :
  (forall a rf', answers rf (f p) a rf' -> Q a (World p n wf rf')) -> wp (select f) Q (World p n wf rf).
Proof.
  intros H. unfold wp, select, mbind, sql_bind, read_fate, get_store.
  destruct rf as [|[] rf]; cbn; apply H; split; try done; by destruct (f p).
Qed.

Lemma wp_begin Q p n wf rf : (forall wf', Q (Some p) (World p n wf' rf)) -> (forall wf', Q None (World p n wf' rf)) ->
  wp begin_immediate Q (World p n wf rf).
Proof.
  intros H1 H2. unfold begin_immediate. apply wp_bind, wp_write_fate. intros [] wf'; apply wp_bind, wp_get_store, wp_ret; auto.
Qed.

(** A failed transaction leaves the store as it was. *)
Lemma wp_rollback {A} (a : A) Q p p0 n wf rf : Q a (World p0 n wf rf) ->
  wp (rollback p0 ≫= (fun _ => mret a)) Q (World p n wf rf).
Proof. done. Qed.

(** Either the step's writes and the cursor are committed together, or the store is as
    it was: for every step, schedule and outcome. *)
Lemma run_once_atomic step p n wf rf :
  wp (stage_run_once step) (fun r w' =>
    if decide (r = JOB_ADVANCED) then
      exists cur wf1 rf1 o w1, (rf = [] -> rf1 = []) /\ cur = default 0 (u64 <$> p_cursor p) /\
        step cur (World p n wf1 rf1) = (o, w1) /\ outcome o = JOB_ADVANCED /\ cur < cursor_out o /\
        store w' = set_cursor (i64 (cursor_out o)) (store w1)
    else store w' = p) (World p n wf rf).
Proof.
  unfold stage_run_once, cursor_read. apply wp_bind, wp_bind, wp_select. intros a rf1 [Hf Ha]. apply wp_ret.
  assert (forall cur, match a with Row c => Some (u64 c) | NoRow => Some 0 | _ => None end = Some cur ->
    cur = default 0 (u64 <$> p_cursor p)) as Hcur.
  { intros cur E. destruct a; try done; rewrite Ha; cbn; congruence. }
  destruct (match a with Row c => Some (u64 c) | NoRow => Some 0 | _ => None end) as [cur|]; [|by apply wp_ret].
  specialize (Hcur cur eq_refl). apply wp_bind, wp_begin; intros wf1; [|by apply wp_ret].
  apply wp_bind. unfold wp at 1. destruct (step cur (World p n wf1 rf1)) as [o w1] eqn:Es. cbn [fst snd].
  destruct (outcome o) eqn:Eo; [|unfold wp; cbn; by destruct (blocker_filled o)|done|done].
  destruct (Z.leb_spec (cursor_out o) cur) as [Hle|Hlt]; [done|]. destruct w1 as [p1 n1 wf2 rf2].
  apply wp_bind, wp_update; intros wf3; [|done]. apply wp_bind, wp_write_fate. intros [] wf4; [|done].
  apply wp_ret. rewrite decide_True by done. exists cur, wf1, rf1, o, (World p1 n1 wf2 rf2).
  split_and!; try done. intros E. by destruct (Hf E).
Qed.

(** ** What the pieces do to the store *)

Lemma wp_update_all {A} (f : A -> progress -> progress) l Q p n wf rf :
  (forall wf', Q true (World (foldl (fun p a => f a p) p l) n wf' rf)) ->
  (forall p' wf', Q false (World p' n wf' rf)) -> wp (update_all f l) Q (World p n wf rf).
Proof.
  intros Ht Hf. revert p wf Ht. induction l as [|a l IH]; intros p wf Ht; cbn [update_all]; [by apply wp_ret|].
  apply wp_bind, wp_update; intros wf'; [by apply IH|]. by apply wp_ret.
Qed.

Lemma set_coins_foldl {A} (g : A -> coins_table -> coins_table) l p :
  foldl (fun p a => set_coins (g a) p) p l = set_coins (fun t => foldl (fun t a => g a t) t l) p.
Proof. revert p. induction l as [|a l IH]; intros p; cbn; [by destruct p|]. by rewrite IH. Qed.

Lemma wp_stage_apply s h Q p n wf rf :
  (forall wf', Q true (World (set_coins (apply_coins_kv s h) p) n wf' rf)) ->
  (forall p' wf', Q false (World p' n wf' rf)) -> wp (stage_apply_coins_kv s h) Q (World p n wf rf).
Proof.
  intros Ht Hf. unfold stage_apply_coins_kv. apply wp_bind, wp_update_all; [|intros; by apply wp_ret].
  intros wf'. apply wp_update_all; [|done]. intros wf2.
  rewrite (set_coins_foldl (fun e t => add_entry h t e)), (set_coins_foldl (fun e t => spend_entry t e)). apply Ht.
Qed.

Lemma wp_any_nullifier l nfs Q p wf rf :
  (forall b rf', (rf = [] -> rf' = [] /\ b = existsb (fun nf => bool_decide (nf ∈ nfs)) l) ->
     Q b (World p (Some nfs) wf rf')) -> wp (any_nullifier_exists l) Q (World p (Some nfs) wf rf).
Proof.
  revert rf. induction l as [|nf l IH]; intros rf HQ; cbn [any_nullifier_exists]; [by apply wp_ret, HQ|].
  apply wp_bind. unfold node_db_sprout_nullifier_exists, wp at 1, mbind, sql_bind, read_fate, get_node_db.
  destruct rf as [|f rf]; cbn.
  - destruct (bool_decide (nf ∈ nfs)) eqn:Eb; [apply wp_ret, HQ; intros _; cbn; by rewrite Eb|].
    apply IH. intros b rf' Hb. apply HQ. intros _. cbn. rewrite Eb. by apply Hb.
  - destruct f; try destruct (bool_decide (nf ∈ nfs)); try (by apply wp_ret, HQ); apply IH; intros b rf' Hb; by apply HQ.
Qed.

(** The answer of the nullifier check when no read fails *)
Definition reused_in (db : option (gset uint256_t)) (txs : list transaction) : bool :=
  match db with
  | Some nfs => existsb (fun nf => bool_decide (nf ∈ nfs)) (sprout_nullifiers txs)
  | None => false
  end.

Lemma wp_nullifier_reused txs Q p n wf rf :
  (forall b rf', (rf = [] -> rf' = [] /\ b = reused_in n txs) -> Q b (World p n wf rf')) ->
  wp (nullifier_reused txs) Q (World p n wf rf).
Proof.
  intros HQ. unfold nullifier_reused, node_db_open. apply wp_bind, wp_bind. unfold get_node_db, wp at 1. cbn [fst snd node_db].
  apply wp_ret. destruct n as [nfs|]; [by apply wp_any_nullifier|by apply wp_ret, HQ].
Qed.

Lemma wp_record_nullifiers txs Q p n wf rf : (forall n' wf', Q tt (World p n' wf' rf)) ->
  wp (record_nullifiers txs) Q (World p n wf rf).
Proof.
  intros HQ. unfold record_nullifiers, node_db_open. apply wp_bind, wp_bind. unfold get_node_db, wp at 1. cbn [fst snd node_db].
  apply wp_ret. destruct n as [nfs|]; [|by apply wp_ret]. generalize (Some nfs) as n.
  generalize (sprout_nullifiers txs) as l. intros l. revert wf. induction l as [|nf l IH]; intros wf n; cbn [sync_nullifiers]; [by apply wp_ret|].
  unfold node_db_sync_sprout_nullifier. apply wp_bind, wp_bind, wp_write_fate. intros [] wf'; [|apply wp_ret, IH].
  unfold modify_node_db, wp at 1. cbn [fst snd store node_db write_faults read_faults]. apply IH.
Qed.

(** The store after a block has been applied *)
Definition advanced_store (env : tick) (cur : Z) (hash : uint256_t) (s : delta_summary) (p : progress) : progress :=
  let h := i32 cur in
  set_applied (i32 (u64 (cur + 1))) (set_log <[h := verified_row s]>
    (set_delta <[h := {| row_branch_hash := hash; row_spent_blob := serialize_spent s; row_added_blob := serialize_added s |}]>
      (if author_stage env then set_coins (apply_coins_kv s h) p else p))).

(** A step that advances applied the block of the active chain at the cursor. *)
Lemma step_apply_advanced params lookup env cur p n wf rf :
  wp (step_apply params lookup env cur) (fun o w' => outcome o = JOB_ADVANCED ->
    exists bi txs s hash, 0 <= i32 cur /\ active_chain_at (chain_active env) (i32 cur) = Some bi /\
      reader env bi = Some txs /\ bi_hash bi = Some hash /\
      utxo_apply_compute_block_delta params (u32 (i32 cur)) (lookup (p_coins p)) txs = Ok s /\
      cursor_out o = u64 (cur + 1) /\ store w' = advanced_store env cur hash s p) (World p n wf rf).
Proof.
  unfold step_apply. destruct (Z.ltb_spec (i32 cur) 0) as [Hneg|Hh]; [by apply wp_ret|].
  apply wp_bind. unfold stage_cursor_persisted. apply wp_bind, wp_select. intros a rf1 _. apply wp_ret.
  case_if; [by apply wp_ret|]. apply wp_bind. unfold utxo_apply_proof_validate_log_at. apply wp_bind, wp_select.
  intros a2 rf2 _. apply wp_ret.
  destruct (match a2 with PrepareFailed => None | Row ok => Some (Some ok) | _ => Some None end) as [[ok|]|];
    [|by apply wp_ret..].
  case_if; [by apply wp_ret|]. destruct (active_chain_at _ _) as [bi|] eqn:Ebi; [|by apply wp_ret].
  destruct (bi_have_data bi); [|by apply wp_ret]. cbn [negb].
  destruct (reader env bi) as [txs|] eqn:Er; [|by apply wp_ret]. unfold apply_block.
  apply wp_bind, wp_nullifier_reused. intros [] rf3 _.
  { apply wp_bind, wp_update; intros; by apply wp_ret. }
  apply wp_bind, wp_get_store. destruct (utxo_apply_compute_block_delta _ _ _ _) as [s|f] eqn:Es.
  2: { apply wp_bind, wp_update; intros; by apply wp_ret. }
  apply wp_bind. assert (forall wf', wp (if author_stage env then stage_apply_coins_kv s (i32 cur) else mret true)
    (fun ok w' => ok = true -> exists wf', w' = World (if author_stage env then set_coins (apply_coins_kv s (i32 cur)) p else p) n wf' rf3)
    (World p n wf' rf3)) as Hap.
  { intros wf'. destruct (author_stage env); [apply wp_stage_apply; [|done]; eauto|apply wp_ret; eauto]. }
  eapply wp_mono; [apply Hap|]. intros [] w1 Hw; [|by apply wp_ret]. destruct (Hw eq_refl) as [wf1 ->]. cbn [negb].
  apply wp_bind. unfold utxo_apply_delta_persist. destruct (bi_hash bi) as [hash|] eqn:Eh; [|by apply wp_ret].
  apply wp_update; intros wf2; [|by apply wp_ret]. cbn [negb].
  apply wp_bind, wp_record_nullifiers. intros n' wf3.
  apply wp_bind, wp_update; intros wf4; [|by apply wp_ret]. cbn [negb].
  apply wp_bind, wp_update; intros wf5; [|by apply wp_ret]. cbn [negb]. apply wp_ret. intros _.
  exists bi, txs, s, hash. by split_and!.
Qed.

(** ** What the unwind does to the store *)

(** The coins after the stored inverses of [n] heights from [h] down *)
Fixpoint inverse_down (deltas : gmap Z delta_row) (n : nat) (h : Z) (t : coins_table) : option coins_table :=
  match n with
  | O => Some t
  | S n =>
      match deltas !! h with
      | None => inverse_down deltas n (h - 1) t
      | Some r => t ← utxo_apply_emit_inverse_delta (row_spent_blob r) (row_added_blob r) t; inverse_down deltas n (h - 1) t
      end
  end.

Lemma wp_emit_adds fuel b Q p n wf rf :
  (forall wf', Q true (World (set_coins (inverse_adds fuel b) p) n wf' rf)) ->
  (forall t wf', Q false (World (set_coins (fun _ => t) p) n wf' rf)) ->
  wp (emit_inverse_adds fuel b) Q (World p n wf rf).
Proof.
  revert b p wf. induction fuel as [|fuel IH]; intros b p wf Ht Hf; cbn [emit_inverse_adds].
  { apply wp_ret. destruct p. apply Ht. }
  destruct (blob_take 32 b ≫= _) as [[[txid vout] b']|] eqn:E.
  - apply wp_bind, wp_update; intros wf'.
    + apply IH; [|intros t wf2; apply Hf]. intros wf2. specialize (Ht wf2). cbn [inverse_adds] in Ht. rewrite E in Ht. done.
    + apply wp_ret. destruct p as [t ? ? ? ? ? ?]. apply (Hf t).
  - apply wp_ret. specialize (Ht wf). cbn [inverse_adds] in Ht. rewrite E in Ht. by destruct p.
Qed.

Lemma wp_emit_spends fuel b Q p n wf rf :
  (forall t wf', inverse_spends fuel b (p_coins p) = Some t -> Q true (World (set_coins (fun _ => t) p) n wf' rf)) ->
  (forall t wf', Q false (World (set_coins (fun _ => t) p) n wf' rf)) ->
  wp (emit_inverse_spends fuel b) Q (World p n wf rf).
Proof.
  revert b p wf. induction fuel as [|fuel IH]; intros b p wf Ht Hf; destruct b as [|x b]; cbn [emit_inverse_spends].
  1, 3: apply wp_ret; specialize (Ht (p_coins p) wf eq_refl); by destruct p.
  { apply wp_ret. specialize (Hf (p_coins p) wf). by destruct p. }
  destruct (parse_spent (x :: b)) as [[e b']|] eqn:E.
  - apply wp_bind, wp_update; intros wf'.
    + apply IH; [|intros t wf2; apply (Hf t)]. intros t wf2 Et. apply (Ht t). cbn [inverse_spends]. rewrite E. done.
    + apply wp_ret. specialize (Hf (p_coins p) wf'). by destruct p.
  - apply wp_ret. specialize (Hf (p_coins p) wf). by destruct p.
Qed.

Lemma wp_emit_inverse h Q p n wf rf :
  (forall t wf' rf', (rf = [] -> rf' = [] /\ inverse_down (p_delta p) 1 h (p_coins p) = Some t) ->
     Q true (World (set_coins (fun _ => t) p) n wf' rf')) ->
  (forall t wf' rf', Q false (World (set_coins (fun _ => t) p) n wf' rf')) ->
  wp (stage_emit_inverse_delta h) Q (World p n wf rf).
Proof.
  intros Ht Hf. unfold stage_emit_inverse_delta. apply wp_bind, wp_select. intros a rf' [Ha Hv].
  assert (set_coins (fun _ => p_coins p) p = p) as Eid by (by destruct p).
  destruct a as [|r| |].
  - apply wp_ret. rewrite <- Eid. apply Hf.
  - apply wp_bind, wp_emit_adds.
    + intros wf1. apply wp_bind, wp_emit_spends.
      * intros t wf2 Et. apply wp_ret. apply (Ht t). intros E. destruct (Ha E) as [-> _]. split; [done|].
        cbn [inverse_down]. rewrite Hv. unfold utxo_apply_emit_inverse_delta. cbn [set_coins p_coins] in Et. by rewrite Et.
      * intros t wf2. apply wp_ret, (Hf t).
    + intros t wf1. apply wp_bind, wp_emit_spends; intros; apply wp_ret, (Hf t0).
  - apply wp_ret. rewrite <- Eid. apply Ht. intros E. destruct (Ha E) as [-> _]. split; [done|].
    cbn [inverse_down]. by rewrite Hv.
  - apply wp_ret. rewrite <- Eid. apply Ht. intros E. destruct (Ha E) as [_ Ea]. by destruct (p_delta p !! h).
Qed.

Lemma wp_emit_inverse_down k h Q p n wf rf :
  (forall t wf' rf', (rf = [] -> rf' = [] /\ inverse_down (p_delta p) k h (p_coins p) = Some t) ->
     Q true (World (set_coins (fun _ => t) p) n wf' rf')) ->
  (forall t wf' rf', Q false (World (set_coins (fun _ => t) p) n wf' rf')) ->
  wp (emit_inverse_down k h) Q (World p n wf rf).
Proof.
  revert h p wf rf. induction k as [|k IH]; intros h p wf rf Ht Hf; cbn [emit_inverse_down].
  { apply wp_ret. specialize (Ht (p_coins p) wf rf). destruct p. apply Ht. done. }
  apply wp_bind, wp_emit_inverse.
  - intros t wf1 rf1 H1. apply IH.
    + intros t2 wf2 rf2 H2. apply (Ht t2). intros E. destruct (H1 E) as [E1 Ht1]. destruct (H2 E1) as [-> Ht2].
      split; [done|]. cbn [inverse_down set_coins p_coins p_delta] in *. destruct (p_delta p !! h) as [r|]; [|by simplify_eq].
      destruct (utxo_apply_emit_inverse_delta _ _ _) as [t'|]; [|done]. cbn in Ht1 |- *. by simplify_eq.
    + intros t2 wf2 rf2. apply (Hf t2).
  - intros t wf1 rf1. apply wp_ret, (Hf t).
Qed.

(** The stored branch hash of a height *)
Definition recorded_hash (p : progress) (h : Z) : option uint256_t :=
  r ← p_delta p !! h; if zlen (row_branch_hash r) =? 32 then Some (row_branch_hash r) else None.

(** The hash of the active chain at a height *)
Definition active_hash (env : tick) (h : Z) : option uint256_t := active_chain_at (chain_active env) h ≫= bi_hash.

Definition row_matches (env : tick) (p : progress) (h : Z) : bool :=
  match recorded_hash p h, active_hash env h with Some r, Some a => uint256_eq r a | _, _ => false end.

Lemma wp_delta_branch_hash_at h Q p n wf rf :
  (forall hv rf', (rf = [] -> rf' = [] /\ hv = recorded_hash p h) -> (hv = recorded_hash p h \/ hv = None) ->
     Q (Some hv) (World p n wf rf')) ->
  (forall rf', rf <> [] -> Q None (World p n wf rf')) -> wp (delta_branch_hash_at h) Q (World p n wf rf).
Proof.
  intros Hs Hn. unfold delta_branch_hash_at. apply wp_bind, wp_select. intros a rf' [Ha Hv]. apply wp_ret.
  unfold recorded_hash in *. destruct a as [|r| |].
  - apply Hn. intros ->. destruct (Ha eq_refl) as [_ E]. by destruct (p_delta p !! h).
  - apply Hs; rewrite Hv; [|by left]. intros E. by destruct (Ha E).
  - apply Hs; rewrite Hv; [|by left]. intros E. by destruct (Ha E).
  - apply Hs; [|by right]. intros E. destruct (Ha E) as [_ E']. by destruct (p_delta p !! h).
Qed.

(** A height found by the walk matches the active chain; without failed reads it is the
    highest one that does. *)
Lemma wp_find_fork env k h Q p n wf rf : Z.of_nat k = h + 1 ->
  (forall f rf', -1 <= f <= h -> (f = -1 \/ row_matches env p f = true) ->
     (rf = [] -> rf' = [] /\ forall j, f < j <= h -> row_matches env p j = false) ->
     Q (Some f) (World p n wf rf')) ->
  (forall rf', rf <> [] -> Q None (World p n wf rf')) -> wp (find_fork env k h) Q (World p n wf rf).
Proof.
  revert h rf. induction k as [|k IH]; intros h rf Hk Hs Hn; cbn [find_fork].
  { apply wp_ret, Hs; [lia|by left|]. intros ->. split; [done|]. lia. }
  assert (forall rf', (rf = [] -> rf' = [] /\ row_matches env p h = false) ->
    wp (find_fork env k (h - 1)) Q (World p n wf rf')) as Hnext.
  { intros rf' Hr. apply IH; [lia|..].
    - intros f rf2 Hf Hm H2. apply Hs; [lia|done|]. intros E. destruct (Hr E) as [-> Hh]. destruct (H2 eq_refl) as [-> Hj].
      split; [done|]. intros j Hj'. destruct (decide (j = h)) as [->|]; [done|]. apply Hj. lia.
    - intros rf2 H2. apply Hn. intros E. destruct (Hr E) as [-> _]. done. }
  apply wp_bind, wp_delta_branch_hash_at; [|intros; by apply wp_ret, Hn]. intros hv rf' Hr Hv.
  change (active_chain_at (chain_active env) h ≫= bi_hash) with (active_hash env h).
  assert (rf = [] -> row_matches env p h = match hv, active_hash env h with Some r, Some a => uint256_eq r a | _, _ => false end) as Hm.
  { intros E. destruct (Hr E) as [_ ->]. done. }
  destruct hv as [rec|]; [|apply Hnext; intros E; split; [apply Hr, E|by rewrite Hm]].
  destruct (active_hash env h) as [act|] eqn:Ea; [|apply Hnext; intros E; split; [apply Hr, E|by rewrite Hm]].
  destruct (uint256_eq rec act) eqn:Eq; [|apply Hnext; intros E; split; [apply Hr, E|by rewrite Hm]].
  apply wp_ret, Hs; [lia|right|].
  - unfold row_matches. destruct Hv as [<-|]; [|done]. by rewrite Ea.
  - intros E. split; [apply Hr, E|]. lia.
Qed.

(** The store after blocks above [fork] have been disconnected *)
Definition unwound_store (C fork : Z) (t : coins_table) (p : progress) : progress :=
  set_applied (fork + 1) (set_cursor (i64 (fork + 1)) (set_delta (delete_heights (fork + 1) (C - 1))
    (set_log (delete_heights (fork + 1) (C - 1)) (set_coins (fun _ => t) p)))).

(** The end of the unwind transaction *)
Definition unwind_end (env : tick) (C f : Z) (p : progress) (rf : list read_fault) (ok : bool) (w' : world) : Prop :=
  if ok then
    exists t, store w' = unwound_store C f t p /\ (author_stage env = false -> t = p_coins p) /\
      (rf = [] -> read_faults w' = [] /\
         (author_stage env = true -> inverse_down (p_delta p) (Z.to_nat (C - 1 - f)) (C - 1) (p_coins p) = Some t))
  else store w' = p.

Lemma wp_unwind_txn env C f p n wf rf :
  wp (unwind_txn env C (f + 1)) (unwind_end env C f p rf) (World p n wf rf).
Proof.
  unfold unwind_txn. apply wp_bind, wp_begin; intros wf1; [|by apply wp_ret]. apply wp_bind.
  replace (C - (f + 1)) with (C - 1 - f) by lia.
  eapply (wp_mono _ (fun ok w' => if ok : bool then exists t wf2 rf2, w' = World (set_coins (fun _ => t) p) n wf2 rf2 /\
    (author_stage env = false -> t = p_coins p) /\
    (rf = [] -> rf2 = [] /\ (author_stage env = true -> inverse_down (p_delta p) (Z.to_nat (C - 1 - f)) (C - 1) (p_coins p) = Some t))
    else True)).
  - destruct (author_stage env).
    + apply wp_emit_inverse_down; [|done]. intros t wf2 rf2 Hr. exists t, wf2, rf2. split_and!; try done.
      intros E. by destruct (Hr E).
    + apply wp_ret. exists (p_coins p), wf1, rf. split_and!; try done. by destruct p.
  - intros [] w2; [|done]. intros (t & wf2 & rf2 & -> & Ht & Hr). cbn [negb].
    apply wp_bind. unfold utxo_apply_delete_rows_above.
    apply wp_bind, wp_update; intros wf3; [|done]. apply wp_update; intros wf4; [|done].
    apply wp_bind, wp_update; intros wf5; [|done]. apply wp_bind, wp_update; intros wf6; [|done].
    apply wp_bind, wp_write_fate. intros [] wf7; [|done]. apply wp_ret. by exists t.
Qed.

(** The unwind leaves the store alone, or disconnects down to a height of the active chain
    at most [ZCL_FINALITY_DEPTH] below the last applied block. *)
Record unwound (env : tick) (p : progress) (rf : list read_fault) (C f : Z) (w' : world) : Prop := Unwound {
  unwound_cursor : exists c, p_cursor p = Some c /\ C = u64 c;
  unwound_range : 0 < C <= INT32_MAX /\ -1 <= f <= C - 2;
  unwound_depth : C - 1 - f <= ZCL_FINALITY_DEPTH;
  unwound_fork : f = -1 \/ row_matches env p f = true;
  unwound_highest : rf = [] -> forall j, f < j < C -> row_matches env p j = false;
  unwound_end : unwind_end env C f p rf true w';
}.

(** Why nothing is disconnected *)
Definition no_divergence (env : tick) (p : progress) : Prop :=
  let C := default 0 (u64 <$> p_cursor p) in
  C = 0 \/ recorded_hash p (C - 1) = None \/ active_hash env (C - 1) = None \/ row_matches env p (C - 1) = true.

Lemma unwind_spec env p n wf rf :
  wp (utxo_apply_reorg_unwind_if_needed env) (fun ok w' =>
    (store w' = p /\ (ok = true -> rf = [] -> read_faults w' = [] /\ no_divergence env p)) \/
    (ok = true /\ exists C f, unwound env p rf C f w')) (World p n wf rf).
Proof.
  unfold utxo_apply_reorg_unwind_if_needed, stage_cursor_persisted. apply wp_bind, wp_bind, wp_select.
  intros a rf1 [Ha Hv]. apply wp_ret. set (C := match a with Row c => u64 c | _ => 0 end).
  assert (rf = [] -> C = default 0 (u64 <$> p_cursor p)) as HC.
  { intros E. destruct (Ha E) as [_ Ea]. subst C. rewrite Ea. by destruct (p_cursor p). }
  destruct (Z.eqb_spec C 0) as [E0|E0].
  { apply wp_ret. left. split; [done|]. intros _ E. split; [by apply Ha|]. left. by rewrite <- HC. }
  case_if; [apply wp_ret; by left|]. apply wp_bind, wp_delta_branch_hash_at; [|intros; apply wp_ret; by left].
  intros hv rf2 Hr Hv2.
  assert (forall w, store w = p -> read_faults w = rf2 ->
    (rf = [] -> recorded_hash p (C - 1) = None \/ active_hash env (C - 1) = None \/ row_matches env p (C - 1) = true) ->
    wp (mret true) (fun ok w' =>
      (store w' = p /\ (ok = true -> rf = [] -> read_faults w' = [] /\ no_divergence env p)) \/
      (ok = true /\ exists C f, unwound env p rf C f w')) w) as Hstay.
  { intros w Ew Erf Hd. apply wp_ret. left. split; [done|]. intros _ E. rewrite Erf. destruct (Ha E) as [E1 _].
    split; [by apply Hr|]. unfold no_divergence. rewrite <- (HC E). right. by apply Hd. }
  destruct hv as [rec|]; [|apply Hstay; [done..|]; intros E; destruct (Ha E) as [E1 _]; destruct (Hr E1) as [_ Eh]; by left].
  change (active_chain_at (chain_active env) (C - 1) ≫= bi_hash) with (active_hash env (C - 1)).
  destruct (active_hash env (C - 1)) as [act|] eqn:Ea; [|apply Hstay; try done; intros _; right; by left].
  assert (row_matches env p (C - 1) = uint256_eq rec act) as Hm.
  { unfold row_matches. rewrite Ea. destruct Hv2 as [<-|]; done. }
  destruct (uint256_eq rec act) eqn:Eq; [apply Hstay; try done; intros _; by right; right|].
  assert (exists c, p_cursor p = Some c /\ C = u64 c) as Hc.
  { destruct a as [|c| |]; try done. by exists c. }
  assert (0 <= C) by (destruct Hc as (c & _ & ->); by apply uwrap_range).
  apply wp_bind, wp_find_fork; [lia|..].
  - intros f rf3 Hf Hfm Hr3. destruct (reorg_is_allowed (C - 1) f) eqn:Eal; [|apply wp_ret; by left]. cbn [negb].
    eapply wp_mono; [apply wp_unwind_txn|]. intros [] w' Hend; [|by left]. right. split; [done|]. exists C, f. split.
    + done.
    + split; lia.
    + apply reorg_is_allowed_spec in Eal; lia.
    + done.
    + intros E j Hj. destruct (Ha E) as [E1 _]. destruct (Hr E1) as [E2 _]. destruct (Hr3 E2) as [_ Hj2].
      destruct (decide (j = C - 1)) as [->|]; [done|]. apply Hj2. lia.
    + destruct Hend as (t & Hs & Hau & Hr4). exists t. split_and!; try done. intros E.
      destruct (Ha E) as [E1 _]. destruct (Hr E1) as [E2 _]. destruct (Hr3 E2) as [E3 _]. by apply Hr4.
  - intros rf3 _. apply wp_ret. by left.
Qed.
