(* ===== verification/UtxoHistory.v ===== *)
(** * Reachable states of the apply stage

    The invariant that ties the progress store to a chain: the coins table is what the
    reference semantics computes from a hash-linked list of blocks, the delta rows are the
    inverses of those blocks, and the cursor and the applied height are its length.  It is
    kept by every tick of UtxoStage under every schedule of failing writes; the section at
    the end gives the schedules and blocks on which it, or the node database, breaks. *)

From stdpp Require Import gmap.
From S2P Require Import Prelude Serialize Script Transaction Params Block CoinsMath Coins UtxoDelta Finality UtxoStage.

(** ** The cursor and the applied height *)

Definition frontier_ok (p : progress) : Prop := p_applied p = i32 <$> p_cursor p.

Lemma i32_i64 x : i32 (i64 x) = i32 x.
Proof.
  unfold swrap. change (64 - 1) with 63. change (32 - 1) with 31.
  pose proof (Z.div_mod (x + 2 ^ 63) (2 ^ 64) ltac:(lia)) as E.
  replace ((x + 2 ^ 63) mod 2 ^ 64 - 2 ^ 63 + 2 ^ 31) with (x + 2 ^ 31 + (- ((x + 2 ^ 63) / 2 ^ 64) * 2 ^ 32) * 2 ^ 32) by lia.
  by rewrite Z.mod_add.
Qed.

(** One tick *)
Lemma tick_spec params lookup env p n wf rf :
  wp (utxo_apply_stage_step_once params lookup env) (fun r w' =>
    exists p1, (p1 = p /\ (r = JOB_ADVANCED -> rf = [] -> no_divergence env p) \/
                exists C f w1, unwound env p rf C f w1 /\ store w1 = p1) /\
      if decide (r = JOB_ADVANCED) then
        let cur := default 0 (u64 <$> p_cursor p1) in
        exists bi txs s hash, 0 <= i32 cur /\ active_chain_at (chain_active env) (i32 cur) = Some bi /\
          reader env bi = Some txs /\ bi_hash bi = Some hash /\
          utxo_apply_compute_block_delta params (u32 (i32 cur)) (lookup (p_coins p1)) txs = Ok s /\
          cur < u64 (cur + 1) /\ store w' = set_cursor (i64 (u64 (cur + 1))) (advanced_store env cur hash s p1)
      else store w' = p1) (World p n wf rf).
Proof.
  unfold utxo_apply_stage_step_once. apply wp_bind. eapply wp_mono; [apply unwind_spec|].
  intros ok w1 Hw1. destruct w1 as [p1 n1 wf1 rf1]. cbn [store read_faults] in Hw1.
  assert (ok = false -> p1 = p) as Hno by (intros ->; destruct Hw1 as [[-> _]|[? _]]; done).
  destruct ok; cbn [negb].
  2: { apply wp_ret. exists p. rewrite decide_False by done. split; [by left|]. by apply Hno. }
  eapply wp_mono; [apply run_once_atomic|]. intros r w' Hr. exists p1. split.
  { destruct Hw1 as [[-> Hd]|[_ (C & f & Hu)]]; [left; split; [done|]; intros _ E; by apply Hd|].
    right. by exists C, f, (World p1 n1 wf1 rf1). }
  cbn beta in Hr. destruct (decide (r = JOB_ADVANCED)) as [->|]; [|done].
  destruct Hr as (cur & wf2 & rf2 & o & w2 & _ & -> & Es & Eo & Hlt & Est).
  destruct (wp_run _ _ _ _ _ (step_apply_advanced params lookup env _ p1 n1 wf2 rf2) Es Eo)
    as (bi & txs & s & hash & Hh & Hbi & Hrd & Hhash & Hs & Ec & Hst).
  rewrite Ec in *. cbn zeta. exists bi, txs, s, hash. by rewrite <- Hst.
Qed.

Lemma frontier_unwound C f t p : 0 <= f + 1 < 2 ^ 31 -> frontier_ok (unwound_store C f t p).
Proof.
  intros Hf. unfold frontier_ok, unwound_store. cbn. by rewrite i32_i64, swrap_small by (unfold is_s; lia).
Qed.

Lemma frontier_advanced env cur hash s c p : frontier_ok (set_cursor (i64 (u64 c)) (advanced_store env cur hash s p)) <->
  i32 (u64 (cur + 1)) = i32 (u64 c).
Proof. unfold frontier_ok, advanced_store. cbn. rewrite i32_i64. split; congruence. Qed.

Lemma frontier_tick params lookup env w : frontier_ok (store w) ->
  frontier_ok (store (utxo_apply_stage_step_once params lookup env w).2).
Proof.
  destruct w as [p n wf rf]. cbn [store]. intros Hp.
  destruct (tick_spec params lookup env p n wf rf) as (p1 & Hun & Hr).
  assert (frontier_ok p1) as Hp1.
  { destruct Hun as [[-> _]|(C & f & w1 & Hu & <-)]; [done|].
    destruct (unwound_end _ _ _ _ _ _ Hu) as (t & -> & _). apply frontier_unwound.
    destruct (unwound_range _ _ _ _ _ _ Hu) as [HC Hf]. unfold INT32_MAX in *. lia. }
  case_decide; [|by rewrite Hr]. destruct Hr as (bi & txs & s & hash & _ & _ & _ & _ & _ & _ & ->).
  by apply frontier_advanced.
Qed.

(** A store without an applied height but with a cursor, as older versions left it, is
    repaired at start; nothing else is changed. *)
Lemma frontier_backfill w : (p_applied (store w) = None \/ frontier_ok (store w)) ->
  let r := coins_kv_backfill_applied_height_if_absent w in
  (r.1 = true -> frontier_ok (store r.2)) /\ p_coins (store r.2) = p_coins (store w) /\ p_cursor (store r.2) = p_cursor (store w).
Proof.
  destruct w as [p n wf rf]. cbn [store]. intros Hp.
  change (wp coins_kv_backfill_applied_height_if_absent (fun ok w' => (ok = true -> frontier_ok (store w')) /\
    p_coins (store w') = p_coins p /\ p_cursor (store w') = p_cursor p) (World p n wf rf)).
  unfold coins_kv_backfill_applied_height_if_absent, coins_kv_get_applied_height, utxo_apply_cursor_persisted.
  apply wp_bind, wp_bind, wp_select. intros a rf1 [_ Ha]. apply wp_ret.
  destruct a as [|h| |]; try (by apply wp_ret).
  { apply wp_ret. split; [|done]. intros _. cbn. destruct Hp as [E|E]; [congruence|done]. }
  apply wp_bind, wp_bind, wp_select. intros a2 rf2 [_ Ha2]. apply wp_ret. destruct a2 as [|c| |]; try (by apply wp_ret).
  - apply wp_bind, wp_begin; intros wf1; [|by apply wp_ret]. apply wp_bind, wp_update; intros wf2; [|done].
    apply wp_bind, wp_write_fate. intros [] wf3; [|done]. apply wp_ret. split; [|done]. intros _.
    unfold frontier_ok. cbn. by rewrite Ha2.
  - apply wp_ret. split; [|done]. intros _. unfold frontier_ok. cbn. by rewrite Ha, Ha2.
Qed.

(** C32: Whatever statements fail, in whatever order ticks advance, block, unwind or abort, the
    applied height co-committed with the coins equals the stage cursor after every drain. *)
Theorem frontier_lockstep params lookup ticks w : frontier_ok (store w) ->
  frontier_ok (store (utxo_apply_stage_drain params lookup ticks w).2).
Proof.
  revert w. induction ticks as [|env ticks IH]; intros w Hw; [done|]. cbn [utxo_apply_stage_drain].
  unfold mbind, sql_bind. pose proof (frontier_tick params lookup env w Hw) as H1.
  destruct (utxo_apply_stage_step_once params lookup env w) as [[] w1]; cbn [snd] in H1; try done.
  specialize (IH w1 H1). by destruct (utxo_apply_stage_drain params lookup ticks w1).
Qed.

(** ** Tables of coins that come from transactions *)

Section History.
Context (params : consensus_params) (lookup : coins_table -> outpoint -> option utxo_apply_lookup).

(** The outputs a transaction id stands for, and whether it is a coinbase's: ids commit to
    transactions ([txid_commits] in Transaction) *)
Context (outs : uint256_t -> list tx_out * bool).

Definition tx_known (tx : transaction) : Prop := outs (tx_hash tx) = (vout tx, transaction_is_coinbase tx).

(** Every coin is a non-null output of the transaction of its id *)
Definition from_outs (t : coins_table) : Prop := forall op c, t !! op = Some c ->
  coin_coinbase c = (outs (op_hash op)).2 /\
  exists i o, op_n op = Z.of_nat i /\ (outs (op_hash op)).1 !! i = Some o /\ tx_out_is_null o = false.

Record good_table (t : coins_table) : Prop := GoodTable {
  good_rows : table_ok t;
  good_outs : from_outs t;
  good_uniform : txid_uniform t;
}.

Definition delta_ok (h : Z) (t : coins_table) (s : delta_summary) : Prop :=
  acc_ok h t {| acc_spent := spent s; acc_added := added s; acc_total := total_value_delta s |}.

(** A row of the table after a block is an old row, or a created one with the height of the block. *)
Lemma apply_row h t s op c : delta_ok h t s -> apply_coins_kv s h t !! op = Some c ->
  t !! op = Some c \/ exists e, e ∈ added s /\ d_outpoint e = op /\ c = entry_coin h e.
Proof.
  intros Ha. rewrite apply_lookup. case_decide; [done|]. intros Ex.
  destruct (decide (op ∈ map d_outpoint (added s))) as [Hin|Hin].
  - right. apply list_elem_of_fmap in Hin as (e & -> & He). exists e. split_and!; try done.
    pose proof (added_lookup h t _ e Ha He) as El. cbn [acc_added] in El. congruence.
  - left. by rewrite extended_other in Ex.
Qed.

Lemma created_known txs e : Forall tx_known txs -> e ∈ mjoin (map created txs) ->
  d_coinbase e = (outs (d_txid e)).2 /\
  exists i o, d_vout e = Z.of_nat i /\ (outs (d_txid e)).1 !! i = Some o /\ tx_out_is_null o = false.
Proof.
  intros Hk He. apply list_elem_of_join in He as (l & He & Hl). apply list_elem_of_fmap in Hl as (tx & -> & Htx).
  rewrite Forall_forall in Hk. specialize (Hk tx Htx). unfold tx_known in Hk.
  apply created_from_spec in He as (i & o & Ho & Hn & ->). cbn. rewrite Hk. split; [done|]. exists i, o. by split_and!.
Qed.

Lemma created_complete txs txid i o : Forall tx_known txs -> (exists e, e ∈ mjoin (map created txs) /\ d_txid e = txid) ->
  (outs txid).1 !! i = Some o -> tx_out_is_null o = false ->
  {| op_hash := txid; op_n := Z.of_nat i |} ∈ map d_outpoint (mjoin (map created txs)).
Proof.
  intros Hk (e & He & Et) Ho Hn. apply list_elem_of_join in He as (l & He & Hl).
  apply list_elem_of_fmap in Hl as (tx & -> & Htx). rewrite Forall_forall in Hk. pose proof (Hk tx Htx) as Hkt. unfold tx_known in Hkt.
  apply created_from_spec in He as (j & o' & _ & _ & ->). cbn in Et. subst txid. rewrite Hkt in Ho. cbn in Ho.
  apply list_elem_of_fmap. eexists {| d_txid := tx_hash tx; d_vout := 0 + Z.of_nat i; d_value := value o;
    d_script := script_pub_key o; d_coinbase := transaction_is_coinbase tx; d_height := 0 |}.
  split; [unfold d_outpoint; cbn; f_equal; lia|]. apply list_elem_of_join. exists (created tx). split.
  - apply created_from_spec. by exists i, o.
  - by apply list_elem_of_fmap_2.
Qed.

(** A block whose delta is accepted keeps the table good: the collision check on outpoints
    excludes a second transaction with the id of a live coin. *)
Lemma apply_good h t s txs : 0 <= h < 2 ^ 31 -> good_table t -> delta_ok h t s -> Forall tx_known txs ->
  added s = mjoin (map created txs) -> good_table (apply_coins_kv s h t).
Proof.
  intros Hh [Hok Hfrom Huni] Ha Hk Ead.
  assert (forall e, e ∈ added s -> coin_height (entry_coin h e) = h) as Hht.
  { intros e _. cbn. by rewrite swrap_small by (unfold is_s; lia). }
  split.
  - intros op c [Ht|(e & He & <- & ->)]%(apply_row _ _ _ _ _ Ha); [by apply (Hok op c)|].
    destruct (added_fresh _ _ _ Ha e He) as (_ & _ & Hn & Hv & Hs). unfold coin_row_ok.
    rewrite Hht by done. cbn. split_and!; try lia; apply Hv.
  - intros op c [Ht|(e & He & <- & ->)]%(apply_row _ _ _ _ _ Ha); [by apply (Hfrom op c)|].
    rewrite Ead in He. by apply created_known with (txs := txs).
  - assert (forall op c e, t !! op = Some c -> e ∈ added s -> op_hash op = d_txid e -> False) as Hdis.
    { intros op c e Hc He E. destruct (Hfrom op c Hc) as (_ & i & o & Ei & Ho & Hn).
      rewrite E in Ho. rewrite Ead in He. pose proof (created_complete txs (d_txid e) i o Hk (ex_intro _ e (conj He eq_refl)) Ho Hn) as Hin.
      rewrite <- Ead in Hin. apply list_elem_of_fmap in Hin as (e' & Eop & He').
      pose proof (added_fresh _ _ _ Ha e' He') as (Hfree & _). rewrite <- Eop, <- E, <- Ei in Hfree.
      assert ({| op_hash := op_hash op; op_n := op_n op |} = op) as Eo by (by destruct op). rewrite Eo in Hfree. congruence. }
    intros op op' c c' Hc Hc' E.
    apply (apply_row _ _ _ _ _ Ha) in Hc as [Ht|(e & He & <- & ->)];
      apply (apply_row _ _ _ _ _ Ha) in Hc' as [Ht'|(e' & He' & <- & ->)].
    + by apply (Huni op op').
    + by destruct (Hdis op c e').
    + by destruct (Hdis op' c' e).
    + rewrite !Hht by done. split; [done|]. rewrite Ead in He, He'. cbn.
      destruct (created_known txs e Hk He) as [-> _]. destruct (created_known txs e' Hk He') as [-> _].
      cbn in E. by rewrite E.
Qed.

(** ** Histories *)

Record applied_block := AppliedBlock {
  ab_hash : uint256_t;
  ab_prev : option uint256_t;
  ab_txs : list transaction;
  ab_delta : delta_summary;
}.

Fixpoint replay (h : Z) (t : coins_table) (l : list applied_block) : coins_table :=
  match l with [] => t | b :: r => replay (h + 1) (apply_coins_kv (ab_delta b) h t) r end.

(** No transaction of the block spends an output of the block *)
Definition unchained (s : delta_summary) : Prop := forall op, op ∈ map d_outpoint (spent s) -> op ∉ map d_outpoint (added s).

Record block_ok (h : Z) (t : coins_table) (b : applied_block) : Prop := BlockOk {
  block_delta : delta_ok h t (ab_delta b);
  block_unchained : unchained (ab_delta b);
  block_connects : connect_txs h (ab_txs b) t = Some (apply_coins_kv (ab_delta b) h t);
  block_hash_fixed : fixed 32 (ab_hash b);
  block_value : table_value (apply_coins_kv (ab_delta b) h t) <=
    table_value t + get_block_subsidy params h + sum_Z (map net_unshielded (tail (ab_txs b)));
}.

Fixpoint blocks_ok (h : Z) (t : coins_table) (l : list applied_block) : Prop :=
  good_table t /\
  match l with [] => True | b :: r => block_ok h t b /\ blocks_ok (h + 1) (apply_coins_kv (ab_delta b) h t) r end.

Definition linked (l : list applied_block) : Prop := forall i b b',
  l !! i = Some b -> l !! S i = Some b' -> ab_prev b' = Some (ab_hash b).

Definition block_row (b : applied_block) : delta_row :=
  {| row_branch_hash := ab_hash b; row_spent_blob := serialize_spent (ab_delta b); row_added_blob := serialize_added (ab_delta b) |}.

(** The store holds the blocks [l] applied from height [base] on the table [t0]. *)
Record history (base : Z) (t0 : coins_table) (l : list applied_block) (p : progress) : Prop := History {
  h_range : 0 <= base /\ base + zlen l <= INT32_MAX;
  h_base : base = 0 \/ ZCL_FINALITY_DEPTH < base;
  h_cursor : default 0 (p_cursor p) = base + zlen l;
  h_coins : p_coins p = replay base t0 l;
  h_rows : forall i b, l !! i = Some b -> p_delta p !! (base + Z.of_nat i) = Some (block_row b);
  h_below : forall k, k < base -> p_delta p !! k = None;
  h_blocks : blocks_ok base t0 l;
  h_linked : linked l;
}.

Lemma replay_snoc h t l b : replay h t (l ++ [b]) = apply_coins_kv (ab_delta b) (h + zlen l) (replay h t l).
Proof.
  revert h t. induction l as [|a l IH]; intros h t; cbn [app replay].
  - unfold zlen. cbn. by rewrite Z.add_0_r.
  - rewrite IH, zlen_cons. by replace (h + (zlen l + 1)) with (h + 1 + zlen l) by lia.
Qed.

Lemma blocks_ok_snoc h t l b : blocks_ok h t (l ++ [b]) <->
  blocks_ok h t l /\ block_ok (h + zlen l) (replay h t l) b /\ good_table (replay h t (l ++ [b])).
Proof.
  revert h t. induction l as [|a l IH]; intros h t; cbn [app blocks_ok replay].
  - unfold zlen. cbn [length]. rewrite Z.add_0_r. cbn [app]. tauto.
  - rewrite IH, zlen_cons. replace (h + (zlen l + 1)) with (h + 1 + zlen l) by lia. cbn [app]. tauto.
Qed.

Lemma blocks_ok_good h t l : blocks_ok h t l -> good_table (replay h t l).
Proof. revert h t. induction l as [|b l IH]; intros h t [Hg Hr]; [done|]. cbn. apply IH, Hr. Qed.

Lemma blocks_ok_take h t l k : blocks_ok h t l -> blocks_ok h t (take k l).
Proof.
  revert h t k. induction l as [|b l IH]; intros h t k; [by destruct k|]. intros (Hg & Hb & Hr).
  destruct k; cbn; [done|]. split_and!; try done. by apply IH.
Qed.

Lemma linked_take l k : linked l -> linked (take k l).
Proof.
  intros Hl i b b' Hi Hs. apply lookup_take_Some in Hi as [Hi _], Hs as [Hs _]. by apply (Hl i).
Qed.

Lemma linked_snoc l b : linked l -> (forall a, last l = Some a -> ab_prev b = Some (ab_hash a)) -> linked (l ++ [b]).
Proof.
  intros Hl Hb i a a' Hi Hs. destruct (decide (S i < length l)%nat) as [Hlt|Hge].
  - rewrite lookup_app_l in Hi, Hs by lia. by apply (Hl i).
  - pose proof (lookup_lt_Some _ _ _ Hs) as Hlt. rewrite length_app in Hlt. cbn in Hlt.
    rewrite lookup_app_l in Hi by lia. rewrite lookup_app_r in Hs by lia.
    replace (S i - length l)%nat with O in Hs by lia. injection Hs as <-. apply Hb.
    rewrite last_lookup. by replace (pred (length l)) with i by lia.
Qed.

(** Disconnecting an unchained block restores the table. *)
Lemma inverse_block h t b : 0 <= h < 2 ^ 31 -> block_ok h t b ->
  utxo_apply_emit_inverse_delta (row_spent_blob (block_row b)) (row_added_blob (block_row b))
    (apply_coins_kv (ab_delta b) h t) = Some t.
Proof.
  intros Hh [Ha Hun _ _ _]. destruct (inverse_table h t (ab_delta b) Hh Ha) as (u & Eu & Hu). etrans; [exact Eu|]. f_equal.
  apply map_eq. intros op. rewrite Hu. case_decide as Hd; [|done]. destruct Hd as [Hs Hin]. by destruct (Hun op Hs).
Qed.

Lemma inverse_down_replay base t0 l deltas k : 0 <= base -> base + zlen l <= INT32_MAX -> blocks_ok base t0 l ->
  (forall i b, l !! i = Some b -> deltas !! (base + Z.of_nat i) = Some (block_row b)) -> (k <= length l)%nat ->
  inverse_down deltas k (base + zlen l - 1) (replay base t0 l) = Some (replay base t0 (take (length l - k) l)).
Proof.
  intros Hb Hmax. revert l Hmax. induction k as [|k IH]; intros l Hmax Hok Hrows Hk.
  { cbn. by rewrite Nat.sub_0_r, take_ge. }
  destruct l as [|b l _] using rev_ind; [cbn in Hk; lia|]. apply blocks_ok_snoc in Hok as (Hok & Hbk & _).
  rewrite zlen_app in *. change (zlen [b]) with 1 in *. cbn [inverse_down]. unfold INT32_MAX in *. pose proof (zlen_nonneg l).
  replace (base + (zlen l + 1) - 1) with (base + zlen l) by lia.
  change (zlen l) with (Z.of_nat (length l)) at 1. rewrite (Hrows (length l) b) by by apply list_lookup_middle.
  rewrite replay_snoc, inverse_block by (done || (split; lia)). cbn [mbind option_bind].
  rewrite IH; [|lia|done| |rewrite length_app in Hk; cbn in Hk; lia].
  - rewrite length_app. cbn [length]. replace (length l + 1 - S k)%nat with (length l - k)%nat by lia.
    by rewrite take_app_le by lia.
  - intros i b' Hi. apply Hrows. by apply lookup_app_l_Some.
Qed.

(** ** Ticks *)

(** What a tick relies on: the stage is the author, the active chain is linked by hashes,
    blocks on disk are well formed with one coinbase at the head, their ids commit to their
    transactions, and no block spends an outpoint twice or an output of its own. *)
Record env_ok (env : tick) : Prop := EnvOk {
  env_author : author_stage env = true;
  env_height : chain_height (chain_active env) < INT32_MAX;
  env_linked : forall h bi, 0 < h -> active_chain_at (chain_active env) h = Some bi ->
    exists hh, active_hash env (h - 1) = Some hh /\ bi_prev bi = Some hh;
  env_hashes : forall h hh, active_hash env h = Some hh -> fixed 32 hh;
  env_blocks : forall bi txs, reader env bi = Some txs ->
    Forall delta_tx_ok txs /\ Forall tx_known txs /\ coinbase_first txs /\ NoDup (mjoin (map spends txs)) /\
    forall op, op ∈ mjoin (map spends txs) -> op ∉ map d_outpoint (mjoin (map created txs));
}.

Hypothesis Hlookup : forall t op, good_table t -> 0 <= op_n op -> lookup t op = Some (live_coin t op).

(** The last block of a history is the active chain's at its height *)
Definition on_chain (env : tick) (base : Z) (l : list applied_block) : Prop :=
  forall b, last l = Some b -> active_hash env (base + zlen l - 1) = Some (ab_hash b).

Lemma blocks_ok_lookup h t l i b : blocks_ok h t l -> l !! i = Some b -> block_ok (h + Z.of_nat i) (replay h t (take i l)) b.
Proof.
  intros Hb Hi. rewrite <- (take_drop_middle l i b Hi) in Hb.
  change (b :: drop (S i) l) with ([b] ++ drop (S i) l) in Hb. rewrite app_assoc in Hb.
  apply (blocks_ok_take _ _ _ (length (take i l ++ [b]))) in Hb. rewrite take_app_length in Hb.
  apply blocks_ok_snoc in Hb as (_ & Hb & _). apply lookup_lt_Some in Hi.
  by replace (zlen (take i l)) with (Z.of_nat i) in Hb by (unfold zlen; rewrite length_take; lia).
Qed.

Lemma recorded_row base t0 l p i b : history base t0 l p -> l !! i = Some b ->
  recorded_hash p (base + Z.of_nat i) = Some (ab_hash b) /\ fixed 32 (ab_hash b).
Proof.
  intros Hh Hi. unfold recorded_hash. rewrite (h_rows _ _ _ _ Hh i b Hi). cbn.
  pose proof (block_hash_fixed _ _ _ (blocks_ok_lookup _ _ _ _ _ (h_blocks _ _ _ _ Hh) Hi)) as Hf.
  split; [|done]. unfold zlen. by rewrite (proj1 Hf).
Qed.

Lemma row_matches_on_chain env base t0 l p i b : env_ok env -> history base t0 l p -> l !! i = Some b ->
  row_matches env p (base + Z.of_nat i) = true -> active_hash env (base + Z.of_nat i) = Some (ab_hash b).
Proof.
  intros He Hh Hi. unfold row_matches. destruct (recorded_row base t0 l p i b Hh Hi) as [-> Hf].
  destruct (active_hash env _) as [a|] eqn:Ea; [|done]. intros E. f_equal. symmetry.
  apply (uint256_eq_spec 32); [done|by apply (env_hashes env He _ _ Ea)|done].
Qed.

Lemma last_lookup_zlen {A} (l : list A) a : last l = Some a -> l !! (length l - 1)%nat = Some a /\ 0 < zlen l.
Proof.
  rewrite last_lookup. intros E. pose proof (lookup_lt_Some _ _ _ E). unfold zlen.
  replace (length l - 1)%nat with (pred (length l)) by lia. split; [done|lia].
Qed.

(** Disconnecting cuts the history at a block of the active chain. *)
Lemma history_unwound env base t0 l p C f w1 : env_ok env -> history base t0 l p -> unwound env p [] C f w1 ->
  exists k, (k <= length l)%nat /\ Z.of_nat k <= ZCL_FINALITY_DEPTH /\
    history base t0 (take (length l - k) l) (store w1) /\ on_chain env base (take (length l - k) l).
Proof.
  intros He Hh Hu. destruct (unwound_cursor _ _ _ _ _ _ Hu) as (c & Ec & EC).
  destruct (unwound_range _ _ _ _ _ _ Hu) as [HC Hf]. pose proof (unwound_depth _ _ _ _ _ _ Hu) as Hd.
  destruct (h_range _ _ _ _ Hh) as [Hb Hmax]. pose proof (h_cursor _ _ _ _ Hh) as Hcur. rewrite Ec in Hcur. cbn in Hcur.
  pose proof (zlen_nonneg l). unfold INT32_MAX in *. rewrite Hcur, uwrap_small in EC by (unfold is_u; lia).
  assert (base - 1 <= f) as Hfb.
  { destruct (unwound_fork _ _ _ _ _ _ Hu) as [->|Hm].
    - destruct (h_base _ _ _ _ Hh) as [->|Hbig]; [lia|]. lia.
    - unfold row_matches, recorded_hash in Hm. destruct (decide (f < base)) as [Hlt|]; [|lia].
      by rewrite (h_below _ _ _ _ Hh f Hlt) in Hm. }
  set (k := Z.to_nat (C - 1 - f)). assert (Z.of_nat k = C - 1 - f) as Ek by lia. unfold zlen in *.
  assert (k <= length l)%nat as Hk by lia. exists k. split_and!; [done|lia| |].
  - destruct (unwound_end _ _ _ _ _ _ Hu) as (t & Es & _ & Hr). destruct (Hr eq_refl) as [_ Hinv].
    specialize (Hinv (env_author env He)). fold k in Hinv.
    rewrite (h_coins _ _ _ _ Hh) in Hinv. replace (C - 1) with (base + zlen l - 1) in Hinv by (unfold zlen; lia).
    rewrite (inverse_down_replay base t0 l) in Hinv;
      [|done|unfold zlen, INT32_MAX; lia|apply (h_blocks _ _ _ _ Hh)|apply (h_rows _ _ _ _ Hh)|done].
    injection Hinv as Ht. rewrite Es. unfold unwound_store. split; unfold zlen; try rewrite length_take_le by lia.
    + unfold INT32_MAX. lia.
    + apply (h_base _ _ _ _ Hh).
    + cbn. rewrite swrap_small by (unfold is_s; lia). lia.
    + done.
    + intros i b Hi. apply lookup_take_Some in Hi as [Hi Hlt]. cbn.
      unfold delete_heights. apply map_lookup_filter_Some. split; [by apply (h_rows _ _ _ _ Hh)|]. lia.
    + intros j Hj. cbn. unfold delete_heights. apply map_lookup_filter_None. left. by apply (h_below _ _ _ _ Hh).
    + apply blocks_ok_take, (h_blocks _ _ _ _ Hh).
    + apply linked_take, (h_linked _ _ _ _ Hh).
  - intros b Hlast. apply last_lookup_zlen in Hlast as [Hi Hpos]. unfold zlen in *. rewrite length_take_le in * by lia.
    apply lookup_take_Some in Hi as [Hi Hlt]. destruct (unwound_fork _ _ _ _ _ _ Hu) as [->|Hm]; [lia|].
    pose proof (row_matches_on_chain env base t0 l p _ b He Hh Hi) as Hon.
    replace (base + Z.of_nat (length l - k - 1)) with f in Hon by lia.
    by replace (base + Z.of_nat (length l - k) - 1) with f by lia; apply Hon.
Qed.

Lemma history_cur base t0 l p : history base t0 l p ->
  default 0 (u64 <$> p_cursor p) = base + zlen l.
Proof.
  intros Hh. destruct (h_range _ _ _ _ Hh) as [Hb Hmax]. pose proof (h_cursor _ _ _ _ Hh) as Hc. unfold INT32_MAX in *.
  pose proof (zlen_nonneg l). destruct (p_cursor p) as [c|]; cbn in *; [|done]. rewrite uwrap_small by (unfold is_u; lia). done.
Qed.

(** Without a divergence the last block is the active chain's, if the chain has a next block. *)
Lemma no_divergence_on_chain env base t0 l p bi : env_ok env -> history base t0 l p -> no_divergence env p ->
  active_chain_at (chain_active env) (base + zlen l) = Some bi -> on_chain env base l.
Proof.
  intros He Hh Hd Hbi b Hlast. apply last_lookup_zlen in Hlast as [Hi Hpos]. unfold no_divergence in Hd.
  rewrite (history_cur _ _ _ _ Hh) in Hd. destruct (h_range _ _ _ _ Hh) as [Hb Hmax].
  assert (base + zlen l - 1 = base + Z.of_nat (length l - 1)) as E by (unfold zlen in *; lia).
  destruct (recorded_row base t0 l p _ b Hh Hi) as [Hrec _]. rewrite <- E in Hrec.
  destruct Hd as [Hd|[Hd|[Hd|Hd]]].
  - lia.
  - congruence.
  - destruct (env_linked env He (base + zlen l) bi ltac:(lia) Hbi) as (hh & Ehh & _). congruence.
  - rewrite E in Hd |- *. by apply (row_matches_on_chain env base t0 l p).
Qed.

(** Applying the next block extends the history. *)
Lemma history_advanced env base t0 l p bi txs s hash : env_ok env -> history base t0 l p -> on_chain env base l ->
  let cur := base + zlen l in
  active_chain_at (chain_active env) cur = Some bi -> reader env bi = Some txs -> bi_hash bi = Some hash ->
  utxo_apply_compute_block_delta params cur (lookup (p_coins p)) txs = Ok s ->
  history base t0 (l ++ [{| ab_hash := hash; ab_prev := bi_prev bi; ab_txs := txs; ab_delta := s |}])
    (set_cursor (cur + 1) (advanced_store env cur hash s p)).
Proof.
  intros He Hh Hon cur Hbi Hrd Hhash Hs. set (b := {| ab_hash := hash |}).
  destruct (env_blocks env He bi txs Hrd) as (Htx & Hk & Hcb & Hnd & Hch).
  destruct (h_range _ _ _ _ Hh) as [Hb Hmax]. pose proof (zlen_nonneg l).
  assert (cur < INT32_MAX) as Hlt.
  { pose proof (env_height env He). unfold active_chain_at in Hbi. case_if; [done|]. lia. }
  pose proof (blocks_ok_good _ _ _ (h_blocks _ _ _ _ Hh)) as Hg. rewrite <- (h_coins _ _ _ _ Hh) in Hg.
  assert (0 <= cur < 2 ^ 31) as Hcur by (unfold INT32_MAX in *; lia).
  destruct (compute_ok params cur (p_coins p) (lookup (p_coins p)) Hcur (fun op => Hlookup _ op Hg) (good_rows _ Hg) txs s Htx Hs)
    as (Ha & Esp & Hc & Hv).
  assert (Forall (fun tx => zlen (vout tx) < 2 ^ 32) txs) as Hn.
  { eapply Forall_impl; [exact Htx|]. intros tx (_ & _ & ? & _). lia. }
  pose proof (added_exact params cur _ txs s Hn Hs) as Ead.
  assert (i32 cur = cur) as Ecur by (by rewrite swrap_small by (unfold is_s; lia)).
  assert (block_ok cur (replay base t0 l) b) as Hbok.
  { rewrite <- (h_coins _ _ _ _ Hh). split; cbn; [done| | | |].
    - intros op. rewrite Esp, Ead. apply Hch.
    - apply Hc. by rewrite Esp.
    - apply (env_hashes env He cur). unfold active_hash. by rewrite Hbi.
    - rewrite apply_value; [specialize (Hv Hcb); lia|done|by rewrite Esp]. }
  assert (replay base t0 (l ++ [b]) = apply_coins_kv s cur (p_coins p)) as Erep.
  { rewrite replay_snoc, (h_coins _ _ _ _ Hh). done. }
  split; unfold advanced_store; try rewrite zlen_app; try change (zlen [b]) with 1; cbn zeta; rewrite ?(env_author env He), ?Ecur.
  - unfold INT32_MAX in *. lia.
  - apply (h_base _ _ _ _ Hh).
  - cbn. lia.
  - rewrite Erep. done.
  - intros i b' Hi. cbn [p_delta set_cursor set_applied set_log set_delta set_coins].
    destruct (decide (i = length l)) as [->|Hne].
    + rewrite list_lookup_middle in Hi by done. injection Hi as <-. unfold cur, zlen. by rewrite lookup_insert_eq.
    + pose proof (lookup_lt_Some _ _ _ Hi) as Hil. rewrite length_app in Hil. cbn in Hil. rewrite lookup_app_l in Hi by lia.
      rewrite lookup_insert_ne by (unfold cur, zlen; lia). by apply (h_rows _ _ _ _ Hh).
  - intros j Hj. cbn [p_delta set_cursor set_applied set_log set_delta set_coins].
    rewrite lookup_insert_ne by lia. by apply (h_below _ _ _ _ Hh).
  - apply blocks_ok_snoc. split_and!; [apply (h_blocks _ _ _ _ Hh)|done|].
    rewrite Erep. apply (apply_good cur _ _ txs); done.
  - apply linked_snoc; [apply (h_linked _ _ _ _ Hh)|]. intros a Hlast. specialize (Hon a Hlast).
    apply last_lookup_zlen in Hlast as [_ Hpos]. destruct (env_linked env He cur bi ltac:(lia) Hbi) as (hh & Ehh & Ep).
    cbn. rewrite Ep. f_equal. unfold cur in Ehh. congruence.
Qed.

(** A tick without failing reads cuts at most [ZCL_FINALITY_DEPTH] blocks and adds at most one. *)
Lemma history_tick env base t0 l p n wf : env_ok env -> history base t0 l p ->
  wp (utxo_apply_stage_step_once params lookup env) (fun r w' =>
    exists k new, (k <= length l)%nat /\ Z.of_nat k <= ZCL_FINALITY_DEPTH /\ (length new <= 1)%nat /\
      (r = JOB_ADVANCED <-> new <> []) /\ history base t0 (take (length l - k) l ++ new) (store w')) (World p n wf []).
Proof.
  intros He Hh. eapply wp_mono; [apply tick_spec|]. intros r w' (p1 & Hun & Hr).
  assert (exists k, (k <= length l)%nat /\ Z.of_nat k <= ZCL_FINALITY_DEPTH /\ history base t0 (take (length l - k) l) p1 /\
    (r = JOB_ADVANCED -> forall bi, active_chain_at (chain_active env) (base + zlen (take (length l - k) l)) = Some bi ->
       on_chain env base (take (length l - k) l))) as (k & Hk & Hkf & Hh1 & Hon).
  { destruct Hun as [[-> Hd]|(C & f & w1 & Hu & <-)].
    - exists O. rewrite Nat.sub_0_r, take_ge by lia. split_and!; [lia|done|done|].
      intros Er bi. apply (no_divergence_on_chain env base t0 l p bi He Hh (Hd Er eq_refl)).
    - destruct (history_unwound env base t0 l p C f w1 He Hh Hu) as (k & Hk & Hkf & Hh1 & Hon). by exists k. }
  exists k. case_decide as Er.
  - rewrite (history_cur _ _ _ _ Hh1) in Hr. destruct Hr as (bi & txs & s & hash & H0 & Hbi & Hrd & Hhash & Hs & _ & ->).
    set (l1 := take (length l - k) l) in *. destruct (h_range _ _ _ _ Hh1) as [Hb Hmax]. pose proof (zlen_nonneg l1).
    unfold INT32_MAX in *. rewrite (swrap_small 32) in Hbi, Hs by (unfold is_s; lia). rewrite uwrap_small in Hs by (unfold is_u; lia).
    eexists [_]. split_and!; [done|done|cbn; lia|done|].
    rewrite (uwrap_small 64), swrap_small by (unfold is_u, is_s; lia).
    by apply (history_advanced env base t0 l1 p1 bi txs s hash He Hh1 (Hon Er bi Hbi)).
  - exists []. rewrite app_nil_r. split_and!; [done|done|cbn; lia|done|by rewrite Hr].
Qed.

(** The states a sequence of ticks reaches, with any writes failing *)
Inductive reachable (base : Z) (t0 : coins_table) : progress -> Prop :=
  | reach_start p : history base t0 [] p -> reachable base t0 p
  | reach_tick p env n wf : reachable base t0 p -> env_ok env ->
      reachable base t0 (store (utxo_apply_stage_step_once params lookup env (World p n wf [])).2).

Lemma reachable_history_ex base t0 p : reachable base t0 p -> exists l, history base t0 l p.
Proof.
  induction 1 as [p Hp|p env n wf _ (l & Hl) He]; [by exists []|].
  destruct (history_tick env base t0 l p n wf He Hl) as (k & new & _ & _ & _ & _ & Hh). eauto.
Qed.

(** The reference semantics of a list of blocks *)
Fixpoint connect_blocks (h : Z) (blocks : list (list transaction)) (t : coins_table) : option coins_table :=
  match blocks with [] => Some t | txs :: r => t ← connect_txs h txs t; connect_blocks (h + 1) r t end.

Lemma blocks_connect h t l : blocks_ok h t l -> connect_blocks h (map ab_txs l) t = Some (replay h t l).
Proof.
  revert h t. induction l as [|b l IH]; intros h t; [done|]. intros (_ & Hb & Hr). cbn [map connect_blocks replay].
  rewrite (block_connects _ _ _ Hb). by apply IH.
Qed.

Lemma replay_value l : blocks_ok 0 ∅ l ->
  table_value (replay 0 ∅ l) <= total_issued params (length l) +
    sum_Z (map (fun b => sum_Z (map net_unshielded (tail (ab_txs b)))) l).
Proof.
  induction l as [|b l IH] using rev_ind; intros Hb.
  { vm_compute. discriminate. }
  apply blocks_ok_snoc in Hb as (Hb & Hbk & _).
  rewrite replay_snoc, map_app, sum_Z_app, length_app, Nat.add_1_r. cbn [total_issued].
  pose proof (block_value _ _ _ Hbk) as Hv. specialize (IH Hb).
  change (0 + zlen l) with (Z.of_nat (length l)) in *. unfold get_block_subsidy in Hv. fold (ok_or 0 (domain_consensus_block_subsidy params (Z.of_nat (length l)))) in Hv.
  match goal with |- context [sum_Z (map ?f [b])] => change (sum_Z (map f [b])) with (f b + 0) end. cbn beta. lia.
Qed.


(** C31: A tick never disconnects more than [ZCL_FINALITY_DEPTH] of the applied blocks and applies
    at most one, and it reports [JOB_ADVANCED] exactly when it applied one. *)
Theorem tick_respects_finality env base t0 l p n wf : env_ok env -> history base t0 l p ->
  let '(r, w') := utxo_apply_stage_step_once params lookup env (World p n wf []) in
  exists k new, (k <= length l)%nat /\ Z.of_nat k <= ZCL_FINALITY_DEPTH /\ (length new <= 1)%nat /\
    (r = JOB_ADVANCED <-> new <> []) /\ history base t0 (take (length l - k) l ++ new) (store w').
Proof.
  intros He Hl. pose proof (history_tick env base t0 l p n wf He Hl) as Hw. unfold wp in Hw.
  by destruct (utxo_apply_stage_step_once params lookup env (World p n wf [])).
Qed.


End History.

(** The production resolver is exact on good tables. *)
Lemma production_lookup `{RowScanOk} outs t op : good_table outs t -> 0 <= op_n op ->
  projection_live_lookup t op = Some (live_coin t op).
Proof. intros Hg. apply live_lookup_spec; apply Hg. Qed.
