(* ===== verification/UtxoFaults.v ===== *)
(** * Progress and faults of the apply stage

    Progress of a tick when nothing fails, a small chain with a fork on which the theorems of
    UtxoHistory are applied, and the schedules of failures and the blocks on which the stage
    does not keep its promises: a failed read of the cursor skips the unwind, a failed read of
    a delta row loses an inverse, and Sprout nullifiers, kept in another database, survive a
    rollback and a reorganisation. *)

From stdpp Require Import gmap.
From S2P Require Import Prelude Serialize Script Transaction Params Block CoinsMath Coins UtxoDelta Finality UtxoStage UtxoHistory.

(** ** Progress *)

Lemma wp_update_fine Q f p n rf : Q true (World (f p) n [] rf) -> wp (update f) Q (World p n [] rf).
Proof. done. Qed.

Lemma wp_update_all_fine {A} (f : A -> progress -> progress) l Q p n rf :
  (forall p', Q true (World p' n [] rf)) -> wp (update_all f l) Q (World p n [] rf).
Proof.
  intros HQ. revert p. induction l as [|a l IH]; intros p; cbn [update_all]; [by apply wp_ret|].
  apply wp_bind, wp_update_fine, IH.
Qed.

Lemma wp_select_fine {R} Q (f : progress -> option R) p n wf :
  Q (match f p with Some r => Row r | None => NoRow end) (World p n wf []) -> wp (select f) Q (World p n wf []).
Proof. intros HQ. apply wp_select. intros a rf' [Ha _]. destruct (Ha eq_refl) as [-> ->]. done. Qed.

Lemma wp_record_nullifiers_fine txs Q p n rf : (forall n', Q tt (World p n' [] rf)) ->
  wp (record_nullifiers txs) Q (World p n [] rf).
Proof.
  intros HQ. unfold record_nullifiers, node_db_open. apply wp_bind, wp_bind. unfold get_node_db, wp at 1. cbn [fst snd node_db].
  apply wp_ret. destruct n as [nfs|]; [|by apply wp_ret]. generalize (Some nfs) as n.
  generalize (sprout_nullifiers txs) as l. induction l as [|nf l IH]; intros n; cbn [sync_nullifiers]; [by apply wp_ret|].
  apply wp_bind. unfold node_db_sync_sprout_nullifier, wp at 1. cbn. apply IH.
Qed.

(** What the next block needs for the tick to apply it *)
Record ready (params : consensus_params) (lookup : coins_table -> outpoint -> option utxo_apply_lookup) (env : tick)
    (p : progress) (db : option (gset uint256_t)) (cur : Z) (bi : index_entry) (txs : list transaction) : Prop := Ready {
  ready_cursor : default 0 (u64 <$> p_cursor p) = cur /\ 0 <= cur < INT32_MAX;
  ready_pv : exists c, p_pv_cursor p = Some c /\ cur < u64 c;
  ready_pv_ok : exists ok, p_pv_log p !! cur = Some ok /\ ok <> 0;
  ready_chain : active_chain_at (chain_active env) cur = Some bi /\ bi_have_data bi = true /\ is_Some (bi_hash bi);
  ready_block : reader env bi = Some txs;
  ready_nullifiers : reused_in db txs = false;
  ready_delta : exists s, utxo_apply_compute_block_delta params cur (lookup (p_coins p)) txs = Ok s;
}.

Lemma unwind_idle env p n : no_divergence env p -> 0 <= default 0 (u64 <$> p_cursor p) <= INT32_MAX ->
  wp (utxo_apply_reorg_unwind_if_needed env) (fun ok w' => ok = true /\ w' = World p n [] []) (World p n [] []).
Proof.
  intros Hd HC. unfold utxo_apply_reorg_unwind_if_needed, stage_cursor_persisted.
  apply wp_bind, wp_bind, wp_select_fine, wp_ret.
  replace (match (match p_cursor p with Some r => Row r | None => NoRow end) with Row c => u64 c | _ => 0 end)
    with (default 0 (u64 <$> p_cursor p)) by (by destruct (p_cursor p)).
  unfold no_divergence in Hd. set (C := default 0 (u64 <$> p_cursor p)) in *.
  destruct (Z.eqb_spec C 0) as [|Hn]; [by apply wp_ret|]. replace (C >? INT32_MAX) with false by lia.
  apply wp_bind, wp_delta_branch_hash_at; [|done]. intros hv rf' Hr _. destruct (Hr eq_refl) as [-> ->].
  change (active_chain_at (chain_active env) (C - 1) ≫= bi_hash) with (active_hash env (C - 1)).
  destruct Hd as [?|[Hd|[Hd|Hd]]]; [done|..].
  - rewrite Hd. by apply wp_ret.
  - rewrite Hd. by destruct (recorded_hash p (C - 1)).
  - unfold row_matches in Hd. destruct (recorded_hash p (C - 1)) as [r|]; [|done].
    destruct (active_hash env (C - 1)) as [a|]; [|done]. rewrite Hd. by apply wp_ret.
Qed.

Lemma step_apply_fine params lookup env p n cur bi txs : ready params lookup env p n cur bi txs ->
  wp (step_apply params lookup env cur) (fun o w' => outcome o = JOB_ADVANCED /\ cursor_out o = cur + 1 /\ write_faults w' = [])
    (World p n [] []).
Proof.
  intros [[_ Hcur] (c & Ec & Hc) (ok & Eok & Hok) (Hbi & Hdata & [hash Hhash]) Hrd Hnf (s & Hs)].
  unfold INT32_MAX in *. assert (i32 cur = cur) as Ei by (by rewrite swrap_small by (unfold is_s; lia)).
  assert (u32 cur = cur) as Eu by (by rewrite uwrap_small by (unfold is_u; lia)).
  unfold step_apply. rewrite Ei. replace (cur <? 0) with false by lia.
  apply wp_bind. unfold stage_cursor_persisted. apply wp_bind, wp_select_fine, wp_ret. rewrite Ec.
  replace (cur >=? u64 c) with false by lia.
  apply wp_bind. unfold utxo_apply_proof_validate_log_at. apply wp_bind, wp_select_fine, wp_ret. rewrite Eok.
  replace (ok =? 0) with false by lia. rewrite Hbi, Hdata, Hrd. cbn [negb]. unfold apply_block.
  apply wp_bind, wp_nullifier_reused. intros b rf' Hb. destruct (Hb eq_refl) as [-> ->]. rewrite Hnf.
  apply wp_bind, wp_get_store. rewrite Eu, Hs. apply wp_bind.
  apply (wp_mono _ (fun ok w' => ok = true /\ exists p', w' = World p' n [] [])).
  { destruct (author_stage env); [|apply wp_ret; eauto]. unfold stage_apply_coins_kv.
    apply wp_bind, wp_update_all_fine. intros p'. apply wp_update_all_fine. eauto. }
  intros ok2 w2 [-> (p' & ->)]. cbn [negb]. apply wp_bind. unfold utxo_apply_delta_persist. rewrite Hhash.
  apply wp_update_fine. cbn [negb]. apply wp_bind, wp_record_nullifiers_fine. intros n'.
  apply wp_bind, wp_update_fine. cbn [negb]. apply wp_bind, wp_update_fine. cbn [negb]. apply wp_ret.
  split_and!; try done. cbn. by rewrite uwrap_small by (unfold is_u; lia).
Qed.

(** When no statement fails, the applied blocks have not left the active chain and the next block
    is validated upstream, on disk, free of known nullifiers and has a delta, the tick
    applies it: the stage cannot stall on such a block. *)
Theorem stage_progress params lookup env p db cur bi txs : ready params lookup env p db cur bi txs -> no_divergence env p ->
  (utxo_apply_stage_step_once params lookup env (World p db [] [])).1 = JOB_ADVANCED /\
  p_cursor (store (utxo_apply_stage_step_once params lookup env (World p db [] [])).2) = Some (cur + 1).
Proof.
  intros Hready Hd. destruct (ready_cursor _ _ _ _ _ _ _ _ Hready) as [Ecur Hcur].
  change (wp (utxo_apply_stage_step_once params lookup env) (fun r w' => r = JOB_ADVANCED /\ p_cursor (store w') = Some (cur + 1))
    (World p db [] [])).
  unfold utxo_apply_stage_step_once. apply wp_bind. eapply wp_mono; [apply unwind_idle; [done|lia]|].
  intros ok w1 [-> ->]. cbn [negb]. unfold stage_run_once, cursor_read. apply wp_bind, wp_bind, wp_select_fine, wp_ret.
  replace (match (match p_cursor p with Some r => Row r | None => NoRow end) with
    Row c => Some (u64 c) | NoRow => Some 0 | _ => None end) with (Some cur) by (by rewrite <- Ecur; destruct (p_cursor p)).
  apply wp_bind. unfold begin_immediate. apply wp_bind. unfold write_fate at 1, wp at 1. cbn [fst snd write_faults].
  apply wp_bind, wp_get_store, wp_ret, wp_bind. eapply wp_mono; [by eapply step_apply_fine|].
  intros o [p2 n2 wf2 rf2] (-> & -> & Ew). cbn in Ew. subst wf2. replace (cur + 1 <=? cur) with false by lia.
  apply wp_bind, wp_update_fine. cbn [negb]. apply wp_bind. unfold commit, write_fate, wp at 1. cbn [fst snd write_faults negb].
  apply wp_ret. split; [done|]. cbn. unfold INT32_MAX in *. by rewrite swrap_small by (unfold is_s; lia).
Qed.

(** ** A chain with a fork

    Block [a0] has the children [a1] and [b1], and [b2] is the child of [b1]; every block has
    a coinbase.  [a1] and [b1] also share a joinsplit. *)

Definition block_id (n : Z) : uint256_t := replicate 32 n.

Definition sample_js : js_description :=
  {| vpub_old := 0; vpub_new := 0; js_anchor := uint256_null; js_nullifiers := [replicate 32 7; replicate 32 8];
     js_commitments := []; js_ephemeral_key := uint256_null; js_random_seed := uint256_null; js_macs := [];
     js_use_groth := false; js_proof := []; js_ciphertexts := [] |}.

Definition sample_js_tx : transaction :=
  {| overwintered := false; version := 2; version_group_id := 0; vin := []; vout := []; lock_time := 0; expiry_height := 0;
     value_balance := 0; v_shielded_spend := []; v_shielded_output := []; v_joinsplit := [sample_js];
     joinsplit_pubkey := uint256_null; joinsplit_sig := []; binding_sig := []; tx_hash := replicate 32 5 |}.

Definition sample_blocks : list (uint256_t * list transaction) :=
  [(block_id 100, [simple_tx 1 [outpoint_set_null] [0]]);
   (block_id 101, [simple_tx 2 [outpoint_set_null] [500]; sample_js_tx]);
   (block_id 111, [simple_tx 3 [outpoint_set_null] [600]; sample_js_tx]);
   (block_id 112, [simple_tx 4 [outpoint_set_null] [700]])].

Definition sample_txs : list transaction := mjoin (map snd sample_blocks).

Definition sample_outs (id : uint256_t) : list tx_out * bool :=
  match List.find (fun tx => bool_decide (tx_hash tx = id)) sample_txs with
  | Some tx => (vout tx, transaction_is_coinbase tx)
  | None => ([], false)
  end.

Definition sample_reader (bi : index_entry) : option (list transaction) :=
  snd <$> List.find (fun b => bool_decide (Some b.1 = bi_hash bi)) sample_blocks.

Definition sample_index (n prev : Z) : index_entry :=
  {| bi_hash := Some (block_id n); bi_prev := Some (block_id prev); bi_have_data := true |}.

Definition a0 : index_entry := sample_index 100 0.
Definition a1 : index_entry := sample_index 101 100.
Definition b1 : index_entry := sample_index 111 100.
Definition b2 : index_entry := sample_index 112 111.

Definition sample_tick (l : list index_entry) : tick :=
  {| chain_active := {| chain_slots := map Some l; chain_height := zlen l - 1 |};
     reader := sample_reader; author_stage := true |}.

(** Every block is validated upstream and nothing is applied *)
Definition sample_start : progress :=
  {| p_coins := ∅; p_delta := ∅; p_log := ∅; p_cursor := None; p_applied := None; p_pv_cursor := Some 3;
     p_pv_log := {[0 := 1; 1 := 1; 2 := 1]} |}.

Abbreviation sample_step := (fun l => utxo_apply_stage_step_once init_main_params (@projection_live_lookup key_order) (sample_tick l)).

Definition sample_world (p : progress) (wf : list bool) (rf : list read_fault) : world := World p (Some ∅) wf rf.

Lemma sample_chain_at l h : active_chain_at (chain_active (sample_tick l)) h =
  if h <? 0 then None else l !! Z.to_nat h.
Proof.
  unfold active_chain_at. cbn [chain_active sample_tick chain_height chain_slots].
  destruct (Z.ltb_spec h 0); cbn [orb]; [done|]. rewrite list_lookup_fmap. destruct (Z.gtb_spec h (zlen l - 1)).
  - by rewrite lookup_ge_None_2 by (unfold zlen in *; lia).
  - by destruct (l !! Z.to_nat h).
Qed.

Lemma sample_js_tx_ok : delta_tx_ok sample_js_tx.
Proof. unfold delta_tx_ok. split_and!; try apply Forall_nil; try done. compute_decide. Qed.

(** Every sample block meets the conditions on blocks. *)
Lemma sample_reader_ok bi txs : sample_reader bi = Some txs ->
  Forall delta_tx_ok txs /\ Forall (tx_known sample_outs) txs /\ coinbase_first txs /\ NoDup (mjoin (map spends txs)) /\
  forall op, op ∈ mjoin (map spends txs) -> op ∉ map d_outpoint (mjoin (map created txs)).
Proof.
  unfold sample_reader. destruct (List.find _ sample_blocks) as [b|] eqn:Ef; [|done]. intros [= <-].
  apply List.find_some in Ef as [Hin _]. revert b Hin. apply List.Forall_forall.
  assert (forall id v, 0 <= id < 256 -> delta_tx_ok (simple_tx id [outpoint_set_null] [v])) as Hcb.
  { intros id v Hid. apply simple_tx_ok; [done| |done]. apply Forall_singleton. split; [|done]. split; [done|].
    by apply Forall_replicate. }
  pose proof sample_js_tx_ok.
  unfold sample_blocks; repeat (apply Forall_cons; split); try apply Forall_nil; try done; split_and!;
    try (repeat (apply Forall_cons; split; [by auto with lia|]); apply Forall_nil; done);
    try (repeat (apply Forall_cons; split; [vm_compute; reflexivity|]); apply Forall_nil; done);
    try (split; [vm_compute; reflexivity|]; repeat (apply Forall_cons; split; [vm_compute; reflexivity|]); apply Forall_nil; done);
    try (vm_compute; by constructor); intros op Hop; by apply elem_of_nil in Hop.
Qed.

Lemma sample_tick_ok l : (length l <= 3)%nat ->
  (forall i x y, l !! i = Some x -> l !! S i = Some y -> is_Some (bi_hash x) /\ bi_prev y = bi_hash x) ->
  Forall (fun bi => forall hh, bi_hash bi = Some hh -> fixed 32 hh) l ->
  env_ok sample_outs (sample_tick l).
Proof.
  intros Hlen Hlink Hfix. split; [done|cbn; unfold zlen, INT32_MAX; lia| | |apply sample_reader_ok].
  - intros h bi Hh. unfold active_hash. rewrite !sample_chain_at. replace (h <? 0) with false by lia.
    replace (h - 1 <? 0) with false by lia. intros Hbi. pose proof (lookup_lt_Some _ _ _ Hbi) as Hlt.
    destruct (lookup_lt_is_Some_2 l (Z.to_nat (h - 1)) ltac:(lia)) as [x Hx]. rewrite Hx.
    replace (Z.to_nat h) with (S (Z.to_nat (h - 1))) in Hbi by lia.
    destruct (Hlink _ x bi Hx Hbi) as [[hh Ehh] Ep]. exists hh. cbn. by rewrite Ep.
  - intros h hh. unfold active_hash. rewrite sample_chain_at. destruct (h <? 0); [done|].
    destruct (l !! Z.to_nat h) as [bi|] eqn:E; [|done]. cbn. rewrite Forall_forall in Hfix. apply Hfix.
    by apply list_elem_of_lookup_2 in E.
Qed.

Lemma sample_index_fixed n m hh : 0 <= n < 256 -> bi_hash (sample_index n m) = Some hh -> fixed 32 hh.
Proof. intros Hn [= <-]. split; [done|]. by apply Forall_replicate. Qed.

Ltac solve_tick :=
  apply sample_tick_ok;
  [cbn; lia
  |intros [|[|[|i]]] x y; cbn; intros Hx Hy; simplify_eq; (done || (by destruct i) || (split; [by eexists|done]))
  |repeat (apply Forall_cons; split; [intros hh; by apply sample_index_fixed|]); by apply Forall_nil].

(** The three chains the ticks see *)
Lemma ticks_ok : env_ok sample_outs (sample_tick [a0; a1]) /\ env_ok sample_outs (sample_tick [a0; b1]) /\
  env_ok sample_outs (sample_tick [a0; b1; b2]).
Proof. split_and!; solve_tick. Qed.

Lemma sample_start_history : history init_main_params sample_outs 0 ∅ [] sample_start.
Proof.
  split; (done || by left).
Qed.

(** The store after [a0] and [a1] were applied *)
Definition after_a0 : progress := store (sample_step [a0; a1] (sample_world sample_start [] [])).2.
Definition after_a1 : progress := store (sample_step [a0; a1] (sample_world after_a0 [] [])).2.

Lemma production_exact t op : good_table sample_outs t -> 0 <= op_n op ->
  @projection_live_lookup key_order t op = Some (live_coin t op).
Proof. apply (@production_lookup key_order key_order_ok). Qed.

Lemma frontier_lockstep_witness :
  frontier_ok (store (utxo_apply_stage_drain init_main_params (@projection_live_lookup key_order)
    [sample_tick [a0; a1]; sample_tick [a0; a1]; sample_tick [a0; b1]]
    (sample_world sample_start [false; false; false; true] [])).2).
Proof. apply frontier_lockstep. reflexivity. Defined.



Lemma tick_respects_finality_witness :
  let '(r, w') := sample_step [a0; a1] (World sample_start (Some ∅) [false; true] []) in
  exists k new, (k <= length (@nil applied_block))%nat /\ Z.of_nat k <= ZCL_FINALITY_DEPTH /\ (length new <= 1)%nat /\
    (r = JOB_ADVANCED <-> new <> []) /\
    history init_main_params sample_outs 0 ∅ (take (length (@nil applied_block) - k) [] ++ new) (store w').
Proof.
  apply (tick_respects_finality init_main_params (@projection_live_lookup key_order) sample_outs production_exact).
  - apply ticks_ok.
  - apply sample_start_history.
Defined.

Lemma sample_ready : exists txs,
  ready init_main_params (@projection_live_lookup key_order) (sample_tick [a0; a1]) sample_start (Some ∅) 0 a0 txs.
Proof.
  eexists. split.
  - vm_compute. intuition discriminate.
  - exists 3. done.
  - exists 1. done.
  - by split_and!.
  - vm_compute. reflexivity.
  - vm_compute. reflexivity.
  - eexists. vm_compute. reflexivity.
Qed.

Lemma stage_progress_witness :
  (sample_step [a0; a1] (World sample_start (Some ∅) [] [])).1 = JOB_ADVANCED /\
  p_cursor (store (sample_step [a0; a1] (World sample_start (Some ∅) [] [])).2) = Some (0 + 1).
Proof. destruct sample_ready as [txs Hr]. apply (stage_progress _ _ _ _ _ 0 a0 txs Hr). by left. Defined.

(** ** Failing reads *)

Lemma after_history : (exists l, history init_main_params sample_outs 0 ∅ l after_a0) /\
  (exists l, history init_main_params sample_outs 0 ∅ l after_a1).
Proof.
  destruct ticks_ok as (Ha & _).
  split; apply (reachable_history_ex _ (@projection_live_lookup key_order) _ production_exact);
    repeat (apply reach_tick; [|done]); apply reach_start, sample_start_history.
Qed.

(** A failed read of the cursor reads as cursor 0 and skips the unwind: although [a1] has left
    the active chain, the tick applies [b2] on top of it.  Nothing repairs that later, since
    the branch hash of the last height now matches the chain. *)
Theorem failed_cursor_read_skips_unwind :
  exists l p, history init_main_params sample_outs 0 ∅ l p /\ env_ok sample_outs (sample_tick [a0; b1; b2]) /\
    let w := sample_step [a0; b1; b2] (sample_world p [] [PrepareFails]) in
    w.1 = JOB_ADVANCED /\ recorded_hash (store w.2) 1 = bi_hash a1 /\ recorded_hash (store w.2) 2 = bi_hash b2 /\
    bi_prev b2 <> bi_hash a1 /\ no_divergence (sample_tick [a0; b1; b2]) (store w.2).
Proof.
  destruct after_history as [_ [l Hl]]. exists l, after_a1. split; [done|]. split; [apply ticks_ok|].
  cbn zeta. split_and!; [vm_compute; reflexivity..|vm_compute; discriminate|].
  right. right. right. vm_compute. reflexivity.
Qed.

(** A failed read of a delta row reads as "nothing to invert": the unwind commits, [b1] replaces
    [a1], and the coinbase of [a1] stays in the coins table. *)
Theorem failed_delta_read_keeps_coins :
  exists l p, history init_main_params sample_outs 0 ∅ l p /\ env_ok sample_outs (sample_tick [a0; b1]) /\
    let w := sample_step [a0; b1] (sample_world p [] [ReadFine; ReadFine; ReadFine; StepFails]) in
    w.1 = JOB_ADVANCED /\ p_cursor (store w.2) = Some 2 /\ recorded_hash (store w.2) 1 = bi_hash b1 /\
    is_Some (p_coins (store w.2) !! sample_op 2 0) /\
    is_Some (p_coins (store w.2) !! sample_op 3 0).
Proof.
  destruct after_history as [_ [l Hl]]. exists l, after_a1. split; [done|]. split; [apply ticks_ok|].
  cbn zeta. split_and!; [vm_compute; reflexivity..| |]; eexists; vm_compute; reflexivity.
Qed.

(** ** Nullifiers *)

(** Nullifiers are written to the node database before the stage transaction commits.  When the
    write of the log row fails, the block is rolled back but its nullifiers stay, and the
    retry refuses the same block as a reuse of its own nullifiers; without the failure the
    block is applied. *)
Theorem rolled_back_nullifiers_block_retry :
  exists l p wf, history init_main_params sample_outs 0 ∅ l p /\ env_ok sample_outs (sample_tick [a0; a1]) /\
    (sample_step [a0; a1] (World p (Some ∅) [] [])).1 = JOB_ADVANCED /\
    let w := sample_step [a0; a1] (World p (Some ∅) wf []) in
    w.1 = JOB_FATAL /\ p_cursor (store w.2) = p_cursor p /\
    (sample_step [a0; a1] (World (store w.2) (node_db w.2) [] [])).1 = JOB_BLOCKED.
Proof.
  destruct after_history as [[l Hl] _]. exists l, after_a0, [false; false; false; false; false; true].
  split; [done|]. split; [apply ticks_ok|]. cbn zeta. split_and!; vm_compute; reflexivity.
Qed.

(** Disconnecting a block does not take its nullifiers back: after [a1] is disconnected in favour
    of [b1], which has the same joinsplit, [b1] is refused; with the node database as it was
    before [a1], [b1] is applied. *)
Theorem disconnected_nullifiers_block_branch :
  exists l p, history init_main_params sample_outs 0 ∅ l p /\
    env_ok sample_outs (sample_tick [a0; a1]) /\ env_ok sample_outs (sample_tick [a0; b1]) /\
    let w := sample_step [a0; a1] (World p (Some ∅) [] []) in
    w.1 = JOB_ADVANCED /\ (sample_step [a0; b1] (World (store w.2) (Some ∅) [] [])).1 = JOB_ADVANCED /\
    let w' := sample_step [a0; b1] w.2 in w'.1 = JOB_BLOCKED /\ p_cursor (store w'.2) = Some 1.
Proof.
  destruct after_history as [[l Hl] _]. exists l, after_a0. destruct ticks_ok as (Ha & Hb & _).
  do 3 (split; [done|]). cbn zeta. split_and!; vm_compute; reflexivity.
Qed.
