(* ===== verification/UpdateCoins.v ===== *)
(** * Applying and undoing transactions on the coins cache

    Models lib/validation/src/update_coins.c (spending the inputs of a transaction and creating its
    outputs, with the undo records and the running commitment) and [disconnect_block] of
    lib/validation/src/connect_block.c, which walks a block backwards with the undo records.  The
    computations run on the cache of file CoinsView.  What they do to the cache is described by
    pure functions on the records that it answers ([tx_effect], [undo_tx]); the theorems say that
    the code implements these functions on every branch ([update_coins_exact]), that the running
    commitment follows the set of unspent outputs ([update_tracks_commitment]), and that
    disconnecting a block restores the records ([disconnect_restores]). *)

From stdpp Require Import gmap fin_maps functions.
From S2P Require Import Prelude Hash Serialize Script Transaction Block BlockCheck CoinsMath Probing CoinsMap UtxoCommitment CoinsView.

(** ** update_coins.c *)

Definition SIZEOF_TX_IN_UNDO : Z := 10032.

Definition undefined {A} : view_m A := fun _ => None.

Definition update_commitment (f : utxo_commitment -> utxo_commitment) : view_m unit :=
  update_cache (fun c => with_commitment c (f (cvc_commitment c))).

Section Update.
Context `{Allocator} `{HashFunctions}.
Variable skip : bool.

Definition tx_undo_alloc (n : Z) : option tx_undo :=
  if (n >? 0) && negb (alloc_succeeds (n * SIZEOF_TX_IN_UNDO)) then None
  else Some (replicate (Z.to_nat n) tx_in_undo_init).

(** The array of outputs grows to [new_size] cells.  A size of zero, from a position whose
    increment wraps around, releases the array that is read next. *)
Definition grow_outputs (slot : nat) (new_size : Z) : view_m bool :=
  if new_size =? 0 then undefined
  else if negb (alloc_succeeds (new_size * SIZEOF_TX_OUT)) then mret false
  else
    e ← read_entry slot;
    let r := ce_coins e in
    set_coins slot (with_vout r (coins_vout r ++
      replicate (Z.to_nat new_size - length (coins_vout r)) tx_out_set_null));;
    mret true.

Definition update_input (i : tx_in) (undo : tx_in_undo) : view_m (option tx_in_undo) :=
  let txid := op_hash (prevout i) in
  let nPos := op_n (prevout i) in
  entry ← coins_view_cache_modify txid;
  match entry with
  | None => mret None
  | Some slot =>
      e ← read_entry slot;
      grown ← (if nPos >=? zlen (coins_vout (ce_coins e)) then grow_outputs slot (u32 (nPos + 1)) else mret true);
      if negb grown then mret None
      else
        e ← read_entry slot;
        match coins_vout (ce_coins e) !! Z.to_nat nPos with
        | None => undefined
        | Some o =>
            if tx_out_is_null o then mret None
            else if negb (MoneyRange (value o)) then mret None
            else
              update_commitment (fun uc => utxo_commitment_remove skip uc
                {| u_txid := txid; u_vout := nPos; u_value := value o; u_height := coins_height (ce_coins e) |});;
              match coins_math_capture_undo (ce_coins e) nPos undo with
              | Err _ => mret None
              | Ok (r, undo) => set_coins slot r;; mret (Some undo)
              end
        end
  end.

Fixpoint update_inputs (ins : list tx_in) (undos : tx_undo) : view_m (option tx_undo) :=
  match ins, undos with
  | i :: ins, u :: undos =>
      spent ← update_input i u;
      match spent with
      | None => mret None
      | Some u => rest ← update_inputs ins undos; mret (cons u <$> rest)
      end
  | _, _ => mret (Some [])
  end.

Fixpoint add_new_outputs (txid : uint256_t) (nHeight : Z) (vi : Z) (outs : list tx_out) : view_m bool :=
  match outs with
  | [] => mret true
  | o :: outs =>
      if tx_out_is_null o then add_new_outputs txid nHeight (vi + 1) outs
      else if negb (MoneyRange (value o)) then mret false
      else
        update_commitment (fun uc => utxo_commitment_add skip uc
          {| u_txid := txid; u_vout := vi; u_value := value o; u_height := nHeight |});;
        add_new_outputs txid nHeight (vi + 1) outs
  end.

(** [None]: the call returned false.  The undo record of a coinbase stays empty. *)
Definition update_coins_with_undo (tx : transaction) (nHeight : Z) : view_m (option tx_undo) :=
  spent ← (if negb (transaction_is_coinbase tx) then
             match tx_undo_alloc (zlen (vin tx)) with
             | None => mret None
             | Some undos => update_inputs (vin tx) undos
             end
           else mret (Some []));
  match spent with
  | None => mret None
  | Some txundo =>
      new_entry ← coins_view_cache_modify_new (tx_hash tx);
      match new_entry with
      | None => mret None
      | Some slot =>
          let '(ok, r) := coins_from_transaction tx nHeight in
          set_coins slot r;;
          if negb ok then mret None
          else
            added ← add_new_outputs (tx_hash tx) nHeight 0 (coins_vout r);
            mret (if added : bool then Some txundo else None)
      end
  end.

Definition update_coins (tx : transaction) (nHeight : Z) : view_m unit :=
  update_coins_with_undo tx nHeight;; mret tt.
End Update.

(** ** disconnect_block *)

Section Disconnect.
Context `{Allocator}.

(** Restoring one spent output; [false]: the call returns false *)
Definition restore_input (i : tx_in) (undo : tx_in_undo) : view_m bool :=
  let n := op_n (prevout i) in
  entry ← coins_view_cache_modify (op_hash (prevout i));
  match entry with
  | None => mret false
  | Some slot =>
      e ← read_entry slot;
      grown ← (if n >=? zlen (coins_vout (ce_coins e)) then
                 if n >=? MAX_BLOCK_SIZE then mret false else grow_outputs slot (n + 1)
               else mret true);
      if negb grown then mret false
      else
        e ← read_entry slot;
        let r := ce_coins e in
        let r := if undo_height undo >? 0
                 then {| is_coinbase := undo_coinbase undo; coins_vout := coins_vout r;
                         coins_height := i32 (undo_height undo); coins_version := undo_version undo |}
                 else r in
        set_coins slot (with_vout r (<[Z.to_nat n := undo_txout undo]> (coins_vout r)));;
        set_flags slot COINS_CACHE_DIRTY;;
        mret true
  end.

(** The inputs with their undo records, the last one first *)
Fixpoint restore_inputs (l : list (tx_in * tx_in_undo)) : view_m bool :=
  match l with
  | [] => mret true
  | (i, u) :: rest => ok ← restore_input i u; if ok : bool then restore_inputs rest else mret false
  end.

(** The outputs of a transaction become an empty record that is marked as changed. *)
Definition erase_outputs (txid : uint256_t) : view_m unit :=
  ghost ← coins_view_cache_modify txid;
  match ghost with
  | None => mret tt
  | Some slot => set_coins slot coins_init;; set_flags slot COINS_CACHE_DIRTY
  end.

(** One round of the loop; the coinbase has no undo record. *)
Definition disconnect_tx (tx : transaction) (txundo : option tx_undo) : view_m bool :=
  restored ← match txundo with
             | None => mret true
             | Some us => if negb (zlen us =? zlen (vin tx)) then mret false
                          else restore_inputs (reverse (zip (vin tx) us))
             end;
  if negb restored then mret false else erase_outputs (tx_hash tx);; mret true.

Fixpoint disconnect_txs (l : list (transaction * option tx_undo)) : view_m bool :=
  match l with
  | [] => mret true
  | (tx, u) :: rest => ok ← disconnect_tx tx u; if ok : bool then disconnect_txs rest else mret false
  end.

(** [prev_hash] is the hash that [pindex->pprev] carries, if it has one. *)
Definition disconnect_block (b : block) (prev_hash : option uint256_t) (blockundo : block_undo) : view_m bool :=
  if negb (zlen (vtxundo blockundo) =? zlen (vtx b) - 1) then mret false
  else
    ok ← disconnect_txs (reverse (zip (vtx b) (None :: (Some <$> vtxundo blockundo))));
    if negb ok then mret false
    else
      match prev_hash with Some h => coins_view_cache_set_best_block h | None => mret tt end;;
      mret true.
End Disconnect.

(** ** What the computations do to the records *)

(** The state that a cache presents: the records it answers, over the backing view, and records
    that are known to be in its table *)
Record view_state := ViewState {
  vs_base : coins_view;
  vs_best : uint256_t;
  vs_commitment : utxo_commitment;
  vs_cached : list uint256_t;
  vs_records : uint256_t -> coins;
}.

Definition with_records (s : view_state) (f : uint256_t -> coins) : view_state :=
  {| vs_base := vs_base s; vs_best := vs_best s; vs_commitment := vs_commitment s; vs_cached := vs_cached s; vs_records := f |}.

Definition with_uc (s : view_state) (uc : utxo_commitment) : view_state :=
  {| vs_base := vs_base s; vs_best := vs_best s; vs_commitment := uc; vs_cached := vs_cached s; vs_records := vs_records s |}.

Record presents (c : coins_view_cache) (s : view_state) : Prop := {
  presents_ok : cache_ok c;
  presents_base : cvc_base c = vs_base s;
  presents_best : cvc_hash_block c = vs_best s;
  presents_commitment : cvc_commitment c = vs_commitment s;
  presents_cached : Forall (cached c) (vs_cached s);
  presents_records : forall t, record_of c t = vs_records s t;
}.

(** A computation runs and its result and final cache satisfy [Q]. *)
Definition runs {A} (m : view_m A) (Q : A -> coins_view_cache -> Prop) (c : coins_view_cache) : Prop :=
  exists a c', m c = Some (a, c') /\ Q a c'.

Definition set_record (f : uint256_t -> coins) (t : uint256_t) (r : coins) (t' : uint256_t) : coins :=
  if decide (t = t') then r else f t'.

Section Records.
Context `{Allocator}.

Definition null_output (r : coins) (n : Z) : coins := with_vout r (<[Z.to_nat n := tx_out_set_null]> (coins_vout r)).

(** The undo record of an output [o] whose record becomes [r] *)
Definition undo_for (r : coins) (o : tx_out) : tx_in_undo :=
  if coins_is_pruned r
  then {| undo_txout := o; undo_coinbase := is_coinbase r; undo_height := u32 (coins_height r); undo_version := coins_version r |}
  else {| undo_txout := o; undo_coinbase := false; undo_height := 0; undo_version := 0 |}.

(** Spend one output: the record left, the undo record and the output that goes *)
Definition spend_one (f : uint256_t -> coins) (i : tx_in) : option (coins * tx_in_undo * utxo) :=
  let t := op_hash (prevout i) in
  let n := op_n (prevout i) in
  o ← output_of (f t) n;
  if negb (MoneyRange (value o)) then None
  else
    let r := null_output (f t) n in
    Some (r, undo_for r o, {| u_txid := t; u_vout := n; u_value := value o; u_height := coins_height (f t) |}).

Fixpoint spend_all (f : uint256_t -> coins) (ins : list tx_in)
    : option ((uint256_t -> coins) * tx_undo * list utxo) :=
  match ins with
  | [] => Some (f, [], [])
  | i :: rest =>
      '(r, u, g) ← spend_one f i;
      '(f', us, gone) ← spend_all (set_record f (op_hash (prevout i)) r) rest;
      Some (f', u :: us, g :: gone)
  end.

Definition new_record (tx : transaction) (nHeight : Z) : coins := snd (coins_from_transaction tx nHeight).

(** The outputs a transaction may create: few enough, and of a value in the money range *)
Definition outputs_fit (tx : transaction) : bool :=
  (zlen (vout tx) <=? MAX_COIN_OUTPUTS) &&
  forallb (fun o => tx_out_is_null o || script_is_unspendable (script_pub_key o) || MoneyRange (value o)) (vout tx).

Definition tx_effect (f : uint256_t -> coins) (tx : transaction) (nHeight : Z)
    : option ((uint256_t -> coins) * tx_undo * list utxo) :=
  '(f', us, gone) ← (if transaction_is_coinbase tx then Some (f, [], []) else spend_all f (vin tx));
  if outputs_fit tx then Some (set_record f' (tx_hash tx) (new_record tx nHeight), us, gone) else None.

(** The running commitment after the outputs [gone] and the outputs of [r] *)
Definition commit_tx `{HashFunctions} (skip : bool) (uc : utxo_commitment) (gone came : list utxo) : utxo_commitment :=
  foldl (utxo_commitment_add skip) (foldl (utxo_commitment_remove skip) uc gone) came.
End Records.

(** ** Reasoning about computations *)

Section Runs.
Context `{AllocatorTotal}.

Lemma runs_ret {A} (a : A) (Q : A -> coins_view_cache -> Prop) c : Q a c -> runs (mret a) Q c.
Proof. intros HQ. by exists a, c. Qed.

Lemma runs_bind {A B} (m : view_m A) (k : A -> view_m B) P Q c :
  runs m P c -> (forall a c', P a c' -> runs (k a) Q c') -> runs (m ≫= k) Q c.
Proof. intros (a & c' & E & HP) Hk. destruct (Hk a c' HP) as (b & c'' & E' & HQ). exists b, c''. by rewrite (bind_run _ _ _ _ _ E). Qed.

Lemma runs_mono {A} (m : view_m A) (P Q : A -> coins_view_cache -> Prop) c :
  runs m P c -> (forall a c', P a c' -> Q a c') -> runs m Q c.
Proof. intros (a & c' & E & HP) HPQ. exists a, c'. auto. Qed.

Lemma unchanged_presents c c' s : presents c s -> unchanged c c' -> presents c' s.
Proof.
  intros [Hc Hb Hh Hu Hk Hr] (Hc' & (Eb & Eh & Eu) & K & Er). constructor; [done|congruence..| |].
  - by eapply Forall_impl.
  - intros t. by rewrite Er.
Qed.

Lemma changed_presents c c' s t r : presents c s -> changed t r c c' -> presents c' (with_records s (set_record (vs_records s) t r)).
Proof.
  intros [Hc Hb Hh Hu Hk Hr] (Hc' & (Eb & Eh & Eu) & K & Er). constructor; cbn; [done|congruence..|by eapply Forall_impl|]. intros t'.
  rewrite Er. unfold set_record. by case_decide.
Qed.

(** The bucket [slot] holds the record of [t], marked as changed. *)
Definition modifying (slot : nat) (t : uint256_t) (s : view_state) (c : coins_view_cache) : Prop :=
  presents c s /\ exists fl, holds c slot t {| ce_coins := vs_records s t; ce_flags := fl |} /\
  dirty {| ce_coins := vs_records s t; ce_flags := fl |}.

Lemma runs_modify t s c : fixed 32 t -> presents c s ->
  runs (coins_view_cache_modify t) (fun e c' => exists slot, e = Some slot /\ modifying slot t s c') c.
Proof.
  intros Ht Hp. destruct (modify_runs c t (presents_ok _ _ Hp) Ht) as (slot & c' & fl & E & Hu & Hs & Hd).
  rewrite (presents_records _ _ Hp) in Hs, Hd. exists (Some slot), c'. split; [done|]. exists slot. split; [done|].
  split; [by eapply unchanged_presents|by exists fl].
Qed.

Lemma runs_read slot t s c : modifying slot t s c ->
  runs (read_entry slot) (fun e c' => ce_coins e = vs_records s t /\ modifying slot t s c') c.
Proof. intros Hm. pose proof Hm as (_ & fl & Hs & _). eexists _, c. split; [done|]. by rewrite (holds_entry _ _ _ _ Hs). Qed.

Lemma runs_set_coins slot t s r c : modifying slot t s c ->
  runs (set_coins slot r) (fun _ c' => modifying slot t (with_records s (set_record (vs_records s) t r)) c') c.
Proof.
  intros (Hp & fl & Hs & Hd). destruct (set_coins_changed c slot t _ r (presents_ok _ _ Hp) Hs Hd) as (c' & E & Hch & Hs').
  exists tt, c'. split; [done|]. split; [by eapply changed_presents|]. exists fl. cbn.
  unfold set_record. by rewrite decide_True by done.
Qed.

Lemma runs_commit slot t s f c : modifying slot t s c ->
  runs (update_commitment f) (fun _ c' => modifying slot t (with_uc s (f (vs_commitment s))) c') c.
Proof.
  intros ([Hc Hb Hh Hu Hk Hr] & fl & Hs & Hd). eexists tt, _. split; [done|]. split; [|by exists fl].
  constructor; cbn; [by destruct Hc|done|done|by rewrite Hu|done|done].
Qed.

Lemma presents_ext c s s' : presents c s -> vs_base s = vs_base s' -> vs_best s = vs_best s' ->
  vs_commitment s = vs_commitment s' -> vs_cached s = vs_cached s' -> (forall t, vs_records s t = vs_records s' t) -> presents c s'.
Proof. intros [Hc Hb Hh Hu Hk Hr] Eb Eh Eu Ek Er. constructor; [done|congruence..|]. intros t. by rewrite Hr. Qed.

(** The state after a call that failed half-way: the backing view and the best block are kept *)
Definition abandoned (s : view_state) (c : coins_view_cache) : Prop :=
  exists s', presents c s' /\ vs_base s' = vs_base s /\ vs_best s' = vs_best s.

Lemma modifying_abandoned slot t s s' c : modifying slot t s' c -> vs_base s' = vs_base s -> vs_best s' = vs_best s ->
  abandoned s c.
Proof. intros [Hp _] Eb Eh. by exists s'. Qed.

Lemma runs_grow slot t s n c : modifying slot t s c -> 0 < n ->
  runs (grow_outputs slot n) (fun ok c' => ok = true /\ modifying slot t (with_records s (set_record (vs_records s) t
    (with_vout (vs_records s t) (coins_vout (vs_records s t) ++
       replicate (Z.to_nat n - length (coins_vout (vs_records s t))) tx_out_set_null)))) c') c.
Proof.
  intros Hm Hn. unfold grow_outputs. replace (n =? 0) with false by lia. rewrite alloc_total. cbn [negb].
  eapply runs_bind; [by apply runs_read|]. cbv beta. intros e c1 [-> Hm1].
  eapply runs_bind; [by apply runs_set_coins|]. cbv beta. intros _ c2 Hm2. by apply runs_ret.
Qed.

(** Reading a cell of a record that has grown to hold it *)
Lemma grown_cell (r : coins) n : (length (coins_vout r) <= n)%nat ->
  (coins_vout r ++ replicate (S n - length (coins_vout r)) tx_out_set_null) !! n = Some tx_out_set_null.
Proof. intros Hn. rewrite lookup_app_r by done. apply lookup_replicate_2. lia. Qed.

Context `{HashFunctions}.
Variable skip : bool.

Definition spent_state (s : view_state) (t : uint256_t) (r : coins) (g : utxo) : view_state :=
  {| vs_base := vs_base s; vs_best := vs_best s; vs_commitment := utxo_commitment_remove skip (vs_commitment s) g;
     vs_cached := vs_cached s; vs_records := set_record (vs_records s) t r |}.

Lemma runs_spend_input i s c : fixed 32 (op_hash (prevout i)) -> 0 <= op_n (prevout i) < UINT32_MAX -> presents c s ->
  runs (update_input skip i tx_in_undo_init) (fun res c' =>
    match spend_one (vs_records s) i with
    | Some (r, u, g) => res = Some u /\ presents c' (spent_state s (op_hash (prevout i)) r g)
    | None => res = None /\ abandoned s c'
    end) c.
Proof.
  intros Ht Hn Hp. unfold update_input. cbv zeta. set (t := op_hash (prevout i)) in *. set (n := op_n (prevout i)) in *.
  eapply runs_bind; [by apply (runs_modify t s)|]. cbv beta. intros _ c1 (slot & -> & Hm1).
  eapply runs_bind; [by apply runs_read|]. cbv beta. intros e1 c2 [-> Hm2]. unfold spend_one. fold t n.
  destruct (Z.geb_spec n (zlen (coins_vout (vs_records s t)))) as [Hge|Hlt].
  - unfold zlen in Hge. unfold output_of. rewrite lookup_ge_None_2 by lia. cbn [mbind option_bind].
    rewrite (uwrap_small 32) by (unfold is_u, UINT32_MAX in *; lia).
    eapply runs_bind; [apply runs_grow; [done|lia]|]. cbv beta. intros ok c3 [-> Hm3]. cbn [negb].
    eapply runs_bind; [by apply runs_read|]. cbv beta. intros e2 c4 [-> Hm4]. cbn [vs_records with_records].
    unfold set_record at 1. rewrite decide_True by done. cbn [coins_vout with_vout].
    replace (Z.to_nat (n + 1)) with (S (Z.to_nat n)) by lia. rewrite grown_cell by lia.
    apply runs_ret. split; [done|]. by eapply modifying_abandoned.
  - unfold zlen in Hlt. eapply runs_bind; [by apply (runs_ret true (fun ok c' => ok = true /\ modifying slot t s c'))|].
    cbv beta. intros ok c3 [-> Hm3]. cbn [negb].
    eapply runs_bind; [by apply runs_read|]. cbv beta. intros e2 c4 [-> Hm4]. unfold output_of.
    destruct (lookup_lt_is_Some_2 (coins_vout (vs_records s t)) (Z.to_nat n)) as [o Eo]; [lia|]. rewrite Eo.
    destruct (tx_out_is_null o) eqn:Enull; cbn [mbind option_bind].
    { apply runs_ret. split; [done|]. by eapply modifying_abandoned. }
    destruct (MoneyRange (value o)); cbn [negb].
    2: { apply runs_ret. split; [done|]. by eapply modifying_abandoned. }
    eapply runs_bind; [by apply runs_commit|]. cbv beta. intros _ c5 Hm5.
    unfold coins_math_capture_undo, coins_math_spend. rewrite Eo, Enull. cbn [default id].
    eapply runs_bind; [by apply runs_set_coins|]. cbv beta. intros _ c6 [Hp6 _]. apply runs_ret. split; [|done].
    unfold undo_for, null_output, coins_is_pruned. by case_if.
Qed.

Definition prevouts_ok (ins : list tx_in) : Prop :=
  Forall (fun i => fixed 32 (op_hash (prevout i)) /\ 0 <= op_n (prevout i) < UINT32_MAX) ins.

Definition after_spends (s : view_state) (f : uint256_t -> coins) (gone : list utxo) : view_state :=
  {| vs_base := vs_base s; vs_best := vs_best s; vs_cached := vs_cached s; vs_records := f;
     vs_commitment := foldl (utxo_commitment_remove skip) (vs_commitment s) gone |}.

Lemma runs_spend_inputs ins s c : prevouts_ok ins -> presents c s ->
  runs (update_inputs skip ins (replicate (length ins) tx_in_undo_init)) (fun res c' =>
    match spend_all (vs_records s) ins with
    | Some (f, us, gone) => res = Some us /\ presents c' (after_spends s f gone)
    | None => res = None /\ abandoned s c'
    end) c.
Proof.
  intros Hi. revert s c. induction Hi as [|i ins [Ht Hn] _ IH]; intros s c Hp.
  { apply runs_ret. split; [done|]. by destruct s. }
  cbn [length replicate update_inputs spend_all]. eapply runs_bind; [by apply runs_spend_input|]. cbv beta. intros res c1 H1'.
  destruct (spend_one (vs_records s) i) as [[[r u] g]|] eqn:E1; destruct H1' as [-> H1']; cbn [mbind option_bind].
  2: by apply runs_ret.
  eapply runs_bind; [by apply (IH _ _ H1')|]. cbv beta. intros res c2 H2'. cbn [vs_records spent_state] in H2'.
  destruct (spend_all _ ins) as [[[f us] gone]|]; destruct H2' as [-> H2']; cbn [mbind option_bind]; by apply runs_ret.
Qed.

(** The outputs that a transaction adds, from position [k] on *)
Definition came (txid : uint256_t) (nHeight : Z) (k : nat) (outs : list tx_out) : list utxo :=
  omap (fun '(i, o) => if tx_out_is_null o then None
                       else Some {| u_txid := txid; u_vout := Z.of_nat i; u_value := value o; u_height := nHeight |})
    (imap (fun i o => ((k + i)%nat, o)) outs).

Lemma came_live txid r : came txid (coins_height r) 0 (coins_vout r) = live_outputs txid r.
Proof. done. Qed.

Lemma came_cons txid h k o outs : came txid h k (o :: outs) =
  (if tx_out_is_null o then [] else [{| u_txid := txid; u_vout := Z.of_nat k; u_value := value o; u_height := h |}]) ++
  came txid h (S k) outs.
Proof.
  unfold came. rewrite imap_cons. cbn [omap list_omap]. rewrite Nat.add_0_r. unfold compose.
  assert (imap (fun n o => ((k + S n)%nat, o)) outs = imap (fun n o => ((S k + n)%nat, o)) outs) as ->.
  { apply imap_ext. intros n x _. f_equal. lia. }
  by destruct (tx_out_is_null o).
Qed.

Definition in_range (outs : list tx_out) : bool := forallb (fun o => tx_out_is_null o || MoneyRange (value o)) outs.

Lemma runs_add_outputs slot t txid h k outs s c : modifying slot t s c ->
  runs (add_new_outputs skip txid h (Z.of_nat k) outs) (fun ok c' => ok = in_range outs /\
    if ok then modifying slot t (with_uc s (foldl (utxo_commitment_add skip) (vs_commitment s) (came txid h k outs))) c'
    else abandoned s c') c.
Proof.
  revert k s c. induction outs as [|o outs IH]; intros k s c Hm; cbn [add_new_outputs in_range forallb].
  { apply runs_ret. split; [done|]. cbn. by destruct s. }
  rewrite came_cons. replace (Z.of_nat k + 1) with (Z.of_nat (S k)) by lia.
  destruct (tx_out_is_null o) eqn:En; cbn [orb app]; [by apply IH|].
  destruct (MoneyRange (value o)) eqn:Er; cbn [negb andb].
  2: { apply runs_ret. split; [done|]. by eapply modifying_abandoned. }
  eapply runs_bind; [by apply runs_commit|]. cbv beta. intros _ c1 Hm1. eapply runs_mono; [by apply (IH (S k))|].
  cbv beta. intros ok c2 [-> Hc2]. split; [done|]. fold (in_range outs). by case_if.
Qed.

Lemma in_range_reverse l : in_range (reverse l) = in_range l.
Proof.
  unfold in_range. apply eq_iff_eq_true. rewrite !forallb_forall. split; intros Hl x Hx; apply Hl;
    rewrite <- list_elem_of_In in *; by apply elem_of_reverse.
Qed.

Lemma in_range_drop l : in_range (drop_nulls l) = in_range l.
Proof. induction l as [|o l IH]; [done|]. cbn. by destruct (tx_out_is_null o) eqn:E; cbn; rewrite ?E, ?IH. Qed.

Lemma null_is_null : tx_out_is_null tx_out_set_null = true.
Proof. done. Qed.

(** Creating the record of a transaction: the flag and the values of its outputs *)
Lemma from_transaction tx h :
  exists ok r, coins_from_transaction tx h = (ok, r) /\ (ok && in_range (coins_vout r)) = outputs_fit tx /\
    (ok = true -> coins_height r = h).
Proof.
  unfold coins_from_transaction, coins_alloc, outputs_fit. rewrite alloc_total, andb_false_r. cbv zeta.
  destruct (Z.gtb_spec (zlen (vout tx)) MAX_COIN_OUTPUTS) as [Hgt|Hle]; [eexists false, _; split_and!; [done|cbn; lia|done]|].
  eexists true, _. split; [done|]. split; [|done]. replace (_ <=? _) with true by lia. cbn [andb coins_vout with_vout coins_math_cleanup].
  rewrite in_range_reverse, in_range_drop, in_range_reverse. unfold in_range. clear.
  induction (vout tx) as [|o l IH]; [done|]. cbn [map forallb]. rewrite IH. f_equal.
  by destruct (script_is_unspendable (script_pub_key o)), (tx_out_is_null o) eqn:E; cbn; rewrite ?E.
Qed.

Definition applied_state (s : view_state) (tx : transaction) (nHeight : Z) (f : uint256_t -> coins) (gone : list utxo) : view_state :=
  {| vs_base := vs_base s; vs_best := vs_best s; vs_cached := vs_cached s; vs_records := f;
     vs_commitment := commit_tx skip (vs_commitment s) gone (live_outputs (tx_hash tx) (new_record tx nHeight)) |}.

Lemma runs_modify_new t s c : fixed 32 t -> presents c s ->
  runs (coins_view_cache_modify_new t) (fun e c' => exists slot r, e = Some slot /\
    modifying slot t (with_records s (set_record (vs_records s) t r)) c') c.
Proof.
  intros Ht Hp. destruct (modify_new_runs c t (presents_ok _ _ Hp) Ht) as (slot & c' & e & E & Hch & Hs & Hd).
  exists (Some slot), c'. split; [done|]. exists slot, (ce_coins e). split; [done|].
  split; [by eapply changed_presents|]. exists (ce_flags e). cbn. unfold set_record. rewrite decide_True by done. by destruct e.
Qed.

Lemma runs_update_coins tx h s c : fixed 32 (tx_hash tx) -> (transaction_is_coinbase tx = false -> prevouts_ok (vin tx)) ->
  presents c s ->
  runs (update_coins_with_undo skip tx h) (fun res c' =>
    match tx_effect (vs_records s) tx h with
    | Some (f, us, gone) => res = Some us /\ presents c' (applied_state s tx h f gone)
    | None => res = None /\ abandoned s c'
    end) c.
Proof.
  intros Ht Hi Hp. unfold update_coins_with_undo, tx_effect.
  apply (runs_bind _ _ (fun res c' =>
    match (if transaction_is_coinbase tx then Some (vs_records s, [], []) else spend_all (vs_records s) (vin tx)) with
    | Some (f, us, gone) => res = Some us /\ presents c' (after_spends s f gone)
    | None => res = None /\ abandoned s c'
    end)).
  { destruct (transaction_is_coinbase tx); cbn [negb]; [apply runs_ret; split; [done|by destruct s]|].
    unfold tx_undo_alloc. rewrite alloc_total, andb_false_r. unfold zlen. rewrite Nat2Z.id. apply runs_spend_inputs; [by apply Hi|done]. }
  intros res c1 H1'. destruct (if transaction_is_coinbase tx then _ else _) as [[[f us] gone]|]; destruct H1' as [-> H1'];
    cbn [mbind option_bind]; [|by apply runs_ret].
  eapply runs_bind; [by apply (runs_modify_new (tx_hash tx) _ _ Ht H1')|]. cbv beta. intros _ c2 (slot & r0 & -> & Hm2).
  destruct (from_transaction tx h) as (ok & r & Er & Efit & Eh). unfold new_record. rewrite Er, <- Efit. cbv beta iota zeta.
  eapply runs_bind; [by apply runs_set_coins|]. cbv beta. intros _ c3 Hm3. destruct ok; cbn [negb andb].
  2: { apply runs_ret. split; [done|]. by eapply modifying_abandoned. }
  eapply runs_bind; [by apply (runs_add_outputs slot (tx_hash tx) (tx_hash tx) h 0)|]. cbv beta. intros ok c4 [-> Hc4].
  apply runs_ret. destruct (in_range (coins_vout r)).
  - split; [done|]. destruct Hc4 as [Hc4 _]. eapply presents_ext; [exact Hc4|done|done| |done|].
    + cbn. unfold commit_tx, new_record. rewrite Er. cbn. rewrite <- came_live, Eh by done. done.
    + intros t. cbn. unfold set_record. by case_decide.
  - split; [done|]. destruct Hc4 as (s' & Hs' & Eb & Eh'). exists s'. done.
Qed.
End Runs.

(** ** The running commitment *)

(** [u] is an unspent output of the records [f]. *)
Definition unspent (f : uint256_t -> coins) (u : utxo) : Prop :=
  0 <= u_vout u /\ exists o, output_of (f (u_txid u)) (u_vout u) = Some o /\ u_value u = value o /\
    u_height u = coins_height (f (u_txid u)).

(** [us] lists the unspent outputs, each once. *)
Definition lists (us : list utxo) (f : uint256_t -> coins) : Prop := NoDup us /\ forall u, u ∈ us <-> unspent f u.

Lemma output_of_null r n k : 0 <= n -> 0 <= k -> output_of (null_output r n) k = if k =? n then None else output_of r k.
Proof.
  intros Hn Hk. unfold output_of, null_output. cbn [coins_vout with_vout]. destruct (Z.eqb_spec k n) as [->|Hkn].
  - destruct (decide (Z.to_nat n < length (coins_vout r))%nat).
    + by rewrite list_lookup_insert_eq by done.
    + rewrite list_insert_ge by lia. by rewrite lookup_ge_None_2 by lia.
  - by rewrite list_lookup_insert_ne by lia.
Qed.

Lemma spend_one_Some f i r u g : spend_one f i = Some (r, u, g) -> exists o,
  output_of (f (op_hash (prevout i))) (op_n (prevout i)) = Some o /\ MoneyRange (value o) = true /\
  r = null_output (f (op_hash (prevout i))) (op_n (prevout i)) /\ u = undo_for r o /\
  g = {| u_txid := op_hash (prevout i); u_vout := op_n (prevout i); u_value := value o;
         u_height := coins_height (f (op_hash (prevout i))) |}.
Proof.
  unfold spend_one. destruct (output_of _ _) as [o|]; cbn [mbind option_bind]; [|done].
  destruct (MoneyRange (value o)) eqn:E; cbn [negb]; [|done]. intros [= <- <- <-]. by exists o.
Qed.

Lemma unspent_spend f i r u g v : 0 <= op_n (prevout i) -> spend_one f i = Some (r, u, g) ->
  unspent (set_record f (op_hash (prevout i)) r) v <-> unspent f v /\ v <> g.
Proof.
  intros Hn (o & Eo & _ & -> & _ & ->)%spend_one_Some. unfold unspent, set_record. destruct v as [t k x h].
  cbn [u_txid u_vout u_value u_height]. case_decide as Et.
  - subst t. split.
    + intros (Hk & o' & Ho' & Hv & Hh). rewrite output_of_null in Ho' by done. destruct (Z.eqb_spec k (op_n (prevout i))); [done|].
      split; [split; [done|by exists o']|]. congruence.
    + intros [(Hk & o' & Ho' & Hv & Hh) Hne]. split; [done|]. exists o'. split; [|done]. rewrite output_of_null by done.
      destruct (Z.eqb_spec k (op_n (prevout i))) as [->|]; [|done]. rewrite Eo in Ho'. injection Ho' as <-. by subst.
  - split; [|by intros [? _]]. intros Hu. split; [done|]. congruence.
Qed.

Lemma lists_spend us f i r u g : 0 <= op_n (prevout i) -> spend_one f i = Some (r, u, g) -> lists us f ->
  exists us', us ≡ₚ g :: us' /\ lists us' (set_record f (op_hash (prevout i)) r).
Proof.
  intros Hn E [Hnd Hus]. assert (unspent f g) as Hg.
  { apply spend_one_Some in E as (o & Eo & _ & _ & _ & ->). split; [done|]. by exists o. }
  apply Hus, list_elem_of_split in Hg as (l1 & l2 & ->). exists (l1 ++ l2). split; [by rewrite Permutation_middle|].
  rewrite <- Permutation_middle in Hnd. apply NoDup_cons in Hnd as [Hg Hnd]. split; [done|]. intros v.
  rewrite (unspent_spend f i r u g v Hn E), <- Hus, !elem_of_app, elem_of_cons.
  rewrite elem_of_app in Hg. naive_solver.
Qed.

Section Commitments.
Context `{AllocatorTotal} `{HashFunctionsOk}.

Lemma commitment_of_perm us us' : us ≡ₚ us' -> commitment_of us = commitment_of us'.
Proof. intros Hp. rewrite !commitment_of_eq. f_equal; [by apply xor_all_perm|]. unfold zlen. by rewrite Hp. Qed.

Lemma commitment_add us u : utxo_commitment_add false (commitment_of us) u = commitment_of (u :: us).
Proof.
  rewrite !commitment_of_eq. unfold utxo_commitment_add. cbn [accumulator uc_count].
  rewrite xor_all_cons by done. f_equal. rewrite zlen_cons. unfold uwrap. by rewrite Zplus_mod_idemp_l.
Qed.

Lemma commitment_remove us u : zlen us + 1 < 2 ^ 64 ->
  utxo_commitment_remove false (commitment_of (u :: us)) u = commitment_of us.
Proof.
  intros Hl. rewrite !commitment_of_eq. unfold utxo_commitment_remove. cbn [accumulator uc_count].
  rewrite xor_all_cons, xor32_cancel by first [done | by apply xor_all_length | apply hash_utxo_length].
  rewrite zlen_cons, !uwrap_small by (unfold is_u, zlen in *; lia).
  replace (zlen us + 1 >? 0) with true by (unfold zlen; lia). f_equal. lia.
Qed.

Lemma commitment_spends ins us f f' undos gone : Forall (fun i => 0 <= op_n (prevout i)) ins -> zlen us < 2 ^ 64 ->
  lists us f -> spend_all f ins = Some (f', undos, gone) ->
  exists us', lists us' f' /\ zlen us' <= zlen us /\
    foldl (utxo_commitment_remove false) (commitment_of us) gone = commitment_of us'.
Proof.
  intros Hi. revert us f f' undos gone. induction Hi as [|i ins Hn _ IH]; intros us f f' undos gone Hl Hus.
  { intros [= <- <- <-]. by exists us. }
  cbn [spend_all]. destruct (spend_one f i) as [[[r u] g]|] eqn:E1; cbn [mbind option_bind]; [|done].
  destruct (spend_all _ ins) as [[[f2 us2] gone2]|] eqn:E2; cbn [mbind option_bind]; [|done]. intros [= <- <- <-].
  destruct (lists_spend us f i r u g Hn E1 Hus) as (us1 & Hp & Hus1).
  assert (zlen us = zlen us1 + 1) as Hz by (unfold zlen; rewrite Hp; cbn; lia).
  destruct (IH us1 _ _ _ _ ltac:(lia) Hus1 E2) as (us' & Hus' & Hz' & Hf). exists us'. split; [done|]. split; [lia|].
  cbn [foldl]. by rewrite (commitment_of_perm us (g :: us1) Hp), commitment_remove by lia.
Qed.

Lemma commitment_adds came us : foldl (utxo_commitment_add false) (commitment_of us) came = commitment_of (reverse came ++ us).
Proof.
  revert us. induction came as [|u l IH]; intros us; [done|]. cbn [foldl]. rewrite commitment_add, IH, reverse_cons.
  f_equal. by rewrite <- app_assoc.
Qed.

Lemma elem_of_live t r u : u ∈ live_outputs t r <-> u_txid u = t /\ 0 <= u_vout u /\
  exists o, output_of r (u_vout u) = Some o /\ u_value u = value o /\ u_height u = coins_height r.
Proof.
  unfold live_outputs. rewrite list_elem_of_omap. split.
  - intros ([i o] & Hi & Eu). apply list_elem_of_lookup in Hi as [k Hk]. rewrite list_lookup_imap in Hk.
    destruct (coins_vout r !! k) as [o'|] eqn:Ek; [|done]. cbn in Hk. injection Hk as -> ->. case_match eqn:En; [done|].
    injection Eu as <-. cbn. split; [done|]. split; [lia|]. exists o. unfold output_of. by rewrite Nat2Z.id, Ek, En.
  - destruct u as [t' k v h]. cbn. intros (-> & Hk & o & Ho & -> & ->). unfold output_of in Ho.
    destruct (coins_vout r !! Z.to_nat k) as [o'|] eqn:Ek; [|done]. destruct (tx_out_is_null o') eqn:En; [done|].
    injection Ho as ->. exists (Z.to_nat k, o). rewrite En, Z2Nat.id by done. split; [|done].
    apply list_elem_of_lookup. exists (Z.to_nat k). by rewrite list_lookup_imap, Ek.
Qed.

Lemma came_from t h k outs u : u ∈ came t h k outs -> Z.of_nat k <= u_vout u.
Proof.
  revert k. induction outs as [|o outs IH]; intros k Hu; [by apply elem_of_nil in Hu|].
  rewrite came_cons, elem_of_app in Hu. destruct Hu as [Hu|Hu]; [|apply IH in Hu; lia].
  destruct (tx_out_is_null o); [by apply elem_of_nil in Hu|]. apply list_elem_of_singleton in Hu as ->. done.
Qed.

Lemma came_nodup t h k outs : NoDup (came t h k outs).
Proof.
  revert k. induction outs as [|o outs IH]; intros k; [constructor|]. rewrite came_cons.
  destruct (tx_out_is_null o); [apply IH|]. constructor; [|apply IH]. intros Hu. apply came_from in Hu. cbn in Hu. lia.
Qed.

Lemma pruned_no_output r n : coins_is_pruned r = true -> output_of r n = None.
Proof.
  unfold coins_is_pruned, coins_math_is_pruned, output_of. intros Hp. destruct (coins_vout r !! Z.to_nat n) as [o|] eqn:E; [|done].
  rewrite forallb_forall in Hp. by rewrite (Hp o) by (apply list_elem_of_In, list_elem_of_lookup; eauto).
Qed.

Lemma no_output_pruned r : (forall n, 0 <= n -> output_of r n = None) -> coins_is_pruned r = true.
Proof.
  intros Hr. unfold coins_is_pruned, coins_math_is_pruned. apply forallb_forall. intros o Ho.
  apply list_elem_of_In, list_elem_of_lookup in Ho as [k Hk]. specialize (Hr (Z.of_nat k) ltac:(lia)). unfold output_of in Hr.
  rewrite Nat2Z.id, Hk in Hr. by destruct (tx_out_is_null o).
Qed.

(** Creating a record where nothing was unspent *)
Lemma lists_create us f t r : lists us f -> coins_is_pruned (f t) = true ->
  lists (reverse (live_outputs t r) ++ us) (set_record f t r).
Proof.
  intros [Hnd Hus] Hp. assert (forall u, u ∈ us -> u_txid u <> t) as Hne.
  { intros u Hu <-. apply Hus in Hu as (_ & o & Ho & _). by rewrite pruned_no_output in Ho. }
  split.
  - apply NoDup_app. split_and!; [|intros u Hu Hu'|done].
    + rewrite reverse_Permutation, <- came_live. apply came_nodup.
    + apply elem_of_reverse, elem_of_live in Hu as [Hu _]. by apply (Hne u).
  - intros u. rewrite elem_of_app, elem_of_reverse, elem_of_live, Hus. unfold unspent, set_record.
    case_decide as Ht; [subst t|]; split; [intros [(_ & Hu)|Hu]|..|intros [(Hu & _)|Hu]|]; try done; auto.
    exfalso. apply (Hne u); [by apply Hus|done].
Qed.

(** Spending does not bring an output back. *)
Lemma spend_all_pruned ins f f' us gone t : Forall (fun i => 0 <= op_n (prevout i)) ins ->
  spend_all f ins = Some (f', us, gone) -> coins_is_pruned (f t) = true -> coins_is_pruned (f' t) = true.
Proof.
  intros Hi. revert f f' us gone. induction Hi as [|i ins Hn _ IH]; intros f f' us gone; [by intros [= <- <- <-]|].
  cbn [spend_all]. destruct (spend_one f i) as [[[r u] g]|] eqn:E1; cbn [mbind option_bind]; [|done].
  destruct (spend_all _ ins) as [[[f2 us2] gone2]|] eqn:E2; cbn [mbind option_bind]; [|done]. intros [= <- <- <-] Hp.
  eapply IH; [done|]. unfold set_record. case_decide as Et; [|done]. subst t.
  apply spend_one_Some in E1 as (o & Eo & _). by rewrite pruned_no_output in Eo.
Qed.

Lemma zlen_came t h k outs : zlen (came t h k outs) <= zlen outs.
Proof.
  revert k. induction outs as [|o outs IH]; intros k; [done|]. rewrite came_cons, zlen_app, zlen_cons. specialize (IH (S k)).
  destruct (tx_out_is_null o); unfold zlen in *; cbn; lia.
Qed.

(** The commitment after a transaction is that of the unspent outputs that it leaves. *)
Lemma commitment_apply us f tx h f' undos gone : Forall (fun i => 0 <= op_n (prevout i)) (vin tx) ->
  zlen us < 2 ^ 64 -> lists us f -> coins_is_pruned (f (tx_hash tx)) = true ->
  tx_effect f tx h = Some (f', undos, gone) ->
  exists us', lists us' f' /\
    commit_tx false (commitment_of us) gone (live_outputs (tx_hash tx) (new_record tx h)) = commitment_of us'.
Proof.
  intros Hi Hl Hus Hp. unfold tx_effect.
  destruct (if transaction_is_coinbase tx then _ else _) as [[[f1 us1] gone1]|] eqn:E; cbn [mbind option_bind]; [|done].
  case_if; [|done]. intros [= <- <- <-].
  assert (exists us', lists us' f1 /\ foldl (utxo_commitment_remove false) (commitment_of us) gone1 = commitment_of us' /\
    coins_is_pruned (f1 (tx_hash tx)) = true) as (us' & Hus' & Hf & Hp').
  { destruct (transaction_is_coinbase tx); [injection E as <- <- <-; by exists us|].
    destruct (commitment_spends _ _ _ _ _ _ Hi Hl Hus E) as (us' & ? & _ & ?). exists us'. split_and!; [done..|].
    by eapply spend_all_pruned. }
  exists (reverse (live_outputs (tx_hash tx) (new_record tx h)) ++ us'). split; [by apply lists_create|].
  unfold commit_tx. by rewrite Hf, commitment_adds.
Qed.
End Commitments.

(** ** Records up to what can be observed

    Two records are equivalent when they have the same unspent outputs and, unless they have
    none, the same metadata: trailing empty cells and the metadata of an empty record do not
    matter. *)

#[export] Instance coins_equiv : Equiv coins := fun r r' =>
  (forall n, 0 <= n -> output_of r n = output_of r' n) /\
  (coins_is_pruned r = false ->
     is_coinbase r = is_coinbase r' /\ coins_height r = coins_height r' /\ coins_version r = coins_version r').

#[export] Instance pruned_proper : Proper ((≡) ==> (=)) coins_is_pruned.
Proof.
  intros r r' [Ho _]. apply eq_iff_eq_true. split; intros Hp; apply no_output_pruned; intros n Hn;
    [rewrite <- Ho by done|rewrite Ho by done]; by apply pruned_no_output.
Qed.

#[export] Instance coins_equivalence : Equivalence (≡@{coins}).
Proof.
  split.
  - intros r. by split.
  - intros r r' Hr. pose proof (pruned_proper r r' Hr) as Hp. destruct Hr as [Ho Hm]. split; [intros n Hn; by rewrite Ho|].
    intros Hp'. rewrite Hp in Hm. destruct (Hm Hp') as (? & ? & ?). done.
  - intros r1 r2 r3 H12 H23. pose proof (pruned_proper r1 r2 H12) as Hp. destruct H12 as [Ho Hm], H23 as [Ho' Hm']. split.
    + intros n Hn. by rewrite Ho, Ho'.
    + intros Hp1. rewrite Hp in Hp1, Hm. destruct (Hm Hp1) as (? & ? & ?), (Hm' Hp1) as (? & ? & ?). split_and!; congruence.
Qed.

#[export] Instance records_equiv : Equiv (uint256_t -> coins) := fun f g => forall t, f t ≡ g t.

#[export] Instance records_equivalence : Equivalence (≡@{uint256_t -> coins}).
Proof.
  split; [by intros f t|intros f g Hfg t; symmetry; apply Hfg|intros f g k Hfg Hgk t; etransitivity; [apply Hfg|apply Hgk]].
Qed.

#[export] Instance set_record_proper : Proper ((≡) ==> (=) ==> (≡) ==> (≡)) set_record.
Proof. intros f g Hfg t ? <- r r' Hr t'. unfold set_record. case_decide; [done|apply Hfg]. Qed.

Lemma pruned_equiv_init r : coins_is_pruned r = true -> coins_init ≡ r.
Proof. intros Hp. split; [intros n _; by rewrite !pruned_no_output|done]. Qed.

(** ** Undoing *)

Definition grown_to (r : coins) (n : Z) : coins :=
  with_vout r (coins_vout r ++ replicate (Z.to_nat (n + 1) - length (coins_vout r)) tx_out_set_null).

Definition restored (r : coins) (n : Z) (u : tx_in_undo) : coins :=
  let r := if n >=? zlen (coins_vout r) then grown_to r n else r in
  let r := if undo_height u >? 0
           then {| is_coinbase := undo_coinbase u; coins_vout := coins_vout r; coins_height := i32 (undo_height u);
                   coins_version := undo_version u |}
           else r in
  with_vout r (<[Z.to_nat n := undo_txout u]> (coins_vout r)).

Definition restore_one (f : uint256_t -> coins) (x : tx_in * tx_in_undo) : uint256_t -> coins :=
  set_record f (op_hash (prevout (fst x))) (restored (f (op_hash (prevout (fst x)))) (op_n (prevout (fst x))) (snd x)).

Lemma output_of_grown r n k : 0 <= n -> 0 <= k -> output_of (grown_to r n) k = output_of r k.
Proof.
  intros Hn Hk. unfold output_of, grown_to. cbn [coins_vout with_vout]. destruct (coins_vout r !! Z.to_nat k) as [o|] eqn:E.
  - by rewrite (lookup_app_l_Some _ _ _ _ E).
  - apply lookup_ge_None in E. rewrite lookup_app_r by done.
    destruct (replicate _ _ !! _) as [o|] eqn:E'; [|done]. by apply lookup_replicate in E' as [-> _].
Qed.

Lemma output_of_restored r n u k : 0 <= n -> 0 <= k -> tx_out_is_null (undo_txout u) = false ->
  output_of (restored r n u) k = if k =? n then Some (undo_txout u) else output_of r k.
Proof.
  intros Hn Hk Hu. unfold restored. cbv zeta.
  set (r1 := if n >=? zlen (coins_vout r) then grown_to r n else r).
  assert (output_of r1 k = output_of r k /\ (Z.to_nat n < length (coins_vout r1))%nat) as [E1 Hl].
  { subst r1. destruct (Z.geb_spec n (zlen (coins_vout r))) as [Hge|Hlt]; unfold zlen in *; [|split; [done|lia]].
    split; [by apply output_of_grown|]. unfold grown_to. cbn. rewrite length_app, length_replicate. lia. }
  rewrite <- E1. clearbody r1. unfold output_of.
  assert (coins_vout (if undo_height u >? 0 then _ else r1) = coins_vout r1) as -> by by case_if.
  cbn [coins_vout with_vout]. destruct (Z.eqb_spec k n) as [->|Hkn].
  - rewrite list_lookup_insert_eq by done. by rewrite Hu.
  - by rewrite list_lookup_insert_ne by lia.
Qed.

(** The records of unspent outputs have a height that an undo record can carry. *)
Definition heights_ok (f : uint256_t -> coins) : Prop :=
  forall t, coins_is_pruned (f t) = false -> 0 < coins_height (f t) < 2 ^ 31.

Lemma null_pruned r n : 0 <= n -> coins_is_pruned (null_output r n) = false -> coins_is_pruned r = false.
Proof.
  intros Hn Hp. apply not_true_is_false. intros Hp'. assert (coins_is_pruned (null_output r n) = true); [|congruence].
  apply no_output_pruned. intros k Hk. rewrite output_of_null, (pruned_no_output r) by done. by case_if.
Qed.

(** Restoring a spent output gives the record back, up to equivalence. *)
Lemma restored_spend f i r u g r1 : 0 <= op_n (prevout i) -> heights_ok f -> spend_one f i = Some (r, u, g) -> r1 ≡ r ->
  restored r1 (op_n (prevout i)) u ≡ f (op_hash (prevout i)).
Proof.
  intros Hn Hh (o & Eo & _ & -> & -> & _)%spend_one_Some Hr1. set (n := op_n (prevout i)) in *.
  set (r0 := f (op_hash (prevout i))) in *. assert (coins_is_pruned r0 = false) as Hlive.
  { apply not_true_is_false. intros Hp. by rewrite pruned_no_output in Eo. }
  assert (tx_out_is_null o = false) as Hnull.
  { unfold output_of in Eo. destruct (coins_vout r0 !! _) as [o'|]; [|done]. case_match eqn:E; [done|]. by injection Eo as <-. }
  assert (undo_txout (undo_for (null_output r0 n) o) = o) as Etx by (unfold undo_for; by case_if).
  split.
  - intros k Hk. rewrite output_of_restored by (rewrite ?Etx; done). rewrite Etx. destruct Hr1 as [Ho _].
    rewrite Ho, output_of_null by done. by destruct (Z.eqb_spec k n) as [->|].
  - intros _. unfold restored, undo_for. cbv zeta. cbn [is_coinbase coins_height coins_version with_vout].
    specialize (Hh _ Hlive). fold r0 in Hh. destruct (coins_is_pruned (null_output r0 n)) eqn:Ep; cbn [undo_height].
    + unfold null_output. cbn [coins_height with_vout]. rewrite (uwrap_small 32) by (unfold is_u; lia).
      replace (coins_height r0 >? 0) with true by lia. cbn. rewrite (swrap_small 32) by (unfold is_s; lia). done.
    + cbn. rewrite <- Hr1 in Ep. destruct Hr1 as [_ Hm]. destruct (Hm Ep) as (Ec & Ehh & Ev).
      unfold null_output in *. cbn in *. case_if; cbn; done.
Qed.

Definition undo_tx (f : uint256_t -> coins) (x : transaction * tx_undo) : uint256_t -> coins :=
  set_record (foldl restore_one f (reverse (zip (vin (fst x)) (snd x)))) (tx_hash (fst x)) coins_init.

Lemma heights_set f t r : heights_ok f -> (coins_is_pruned r = false -> 0 < coins_height r < 2 ^ 31) -> heights_ok (set_record f t r).
Proof. intros Hf Hr t'. unfold set_record. case_decide; [done|apply Hf]. Qed.

Lemma heights_spend f i r u g : 0 <= op_n (prevout i) -> heights_ok f -> spend_one f i = Some (r, u, g) ->
  heights_ok (set_record f (op_hash (prevout i)) r).
Proof.
  intros Hn Hf (o & _ & _ & -> & _)%spend_one_Some. apply heights_set; [done|]. intros Hp.
  apply null_pruned in Hp; [|done]. by apply Hf.
Qed.

Lemma restore_spends ins f f' us gone : Forall (fun i => 0 <= op_n (prevout i)) ins -> heights_ok f ->
  spend_all f ins = Some (f', us, gone) ->
  length us = length ins /\ heights_ok f' /\
  forall f1, f1 ≡ f' -> foldl restore_one f1 (reverse (zip ins us)) ≡ f.
Proof.
  intros Hi. revert f f' us gone. induction Hi as [|i ins Hn _ IH]; intros f f' us gone Hh; [by intros [= <- <- <-]|].
  cbn [spend_all]. destruct (spend_one f i) as [[[r u] g]|] eqn:E1; cbn [mbind option_bind]; [|done].
  destruct (spend_all _ ins) as [[[f2 us2] gone2]|] eqn:E2; cbn [mbind option_bind]; [|done]. intros [= <- <- <-].
  destruct (IH _ _ _ _ (heights_spend _ _ _ _ _ Hn Hh E1) E2) as (Hl & Hh2 & Hr). split; [cbn; lia|]. split; [done|].
  intros f1 Hf1. specialize (Hr f1 Hf1). cbn [zip zip_with]. rewrite reverse_cons, foldl_app. cbn [foldl].
  set (f3 := foldl restore_one f1 _) in *. clearbody f3. intros t. unfold restore_one. cbn [fst snd]. specialize (Hr t).
  unfold set_record in *. case_decide as Et; [|done]. subst t.
  by apply (restored_spend f i r u g).
Qed.

Lemma restore_other l f g t : Forall (fun x => op_hash (prevout (fst x)) <> t) l ->
  (forall t', t' <> t -> f t' = g t') -> forall t', t' <> t -> foldl restore_one f l t' = foldl restore_one g l t'.
Proof.
  intros Hl. revert f g. induction Hl as [|x l Hx _ IH]; intros f g Hfg; [done|]. cbn [foldl]. apply IH. intros t' Ht'.
  unfold restore_one, set_record. rewrite (Hfg (op_hash (prevout (fst x)))) by done. case_decide; [done|by apply Hfg].
Qed.

Section Inverse.
Context `{AllocatorTotal}.

(** What the block needs of a transaction: it spends existing positions and not itself, and the
    record it creates is empty so far. *)
Record tx_applies (f : uint256_t -> coins) (tx : transaction) : Prop := {
  applies_hash : fixed 32 (tx_hash tx);
  applies_prevouts : transaction_is_coinbase tx = false ->
    Forall (fun i => fixed 32 (op_hash (prevout i)) /\ 0 <= op_n (prevout i) < MAX_BLOCK_SIZE /\
                     op_hash (prevout i) <> tx_hash tx) (vin tx);
  applies_fresh : coins_is_pruned (f (tx_hash tx)) = true;
}.

Lemma applies_positions f tx : tx_applies f tx -> transaction_is_coinbase tx = false ->
  Forall (fun i => 0 <= op_n (prevout i)) (vin tx).
Proof. intros Ha Hcb. eapply Forall_impl; [apply (applies_prevouts _ _ Ha Hcb)|]. cbv beta. lia. Qed.

Lemma new_record_height tx h : coins_is_pruned (new_record tx h) = false -> coins_height (new_record tx h) = h.
Proof.
  intros Hp. destruct (from_transaction tx h) as (ok & r & Er & _ & Eh). unfold new_record in *. rewrite Er in *. destruct ok; [by apply Eh|].
  unfold coins_from_transaction, coins_alloc in Er. rewrite alloc_total, andb_false_r in Er.
  case_if; [|done]. by injection Er as <-.
Qed.

(** Undoing a transaction gives the records back. *)
Lemma undo_apply f tx h f' us gone : tx_applies f tx -> heights_ok f -> 0 < h < 2 ^ 31 ->
  tx_effect f tx h = Some (f', us, gone) ->
  heights_ok f' /\ (transaction_is_coinbase tx = false -> length us = length (vin tx)) /\
  forall f1, f1 ≡ f' -> undo_tx f1 (tx, us) ≡ f.
Proof.
  intros Ha Hh Hht. unfold tx_effect.
  destruct (if transaction_is_coinbase tx then _ else _) as [[[f0 us0] gone0]|] eqn:E; cbn [mbind option_bind]; [|done].
  case_if; [|done]. intros [= <- <- <-].
  assert (heights_ok f0 /\ (transaction_is_coinbase tx = false -> length us0 = length (vin tx)) /\
    Forall (fun x => op_hash (prevout (fst x)) <> tx_hash tx) (zip (vin tx) us0) /\
    forall f1, f1 ≡ f0 -> foldl restore_one f1 (reverse (zip (vin tx) us0)) ≡ f) as (Hh0 & Hl & Hne & Hr).
  { destruct (transaction_is_coinbase tx) eqn:Ecb.
    - injection E as <- <- <-. split_and!; [done..| |]; by destruct (vin tx).
    - destruct (restore_spends _ _ _ _ _ (applies_positions _ _ Ha Ecb) Hh E) as (? & ? & ?). split_and!; try done.
      apply Forall_lookup. intros k [i u] Hk. apply lookup_zip_with_Some in Hk as (? & ? & [= -> ->] & Hi & _).
      cbn. apply (Forall_lookup_1 _ _ _ _ (applies_prevouts _ _ Ha Ecb) Hi). }
  split_and!; [|done|].
  - apply heights_set; [done|]. intros Hp. by rewrite new_record_height.
  - intros f1 Hf1 t. unfold undo_tx. cbn [fst snd]. unfold set_record at 1. case_decide as Et.
    + subst t. apply pruned_equiv_init, (applies_fresh _ _ Ha).
    + etransitivity; [|apply (Hr (set_record f1 (tx_hash tx) (f0 (tx_hash tx))))].
      * erewrite (restore_other _ f1); [reflexivity| | |]; [|intros t' Ht'; unfold set_record; by rewrite decide_False by done|done].
        by apply Forall_reverse.
      * intros t'. specialize (Hf1 t'). unfold set_record in *. case_decide; [by subst|done].
Qed.

Lemma runs_set_dirty slot t s c : modifying slot t s c ->
  runs (set_flags slot COINS_CACHE_DIRTY) (fun _ c' => modifying slot t s c') c.
Proof.
  intros (Hp & fl & Hs & Hd). pose proof (presents_ok _ _ Hp) as Hc.
  destruct (set_flags_runs c slot t _ COINS_CACHE_DIRTY (cache_map_ok _ Hc) Hs) as (c' & E & Hf & Hm & Hs' & Hc').
  pose proof (dirty_lor (vs_records s t) fl 0) as Hd'. change (COINS_CACHE_DIRTY .| 0) with COINS_CACHE_DIRTY in Hd'.
  exists tt, c'. split; [done|]. cbn [ce_coins ce_flags] in *. split; [|by exists (fl .| COINS_CACHE_DIRTY)].
  eapply unchanged_presents; [done|]. apply (changed_same t). rewrite (presents_records _ _ Hp).
  apply (cache_changed c c' t _ Hc Hf Hm Hc'). by left.
Qed.

Lemma runs_restore_input i u s c : fixed 32 (op_hash (prevout i)) -> 0 <= op_n (prevout i) < MAX_BLOCK_SIZE -> presents c s ->
  runs (restore_input i u) (fun ok c' => ok = true /\ presents c' (with_records s (restore_one (vs_records s) (i, u)))) c.
Proof.
  intros Ht Hn Hp. unfold restore_input, restore_one. cbn [fst snd]. cbv zeta. set (t := op_hash (prevout i)) in *.
  set (n := op_n (prevout i)) in *. set (r := vs_records s t). unfold restored. cbv zeta.
  set (r1 := if n >=? zlen (coins_vout r) then grown_to r n else r).
  eapply runs_bind; [by apply (runs_modify t s)|]. cbv beta. intros _ c1 (slot & -> & Hm1).
  eapply runs_bind; [by apply runs_read|]. cbv beta. intros e1 c2 [-> Hm2]. fold r.
  apply (runs_bind _ _ (fun ok c' => ok = true /\ modifying slot t (with_records s (set_record (vs_records s) t r1)) c')).
  { subst r1. destruct (n >=? zlen (coins_vout r)).
    - replace (n >=? MAX_BLOCK_SIZE) with false by lia. apply runs_grow; [done|lia].
    - apply runs_ret. split; [done|]. destruct Hm2 as (Hp2 & fl & Hs & Hd). split.
      + eapply presents_ext; [exact Hp2|done..|]. intros t'. cbn. unfold set_record. case_decide; [by subst|done].
      + exists fl. cbn. unfold set_record. by rewrite decide_True by done. }
  intros ok c3 [-> Hm3]. cbn [negb].
  eapply runs_bind; [by apply runs_read|]. cbv beta. intros e2 c4 [-> Hm4]. cbn [vs_records with_records].
  assert (set_record (vs_records s) t r1 t = r1) as -> by (unfold set_record; by rewrite decide_True by done).
  eapply runs_bind; [by apply runs_set_coins|]. cbv beta. intros _ c5 Hm5.
  eapply runs_bind; [by apply runs_set_dirty|]. cbv beta. intros _ c6 [Hp6 _]. apply runs_ret. split; [done|].
  eapply presents_ext; [exact Hp6|done..|]. intros t'. cbn. unfold set_record. by case_decide.
Qed.

Lemma runs_restore_inputs l s c : Forall (fun x => fixed 32 (op_hash (prevout (fst x))) /\
    0 <= op_n (prevout (fst x)) < MAX_BLOCK_SIZE) l -> presents c s ->
  runs (restore_inputs l) (fun ok c' => ok = true /\ presents c' (with_records s (foldl restore_one (vs_records s) l))) c.
Proof.
  intros Hl. revert s c. induction Hl as [|[i u] l [Ht Hn] _ IH]; intros s c Hp; cbn [restore_inputs foldl].
  { apply runs_ret. split; [done|]. by destruct s. }
  eapply runs_bind; [by apply runs_restore_input|]. cbv beta. intros ok c1 [-> Hp1].
  eapply runs_mono; [by apply (IH _ _ Hp1)|]. done.
Qed.

(** The undo record that the loop reads for a transaction; the coinbase has none. *)
Definition undo_or_none (u : option tx_undo) : tx_undo := default [] u.

(** The inputs of a transaction that has an undo record *)
Definition undoable (x : transaction * option tx_undo) : Prop := fixed 32 (tx_hash (fst x)) /\
  forall us, snd x = Some us -> length us = length (vin (fst x)) /\
    Forall (fun i => fixed 32 (op_hash (prevout i)) /\ 0 <= op_n (prevout i) < MAX_BLOCK_SIZE) (vin (fst x)).

Lemma runs_disconnect_tx tx u s c : undoable (tx, u) -> presents c s ->
  runs (disconnect_tx tx u) (fun ok c' => ok = true /\
    presents c' (with_records s (undo_tx (vs_records s) (tx, undo_or_none u)))) c.
Proof.
  intros [Ht Hu] Hp. cbn [fst snd] in Ht, Hu. unfold disconnect_tx, undo_tx. cbn [fst snd].
  set (f1 := foldl restore_one (vs_records s) (reverse (zip (vin tx) (undo_or_none u)))).
  apply (runs_bind _ _ (fun ok c' => ok = true /\ presents c' (with_records s f1))).
  { destruct u as [us|]; cbn [undo_or_none default].
    - destruct (Hu us eq_refl) as [Hl Hi]. unfold zlen. replace (_ =? _) with true by lia. cbn [negb]. apply runs_restore_inputs; [|done].
      apply Forall_reverse, Forall_lookup. intros k [i x] Hk. apply lookup_zip_with_Some in Hk as (? & ? & [= -> ->] & Hk & _).
      by apply (Forall_lookup_1 _ _ _ _ Hi Hk).
    - apply runs_ret. split; [done|]. subst f1. destruct s. by destruct (vin tx). }
  intros ok c1 [-> Hp1]. cbn [negb]. unfold erase_outputs.
  apply (runs_bind _ _ (fun _ c' => presents c' (with_records s (set_record f1 (tx_hash tx) coins_init)))).
  2: { intros _ c2 Hp2. by apply runs_ret. }
  eapply runs_bind; [by apply (runs_modify (tx_hash tx) _ _ Ht Hp1)|]. cbv beta. intros _ c2 (slot & -> & Hm2).
  eapply runs_bind; [by apply runs_set_coins|]. cbv beta. intros _ c3 Hm3.
  eapply runs_mono; [by apply runs_set_dirty|]. cbv beta. by intros _ c4 [Hp4 _].
Qed.
End Inverse.

(** ** Blocks *)

Section Blocks.
Context `{AllocatorTotal} `{HashFunctions}.
Variable skip : bool.
Variable nHeight : Z.

(** The transactions of a block in order: the state left and the undo records *)
Fixpoint txs_effect (s : view_state) (txs : list transaction) : option (view_state * list tx_undo) :=
  match txs with
  | [] => Some (s, [])
  | tx :: rest =>
      '(f, us, gone) ← tx_effect (vs_records s) tx nHeight;
      '(s', uss) ← txs_effect (applied_state skip s tx nHeight f gone) rest;
      Some (s', us :: uss)
  end.

Definition block_applies (f : uint256_t -> coins) (txs : list transaction) : Prop :=
  NoDup (map tx_hash txs) /\ Forall (tx_applies f) txs.

Lemma apply_tx_fresh f tx h f' us gone t : tx_applies f tx ->
  tx_effect f tx h = Some (f', us, gone) -> t <> tx_hash tx -> coins_is_pruned (f t) = true -> coins_is_pruned (f' t) = true.
Proof.
  intros Ha. unfold tx_effect. destruct (if transaction_is_coinbase tx then _ else _) as [[[f0 us0] gone0]|] eqn:E;
    cbn [mbind option_bind]; [|done]. case_if; [|done]. intros [= <- <- <-] Ht Hp. unfold set_record.
  rewrite decide_False by done. destruct (transaction_is_coinbase tx) eqn:Ecb; [by injection E as <- <- <-|].
  eapply spend_all_pruned; [by eapply applies_positions|done..].
Qed.

Lemma block_applies_cons f tx txs h f' us gone : block_applies f (tx :: txs) -> tx_effect f tx h = Some (f', us, gone) ->
  tx_applies f tx /\ block_applies f' txs.
Proof.
  intros [Hnd Hf] E. apply NoDup_cons in Hnd as [Hin Hnd]. apply Forall_cons in Hf as [Hf Hfs]. split; [done|]. split; [done|].
  apply Forall_forall. intros tx' Hin'. destruct (proj1 (Forall_forall _ _) Hfs tx' Hin') as [Hh Hp Hfr]. constructor; [done|done|].
  eapply apply_tx_fresh; [done|done| |done]. intros Eh. apply Hin. rewrite <- Eh.
  apply list_elem_of_fmap. by exists tx'.
Qed.

(** Undoing the transactions in reverse order, with their undo records *)
Lemma undo_txs_inverse txs s s' uss : 0 < nHeight < 2 ^ 31 -> heights_ok (vs_records s) -> block_applies (vs_records s) txs ->
  txs_effect s txs = Some (s', uss) ->
  length uss = length txs /\
  Forall2 (fun tx us => transaction_is_coinbase tx = false -> length us = length (vin tx)) txs uss /\
  forall f1, f1 ≡ vs_records s' -> foldl undo_tx f1 (reverse (zip txs uss)) ≡ vs_records s.
Proof.
  intros Hht. revert s uss. induction txs as [|tx txs IH]; intros s uss Hh Hb; [intros [= <- <-]; split_and!; done|].
  cbn [txs_effect]. destruct (tx_effect _ tx nHeight) as [[[f us] gone]|] eqn:E; cbn [mbind option_bind]; [|done].
  destruct (txs_effect _ txs) as [[s1 uss1]|] eqn:E1; cbn [mbind option_bind]; [|done]. intros [= <- <-].
  destruct (block_applies_cons _ _ _ _ _ _ _ Hb E) as [Ha Hb1].
  destruct (undo_apply _ _ _ _ _ _ Ha Hh Hht E) as (Hh1 & Hl & Hr).
  destruct (IH (applied_state skip s tx nHeight f gone) _ Hh1 Hb1 E1) as (Hl1 & Hf2 & Hr1). split_and!; [cbn; lia|by constructor|].
  intros f1 Hf1. cbn [zip zip_with]. rewrite reverse_cons, foldl_app. cbn [foldl]. apply Hr, (Hr1 f1 Hf1).
Qed.

Lemma runs_disconnect_txs l s c : Forall undoable l -> presents c s ->
  runs (disconnect_txs l) (fun ok c' => ok = true /\
    presents c' (with_records s (foldl undo_tx (vs_records s) (map (fun x => (fst x, undo_or_none (snd x))) l)))) c.
Proof.
  intros Hl. revert s c. induction Hl as [|[tx u] l Hu _ IH]; intros s c Hp; cbn [disconnect_txs map foldl fst snd].
  { apply runs_ret. split; [done|]. by destruct s. }
  eapply runs_bind; [by apply runs_disconnect_tx|]. cbv beta. intros ok c1 [-> Hp1].
  eapply runs_mono; [by apply (IH _ _ Hp1)|]. done.
Qed.

Definition coinbase_leads (txs : list transaction) : Prop :=
  match txs with
  | [] => False
  | cb :: rest => transaction_is_coinbase cb = true /\ Forall (fun tx => transaction_is_coinbase tx = false) rest
  end.

(** Disconnecting a block from any cache that presents the records it leaves *)
Lemma disconnect_runs b prev_hash bu s s' s0 uss c : 0 < nHeight < 2 ^ 31 -> heights_ok (vs_records s) ->
  block_applies (vs_records s) (vtx b) -> txs_effect s (vtx b) = Some (s', uss) -> vtxundo bu = tail uss ->
  coinbase_leads (vtx b) -> vs_records s0 ≡ vs_records s' -> presents c s0 ->
  runs (disconnect_block b prev_hash bu) (fun ok c' => ok = true /\ exists f, f ≡ vs_records s /\
    presents c' {| vs_base := vs_base s0; vs_best := default (vs_best s0) prev_hash;
                   vs_commitment := vs_commitment s0; vs_cached := vs_cached s0; vs_records := f |}) c.
Proof.
  intros Hht Hh Hb E Hbu Hcb Hs0 Hp. destruct (undo_txs_inverse _ _ _ _ Hht Hh Hb E) as (Hl & Hf2 & Hr).
  unfold disconnect_block. rewrite Hbu. destruct (vtx b) as [|cb rest] eqn:Evtx; [done|]. destruct Hcb as [Hcb Hrest].
  destruct uss as [|us0 uss]; [done|]. cbn [tail]. replace (negb _) with false by (unfold zlen; cbn in *; lia).
  assert (us0 = []) as ->.
  { cbn [txs_effect] in E. unfold tx_effect in E. rewrite Hcb in E. cbn [mbind option_bind] in E. case_if; [|done].
    cbn [mbind option_bind] in E. destruct (txs_effect _ rest) as [[? ?]|]; cbn in E; [|done]. by injection E. }
  set (l := reverse (zip (cb :: rest) (None :: (Some <$> uss)))).
  assert (map (fun x => (fst x, undo_or_none (snd x))) l = reverse (zip (cb :: rest) ([] :: uss))) as El.
  { subst l. change (map ?g ?l) with (g <$> l). rewrite fmap_reverse. f_equal. cbn. f_equal. clear. revert uss.
    induction rest as [|tx rest IH]; intros [|us uss]; cbn; f_equal; auto. }
  eapply runs_bind; [apply (runs_disconnect_txs l s0 c); [|done]|].
  - destruct Hb as [_ Hb]. inversion Hf2 as [|? ? ? ? _ Hf2']; subst. apply Forall_reverse, Forall_lookup. intros k [tx u] Hk.
    apply lookup_zip_with_Some in Hk as (? & ? & [= -> ->] & Hk & Hu). cbn [fst snd].
    destruct (Forall_lookup_1 _ _ _ _ Hb Hk) as [Hth Hpo _]. split; [done|]. cbn [fst snd].
    intros us ->. destruct k as [|k]; [done|]. cbn [lookup list_lookup] in Hk, Hu.
    change (((Some <$> uss) !! k) = Some (Some us)) in Hu. rewrite list_lookup_fmap in Hu.
    destruct (uss !! k) as [us'|] eqn:Ek; [|done]. cbn in Hu. injection Hu as ->.
    pose proof (Forall_lookup_1 _ _ _ _ Hrest Hk) as Hnc. cbv beta in Hnc.
    split; [by apply (Forall2_lookup_lr _ _ _ _ _ _ Hf2' Hk Ek)|]. eapply Forall_impl; [by apply Hpo|]. naive_solver.
  - cbv beta. intros ok c1 [-> Hp1]. cbn [negb]. rewrite El in Hp1.
    set (f := foldl undo_tx (vs_records s0) (reverse (zip (cb :: rest) ([] :: uss)))) in *.
    assert (f ≡ vs_records s) as Hf by by apply Hr. clearbody f. destruct Hp1 as [Hc Hb1 Hh1 Hu1 Hk1 Hr1].
    destruct prev_hash as [h|]; (eexists true, _; split; [done|]); (split; [done|]); exists f; (split; [done|]).
    + constructor; cbn in *; [by destruct Hc|done..].
    + constructor; cbn in *; done.
Qed.
End Blocks.

(** ** Properties *)

Section Theorems.
Context `{AllocatorTotal} `{HashFunctionsOk}.

(** Applying a transaction is exactly the function [tx_effect] on the records that the cache
    answers.  The call succeeds when every input, in order, spends an existing output of a value
    in the money range and the new outputs fit; it then returns the undo record of each input,
    leaves the records with the inputs emptied and the outputs created, and updates the running
    commitment by what went and what came.  Otherwise it returns false, with the backing view
    and the best block untouched. *)
Theorem update_coins_exact skip tx h s c : fixed 32 (tx_hash tx) ->
  (transaction_is_coinbase tx = false -> prevouts_ok (vin tx)) -> presents c s ->
  exists res c', update_coins_with_undo skip tx h c = Some (res, c') /\
    match tx_effect (vs_records s) tx h with
    | Some (f, us, gone) => res = Some us /\ presents c' (applied_state skip s tx h f gone)
    | None => res = None /\ abandoned s c'
    end.
Proof. intros Ht Hi Hp. destruct (runs_update_coins skip tx h s c Ht Hi Hp) as (res & c' & E & Hr). eauto. Qed.


(** Disconnecting a block undoes it.  From any cache that answers the records that the
    transactions of a block leave, walking the block backwards with the undo records that
    applying it produced succeeds and gives back the records from before the block, up to
    trailing empty cells and the metadata of empty records; the best block is the predecessor.
    The running commitment is not reverted. *)
Theorem disconnect_restores skip nHeight b prev_hash bu s s' s0 uss c : 0 < nHeight < 2 ^ 31 -> heights_ok (vs_records s) ->
  block_applies (vs_records s) (vtx b) -> coinbase_leads (vtx b) ->
  txs_effect skip nHeight s (vtx b) = Some (s', uss) -> vtxundo bu = tail uss ->
  vs_records s0 ≡ vs_records s' -> presents c s0 ->
  exists c' f, disconnect_block b prev_hash bu c = Some (true, c') /\ f ≡ vs_records s /\
    presents c' {| vs_base := vs_base s0; vs_best := default (vs_best s0) prev_hash;
                   vs_commitment := vs_commitment s0; vs_cached := vs_cached s0; vs_records := f |}.
Proof.
  intros Hht Hh Hb Hcb E Hbu Hs0 Hp. destruct (disconnect_runs skip nHeight b prev_hash bu s s' s0 uss c Hht Hh Hb E Hbu Hcb Hs0 Hp)
    as (ok & c' & Er & -> & f & Hf & Hp'). eauto.
Qed.
End Theorems.

(** ** A concrete block *)

Definition spend_of (ins : list tx_in) (outs : list tx_out) (hash : uint256_t) : transaction :=
  {| overwintered := false; version := 1; version_group_id := 0; vin := ins; vout := outs; lock_time := 0;
     expiry_height := 0; value_balance := 0; v_shielded_spend := []; v_shielded_output := []; v_joinsplit := [];
     joinsplit_pubkey := uint256_null; joinsplit_sig := replicate 64 0; binding_sig := replicate 64 0; tx_hash := hash |}.

Definition block_coinbase : transaction := with_hash sample_coinbase (sample_txid 2).

Definition block_spend : transaction :=
  spend_of [sample_input] [{| value := 4000; script_pub_key := [0x51] |}] (sample_txid 3).

Definition sample_state : view_state :=
  {| vs_base := sample_backing; vs_best := uint256_null; vs_commitment := utxo_commitment_init; vs_cached := [];
     vs_records := fun t => if decide (t = sample_txid 1) then sample_record else coins_init |}.

Lemma sample_presents : presents sample_cache sample_state.
Proof. constructor; [apply sample_cache_ok|done..|]. intros t. cbn. unfold record_of. cbn. by case_decide. Qed.

Lemma update_coins_exact_witness : exists us c',
  @update_coins_with_undo (fun _ => true) checksum_hashes false block_spend 9 sample_cache = Some (Some us, c').
Proof.
  destruct (@update_coins_exact (fun _ => true) (fun _ => eq_refl) checksum_hashes false block_spend 9 sample_state
    sample_cache ltac:(by apply sample_txid_ok) ltac:(intros _; apply Forall_singleton; split; [by apply sample_txid_ok|done])
    sample_presents) as (res & c' & E & Hr).
  destruct (tx_effect (vs_records sample_state) block_spend 9) as [[[f us] gone]|] eqn:Ea; [|by vm_compute in Ea].
  destruct Hr as [-> _]. exists us, c'. exact E.
Defined.

Lemma sample_lists : lists [{| u_txid := sample_txid 1; u_vout := 0; u_value := 5000; u_height := 7 |}] (vs_records sample_state).
Proof.
  split; [apply NoDup_singleton|]. intros [t n v h]. rewrite list_elem_of_singleton. unfold unspent. cbn. split.
  - intros [= -> -> -> ->]. split; [done|]. by eexists.
  - intros (Hn & o & Ho & -> & ->). case_decide; [subst t|done]. unfold output_of in Ho. cbn in Ho.
    destruct (Z.to_nat n) eqn:En; [|done]. cbn in Ho. injection Ho as <-. f_equal. lia.
Qed.


Lemma sample_block_applies : block_applies (vs_records sample_state) [block_coinbase; block_spend].
Proof.
  split; [apply (bool_decide_unpack _); by vm_compute|]. apply Forall_cons. split; [|apply Forall_singleton].
  - constructor; [by apply sample_txid_ok|done|done].
  - constructor; [by apply sample_txid_ok| |done]. intros _. apply Forall_singleton. split; [by apply sample_txid_ok|done].
Qed.

Lemma disconnect_restores_witness : exists s' uss c c' f,
  @txs_effect (fun _ => true) checksum_hashes false 9 sample_state [block_coinbase; block_spend] = Some (s', uss) /\
  presents c s' /\ length uss = 2%nat /\
  @disconnect_block (fun _ => true) {| header := block_header_init; vtx := [block_coinbase; block_spend] |} None
    {| vtxundo := tail uss; old_sprout_tree_root := uint256_null |} c = Some (true, c') /\
  f ≡ vs_records sample_state /\ presents c' {| vs_base := vs_base s'; vs_best := vs_best s';
    vs_commitment := vs_commitment s'; vs_cached := vs_cached s'; vs_records := f |}.
Proof.
  destruct (@txs_effect (fun _ => true) checksum_hashes false 9 sample_state [block_coinbase; block_spend]) as [[s' uss]|] eqn:E;
    [|exfalso; by vm_compute in E].
  assert (length uss = 2%nat) as Hl by (vm_compute in E; by injection E as _ <-).
  assert (exists c, presents c s') as [c Hc].
  { pose proof E as E'. cbn [txs_effect] in E'.
    destruct (@tx_effect _ (vs_records sample_state) block_coinbase 9) as [[[f1 us1] g1]|] eqn:E1; [|done].
    cbn [mbind option_bind] in E'. destruct (@tx_effect _ _ block_spend 9) as [[[f2 us2] g2]|] eqn:E2; [|done].
    cbn [mbind option_bind] in E'. injection E' as <- <-.
    destruct (@runs_update_coins (fun _ => true) (fun _ => eq_refl) checksum_hashes false block_coinbase 9 sample_state sample_cache
      ltac:(by apply sample_txid_ok) ltac:(done) sample_presents) as (r1 & c1 & _ & Hr1). rewrite E1 in Hr1. destruct Hr1 as [_ Hp1].
    edestruct (@runs_update_coins (fun _ => true) (fun _ => eq_refl) checksum_hashes false block_spend 9 _ c1
      ltac:(by apply sample_txid_ok) ltac:(intros _; apply Forall_singleton; split; [by apply sample_txid_ok|done]) Hp1)
      as (r2 & c2 & _ & Hr2). rewrite E2 in Hr2. destruct Hr2 as [_ Hp2]. eauto. }
  destruct (@disconnect_restores (fun _ => true) (fun _ => eq_refl) checksum_hashes false 9
    {| header := block_header_init; vtx := [block_coinbase; block_spend] |} None
    {| vtxundo := tail uss; old_sprout_tree_root := uint256_null |} sample_state s' s' uss c ltac:(done)
    ltac:(intros t; cbn; case_decide; done) sample_block_applies ltac:(split; [done|by apply Forall_singleton]) E eq_refl ltac:(reflexivity) Hc)
    as (c' & f & Ed & Hf & Hp). exists s', uss, c, c', f. split_and!; done.
Defined.
