(* ===== verification/ConnectBlock.v ===== *)
(** * Connecting a block to the coins cache

    Models [connect_block] of lib/validation/src/connect_block.c and [get_p2sh_sig_op_count] of
    lib/validation/src/sigops.c: the checks of a block against the records of the cache, the
    update of the records, the collection of the script checks and their execution after the
    update.  A script check keeps a pointer to the script of the output it spends, into the
    array of outputs of the cached record; the model keeps the position of that cell and reads
    it when the check runs.  The thread pool is the parameter [run_pool], tied to file Workpool by
    [pool_runs].  The events and the log lines are not part of the model.

    The theorems: the call is the function [judge_block] on the records that the cache
    answers ([connect_block_exact]); an accepted block spends existing and mature outputs and
    creates no money ([connect_block_sound], [connect_conserves_value]); disconnecting it with
    the undo records restores the records ([connect_disconnect]); the scripts of the spent
    outputs are never run, since the cells are emptied before the checks ([scripts_not_checked]);
    and the turnstile refuses the first deposit into the Sapling pool ([turnstile_refuses_deposit]). *)

From stdpp Require Import gmap fin_maps functions strings sets.
From S2P Require Import Prelude Hash Serialize Script ScriptInterp Transaction Params TxCheck Pow Workpool Block BlockCheck CoinsMath Probing CoinsMap UtxoCommitment CoinsView Sighash TxVerifier UpdateCoins Merkle.

(** ** Data *)

Definition MAX_BLOCK_SIGOPS : Z := 20000.
Definition connect_flags : Z := SCRIPT_VERIFY_P2SH .| SCRIPT_VERIFY_CHECKLOCKTIMEVERIFY.
Definition SIZEOF_SCRIPT_CHECK : Z := 72.
Definition SIZEOF_TXDATA : Z := 192.

(** A pending script check.  [sc_prevout] is the cell that [script_pub_key] points into; [None]
    once the array of the cell is released. *)
Record script_check := ScriptCheck {
  sc_script_sig : script;
  sc_prevout : option outpoint;
  sc_flags : Z;
  sc_branch_id : Z;
  sc_tsc : tx_sig_checker;
}.

(** The shielded totals of a block index entry; the chain totals are absent until their flag is set. *)
Record pool_totals := PoolTotals {
  nSproutValue : option Z;
  nSaplingValue : Z;
  nChainSproutValue : option Z;
  nChainSaplingValue : option Z;
}.

(** What the call reads of the block index: the entry and the totals of its predecessor *)
Record connect_index := ConnectIndex {
  ci_nHeight : Z;
  ci_phashBlock : option uint256_t;
  ci_totals : pool_totals;
  ci_pprev : option pool_totals;
}.

(** Why the call returns false: the verdict stamped on the state, if any, and the missing output
    recorded for the recovery *)
Record rejection := Rejection { rj_verdict : option verdict; rj_missing : option outpoint }.

Definition dos100 (reason : string) : rejection :=
  {| rj_verdict := Some (RejectDos 100 REJECT_INVALID reason false); rj_missing := None |}.

Definition fatal (reason : string) : rejection := {| rj_verdict := Some (RejectFatal reason); rj_missing := None |}.

(** ** Computations that can reject *)

Definition connect_m (A : Type) : Type := view_m (result rejection A).

Definition accept {A} (a : A) : connect_m A := fun c => Some (Ok a, c).

Definition and_then {A B} (m : connect_m A) (f : A -> connect_m B) : connect_m B := fun c =>
  match m c with
  | Some (Ok a, c') => f a c'
  | Some (Err e, c') => Some (Err e, c')
  | None => None
  end.

Notation "x '<~' m ; k" := (and_then m (fun x => k)) (at level 20, m at level 100, k at level 200, right associativity).
Notation "m ';~' k" := (and_then m (fun _ => k)) (at level 100, k at level 200, right associativity).

Definition lift {A} (m : view_m A) : connect_m A := fun c =>
  match m c with Some (a, c') => Some (Ok a, c') | None => None end.

Definition refuse {A} (e : rejection) : connect_m A := fun c => Some (Err e, c).

Definition demand (cond : bool) (e : rejection) : connect_m unit := if cond then accept tt else refuse e.

Section Connect.
Context `{Allocator} `{HashFunctions} `{Secp256k1} `{CryptoRegistry} `{Clock}.
(** [g_utxo_commitment_skip] and [g_deferred_proof_validation_below_height] *)
Variable skip : bool.
Variable deferred_below : Z.
Variable params : chain_params.

(** ** Script checks *)

(** A check whose pointers are followed: the two scripts *)
Abbreviation loaded_check := (script * script_check)%type.

Definition script_check_fn (item : loaded_check) : bool :=
  let '(script_pub_key, sc) := item in
  match domain_consensus_verify_script (tx_make_sig_checker (sc_tsc sc)) (sc_branch_id sc) (sc_flags sc)
          (sc_script_sig sc) script_pub_key with
  | Ok _ => true
  | Err _ => false
  end.

(** [get_script_pool] and [workpool_run]: [None] when the pool cannot be started *)
Variable run_pool : option (list loaded_check -> bool).

(** Following [script_pub_key]; a released cell is undefined behaviour. *)
Definition load_check (sc : script_check) : view_m loaded_check :=
  match sc_prevout sc with
  | None => undefined
  | Some p =>
      entry ← find_entry (op_hash p);
      match entry with
      | None => undefined
      | Some slot =>
          e ← read_entry slot;
          match coins_vout (ce_coins e) !! Z.to_nat (op_n p) with
          | None => undefined
          | Some o => mret (script_pub_key o, sc)
          end
      end
  end.

Fixpoint load_checks (l : list script_check) : view_m (list loaded_check) :=
  match l with
  | [] => mret []
  | sc :: rest => x ← load_check sc; xs ← load_checks rest; mret (x :: xs)
  end.

Fixpoint run_sequential (l : list script_check) : view_m bool :=
  match l with
  | [] => mret true
  | sc :: rest => x ← load_check sc; if script_check_fn x then run_sequential rest else mret false
  end.

Definition run_checks (l : list script_check) : view_m bool :=
  match run_pool with
  | Some run => if zlen l >=? 4 then xs ← load_checks l; mret (run xs) else run_sequential l
  | None => run_sequential l
  end.

(** Creating the record of [txid] releases the array of outputs it had. *)
Definition release (txid : uint256_t) (sc : script_check) : script_check :=
  match sc_prevout sc with
  | Some p => if decide (op_hash p = txid)
              then {| sc_script_sig := sc_script_sig sc; sc_prevout := None; sc_flags := sc_flags sc;
                      sc_branch_id := sc_branch_id sc; sc_tsc := sc_tsc sc |}
              else sc
  | None => sc
  end.

(** ** The checks on a transaction *)

Definition checkpoint_covers (cpdata : list checkpoint_entry) (height : Z) : bool :=
  match last cpdata with None => false | Some e => cp_height e >=? height end.

Fixpoint resolve_prevouts (ins : list tx_in) : view_m (list (option tx_out)) :=
  match ins with
  | [] => mret []
  | i :: rest => o ← coins_view_cache_get_output_for i; os ← resolve_prevouts rest; mret (o :: os)
  end.

Definition get_p2sh_sig_op_count (tx : transaction) (flags : Z) : view_m Z :=
  if flags .& SCRIPT_VERIFY_P2SH =? 0 then mret 0
  else if transaction_is_coinbase tx then mret 0
  else if zlen (vin tx) =? 0 then mret 0
  else if negb (alloc_succeeds (zlen (vin tx) * 8)) then mret 0
  else
    prevouts ← resolve_prevouts (vin tx);
    mret (domain_consensus_tx_p2sh_sig_op_count tx prevouts flags).

(** [false]: an input spends a coinbase too early *)
Fixpoint check_maturity (nHeight : Z) (ins : list tx_in) : view_m bool :=
  match ins with
  | [] => mret true
  | i :: rest =>
      prev ← coins_view_cache_get_coins (op_hash (prevout i));
      match prev with
      | Some r => if is_coinbase r && (nHeight - coins_height r <? COINBASE_MATURITY) then mret false
                  else check_maturity nHeight rest
      | None => check_maturity nHeight rest
      end
  end.

(** The first input whose output is missing *)
Fixpoint find_missing (ins : list tx_in) : view_m (option outpoint) :=
  match ins with
  | [] => mret None
  | i :: rest => o ← coins_view_cache_get_output_for i;
                 match o with None => mret (Some (prevout i)) | Some _ => find_missing rest end
  end.

Definition missing_or_spent (missing : option outpoint) : rejection :=
  {| rj_verdict := Some (RejectDos 100 REJECT_INVALID "bad-txns-inputs-missingorspent" false); rj_missing := missing |}.

(** The script checks of the inputs from position [j] on *)
Fixpoint collect_checks (tx : transaction) (branch_id : Z) (txdata : precomputed_tx_data) (j : Z) (ins : list tx_in)
    : connect_m (list script_check) :=
  match ins with
  | [] => accept []
  | i :: rest =>
      prev_out <~ lift (coins_view_cache_get_output_for i);
      match prev_out with
      | None => refuse (missing_or_spent None)
      | Some o =>
          demand (MoneyRange (value o)) (dos100 "bad-txns-inputvalues-outofrange");~
          let sc := {| sc_script_sig := script_sig i; sc_prevout := Some (prevout i); sc_flags := connect_flags;
                       sc_branch_id := branch_id;
                       sc_tsc := {| c_tx := tx; c_nIn := j; c_amount := value o; c_branch_id := branch_id;
                                    c_txdata := Some txdata |} |} in
          scs <~ collect_checks tx branch_id txdata (j + 1) rest;
          accept (sc :: scs)
      end
  end.

(** The variables of the loop over the transactions *)
Record tally := Tally {
  t_fees : Z;
  t_sig_ops : Z;
  t_checks : list script_check;
  t_undo : list tx_undo;
}.

(** The part of a round that only transactions with inputs have: the fees, the signature
    operations and the new checks.  The branches that grow the arrays of checks are dead: the
    arrays have a cell for every input of the block. *)
Definition check_inputs (expensive : bool) (branch_id nHeight : Z) (tx : transaction) (sig_ops fees : Z)
    : connect_m (Z * Z * list script_check) :=
  mature <~ lift (check_maturity nHeight (vin tx));
  demand mature (dos100 "bad-txns-premature-spend-of-coinbase");~
  have <~ lift (coins_view_cache_have_inputs tx);
  (if have : bool then accept tt else missing <~ lift (find_missing (vin tx)); refuse (missing_or_spent missing));~
  met <~ lift (coins_view_cache_have_joinsplit_requirements tx);
  demand met (dos100 "bad-txns-joinsplit-requirements-not-met");~
  p2sh <~ lift (get_p2sh_sig_op_count tx connect_flags);
  let sig_ops := u32 (sig_ops + u32 p2sh) in
  demand (negb (sig_ops >? MAX_BLOCK_SIGOPS)) (dos100 "bad-blk-sigops");~
  value_in <~ lift (coins_view_cache_get_value_in tx);
  let value_out := transaction_get_value_out tx in
  demand (negb (value_in <? 0)) (dos100 "bad-txns-inputvalues-outofrange");~
  demand (MoneyRange value_in) (dos100 "bad-txns-inputvalues-outofrange");~
  demand (negb (value_in <? value_out)) (dos100 "bad-txns-in-belowout");~
  let tx_fee := i64 (value_in - value_out) in
  demand (negb (tx_fee <? 0)) (dos100 "bad-txns-fee-negative");~
  demand (MoneyRange (i64 (fees + tx_fee))) (dos100 "bad-txns-fee-outofrange");~
  let fees := i64 (fees + tx_fee) in
  scs <~ (if expensive then
           match domain_consensus_precompute_tx_data tx with
           | Ok txdata => collect_checks tx branch_id txdata 0 (vin tx)
           | Err _ => undefined
           end
         else accept []);
  accept (sig_ops, fees, scs).

(** One round of the loop *)
Definition connect_round (expensive : bool) (branch_id nHeight : Z) (st : tally) (tx : transaction) : connect_m tally :=
  let sig_ops := u32 (t_sig_ops st + u32 (get_legacy_sig_op_count tx connect_flags)) in
  demand (negb (sig_ops >? MAX_BLOCK_SIGOPS)) (dos100 "bad-blk-sigops");~
  gathered <~ (if negb (transaction_is_coinbase tx)
                           then check_inputs expensive branch_id nHeight tx sig_ops (t_fees st)
                           else accept (sig_ops, t_fees st, []));
  let '(sig_ops, fees, scs) := gathered in
  updated <~ lift (update_coins_with_undo skip tx nHeight);
  match updated with
  | None => refuse {| rj_verdict := Some (RejectDos 100 REJECT_INVALID "bad-txns-utxo-update-failed" true); rj_missing := None |}
  | Some txundo =>
      accept {| t_fees := fees; t_sig_ops := sig_ops; t_checks := map (release (tx_hash tx)) (t_checks st ++ scs);
              t_undo := t_undo st ++ [txundo] |}
  end.

Fixpoint connect_rounds (expensive : bool) (branch_id nHeight : Z) (st : tally) (txs : list transaction) : connect_m tally :=
  match txs with
  | [] => accept st
  | tx :: rest => st <~ connect_round expensive branch_id nHeight st tx; connect_rounds expensive branch_id nHeight st rest
  end.

(** ** The checks on the block *)

(** No transaction may overwrite unspent outputs, unless of a block at the same height. *)
Fixpoint check_bip30 (nHeight : Z) (txs : list transaction) : connect_m unit :=
  match txs with
  | [] => accept tt
  | tx :: rest =>
      have <~ lift (coins_view_cache_have_coins (tx_hash tx));
      (if have : bool then
         existing <~ lift (coins_view_cache_get_coins (tx_hash tx));
         match existing with
         | Some r => if negb (coins_is_pruned r)
                     then demand ((coins_height r =? nHeight) && (nHeight >? 0)) (dos100 "bad-txns-BIP30") else accept tt
         | None => accept tt
         end
       else accept tt);~
      check_bip30 nHeight rest
  end.

Definition block_sprout_value (b : block) : Z :=
  foldl (fun v tx => foldl (fun v js => i64 (i64 (v + vpub_old js) - vpub_new js)) v (v_joinsplit tx)) 0 (vtx b).

Definition block_sapling_value (b : block) : Z := foldl (fun v tx => i64 (v + value_balance tx)) 0 (vtx b).

(** The turnstile: the totals written to the entry, and whether they are allowed *)
Definition turnstile (b : block) (pindex : connect_index) : pool_totals * result rejection unit :=
  match ci_pprev pindex with
  | None => (ci_totals pindex, Ok tt)
  | Some prev =>
      let t := {| nSproutValue := Some (block_sprout_value b); nSaplingValue := block_sapling_value b;
                  nChainSproutValue := nChainSproutValue (ci_totals pindex);
                  nChainSaplingValue := nChainSaplingValue (ci_totals pindex) |} in
      let sprout := (fun v => i64 (v + block_sprout_value b)) <$> nChainSproutValue prev in
      let t := {| nSproutValue := nSproutValue t; nSaplingValue := nSaplingValue t;
                  nChainSproutValue := if sprout is Some _ then sprout else nChainSproutValue t;
                  nChainSaplingValue := nChainSaplingValue t |} in
      if bool_decide (is_Some sprout) && (default 0 sprout <? 0)
      then (t, Err (dos100 "bad-txns-sprout-turnstile-violation"))
      else
        let sapling := (fun v => i64 (v + block_sapling_value b)) <$> nChainSaplingValue prev in
        let t := {| nSproutValue := nSproutValue t; nSaplingValue := nSaplingValue t;
                    nChainSproutValue := nChainSproutValue t;
                    nChainSaplingValue := if sapling is Some _ then sapling else nChainSaplingValue t |} in
        if bool_decide (is_Some sapling) && (default 0 sapling <? 0)
        then (t, Err (dos100 "bad-txns-sapling-turnstile-violation"))
        else (t, Ok tt)
  end.

Definition has_inputs_count (txs : list transaction) : Z :=
  foldl (fun n tx => if transaction_is_coinbase tx then n else n + zlen (vin tx)) 0 txs.

Definition spending_count (txs : list transaction) : Z :=
  foldl (fun n tx => if transaction_is_coinbase tx then n else n + 1) 0 txs.

(** The arrays allocated before the loop *)
Definition arrays_allocated (txs : list transaction) : bool :=
  let checks_cap := Z.max 1 (has_inputs_count txs) in
  let txdatas_cap := Z.max 1 (spending_count txs) in
  alloc_succeeds (checks_cap * SIZEOF_SCRIPT_CHECK) && alloc_succeeds (checks_cap * 8) &&
  alloc_succeeds (txdatas_cap * SIZEOF_TXDATA).

Definition deferred (nHeight : Z) : bool := (deferred_below >=? 0) && (nHeight <=? deferred_below).

(** After the loop: the scripts, the Sapling root and the reward.  A block without transactions
    has no coinbase to read. *)
Definition conclude_block (b : block) (nHeight : Z) (just_check : bool) (st : tally) : connect_m unit :=
  (if zlen (t_checks st) >? 0
   then scripts_ok <~ lift (run_checks (t_checks st)); demand scripts_ok (dos100 "mandatory-script-verify-flag-failed")
   else accept tt);~
  (if negb just_check && consensus_network_upgrade_active (consensus params) nHeight UPGRADE_SAPLING
   then demand (negb (bool_decide (hashFinalSaplingRoot (header b) = uint256_null))) (dos100 "bad-sapling-root-zeroed")
   else accept tt);~
  let subsidy := get_block_subsidy (consensus params) nHeight in
  demand (negb (t_fees st >? INT64_MAX - subsidy)) (dos100 "bad-cb-reward-overflow");~
  match vtx b with
  | [] => undefined
  | cb :: _ => demand (negb (transaction_get_value_out cb >? t_fees st + subsidy)) (dos100 "bad-cb-amount")
  end.

(** The call after the turnstile *)
Definition connect_rest (b : block) (pindex : connect_index) (block_hash : uint256_t) (expensive just_check : bool)
    : connect_m tally :=
  let nHeight := ci_nHeight pindex in
  (if negb (deferred nHeight) then check_bip30 nHeight (vtx b) else accept tt);~
  demand (negb ((zlen (vtx b) >? 1) && negb (alloc_succeeds ((zlen (vtx b) - 1) * 16))))
    {| rj_verdict := None; rj_missing := None |};~
  let branch_id := consensus_current_epoch_branch_id (consensus params) nHeight in
  demand (arrays_allocated (vtx b)) (fatal "out-of-memory");~
  st <~ connect_rounds expensive branch_id nHeight {| t_fees := 0; t_sig_ops := 0; t_checks := []; t_undo := [] |} (vtx b);
  conclude_block b nHeight just_check st;~
  (if just_check then accept tt else lift (coins_view_cache_set_best_block block_hash));~
  accept st.

(** The result, the totals of the block index entry and, on success, what the loop gathered:
    the undo records of [t_undo], without that of the coinbase, are released on return. *)
Definition connect_block (b : block) (pindex : connect_index) (just_check : bool)
    : view_m (result rejection (option tally) * pool_totals) :=
  let block_hash := default (block_header_get_hash (header b)) (ci_phashBlock pindex) in
  let nHeight := ci_nHeight pindex in
  let expensive := negb (checkpoint_covers (checkpointData params) nHeight) && negb (deferred nHeight) in
  match check_block b params expensive (negb just_check) true with
  | Err v => mret (Err {| rj_verdict := Some v; rj_missing := None |}, ci_totals pindex)
  | Ok _ =>
      if uint256_cmp block_hash (hashGenesisBlock (consensus params)) =? 0 then
        (if just_check then mret tt else coins_view_cache_set_best_block block_hash);;
        mret (Ok None, ci_totals pindex)
      else
        view_best ← coins_view_cache_get_best_block;
        if negb (uint256_is_null view_best) && negb (uint256_cmp (hashPrevBlock (header b)) view_best =? 0)
        then mret (Err (fatal "connect_block-view-mismatch"), ci_totals pindex)
        else
          let '(totals, allowed) := turnstile b pindex in
          match allowed with
          | Err e => mret (Err e, totals)
          | Ok _ => res ← (connect_rest b pindex block_hash expensive just_check : view_m (result rejection tally));
                    mret (match res with Ok st => Ok (Some st) | Err e => Err e end, totals)
          end
  end.
End Connect.

(** ** The block against the records

    The same decisions as pure functions on the records that the cache answers. *)

Definition mature_input (nHeight : Z) (f : uint256_t -> coins) (i : tx_in) : bool :=
  match live (f (op_hash (prevout i))) with
  | Some r => negb (is_coinbase r && (nHeight - coins_height r <? COINBASE_MATURITY))
  | None => true
  end.

Definition first_missing (f : uint256_t -> coins) (ins : list tx_in) : option outpoint :=
  prevout <$> find (fun i => bool_decide (output_of (f (op_hash (prevout i))) (op_n (prevout i)) = None)) ins.

(** The value that enters a transaction spending [outs]; -1 when a sum leaves the money range *)
Definition entering (outs : list tx_out) (tx : transaction) : Z :=
  default (-1)
    (acc ← sum_amounts 0 (map value outs);
     acc ← (if value_balance tx >=? 0
            then let acc := i64 (acc + value_balance tx) in if negb (MoneyRange acc) then None else Some acc
            else Some acc);
     add_vpub_new acc (v_joinsplit tx)).

Definition with_cached (s : view_state) (l : list uint256_t) : view_state :=
  {| vs_base := vs_base s; vs_best := vs_best s; vs_commitment := vs_commitment s; vs_cached := l ++ vs_cached s;
     vs_records := vs_records s |}.

Definition with_best_block (s : view_state) (h : uint256_t) : view_state :=
  {| vs_base := vs_base s; vs_best := h; vs_commitment := vs_commitment s; vs_cached := vs_cached s; vs_records := vs_records s |}.

(** The best block as the cache answers it *)
Definition view_best (s : view_state) : uint256_t :=
  if uint256_is_null (vs_best s) then default (vs_best s) (cv_get_best_block (vs_base s)) else vs_best s.

Section Judge.
Context `{Allocator} `{HashFunctions} `{Secp256k1} `{CryptoRegistry} `{Clock}.
Variable skip : bool.
Variable deferred_below : Z.
Variable params : chain_params.
Variables (expensive : bool) (branch_id nHeight : Z).

Fixpoint checks_of (tx : transaction) (txdata : precomputed_tx_data) (j : Z) (ins : list tx_in) (outs : list tx_out)
    : list script_check :=
  match ins, outs with
  | i :: ins, o :: outs =>
      {| sc_script_sig := script_sig i; sc_prevout := Some (prevout i); sc_flags := connect_flags; sc_branch_id := branch_id;
         sc_tsc := {| c_tx := tx; c_nIn := j; c_amount := value o; c_branch_id := branch_id; c_txdata := Some txdata |} |}
      :: checks_of tx txdata (j + 1) ins outs
  | _, _ => []
  end.

Definition input_checks (tx : transaction) (outs : list tx_out) : list script_check :=
  match domain_consensus_precompute_tx_data tx with
  | Ok txdata => if expensive then checks_of tx txdata 0 (vin tx) outs else []
  | Err _ => []
  end.

Definition judge_inputs (f : uint256_t -> coins) (tx : transaction) (sig_ops fees : Z)
    : result rejection (Z * Z * list script_check) :=
  ensure (forallb (mature_input nHeight f) (vin tx)) (dos100 "bad-txns-premature-spend-of-coinbase");;
  match spent_outputs f (vin tx) with
  | None => Err (missing_or_spent (first_missing f (vin tx)))
  | Some outs =>
      let sig_ops := u32 (sig_ops + u32 (domain_consensus_tx_p2sh_sig_op_count tx (Some <$> outs) connect_flags)) in
      ensure (negb (sig_ops >? MAX_BLOCK_SIGOPS)) (dos100 "bad-blk-sigops");;
      let fee := entering outs tx - transaction_get_value_out tx in
      ensure (negb (entering outs tx <? 0)) (dos100 "bad-txns-inputvalues-outofrange");;
      ensure (negb (fee <? 0)) (dos100 "bad-txns-in-belowout");;
      ensure (MoneyRange (fees + fee)) (dos100 "bad-txns-fee-outofrange");;
      Ok (sig_ops, fees + fee, input_checks tx outs)
  end.

Definition judge_tx (s : view_state) (st : tally) (tx : transaction) : result rejection (view_state * tally) :=
  let sig_ops := u32 (t_sig_ops st + u32 (get_legacy_sig_op_count tx connect_flags)) in
  ensure (negb (sig_ops >? MAX_BLOCK_SIGOPS)) (dos100 "bad-blk-sigops");;
  '(sig_ops, fees, scs) ← (if transaction_is_coinbase tx then Ok (sig_ops, t_fees st, [])
                           else judge_inputs (vs_records s) tx sig_ops (t_fees st));
  match tx_effect (vs_records s) tx nHeight with
  | None => Err {| rj_verdict := Some (RejectDos 100 REJECT_INVALID "bad-txns-utxo-update-failed" true); rj_missing := None |}
  | Some (f, us, gone) =>
      Ok (with_cached (applied_state skip s tx nHeight f gone) (omap (fun sc => op_hash <$> sc_prevout sc) scs),
          {| t_fees := fees; t_sig_ops := sig_ops; t_checks := map (release (tx_hash tx)) (t_checks st ++ scs);
             t_undo := t_undo st ++ [us] |})
  end.

Fixpoint judge_txs (s : view_state) (st : tally) (txs : list transaction) : result rejection (view_state * tally) :=
  match txs with
  | [] => Ok (s, st)
  | tx :: rest => '(s, st) ← judge_tx s st tx; judge_txs s st rest
  end.

Definition overwrites (f : uint256_t -> coins) (tx : transaction) : bool :=
  match live (f (tx_hash tx)) with
  | Some r => negb ((coins_height r =? nHeight) && (nHeight >? 0))
  | None => false
  end.

(** The check with the script it finds in its cell *)
Definition loaded (f : uint256_t -> coins) (sc : script_check) : option (script * script_check) :=
  p ← sc_prevout sc; o ← coins_vout (f (op_hash p)) !! Z.to_nat (op_n p); Some (script_pub_key o, sc).

Definition judge_end (b : block) (just_check : bool) (f : uint256_t -> coins) (st : tally) : result rejection unit :=
  ensure (forallb script_check_fn (omap (loaded f) (t_checks st))) (dos100 "mandatory-script-verify-flag-failed");;
  ensure (negb (negb just_check && consensus_network_upgrade_active (consensus params) nHeight UPGRADE_SAPLING &&
                bool_decide (hashFinalSaplingRoot (header b) = uint256_null))) (dos100 "bad-sapling-root-zeroed");;
  let subsidy := get_block_subsidy (consensus params) nHeight in
  ensure (negb (t_fees st >? INT64_MAX - subsidy)) (dos100 "bad-cb-reward-overflow");;
  match vtx b with
  | [] => Ok tt
  | cb :: _ => ensure (negb (transaction_get_value_out cb >? t_fees st + subsidy)) (dos100 "bad-cb-amount")
  end.
End Judge.

Section JudgeBlock.
Context `{Allocator} `{HashFunctions} `{Secp256k1} `{CryptoRegistry} `{Clock}.
Variable skip : bool.
Variable deferred_below : Z.
Variable params : chain_params.

Definition empty_tally : tally := {| t_fees := 0; t_sig_ops := 0; t_checks := []; t_undo := [] |}.

Definition expensive_at (nHeight : Z) : bool :=
  negb (checkpoint_covers (checkpointData params) nHeight) && negb (deferred deferred_below nHeight).

Definition hash_of (b : block) (pindex : connect_index) : uint256_t :=
  default (block_header_get_hash (header b)) (ci_phashBlock pindex).

Definition is_genesis (b : block) (pindex : connect_index) : bool :=
  uint256_cmp (hash_of b pindex) (hashGenesisBlock (consensus params)) =? 0.

(** The state after a block that is not the genesis block *)
Definition judge_rest (s : view_state) (b : block) (pindex : connect_index) (just_check : bool)
    : result rejection (view_state * tally) :=
  let nHeight := ci_nHeight pindex in
  ensure (uint256_is_null (view_best s) || (uint256_cmp (hashPrevBlock (header b)) (view_best s) =? 0))
    (fatal "connect_block-view-mismatch");;
  snd (turnstile b pindex);;
  ensure (deferred deferred_below nHeight || negb (existsb (overwrites nHeight (vs_records s)) (vtx b))) (dos100 "bad-txns-BIP30");;
  let branch_id := consensus_current_epoch_branch_id (consensus params) nHeight in
  '(s', st) ← judge_txs skip (expensive_at nHeight) branch_id nHeight (with_best_block s (view_best s)) empty_tally (vtx b);
  judge_end params nHeight b just_check (vs_records s') st;;
  Ok (if just_check then s' else with_best_block s' (hash_of b pindex), st).

Definition judge_block (s : view_state) (b : block) (pindex : connect_index) (just_check : bool)
    : result rejection (view_state * option tally) :=
  match check_block b params (expensive_at (ci_nHeight pindex)) (negb just_check) true with
  | Err v => Err {| rj_verdict := Some v; rj_missing := None |}
  | Ok _ =>
      if is_genesis b pindex then Ok (if just_check then s else with_best_block s (hash_of b pindex), None)
      else '(s', st) ← judge_rest s b pindex just_check; Ok (s', Some st)
  end.
End JudgeBlock.

(** ** The code follows the judgement *)

Section Reads.
Context `{AllocatorTotal}.

Lemma then_lift {A B} (m : view_m A) (k : A -> connect_m B) P Q c :
  runs m P c -> (forall a c', P a c' -> runs (k a) Q c') -> runs (and_then (lift m) k) Q c.
Proof.
  intros (a & c' & E & HP) Hk. destruct (Hk a c' HP) as (r & c'' & E' & HQ). exists r, c''. unfold and_then, lift. by rewrite E.
Qed.

Lemma then_demand {B} cond e (k : unit -> connect_m B) Q c :
  (cond = true -> runs (k tt) Q c) -> (cond = false -> Q (Err e) c) -> runs (and_then (demand cond e) k) Q c.
Proof.
  intros Ht Hf. destruct cond; [destruct (Ht eq_refl) as (r & c' & E & HQ); by exists r, c'|].
  exists (Err e), c. split; [done|]. by apply Hf.
Qed.

Lemma then_runs {A B} (m : connect_m A) (k : A -> connect_m B) P Q c :
  runs m P c -> (forall a c', P (Ok a) c' -> runs (k a) Q c') -> (forall e c', P (Err e) c' -> Q (Err e) c') ->
  runs (and_then m k) Q c.
Proof.
  intros ([a|e] & c' & E & HP) Hk He.
  - destruct (Hk a c' HP) as (r & c'' & E' & HQ). exists r, c''. unfold and_then. by rewrite E.
  - exists (Err e), c'. unfold and_then. rewrite E. split; [done|]. by apply He.
Qed.

Lemma then_accept {A B} (a : A) (k : A -> connect_m B) Q c : runs (k a) Q c -> runs (and_then (accept a) k) Q c.
Proof. intros (r & c' & E & HQ). by exists r, c'. Qed.

Lemma runs_accept {A} (a : A) (Q : result rejection A -> coins_view_cache -> Prop) c : Q (Ok a) c -> runs (accept a) Q c.
Proof. intros HQ. by exists (Ok a), c. Qed.

Lemma runs_refuse {A} e (Q : result rejection A -> coins_view_cache -> Prop) c : Q (Err e) c -> runs (refuse e) Q c.
Proof. intros HQ. by exists (Err e), c. Qed.

Lemma runs_get_coins t s c : fixed 32 t -> presents c s ->
  runs (coins_view_cache_get_coins t) (fun r c' => r = live (vs_records s t) /\ presents c' s) c.
Proof.
  intros Ht Hp. destruct (get_coins_runs c t (presents_ok _ _ Hp) Ht) as (c' & E & Hu). eexists _, c'. split; [done|].
  rewrite (presents_records _ _ Hp). split; [done|]. by eapply unchanged_presents.
Qed.

Lemma runs_have_coins t s c : fixed 32 t -> presents c s ->
  runs (coins_view_cache_have_coins t) (fun b c' => b = bool_decide (is_Some (live (vs_records s t))) /\ presents c' s) c.
Proof.
  intros Ht Hp. eexists _, c. split; [by apply have_coins_runs, Ht; apply Hp|]. by rewrite (presents_records _ _ Hp).
Qed.

Lemma runs_get_output i s c : fixed 32 (op_hash (prevout i)) -> presents c s ->
  runs (coins_view_cache_get_output_for i) (fun o c' =>
    o = output_of (vs_records s (op_hash (prevout i))) (op_n (prevout i)) /\ presents c' s /\
    (is_Some o -> presents c' (with_cached s [op_hash (prevout i)]))) c.
Proof.
  intros Ht Hp. destruct (get_output_runs c i (presents_ok _ _ Hp) Ht) as (c' & E & Hu). eexists _, c'. split; [done|].
  assert (presents c' s) as Hp' by by eapply unchanged_presents. rewrite (presents_records _ _ Hp) in *. split; [done|].
  split; [done|]. intros [o Eo]. rewrite Eo in E. pose proof (get_output_cached c i o c' (presents_ok _ _ Hp) Ht E).
  destruct Hp'. constructor; cbn; try done. by constructor.
Qed.

Lemma runs_have_inputs tx s c : transaction_is_coinbase tx = false -> inputs_ok (vin tx) -> presents c s ->
  runs (coins_view_cache_have_inputs tx) (fun b c' => b = bool_decide (is_Some (spent_outputs (vs_records s) (vin tx))) /\
    presents c' s) c.
Proof.
  intros Hcb Hi Hp. unfold coins_view_cache_have_inputs. rewrite Hcb.
  destruct (have_all_runs (vin tx) c (presents_ok _ _ Hp) Hi) as (c' & E & Hu). eexists _, c'. split; [done|].
  rewrite (spent_outputs_ext _ (vs_records s)) by apply Hp. split; [done|]. by eapply unchanged_presents.
Qed.

Lemma runs_value_in tx s c outs : transaction_is_coinbase tx = false -> inputs_ok (vin tx) -> presents c s ->
  spent_outputs (vs_records s) (vin tx) = Some outs ->
  runs (coins_view_cache_get_value_in tx) (fun v c' => v = entering outs tx /\ presents c' s) c.
Proof.
  intros Hcb Hi Hp Eo. unfold coins_view_cache_get_value_in. rewrite Hcb.
  destruct (sum_inputs_runs (vin tx) 0 c (presents_ok _ _ Hp) Hi) as (c' & E & Hu).
  rewrite (spent_outputs_ext _ (vs_records s)), Eo in E by apply Hp. eexists _, c'. rewrite (bind_run _ _ _ _ _ E).
  split; [done|]. split; [done|]. by eapply unchanged_presents.
Qed.

Lemma runs_maturity h ins s c : inputs_ok ins -> presents c s ->
  runs (check_maturity h ins) (fun b c' => b = forallb (mature_input h (vs_records s)) ins /\ presents c' s) c.
Proof.
  intros Hi. revert c. induction Hi as [|i ins Ht _ IH]; intros c Hp; cbn [check_maturity forallb]; [by apply runs_ret|].
  eapply runs_bind; [by apply (runs_get_coins _ s)|]. cbv beta. intros r c1 [-> Hp1]. unfold mature_input at 1.
  destruct (live _) as [r|]; [|by apply IH]. destruct (is_coinbase r && _); [by apply runs_ret|by apply IH].
Qed.

Lemma runs_find_missing ins s c : inputs_ok ins -> presents c s ->
  runs (find_missing ins) (fun o c' => o = first_missing (vs_records s) ins /\ presents c' s) c.
Proof.
  intros Hi. revert c. induction Hi as [|i ins Ht _ IH]; intros c Hp; unfold first_missing; cbn [find_missing find]; [by apply runs_ret|].
  eapply runs_bind; [by apply (runs_get_output i s)|]. cbv beta. intros o c1 (-> & Hp1 & _).
  destruct (output_of _ _); [by apply IH|by apply runs_ret].
Qed.

Lemma runs_resolve ins s c outs : inputs_ok ins -> presents c s -> spent_outputs (vs_records s) ins = Some outs ->
  runs (resolve_prevouts ins) (fun os c' => os = Some <$> outs /\ presents c' s) c.
Proof.
  intros Hi. revert c outs. induction Hi as [|i ins Ht _ IH]; intros c outs Hp; cbn [resolve_prevouts].
  { intros [= <-]. by apply runs_ret. }
  unfold spent_outputs. cbn [mapM]. intros Eo. eapply runs_bind; [by apply (runs_get_output i s)|]. cbv beta. intros o c1 (-> & Hp1 & _).
  destruct (output_of _ _) as [o|]; [|done]. cbn [mbind option_bind] in Eo. destruct (mapM _ ins) as [outs'|] eqn:E'; [|done].
  cbn [mbind option_bind] in Eo. injection Eo as <-. eapply runs_bind; [by apply (IH c1 outs')|]. cbv beta. intros os c2 [-> Hp2].
  by apply runs_ret.
Qed.

Lemma runs_p2sh tx s c outs : transaction_is_coinbase tx = false -> inputs_ok (vin tx) -> presents c s ->
  spent_outputs (vs_records s) (vin tx) = Some outs ->
  runs (get_p2sh_sig_op_count tx connect_flags) (fun n c' =>
    n = domain_consensus_tx_p2sh_sig_op_count tx (Some <$> outs) connect_flags /\ presents c' s) c.
Proof.
  intros Hcb Hi Hp Eo. unfold get_p2sh_sig_op_count. rewrite Hcb, alloc_total.
  change (connect_flags .& SCRIPT_VERIFY_P2SH =? 0) with false. cbn [negb]. destruct (Z.eqb_spec (zlen (vin tx)) 0) as [Hz|Hz].
  - apply runs_ret. split; [|done]. unfold domain_consensus_tx_p2sh_sig_op_count.
    change (connect_flags .& SCRIPT_VERIFY_P2SH =? 0) with false. rewrite Hcb. destruct (vin tx); [done|].
    unfold zlen in Hz. cbn in Hz. lia.
  - eapply runs_bind; [by apply (runs_resolve (vin tx) s c outs)|]. cbv beta. intros os c1 [-> Hp1]. by apply runs_ret.
Qed.
End Reads.

Definition tx_ready (tx : transaction) : Prop := tx_ok tx /\ fixed 32 (tx_hash tx).

(** No record has more outputs than an input can address. *)
Definition capped (f : uint256_t -> coins) : Prop := forall t, zlen (coins_vout (f t)) <= UINT32_MAX.

Lemma ready_prevouts tx : tx_ready tx -> Forall (fun i => fixed 32 (op_hash (prevout i)) /\ is_u 32 (op_n (prevout i))) (vin tx).
Proof.
  intros [(_ & _ & (_ & Hin) & _) _]. eapply Forall_impl; [exact Hin|]. intros i Hi. unfold tx_in_ok in Hi. naive_solver.
Qed.

Lemma ready_inputs tx : tx_ready tx -> inputs_ok (vin tx).
Proof. intros Htx. eapply Forall_impl; [by apply ready_prevouts|]. naive_solver. Qed.

(** An output that exists has a position below the cap. *)
Lemma spent_prevouts f ins outs : capped f -> Forall (fun i => fixed 32 (op_hash (prevout i)) /\ is_u 32 (op_n (prevout i))) ins ->
  spent_outputs f ins = Some outs -> prevouts_ok ins.
Proof.
  intros Hf Hi. revert outs. induction Hi as [|i ins [Ht Hn] _ IH]; intros outs; [constructor|]. unfold spent_outputs. cbn [mapM].
  destruct (output_of _ _) as [o|] eqn:Eo; [|done]. cbn [mbind option_bind]. destruct (mapM _ ins) as [outs'|] eqn:E'; [|done].
  intros _. constructor; [|by apply (IH outs')]. split; [done|]. unfold is_u in Hn. split; [lia|]. unfold output_of in Eo.
  destruct (coins_vout _ !! _) as [o'|] eqn:Ek; [|done]. apply lookup_lt_Some in Ek. specialize (Hf (op_hash (prevout i))).
  unfold zlen in Hf. lia.
Qed.

Lemma sum_amounts_range total l t : MoneyRange total = true -> sum_amounts total l = Some t ->
  MoneyRange t = true /\ Forall (fun a => MoneyRange a = true) l.
Proof.
  revert total. induction l as [|a l IH]; intros total Ht; cbn [sum_amounts]; [intros [= <-]; done|].
  destruct (MoneyRange a) eqn:Ea; cbn [negb orb]; [|done]. destruct (MoneyRange (i64 (total + a))) eqn:Et; cbn [negb]; [|done].
  intros E. destruct (IH _ Et E) as [? ?]. split; [done|by constructor].
Qed.

Lemma add_vpub_new_range acc l t : MoneyRange acc = true -> add_vpub_new acc l = Some t -> MoneyRange t = true.
Proof.
  revert acc. induction l as [|js l IH]; intros acc Ha; cbn [add_vpub_new]; [intros [= <-]; done|].
  destruct (MoneyRange (i64 (acc + vpub_new js))) eqn:E; cbn [negb]; [|done]. by apply IH.
Qed.

Lemma entering_range outs tx : 0 <= entering outs tx ->
  entering outs tx <= MAX_MONEY /\ Forall (fun o => MoneyRange (value o) = true) outs.
Proof.
  unfold entering. destruct (sum_amounts 0 (map value outs)) as [a1|] eqn:E1; cbn [mbind option_bind default]; [|lia].
  apply sum_amounts_range in E1 as [H1 Hf]; [|done]. intros Hge. split; [|by apply Forall_fmap in Hf].
  destruct (if value_balance tx >=? 0 then _ else _) as [a2|] eqn:E2; cbn [mbind option_bind default] in *; [|lia].
  assert (MoneyRange a2 = true) as H2.
  { cbv zeta in E2. destruct (value_balance tx >=? 0); [|by injection E2 as <-].
    destruct (MoneyRange (i64 (a1 + value_balance tx))) eqn:E; cbn in E2; [by injection E2 as <-|done]. }
  destruct (add_vpub_new a2 _) as [a3|] eqn:E3; cbn [default] in *; [|lia].
  apply add_vpub_new_range in E3; [|done]. apply MoneyRange_spec in E3. unfold id. lia.
Qed.

Lemma value_out_range tx : -1 <= transaction_get_value_out tx <= MAX_MONEY.
Proof.
  assert (MAX_MONEY = 2100000000000000) as Hm by done. unfold transaction_get_value_out.
  destruct (sum_amounts 0 (map value (vout tx))) as [a1|] eqn:E1; cbn [mbind option_bind default]; [|lia].
  apply sum_amounts_range in E1 as [H1 _]; [|done].
  destruct (if value_balance tx <=? 0 then _ else _) as [a2|] eqn:E2; cbn [mbind option_bind default]; [|lia].
  assert (MoneyRange a2 = true) as H2 by (destruct (value_balance tx <=? 0); [by apply sum_amounts_range in E2 as [? _]|congruence]).
  destruct (sum_amounts a2 _) as [a3|] eqn:E3; cbn [default]; [|lia].
  apply sum_amounts_range in E3 as [H3 _]; [|done]. apply MoneyRange_spec in H3. unfold id. lia.
Qed.

Lemma with_cached_app s l l' : with_cached (with_cached s l) l' = with_cached s (l' ++ l).
Proof. unfold with_cached. cbn. by rewrite app_assoc. Qed.

Lemma presents_cached_incl c s l l' : presents c (with_cached s l) -> l' ⊆ l -> presents c (with_cached s l').
Proof.
  intros [Hc Hb Hh Hu Hk Hr] Hl. constructor; cbn in *; try done. rewrite !Forall_app in *. destruct Hk as [Hk Hk'].
  split; [|done]. rewrite Forall_forall in *. auto.
Qed.

(** The result of the code is that of the judgement, and the cache presents its state. *)
Definition follows {A B} (s : view_state) (verdict : result rejection B) (Q : B -> A -> coins_view_cache -> Prop)
    (res : result rejection A) (c : coins_view_cache) : Prop :=
  match verdict with
  | Ok b => exists a, res = Ok a /\ Q b a c
  | Err e => res = Err e /\ abandoned s c
  end.

Lemma presents_abandoned s c : presents c s -> abandoned s c.
Proof. intros Hp. by exists s. Qed.

Lemma then_follows {A B C D} (m : connect_m A) (k : A -> connect_m C) s (v : result rejection B) (w : B -> result rejection D) Q R c :
  runs m (follows s v Q) c -> (forall b a c', v = Ok b -> Q b a c' -> runs (k a) (follows s (w b) R) c') ->
  runs (and_then m k) (follows s (v ≫= w) R) c.
Proof.
  intros Hm Hk. eapply then_runs; [exact Hm| |]; cbv beta.
  - intros a c' Hc'. destruct v as [b|e]; [|by destruct Hc']. destruct Hc' as (a' & [= ->] & HQ). by apply (Hk b a').
  - intros e c' Hc'. destruct v as [b|e']; [by destruct Hc' as (? & ? & _)|]. cbn. by destruct Hc' as [[= ->] ?].
Qed.

Lemma follows_frame {A B} s s1 (v : result rejection B) (Q : B -> A -> coins_view_cache -> Prop) res c :
  vs_base s1 = vs_base s /\ vs_best s1 = vs_best s -> follows s1 v Q res c -> follows s v Q res c.
Proof.
  intros [Eb Eh]. destruct v as [b|e]; [done|]. intros [-> (s' & Hp & Eb' & Eh')]. split; [done|]. exists s'. split_and!; congruence.
Qed.

Lemma demand_follows cond e s c : presents c s -> runs (demand cond e) (follows s (ensure cond e) (fun _ _ c' => presents c' s)) c.
Proof.
  intros Hp. destruct cond; cbn; [apply runs_accept; by eexists|apply runs_refuse; split; [done|by apply presents_abandoned]].
Qed.

Section Rounds.
Context `{AllocatorTotal} `{HashFunctions} `{Secp256k1}.
Variable skip : bool.
Variables (expensive : bool) (branch_id nHeight : Z).

Lemma runs_collect tx d ins s c outs j : inputs_ok ins -> presents c s -> spent_outputs (vs_records s) ins = Some outs ->
  Forall (fun o => MoneyRange (value o) = true) outs ->
  runs (collect_checks tx branch_id d j ins) (fun res c' => res = Ok (checks_of branch_id tx d j ins outs) /\
    presents c' (with_cached s (omap (fun sc => op_hash <$> sc_prevout sc) (checks_of branch_id tx d j ins outs)))) c.
Proof.
  intros Hi. revert s c outs j. induction Hi as [|i ins Ht _ IH]; intros s c outs j Hp; cbn [collect_checks].
  { intros [= <-] _. apply runs_accept. split; [done|]. by destruct s. }
  unfold spent_outputs. cbn [mapM]. intros Eo Hr.
  eapply then_lift; [by apply (runs_get_output i s)|]. cbv beta. intros o c1 (-> & _ & Hp1).
  destruct (output_of _ _) as [o|]; [|done]. specialize (Hp1 ltac:(eauto)).
  cbn [mbind option_bind] in Eo. destruct (mapM _ ins) as [outs'|] eqn:E'; [|done].
  cbn [mbind option_bind] in Eo. injection Eo as <-. apply Forall_cons in Hr as [Hr Hrs].
  apply then_demand; [intros _|congruence].
  eapply then_runs; [by apply (IH _ c1 outs' (j + 1) Hp1)| |]; cbv beta; [|by intros e c' [? _]].
  intros scs c2 [[= ->] Hp2]. apply runs_accept. split; [done|]. cbn [checks_of omap list_omap sc_prevout fmap option_fmap option_map].
  rewrite with_cached_app in Hp2. eapply presents_cached_incl; [exact Hp2|]. set_solver.
Qed.

Lemma with_cached_nil s : with_cached s [] = s.
Proof. by destruct s. Qed.

Definition cells (scs : list script_check) : list uint256_t := omap (fun sc => op_hash <$> sc_prevout sc) scs.

Lemma runs_check_inputs tx s c sig_ops fees : tx_ready tx -> transaction_is_coinbase tx = false -> 0 <= fees <= MAX_MONEY ->
  presents c s ->
  runs (check_inputs expensive branch_id nHeight tx sig_ops fees)
    (follows s (judge_inputs expensive branch_id nHeight (vs_records s) tx sig_ops fees)
       (fun x y c' => y = x /\ presents c' (with_cached s (cells (snd x))))) c.
Proof.
  intros Htx Hcb Hfees Hp. pose proof (ready_inputs tx Htx) as Hi. unfold check_inputs, judge_inputs.
  eapply then_lift; [by apply (runs_maturity nHeight (vin tx) s)|]. cbv beta. intros ok c1 [-> Hp1].
  apply then_demand; intros ->; [|split; [done|by apply presents_abandoned]]. cbn [ensure result_bind].
  eapply then_lift; [by apply (runs_have_inputs tx s)|]. cbv beta. intros have c2 [-> Hp2].
  destruct (spent_outputs (vs_records s) (vin tx)) as [outs|] eqn:Eo.
  2: { cbn. eapply (then_runs _ _ (fun r c' => r = Err (missing_or_spent (first_missing (vs_records s) (vin tx))) /\ abandoned s c')).
       - eapply then_lift; [by apply (runs_find_missing (vin tx) s)|]. cbv beta. intros o c3 [-> Hp3]. apply runs_refuse.
         split; [done|by apply presents_abandoned].
       - by intros a c' [? _].
       - by intros e c' [[= ->] ?]. }
  rewrite bool_decide_true by eauto. apply then_accept. eapply then_lift; [by apply (runs_ret true (fun b c' => b = true /\ presents c' s))|].
  cbv beta. intros met c3 [-> Hp3]. apply then_demand; [intros _|done].
  eapply then_lift; [by apply (runs_p2sh tx s c3 outs)|]. cbv beta zeta. intros n c4 [-> Hp4].
  apply then_demand; intros ->; [|split; [done|by apply presents_abandoned]]. cbn [ensure result_bind].
  eapply then_lift; [by apply (runs_value_in tx s c4 outs)|]. cbv beta. intros v c5 [-> Hp5].
  pose proof (value_out_range tx) as Hvo. assert (MAX_MONEY = 2100000000000000) as Hm by done.
  apply then_demand; intros E1; rewrite E1; [|split; [done|by apply presents_abandoned]]. cbn [ensure result_bind].
  destruct (entering_range outs tx) as [Hmax Hrange]; [lia|].
  apply then_demand; [intros _|unfold MoneyRange; lia]. rewrite (swrap_small 64 (entering outs tx - _)) by (unfold is_s; lia).
  apply then_demand; intros E2.
  2: { replace (negb _) with false by lia. split; [done|by apply presents_abandoned]. }
  replace (negb (_ - _ <? 0)) with true by lia. cbn [ensure result_bind]. apply then_demand; [intros _|done].
  rewrite (swrap_small 64 (fees + _)) by (unfold is_s; lia).
  apply then_demand; intros E3; rewrite E3; [|split; [done|by apply presents_abandoned]]. cbn [ensure result_bind].
  unfold input_checks. rewrite (precompute_digests tx (proj1 Htx)). destruct expensive.
  - eapply then_runs; [by apply (runs_collect tx _ (vin tx) s c5 outs 0)| |]; cbv beta; [|by intros e c' [? _]].
    intros scs c6 [[= ->] Hp6]. apply runs_accept. by eexists.
  - apply then_accept, runs_accept. eexists. split; [done|]. split; [done|]. cbn. by rewrite with_cached_nil.
Qed.

(** What an accepted transaction with inputs satisfies *)
Record inputs_accepted (f : uint256_t -> coins) (tx : transaction) (sig_ops fees : Z) (outs : list tx_out) (x : Z * Z * list script_check)
    : Prop := {
  accepted_mature : forallb (mature_input nHeight f) (vin tx) = true;
  accepted_outputs : spent_outputs f (vin tx) = Some outs;
  accepted_in : 0 <= entering outs tx <= MAX_MONEY;
  accepted_covers : transaction_get_value_out tx <= entering outs tx;
  accepted_fees : MoneyRange (fees + (entering outs tx - transaction_get_value_out tx)) = true;
  accepted_sigops : fst (fst x) = u32 (sig_ops + u32 (domain_consensus_tx_p2sh_sig_op_count tx (Some <$> outs) connect_flags)) /\
    fst (fst x) <= MAX_BLOCK_SIGOPS;
  accepted_result : x = (fst (fst x), fees + (entering outs tx - transaction_get_value_out tx), input_checks expensive branch_id tx outs);
}.

Lemma judge_inputs_ok f tx sig_ops fees x : judge_inputs expensive branch_id nHeight f tx sig_ops fees = Ok x ->
  exists outs, inputs_accepted f tx sig_ops fees outs x.
Proof.
  unfold judge_inputs. intros [Hm%ensure_ok E]%bind_unit_ok.
  destruct (spent_outputs f (vin tx)) as [outs|] eqn:Eo; [|done]. apply bind_unit_ok in E as [Hs%ensure_ok E].
  apply bind_unit_ok in E as [H1'%ensure_ok E]. apply bind_unit_ok in E as [H2'%ensure_ok E].
  apply bind_unit_ok in E as [H3'%ensure_ok E]. injection E as <-. exists outs.
  destruct (entering_range outs tx) as [Hmax _]; [lia|]. constructor; try done; cbn [fst snd]; [lia|lia|]. split; [done|lia].
Qed.

Lemma spend_all_capped ins f f' us gone : spend_all f ins = Some (f', us, gone) -> capped f -> capped f'.
Proof.
  revert f f' us gone. induction ins as [|i ins IH]; intros f f' us gone; [by intros [= <- <- <-]|]. cbn [spend_all].
  destruct (spend_one f i) as [[[r u] g]|] eqn:E1; cbn [mbind option_bind]; [|done].
  destruct (spend_all _ ins) as [[[f2 us2] gone2]|] eqn:E2; cbn [mbind option_bind]; [|done]. intros [= <- <- <-] Hf.
  eapply IH; [done|]. apply spend_one_Some in E1 as (o & _ & _ & -> & _). intros t. unfold set_record. case_decide; [|apply Hf].
  unfold null_output, zlen. cbn. rewrite length_insert. subst. apply Hf.
Qed.

Lemma new_record_length tx h : zlen (coins_vout (new_record tx h)) <= MAX_COIN_OUTPUTS.
Proof.
  unfold new_record, coins_from_transaction, coins_alloc. rewrite alloc_total, andb_false_r. cbn [negb].
  destruct (Z.gtb_spec (zlen (vout tx)) MAX_COIN_OUTPUTS) as [Hgt|Hle]; [done|]. cbn [snd coins_vout with_vout coins_math_cleanup].
  unfold zlen in *. rewrite length_reverse.
  assert (forall l, (length (drop_nulls l) <= length l)%nat) as Hd by (induction l as [|o l IH]; cbn; [done|]; case_match; cbn; lia).
  etransitivity; [apply inj_le, Hd|]. rewrite length_reverse. cbn [coins_vout with_vout]. rewrite length_map. lia.
Qed.

Lemma apply_tx_capped f tx h f' us gone : tx_effect f tx h = Some (f', us, gone) -> capped f -> capped f'.
Proof.
  unfold tx_effect. destruct (if transaction_is_coinbase tx then _ else _) as [[[f0 us0] gone0]|] eqn:E; cbn [mbind option_bind]; [|done].
  case_if; [|done]. intros [= <- <- <-] Hf. assert (capped f0) as Hf0.
  { destruct (transaction_is_coinbase tx); [by injection E as <- <- <-|by eapply spend_all_capped]. }
  intros t. unfold set_record. case_decide; [|apply Hf0]. pose proof (new_record_length tx h). unfold MAX_COIN_OUTPUTS, UINT32_MAX in *. lia.
Qed.

Definition tally_ok (st : tally) : Prop := 0 <= t_fees st <= MAX_MONEY.

Lemma judge_tx_keeps s st tx s' st' : judge_tx skip expensive branch_id nHeight s st tx = Ok (s', st') -> capped (vs_records s) ->
  tally_ok st -> capped (vs_records s') /\ tally_ok st'.
Proof.
  unfold judge_tx. intros [_ E]%bind_unit_ok Hf Hst. apply bind_ok in E as ([[so fe] scs] & Ein & E).
  destruct (tx_effect _ tx nHeight) as [[[f us] gone]|] eqn:Ea; [|done]. injection E as <- <-. cbn.
  split; [by eapply apply_tx_capped|]. unfold tally_ok. cbn. destruct (transaction_is_coinbase tx); [by injection Ein as <- <- <-|].
  apply judge_inputs_ok in Ein as [outs Ha]. pose proof (accepted_result _ _ _ _ _ _ Ha) as E. cbn in E. injection E as -> _.
  by apply MoneyRange_spec, (accepted_fees _ _ _ _ _ _ Ha).
Qed.

Lemma judge_tx_frame s st tx s' st' : judge_tx skip expensive branch_id nHeight s st tx = Ok (s', st') ->
  vs_base s' = vs_base s /\ vs_best s' = vs_best s.
Proof.
  unfold judge_tx. intros [_ E]%bind_unit_ok. apply bind_ok in E as ([[so fe] scs] & Ein & E).
  destruct (tx_effect _ tx nHeight) as [[[f us] gone]|]; [|done]. by injection E as <- <-.
Qed.

Lemma runs_connect_tx tx s st c : tx_ready tx -> capped (vs_records s) -> tally_ok st -> presents c s ->
  runs (connect_round skip expensive branch_id nHeight st tx)
    (follows s (judge_tx skip expensive branch_id nHeight s st tx) (fun x y c' => y = snd x /\ presents c' (fst x))) c.
Proof.
  intros Htx Hf Hst Hp. unfold connect_round, judge_tx. cbv zeta.
  eapply then_follows; [by apply demand_follows|]. cbv beta. intros _ _ c0 _ Hp0.
  apply (then_follows _ _ _ _ _ (fun x y c' => y = x /\ presents c' (with_cached s (cells (snd x))))).
  { destruct (transaction_is_coinbase tx) eqn:Ecb; cbn [negb].
    - apply runs_accept. eexists. split; [done|]. split; [done|]. cbn. by rewrite with_cached_nil.
    - by apply runs_check_inputs. }
  intros [[so' fe] scs] a c1 Evi [-> Hp1]. cbn [snd] in Hp1.
  eapply then_lift; [apply (runs_update_coins skip tx nHeight (with_cached s (cells scs)) c1); [apply Htx| |done]|].
  { intros Ecb. rewrite Ecb in Evi. apply judge_inputs_ok in Evi as [outs Ha].
    eapply spent_prevouts; [done|by apply ready_prevouts|apply (accepted_outputs _ _ _ _ _ _ Ha)]. }
  cbv beta. intros r c2 Hc2. cbn [vs_records with_cached] in Hc2. destruct (tx_effect (vs_records s) tx nHeight) as [[[f us] gone]|].
  - destruct Hc2 as [-> Hp2]. apply runs_accept. eexists. split; [done|]. cbn [fst snd]. split; [done|]. exact Hp2.
  - destruct Hc2 as [-> Hab]. apply runs_refuse. by split.
Qed.

Lemma runs_connect_txs txs s st c : Forall tx_ready txs -> capped (vs_records s) -> tally_ok st -> presents c s ->
  runs (connect_rounds skip expensive branch_id nHeight st txs)
    (follows s (judge_txs skip expensive branch_id nHeight s st txs) (fun x y c' => y = snd x /\ presents c' (fst x))) c.
Proof.
  intros Htx. revert s st c. induction Htx as [|tx txs Htx _ IH]; intros s st c Hf Hst Hp; cbn [connect_rounds judge_txs].
  { apply runs_accept. by eexists. }
  eapply then_follows; [by apply runs_connect_tx|]. cbv beta. intros [s1 st1] a c1 E [-> Hp1]. cbn [fst snd] in *.
  destruct (judge_tx_keeps _ _ _ _ _ E Hf Hst) as [Hf1 Hst1]. eapply runs_mono; [by apply (IH s1 st1 c1)|].
  intros res c'. apply follows_frame. by apply (judge_tx_frame _ _ _ _ _ E).
Qed.
End Rounds.

(** ** Running the checks *)

Section Checks.
Context `{AllocatorTotal} `{HashFunctions} `{Secp256k1} `{CryptoRegistry} `{Clock}.
Variable run_pool : option (list (script * script_check) -> bool).

(** The pool is that of file Workpool: its verdicts are those of some run of the pool. *)
Definition pool_runs : Prop := forall run batch, run_pool = Some run -> gives_verdict script_check_fn batch (run batch).

(** The cell of a check is in the table. *)
Definition loadable (s : view_state) (sc : script_check) : Prop := exists p, sc_prevout sc = Some p /\ fixed 32 (op_hash p) /\
  op_hash p ∈ vs_cached s /\ is_Some (coins_vout (vs_records s (op_hash p)) !! Z.to_nat (op_n p)).

Lemma runs_load sc s c : loadable s sc -> presents c s ->
  runs (load_check sc) (fun x c' => loaded (vs_records s) sc = Some x /\ presents c' s) c.
Proof.
  intros (p & Ep & Ht & Hin & o & Eo) Hp. unfold load_check, loaded. rewrite Ep. cbn [mbind option_bind].
  pose proof (cache_map_ok c (presents_ok _ _ Hp)) as Hm.
  destruct (proj1 (Forall_forall _ _) (presents_cached _ _ Hp) _ Hin) as [e He].
  destruct (find_runs c (op_hash p) Hm Ht) as (entry & E & Hent). unfold runs. rewrite (bind_run _ _ _ _ _ E).
  destruct entry as [slot|]; [|congruence]. destruct Hent as [e' Hs]. pose proof (holds_contents _ _ _ _ Hm Hs) as He'.
  unfold read_entry, mbind, view_bind. rewrite (holds_entry _ _ _ _ Hs).
  assert (ce_coins e' = vs_records s (op_hash p)) as Er by (rewrite <- (presents_records _ _ Hp); unfold record_of; by rewrite He').
  rewrite Er, Eo. eexists _, c. split; [done|]. by cbn.
Qed.

Lemma runs_loads l s c : Forall (loadable s) l -> presents c s ->
  runs (load_checks l) (fun xs c' => xs = omap (loaded (vs_records s)) l /\ presents c' s) c.
Proof.
  intros Hl. revert c. induction Hl as [|sc l Hsc _ IH]; intros c Hp; cbn [load_checks omap list_omap]; [by apply runs_ret|].
  eapply runs_bind; [by apply (runs_load sc s)|]. cbv beta. intros x c1 [-> Hp1].
  eapply runs_bind; [by apply IH|]. cbv beta. intros xs c2 [-> Hp2]. by apply runs_ret.
Qed.

Lemma runs_sequential l s c : Forall (loadable s) l -> presents c s ->
  runs (run_sequential l) (fun ok c' => ok = forallb script_check_fn (omap (loaded (vs_records s)) l) /\ presents c' s) c.
Proof.
  intros Hl. revert c. induction Hl as [|sc l Hsc _ IH]; intros c Hp; cbn [run_sequential omap list_omap]; [by apply runs_ret|].
  eapply runs_bind; [by apply (runs_load sc s)|]. cbv beta. intros x c1 [-> Hp1]. cbn [forallb].
  destruct (script_check_fn x); cbn [andb]; [by apply IH|by apply runs_ret].
Qed.

Lemma runs_run_checks l s c : pool_runs -> Forall (loadable s) l -> presents c s ->
  runs (run_checks run_pool l) (fun ok c' => ok = forallb script_check_fn (omap (loaded (vs_records s)) l) /\ presents c' s) c.
Proof.
  intros Hpool Hl Hp. unfold run_checks. destruct run_pool as [run|] eqn:Er; [|by apply runs_sequential].
  case_if; [|by apply runs_sequential]. eapply runs_bind; [by apply (runs_loads l s)|]. cbv beta. intros xs c1 [-> Hp1].
  apply runs_ret. split; [|done]. apply (verdict_iff script_check_fn). by apply Hpool.
Qed.

Variable params : chain_params.

Lemma runs_conclude b h just_check s st c : pool_runs -> Forall (loadable s) (t_checks st) -> vtx b <> [] -> presents c s ->
  runs (conclude_block params run_pool b h just_check st)
    (follows s (judge_end params h b just_check (vs_records s) st) (fun _ _ c' => presents c' s)) c.
Proof.
  intros Hpool Hl Hb Hp. unfold conclude_block, judge_end.
  apply (then_follows _ _ _ _ _ (fun _ _ c' => presents c' s)).
  { destruct (Z.gtb_spec (zlen (t_checks st)) 0) as [Hz|Hz].
    - eapply then_lift; [by apply (runs_run_checks (t_checks st) s)|]. cbv beta. intros ok c1 [-> Hp1]. by apply demand_follows.
    - destruct (t_checks st) as [|sc l]; [|unfold zlen in Hz; cbn in Hz; lia]. apply runs_accept. by eexists. }
  intros _ _ c1 _ Hp1. apply (then_follows _ _ _ _ _ (fun _ _ c' => presents c' s)).
  { destruct (negb just_check && _); cbn [andb]; [by apply demand_follows|apply runs_accept; by eexists]. }
  intros _ _ c2 _ Hp2. eapply then_follows; [by apply demand_follows|]. cbv beta. intros _ _ c3 _ Hp3.
  destruct (vtx b) as [|cb rest]; [done|]. by apply demand_follows.
Qed.
End Checks.

(** ** The cells of the checks *)

Definition null_cell (f : uint256_t -> coins) (p : outpoint) : Prop :=
  coins_vout (f (op_hash p)) !! Z.to_nat (op_n p) = Some tx_out_set_null.

(** The cell of a check has been emptied; it is in the table. *)
Definition emptied (s : view_state) (sc : script_check) : Prop := exists p, sc_prevout sc = Some p /\ fixed 32 (op_hash p) /\
  op_hash p ∈ vs_cached s /\ null_cell (vs_records s) p.

Lemma emptied_loadable s sc : emptied s sc -> loadable s sc.
Proof. intros (p & Ep & Ht & Hin & Hn). exists p. split_and!; [done..|]. by eexists. Qed.

Lemma emptied_loaded s sc : emptied s sc -> loaded (vs_records s) sc = Some ([], sc).
Proof. intros (p & Ep & _ & _ & Hn). unfold loaded. rewrite Ep. cbn [mbind option_bind]. by rewrite Hn. Qed.

Lemma null_cell_spend f i p : null_cell f p \/ (p = prevout i /\ is_Some (coins_vout (f (op_hash p)) !! Z.to_nat (op_n p))) ->
  null_cell (set_record f (op_hash (prevout i)) (null_output (f (op_hash (prevout i))) (op_n (prevout i)))) p.
Proof.
  unfold null_cell, set_record. intros Hp. case_decide as Et; [|destruct Hp as [?|[-> _]]; done]. cbn [null_output coins_vout with_vout].
  rewrite Et in *. destruct (decide (Z.to_nat (op_n (prevout i)) = Z.to_nat (op_n p))) as [En|En].
  - rewrite En. apply list_lookup_insert_eq. destruct Hp as [Hp|[-> Hp]]; [by eapply lookup_lt_Some|by apply lookup_lt_is_Some].
  - rewrite list_lookup_insert_ne by done. by destruct Hp as [?|[-> _]].
Qed.

Lemma null_cells_spend ins f f' us gone p : spend_all f ins = Some (f', us, gone) ->
  null_cell f p \/ p ∈ map prevout ins -> null_cell f' p.
Proof.
  revert f f' us gone. induction ins as [|i ins IH]; intros f f' us gone.
  { intros [= <- <- <-] [?|Hin]; [done|by apply elem_of_nil in Hin]. }
  cbn [spend_all map]. destruct (spend_one f i) as [[[r u] g]|] eqn:E1; cbn [mbind option_bind]; [|done].
  destruct (spend_all _ ins) as [[[f2 us2] gone2]|] eqn:E2; cbn [mbind option_bind]; [|done]. intros [= <- <- <-] Hp.
  eapply IH; [done|]. apply spend_one_Some in E1 as (o & Eo & _ & -> & _). rewrite elem_of_cons in Hp.
  destruct Hp as [Hp|[->|Hp]]; [left; apply null_cell_spend; by left|left; apply null_cell_spend; right|by right].
  split; [done|]. unfold output_of in Eo. destruct (coins_vout _ !! _); [by eexists|done].
Qed.

Lemma checks_of_prevouts b tx d j ins outs sc : sc ∈ checks_of b tx d j ins outs -> exists p, sc_prevout sc = Some p /\ p ∈ map prevout ins.
Proof.
  revert j outs. induction ins as [|i ins IH]; intros j [|o outs]; cbn [checks_of]; try by intros ?%elem_of_nil.
  rewrite elem_of_cons. intros [->|Hin]; [exists (prevout i); split; [done|left]|].
  destruct (IH _ _ Hin) as (p & Ep & Hp). exists p. split; [done|by right].
Qed.

(** The blocks connected without overwriting: the transaction ids differ, and none has an unspent output *)
Definition no_overwrites (f : uint256_t -> coins) (txs : list transaction) : Prop :=
  NoDup (map tx_hash txs) /\ Forall (fun tx => coins_is_pruned (f (tx_hash tx)) = true) txs.

Section Cells.
Context `{AllocatorTotal} `{HashFunctions} `{Secp256k1}.
Variable skip : bool.
Variables (expensive : bool) (branch_id nHeight : Z).

Lemma ready_positions tx : tx_ready tx -> Forall (fun i => 0 <= op_n (prevout i)) (vin tx).
Proof. intros Htx. eapply Forall_impl; [by apply ready_prevouts|]. cbv beta. unfold is_u. lia. Qed.

Lemma apply_tx_split f tx f' us gone : tx_effect f tx nHeight = Some (f', us, gone) -> exists f0,
  (if transaction_is_coinbase tx then f0 = f /\ us = [] /\ gone = [] else spend_all f (vin tx) = Some (f0, us, gone)) /\
  outputs_fit tx = true /\ f' = set_record f0 (tx_hash tx) (new_record tx nHeight).
Proof.
  unfold tx_effect. destruct (transaction_is_coinbase tx).
  - cbn [mbind option_bind]. case_if; [|done]. intros [= <- <- <-]. by exists f.
  - destruct (spend_all f (vin tx)) as [[[f0 us0] gone0]|]; cbn [mbind option_bind]; [|done]. case_if; [|done].
    intros [= <- <- <-]. by exists f0.
Qed.

Lemma apply_tx_no_overwrites f tx txs f' us gone : tx_ready tx -> no_overwrites f (tx :: txs) ->
  tx_effect f tx nHeight = Some (f', us, gone) -> no_overwrites f' txs.
Proof.
  intros Htx [Hnd Hfr] (f0 & E & _ & ->)%apply_tx_split. apply NoDup_cons in Hnd as [Hni Hnd]. apply Forall_cons in Hfr as [_ Hfr].
  split; [done|]. apply Forall_forall. intros tx' Hin. pose proof (proj1 (Forall_forall _ _) Hfr tx' Hin) as Hp. cbv beta in Hp.
  unfold set_record. rewrite decide_False. 2: { intros Eh. apply Hni. rewrite Eh. apply list_elem_of_fmap. eauto. }
  destruct (transaction_is_coinbase tx); [by destruct E as (-> & _)|]. eapply spend_all_pruned; [by apply ready_positions|done..].
Qed.

(** No transaction to come creates the record of a collected check. *)
Definition cells_ok (s : view_state) (st : tally) (txs : list transaction) : Prop :=
  Forall (emptied s) (t_checks st) /\
  Forall (fun sc => forall p tx, sc_prevout sc = Some p -> tx ∈ txs -> op_hash p <> tx_hash tx) (t_checks st).

Lemma judge_tx_new_checks s st tx s' st' : judge_tx skip expensive branch_id nHeight s st tx = Ok (s', st') -> exists scs f us gone,
  tx_effect (vs_records s) tx nHeight = Some (f, us, gone) /\
  s' = with_cached (applied_state skip s tx nHeight f gone) (cells scs) /\
  t_checks st' = map (release (tx_hash tx)) (t_checks st ++ scs) /\ t_undo st' = t_undo st ++ [us] /\
  (forall sc, sc ∈ scs -> transaction_is_coinbase tx = false /\ exists p, sc_prevout sc = Some p /\ p ∈ map prevout (vin tx)) /\
  (transaction_is_coinbase tx = false -> exists outs fees sig_ops x, inputs_accepted expensive branch_id nHeight (vs_records s) tx sig_ops fees outs x /\
     scs = input_checks expensive branch_id tx outs /\ fees = t_fees st /\
     t_fees st' = t_fees st + (entering outs tx - transaction_get_value_out tx)) /\
  (transaction_is_coinbase tx = true -> scs = [] /\ t_fees st' = t_fees st).
Proof.
  unfold judge_tx. intros [_ E]%bind_unit_ok. apply bind_ok in E as ([[so fe] scs] & Ein & E).
  destruct (tx_effect _ tx nHeight) as [[[f us] gone]|]; [|done]. injection E as <- <-. exists scs, f, us, gone. cbn.
  destruct (transaction_is_coinbase tx) eqn:Ecb.
  - injection Ein as <- <- <-. split_and!; [done..|by intros sc ?%elem_of_nil|done|done].
  - apply judge_inputs_ok in Ein as [outs Ha]. pose proof (accepted_result _ _ _ _ _ _ _ _ _ Ha) as E. cbn in E. injection E as -> ->.
    split_and!; [done..| |intros _; by eexists _, _, _, _|done]. intros sc Hsc. split; [done|]. unfold input_checks in Hsc.
    destruct (domain_consensus_precompute_tx_data tx); [|by apply elem_of_nil in Hsc].
    destruct expensive; [by eapply checks_of_prevouts|by apply elem_of_nil in Hsc].
Qed.

Lemma spent_live f ins outs p : spent_outputs f ins = Some outs -> p ∈ map prevout ins -> coins_is_pruned (f (op_hash p)) = false.
Proof.
  revert outs. induction ins as [|i ins IH]; intros outs; [by intros _ ?%elem_of_nil|]. unfold spent_outputs. cbn [mapM map].
  destruct (output_of _ _) as [o|] eqn:Eo; [|done]. cbn [mbind option_bind]. destruct (mapM _ ins) as [outs'|] eqn:E'; [|done].
  intros _. rewrite elem_of_cons. intros [->|Hin]; [|by apply (IH outs')]. apply not_true_is_false. intros Hp.
  by rewrite pruned_no_output in Eo.
Qed.

Lemma release_other t l : Forall (fun sc => forall p, sc_prevout sc = Some p -> op_hash p <> t) l -> map (release t) l = l.
Proof.
  induction 1 as [|sc l Hsc _ IH]; [done|]. cbn. rewrite IH. f_equal. unfold release. destruct (sc_prevout sc) as [p|] eqn:E; [|done].
  rewrite decide_False; [done|by apply Hsc].
Qed.

Lemma judge_tx_cells s st tx txs s' st' : tx_ready tx -> no_overwrites (vs_records s) (tx :: txs) -> cells_ok s st (tx :: txs) ->
  judge_tx skip expensive branch_id nHeight s st tx = Ok (s', st') ->
  cells_ok s' st' txs /\ exists scs, t_checks st' = t_checks st ++ scs.
Proof.
  intros Htx [_ Hfr] [Hold Hne] E. destruct (judge_tx_new_checks _ _ _ _ _ E) as (scs & f & us & gone & Ea & -> & Ech & _ & Hnew & Hacc & _).
  destruct (apply_tx_split _ _ _ _ _ Ea) as (f0 & Es & _ & ->).
  assert (Forall (fun sc => forall p tx', sc_prevout sc = Some p -> tx' ∈ tx :: txs -> op_hash p <> tx_hash tx') scs) as Hne'.
  { apply Forall_forall. intros sc Hsc p tx' Ep Hin Eh. destruct (Hnew sc Hsc) as (Hcb & p' & Ep' & Hp').
    rewrite Ep in Ep'. injection Ep' as <-. destruct (Hacc Hcb) as (outs & ? & ? & ? & Ha & _).
    pose proof (spent_live _ _ _ _ (accepted_outputs _ _ _ _ _ _ _ _ _ Ha) Hp') as Hl.
    pose proof (proj1 (Forall_forall _ _) Hfr tx' Hin) as Hp. cbv beta in Hp. congruence. }
  rewrite release_other in Ech.
  2: { apply Forall_app. split; eapply Forall_impl; [exact Hne| |exact Hne'|]; intros sc Hsc p Ep; (apply (Hsc p tx Ep); left). }
  split; [|by exists scs]. unfold cells_ok. rewrite Ech, !Forall_app.
  assert (forall p, op_hash p <> tx_hash tx -> null_cell f0 p -> null_cell (set_record f0 (tx_hash tx) (new_record tx nHeight)) p) as Hset.
  { intros p Hp. unfold null_cell, set_record. by rewrite decide_False by done. }
  split_and!.
  - apply Forall_forall. intros sc Hsc. destruct (proj1 (Forall_forall _ _) Hold sc Hsc) as (p & Ep & Ht & Hin & Hn).
    exists p. split_and!; [done|done|cbn; set_solver|]. apply Hset.
    + apply (proj1 (Forall_forall _ _) Hne sc Hsc p tx Ep). left.
    + destruct (transaction_is_coinbase tx); [by destruct Es as (-> & _)|]. eapply null_cells_spend; [done|by left].
  - apply Forall_forall. intros sc Hsc. destruct (Hnew sc Hsc) as (Hcb & p & Ep & Hp). exists p. rewrite Hcb in Es. split_and!.
    + done.
    + apply list_elem_of_fmap in Hp as (i & -> & Hi). apply (proj1 (Forall_forall _ _) (ready_inputs tx Htx) i Hi).
    + cbn. apply elem_of_app. left. apply list_elem_of_omap. exists sc. by rewrite Ep.
    + apply Hset; [apply (proj1 (Forall_forall _ _) Hne' sc Hsc p tx Ep); left|]. eapply null_cells_spend; [done|by right].
  - eapply Forall_impl; [exact Hne|]. intros sc Hsc p tx' Ep Hin. apply (Hsc p tx' Ep). by right.
  - eapply Forall_impl; [exact Hne'|]. intros sc Hsc p tx' Ep Hin. apply (Hsc p tx' Ep). by right.
Qed.

Lemma judge_txs_frame txs s st s' st' : judge_txs skip expensive branch_id nHeight s st txs = Ok (s', st') ->
  vs_base s' = vs_base s /\ vs_best s' = vs_best s.
Proof.
  revert s st. induction txs as [|tx txs IH]; intros s st; cbn [judge_txs]; [by intros [= <- <-]|].
  intros ([s1 st1] & E & E')%bind_ok. apply judge_tx_frame in E as [Eb Eh]. apply IH in E' as [-> ->]. done.
Qed.

Lemma judge_txs_cells txs s st s' st' : Forall tx_ready txs -> no_overwrites (vs_records s) txs -> cells_ok s st txs ->
  judge_txs skip expensive branch_id nHeight s st txs = Ok (s', st') -> Forall (emptied s') (t_checks st').
Proof.
  intros Htx. revert s st. induction Htx as [|tx txs Htx _ IH]; intros s st Hno Hc; cbn [judge_txs]; [intros [= <- <-]; apply Hc|].
  intros ([s1 st1] & E & E')%bind_ok. destruct (judge_tx_cells _ _ _ _ _ _ Htx Hno Hc E) as [Hc1 _].
  eapply (IH s1 st1); [|done|done]. destruct (judge_tx_new_checks _ _ _ _ _ E) as (scs & f & us & gone & Ea & -> & _).
  cbn. by eapply apply_tx_no_overwrites.
Qed.
End Cells.

(** ** The whole call *)

Section Whole.
Context `{AllocatorTotal} `{HashFunctions} `{Secp256k1} `{CryptoRegistry} `{Clock}.
Variable skip : bool.
Variable deferred_below : Z.
Variable params : chain_params.
Variable run_pool : option (list (script * script_check) -> bool).

Lemma check_block_shape b e m u : check_block b params e m true = Ok u ->
  coinbase_leads (vtx b) /\ Forall (fun tx => check_transaction tx = Ok tt) (vtx b).
Proof.
  unfold check_block. intros [_ E]%bind_unit_ok. apply bind_unit_ok in E as [_ E]. apply bind_unit_ok in E as [Es E].
  apply bind_unit_ok in E as [Et _]. apply check_each_ok in Et. split; [|done].
  destruct (domain_consensus_check_block_size_and_coinbase b) as [u'|err] eqn:Ed; [|by destruct err]. clear Es.
  apply bind_unit_ok in Ed as [Hlen%ensure_ok Ed]. destruct (vtx b) as [|cb rest]; [done|].
  apply bind_unit_ok in Ed as [Ecb%ensure_ok Er%ensure_ok]. apply negb_true_iff in Er.
  split; [done|]. apply Forall_forall. intros tx Hin.
  apply not_true_is_false. intros Htx. apply not_true_iff_false in Er. apply Er. apply existsb_exists. exists tx.
  by rewrite <- list_elem_of_In.
Qed.

Lemma runs_best s c : presents c s ->
  runs coins_view_cache_get_best_block (fun h c' => h = view_best s /\ presents c' (with_best_block s (view_best s))) c.
Proof.
  intros [Hc Hb Hh Hu Hk Hr]. unfold coins_view_cache_get_best_block, view_best, runs. rewrite Hb, Hh.
  destruct (uint256_is_null (vs_best s)); [destruct (cv_get_best_block (vs_base s)) as [h|]|];
    (eexists _, _; split; [done|]); (split; [done|]); constructor; cbn; try done; by destruct Hc.
Qed.

Lemma runs_set_best h s c : presents c s -> runs (coins_view_cache_set_best_block h) (fun _ c' => presents c' (with_best_block s h)) c.
Proof. intros [Hc Hb Hh Hu Hk Hr]. eexists tt, _. split; [done|]. constructor; cbn; try done. by destruct Hc. Qed.

Lemma runs_bip30 h txs s c : Forall tx_ready txs -> presents c s ->
  runs (check_bip30 h txs) (follows s (ensure (negb (existsb (overwrites h (vs_records s)) txs)) (dos100 "bad-txns-BIP30"))
    (fun _ _ c' => presents c' s)) c.
Proof.
  intros Htx. revert c. induction Htx as [|tx txs [_ Ht] _ IH]; intros c Hp; cbn [check_bip30 existsb].
  { apply runs_accept. by eexists. }
  assert (forall c, presents c s -> runs (if bool_decide (is_Some (live (vs_records s (tx_hash tx)))) then
      existing <~ lift (coins_view_cache_get_coins (tx_hash tx));
      match existing with
      | Some r => if negb (coins_is_pruned r) then demand ((coins_height r =? h) && (h >? 0)) (dos100 "bad-txns-BIP30") else accept tt
      | None => accept tt
      end else accept tt) (follows s (ensure (negb (overwrites h (vs_records s) tx)) (dos100 "bad-txns-BIP30"))
        (fun _ _ c' => presents c' s)) c) as Hone.
  { clear c Hp. intros c Hp. unfold overwrites. destruct (live (vs_records s (tx_hash tx))) as [r|] eqn:El; cbn [bool_decide].
    - rewrite bool_decide_true by eauto. eapply then_lift; [by apply (runs_get_coins _ s)|]. cbv beta. intros r' c1 [-> Hp1]. rewrite El.
      unfold live in El. destruct (coins_is_pruned _) eqn:Ep; [done|]. injection El as <-. rewrite Ep, negb_involutive. by apply demand_follows.
    - rewrite bool_decide_false by (by intros [? ?]). apply runs_accept. by eexists. }
  eapply then_lift; [by apply (runs_have_coins _ s)|]. cbv beta. intros have c1 [-> Hp1].
  rewrite negb_orb. destruct (overwrites h (vs_records s) tx); cbn [negb andb].
  - eapply then_runs; [by apply Hone| |]; cbv beta; cbn; [by intros ? ? [? _]|]. by intros e c' [[= ->] ?].
  - eapply then_runs; [by apply Hone| |]; cbv beta; cbn.
    + intros _ c2 (_ & _ & Hp2). by apply IH.
    + by intros e c' (? & ? & _).
Qed.

Lemma arrays_total txs : arrays_allocated txs = true.
Proof. unfold arrays_allocated. by rewrite !alloc_total. Qed.

(** The totals that the call leaves in the entry *)
Definition totals_after (s : view_state) (b : block) (pindex : connect_index) (just_check : bool) : pool_totals :=
  if is_ok (check_block b params (expensive_at deferred_below params (ci_nHeight pindex)) (negb just_check) true) &&
     negb (is_genesis params b pindex) &&
     (uint256_is_null (view_best s) || (uint256_cmp (hashPrevBlock (header b)) (view_best s) =? 0))
  then fst (turnstile b pindex) else ci_totals pindex.

Definition block_ready (s : view_state) (b : block) : Prop :=
  Forall tx_ready (vtx b) /\ capped (vs_records s) /\ no_overwrites (vs_records s) (vtx b).

Lemma runs_connect_rest s b pindex just_check c e : pool_runs run_pool -> block_ready s b -> vtx b <> [] -> presents c s ->
  runs (connect_rest skip deferred_below params run_pool b pindex (hash_of b pindex) e just_check)
    (follows s (ensure (deferred deferred_below (ci_nHeight pindex) ||
                        negb (existsb (overwrites (ci_nHeight pindex) (vs_records s)) (vtx b))) (dos100 "bad-txns-BIP30");;
                '(s', st) ← judge_txs skip e (consensus_current_epoch_branch_id (consensus params) (ci_nHeight pindex))
                              (ci_nHeight pindex) s empty_tally (vtx b);
                judge_end params (ci_nHeight pindex) b just_check (vs_records s') st;;
                Ok (if just_check then s' else with_best_block s' (hash_of b pindex), st))
       (fun x y c' => y = snd x /\ presents c' (fst x))) c.
Proof.
  intros Hpool (Htx & Hf & Hno) Hb Hp. unfold connect_rest. cbv zeta. set (h := ci_nHeight pindex).
  apply (then_follows _ _ _ _ _ (fun _ _ c' => presents c' s)).
  { destruct (deferred deferred_below h); cbn [negb orb]; [apply runs_accept; by eexists|by apply runs_bip30]. }
  intros _ _ c1 _ Hp1. rewrite !alloc_total, arrays_total, andb_false_r. apply then_demand; [intros _|done]. apply then_demand; [intros _|done].
  eapply then_follows; [apply runs_connect_txs; [done|done|done|exact Hp1]|]. cbv beta. intros [s' st] st' c2 E [-> Hp2]. cbn [fst snd] in *.
  assert (Forall (emptied s') (t_checks st)) as Hcells by (eapply judge_txs_cells; [exact Htx|exact Hno| |exact E]; by split).
  assert (vs_base s' = vs_base s /\ vs_best s' = vs_best s) as Hfr by by eapply judge_txs_frame.
  eapply runs_mono; [|intros res c'; by apply (follows_frame s s')].
  eapply then_follows; [apply (runs_conclude run_pool params b h just_check s' st c2); [done| |done|done]|].
  { eapply Forall_impl; [exact Hcells|]. intros sc. apply emptied_loadable. }
  cbv beta. intros _ _ c3 _ Hp3. destruct just_check.
  - apply then_accept, runs_accept. by eexists.
  - eapply then_lift; [by apply runs_set_best|]. cbv beta. intros _ c4 Hp4. apply runs_accept. by eexists.
Qed.

Lemma ready_best s b h : block_ready s b -> block_ready (with_best_block s h) b.
Proof. done. Qed.

(** The outcome of the call: its result, the totals and the cache *)
Definition outcome (s : view_state) (b : block) (pindex : connect_index) (just_check : bool)
    (x : result rejection (option tally) * pool_totals) (c : coins_view_cache) : Prop :=
  snd x = totals_after s b pindex just_check /\
  match judge_block skip deferred_below params s b pindex just_check with
  | Ok (s', st) => fst x = Ok st /\ presents c s'
  | Err e => fst x = Err e /\ exists s', presents c s' /\ vs_base s' = vs_base s
  end.

Lemma runs_connect_block s b pindex just_check c : pool_runs run_pool -> block_ready s b -> presents c s ->
  runs (connect_block skip deferred_below params run_pool b pindex just_check) (outcome s b pindex just_check) c.
Proof.
  intros Hpool Hready Hp. unfold connect_block, outcome, totals_after, judge_block. cbv zeta.
  fold (expensive_at deferred_below params (ci_nHeight pindex)). fold (hash_of b pindex). fold (is_genesis params b pindex).
  destruct (check_block b params _ _ true) as [u|v] eqn:Ecb; cbn [is_ok andb].
  2: { apply runs_ret. split; [done|]. split; [done|]. by exists s. }
  destruct (check_block_shape _ _ _ _ Ecb) as [Hcb _].
  assert (vtx b <> []) as Hne by (intros E; by rewrite E in Hcb).
  destruct (is_genesis params b pindex); cbn [negb andb].
  { destruct just_check; [by apply runs_ret|]. eapply runs_bind; [by apply runs_set_best|]. cbv beta. intros _ c1 Hp1. by apply runs_ret. }
  eapply runs_bind; [by apply runs_best|]. cbv beta. intros h c1 [-> Hp1]. unfold judge_rest. cbv zeta.
  rewrite <- negb_orb. destruct (uint256_is_null (view_best s) || _); cbn [negb ensure mbind result_bind].
  2: { apply runs_ret. split; [done|]. split; [done|]. by eexists. }
  destruct (turnstile b pindex) as [totals allowed]. cbn [fst snd]. destruct allowed as [u'|e]; cbn [mbind result_bind].
  2: { apply runs_ret. split; [done|]. split; [done|]. by eexists. }
  eapply runs_bind; [by apply (runs_connect_rest (with_best_block s (view_best s)) b pindex just_check c1)|].
  cbv beta. intros res c2 Hres. apply runs_ret. cbn [fst snd]. split; [done|]. cbn [vs_records with_best_block] in *.
  unfold follows in Hres. match type of Hres with match ?v with _ => _ end => destruct v as [[s' st]|e] end; cbn [mbind result_bind].
  - destruct Hres as (a & -> & -> & Hp2). done.
  - destruct Hres as [-> (s' & Hp' & Eb & _)]. split; [done|]. by exists s'.
Qed.
End Whole.

(** ** What an accepted block satisfies *)

Section Sound.
Context `{AllocatorTotal} `{HashFunctions} `{Secp256k1} `{CryptoRegistry} `{Clock}.
Variable skip : bool.
Variable params : chain_params.
Variables (expensive : bool) (branch_id nHeight : Z).

(** A transaction against the records at its turn, and its fee *)
Definition tx_valid (f : uint256_t -> coins) (tx : transaction) (fee : Z) : Prop :=
  if transaction_is_coinbase tx then fee = 0
  else exists outs, spent_outputs f (vin tx) = Some outs /\
    Forall (fun i => is_coinbase (f (op_hash (prevout i))) = true ->
                     COINBASE_MATURITY <= nHeight - coins_height (f (op_hash (prevout i)))) (vin tx) /\
    fee = sum_Z (map value outs) + sum_Z (amounts_in tx) - sum_Z (amounts_out tx) /\ 0 <= fee.

Inductive txs_valid : (uint256_t -> coins) -> list transaction -> Z -> (uint256_t -> coins) -> list tx_undo -> Prop :=
  | valid_nil f : txs_valid f [] 0 f []
  | valid_cons f tx txs fee fees f1 f' us uss gone :
      tx_valid f tx fee -> tx_effect f tx nHeight = Some (f1, us, gone) -> txs_valid f1 txs fees f' uss ->
      txs_valid f (tx :: txs) (fee + fees) f' (us :: uss).

Lemma structure_of tx : tx_ready tx -> check_transaction tx = Ok tt -> structurally_valid tx.
Proof.
  intros [Htx _] Hc. apply check_structural_iff; [done|]. unfold check_transaction in Hc.
  by destruct (domain_consensus_check_transaction_structural tx) as [[]|].
Qed.

Lemma structure_values tx : tx_ready tx -> check_transaction tx = Ok tt ->
  is_s 64 (value_balance tx) /\ (value_balance tx >= 0 -> MoneyRange (value_balance tx) = true) /\
  Forall (fun js => MoneyRange (vpub_new js) = true) (v_joinsplit tx) /\ Forall (fun o => 0 <= value o) (vout tx) /\
  transaction_get_value_out tx = sum_Z (amounts_out tx).
Proof.
  intros Htx Hc. destruct (structure_of tx Htx Hc) as (_ & _ & _ & _ & (Hout & Hvb & _ & Hjs & Hso & _) & _).
  assert (MAX_MONEY = 2100000000000000) as Hm by done. assert (is_s 64 (value_balance tx)) as Hs by (unfold is_s; lia).
  split_and!; [done|intros ?; apply MoneyRange_spec; lia| | |].
  - eapply Forall_impl; [exact Hjs|]. intros js (_ & Hn & _). by apply MoneyRange_spec.
  - eapply Forall_impl; [exact Hout|]. unfold money. lia.
  - rewrite value_out_sum, checked_sum_amounts by done. unfold checked_sum.
    assert (forallb MoneyRange (amounts_out tx) = true) as ->; [|by replace (_ <=? _) with true by lia].
    unfold amounts_out. rewrite !forallb_app, !andb_true_iff. split_and!.
    + apply forallb_forall. intros v Hv. apply list_elem_of_In, list_elem_of_fmap in Hv as (o & -> & Ho). apply MoneyRange_spec.
      apply (proj1 (Forall_forall _ _) Hout o Ho).
    + destruct (Z.leb_spec (value_balance tx) 0); [|done]. cbn. rewrite andb_true_r. apply MoneyRange_spec. lia.
    + apply forallb_forall. intros v Hv. apply list_elem_of_In, list_elem_of_fmap in Hv as (js & -> & Hj). apply MoneyRange_spec.
      apply (proj1 (Forall_forall _ _) Hjs js Hj).
Qed.

Lemma entering_sum tx outs : tx_ready tx -> check_transaction tx = Ok tt -> 0 <= entering outs tx ->
  entering outs tx = sum_Z (map value outs) + sum_Z (amounts_in tx).
Proof.
  intros Htx Hc Hge. destruct (structure_values tx Htx Hc) as (_ & Hvb & Hjs & _ & _).
  assert (entering outs tx = checked_sum (amounts_entering outs tx)) as E.
  { unfold entering. rewrite <- checked_sum_amounts. f_equal. unfold amounts_entering, amounts_in. rewrite sum_amounts_app.
    destruct (sum_amounts 0 (map value outs)) as [acc|]; [|done]. cbn [mbind option_bind]. rewrite sum_amounts_app.
    destruct (Z.geb_spec (value_balance tx) 0) as [Hv|Hv]; cbn [sum_amounts mbind option_bind]; [|by apply add_vpub_new_sum].
    rewrite Hvb by lia. cbn [negb orb]. case_if; [done|]. cbn [mbind option_bind]. by apply add_vpub_new_sum. }
  rewrite E in *. destruct (checked_sum_nonneg _ Hge) as (_ & -> & _). unfold amounts_entering. by rewrite sum_Z_app.
Qed.

Lemma maturity_spec f ins outs : spent_outputs f ins = Some outs -> forallb (mature_input nHeight f) ins = true ->
  Forall (fun i => is_coinbase (f (op_hash (prevout i))) = true ->
                   COINBASE_MATURITY <= nHeight - coins_height (f (op_hash (prevout i)))) ins.
Proof.
  intros Eo Hm. apply Forall_forall. intros i Hi Hcb. rewrite forallb_forall in Hm. specialize (Hm i ltac:(by apply list_elem_of_In)).
  unfold mature_input, live in Hm. rewrite (spent_live f ins outs (prevout i) Eo) in Hm by (apply list_elem_of_fmap; eauto).
  rewrite Hcb in Hm. cbn in Hm. lia.
Qed.

Lemma judge_txs_valid txs s st s' st' : Forall tx_ready txs -> Forall (fun tx => check_transaction tx = Ok tt) txs ->
  judge_txs skip expensive branch_id nHeight s st txs = Ok (s', st') ->
  exists fees uss, txs_valid (vs_records s) txs fees (vs_records s') uss /\ t_fees st' = t_fees st + fees /\ t_undo st' = t_undo st ++ uss.
Proof.
  intros Htx. revert s st. induction Htx as [|tx txs Htx _ IH]; intros s st Hch; cbn [judge_txs].
  { intros [= <- <-]. exists 0, []. rewrite app_nil_r. split_and!; [constructor|lia|done]. }
  apply Forall_cons in Hch as [Hch Hchs]. intros ([s1 st1] & E & E')%bind_ok.
  destruct (judge_tx_new_checks _ _ _ _ _ _ _ _ _ E) as (scs & f & us & gone & Ea & -> & _ & Eu & _ & Hacc & Hcb).
  destruct (IH _ _ Hchs E') as (fees & uss & Hv & Ef & Eus). cbn [vs_records with_cached applied_state] in Hv.
  assert (exists fee, tx_valid (vs_records s) tx fee /\ t_fees st1 = t_fees st + fee) as (fee & Hfee & Ef1).
  { unfold tx_valid. destruct (transaction_is_coinbase tx) eqn:Ecb; [exists 0; split; [done|]; destruct (Hcb eq_refl); lia|].
    destruct (Hacc eq_refl) as (outs & fs & so & x & Ha & _ & -> & Ef1). pose proof (accepted_in _ _ _ _ _ _ _ _ _ Ha) as Hin.
    pose proof (accepted_covers _ _ _ _ _ _ _ _ _ Ha) as Hcov. destruct (structure_values tx Htx Hch) as (_ & _ & _ & _ & Evo).
    pose proof (entering_sum tx outs Htx Hch ltac:(lia)) as Een. rewrite Evo, Een in *. eexists. split; [|exact Ef1]. exists outs.
    pose proof (accepted_outputs _ _ _ _ _ _ _ _ _ Ha) as Eo. split_and!; [done| |lia|lia].
    eapply maturity_spec; [done|]. apply (accepted_mature _ _ _ _ _ _ _ _ _ Ha). }
  exists (fee + fees), (us :: uss). split; [by econstructor|]. split; [lia|]. rewrite Eus, Eu, <- app_assoc. done.
Qed.

(** ** Conservation of value *)

Definition total (us : list utxo) : Z := sum_Z (map u_value us).

Lemma total_perm us us' : us ≡ₚ us' -> total us = total us'.
Proof. unfold total. intros Hp. induction Hp; cbn in *; unfold sum_Z in *; cbn; lia. Qed.

Lemma total_app us us' : total (us ++ us') = total us + total us'.
Proof. unfold total. by rewrite map_app, sum_Z_app. Qed.

Lemma total_spends ins us f f' undos gone : Forall (fun i => 0 <= op_n (prevout i)) ins -> lists us f ->
  spend_all f ins = Some (f', undos, gone) -> exists us', lists us' f' /\ total us = total us' + total gone.
Proof.
  intros Hi. revert us f f' undos gone. induction Hi as [|i ins Hn _ IH]; intros us f f' undos gone Hus.
  { intros [= <- <- <-]. exists us. split; [done|]. unfold total. cbn. lia. }
  cbn [spend_all]. destruct (spend_one f i) as [[[r u] g]|] eqn:E1; cbn [mbind option_bind]; [|done].
  destruct (spend_all _ ins) as [[[f2 us2] gone2]|] eqn:E2; cbn [mbind option_bind]; [|done]. intros [= <- <- <-].
  destruct (lists_spend us f i r u g Hn E1 Hus) as (us1 & Hp & Hus1). destruct (IH _ _ _ _ _ Hus1 E2) as (us' & Hus' & Et).
  exists us'. split; [done|]. rewrite (total_perm _ _ Hp). unfold total in *. cbn. unfold sum_Z in *. cbn. lia.
Qed.

(** The outputs that go are those the inputs name. *)
Lemma spent_total ins f f' undos gone outs : Forall (fun i => 0 <= op_n (prevout i)) ins -> NoDup (map prevout ins) ->
  spend_all f ins = Some (f', undos, gone) -> spent_outputs f ins = Some outs -> total gone = sum_Z (map value outs).
Proof.
  intros Hi. revert f f' undos gone outs. induction Hi as [|i ins Hn Hi IH]; intros f f' undos gone outs Hnd.
  { by intros [= <- <- <-] [= <-]. }
  cbn [map] in Hnd. apply NoDup_cons in Hnd as [Hni Hnd]. cbn [spend_all].
  destruct (spend_one f i) as [[[r u] g]|] eqn:E1; cbn [mbind option_bind]; [|done].
  destruct (spend_all _ ins) as [[[f2 us2] gone2]|] eqn:E2; cbn [mbind option_bind]; [|done]. intros [= <- <- <-].
  apply spend_one_Some in E1 as (o & Eo & _ & -> & _ & ->). unfold spent_outputs. cbn [mapM]. rewrite Eo. cbn [mbind option_bind].
  destruct (mapM _ ins) as [outs'|] eqn:E'; [|done]. intros [= <-].
  assert (spent_outputs (set_record f (op_hash (prevout i)) (null_output (f (op_hash (prevout i))) (op_n (prevout i)))) ins = Some outs') as Eo'.
  { rewrite <- E'. unfold spent_outputs. clear - Hi Hni Hn. induction Hi as [|j ins Hj _ IH]; [done|]. cbn [mapM].
    assert (output_of (set_record f (op_hash (prevout i)) (null_output (f (op_hash (prevout i))) (op_n (prevout i))) (op_hash (prevout j)))
      (op_n (prevout j)) = output_of (f (op_hash (prevout j))) (op_n (prevout j))) as ->.
    { unfold set_record. case_decide as Et; [|done]. rewrite <- Et, output_of_null by done.
      destruct (Z.eqb_spec (op_n (prevout j)) (op_n (prevout i))) as [En|]; [|done]. exfalso. apply Hni.
      replace (prevout i) with (prevout j); [cbn; left|]. destruct (prevout i), (prevout j). cbn in *. congruence. }
    rewrite IH; [done|]. intros Hin. apply Hni. by right. }
  specialize (IH _ _ _ _ _ Hnd E2 Eo'). unfold total in *. cbn. unfold sum_Z in *. cbn. lia.
Qed.

Lemma live_total tx h : Forall (fun o => 0 <= value o) (vout tx) ->
  total (live_outputs (tx_hash tx) (new_record tx h)) <= sum_Z (map value (vout tx)).
Proof.
  intros Hv. unfold total.
  assert (forall t r, sum_Z (map u_value (live_outputs t r)) =
    sum_Z (map (fun o => if tx_out_is_null o then 0 else value o) (coins_vout r))) as ->.
  { intros t r. rewrite <- came_live. generalize 0%nat. generalize (coins_height r). induction (coins_vout r) as [|o l IH]; intros hh k; [done|].
    rewrite came_cons. cbn [map]. destruct (tx_out_is_null o); cbn; rewrite IH; unfold sum_Z; cbn; lia. }
  set (g := fun o => if tx_out_is_null o then 0 else value o).
  assert (forall l, sum_Z (map g (reverse (drop_nulls (reverse l)))) = sum_Z (map g l)) as Hd.
  { assert (forall l, sum_Z (map g (reverse l)) = sum_Z (map g l)) as Hrev.
    { induction l as [|o l IH]; [done|]. rewrite reverse_cons, map_app, sum_Z_app, IH. unfold sum_Z. cbn. lia. }
    intros l. rewrite Hrev, <- (Hrev l). induction (reverse l) as [|o m IH]; [done|]. cbn [drop_nulls].
    destruct (tx_out_is_null o) eqn:En; [|done]. rewrite IH. cbn [map]. unfold sum_Z. cbn [foldr].
    replace (g o) with 0 by (unfold g; by rewrite En). lia. }
  unfold new_record, coins_from_transaction, coins_alloc. rewrite alloc_total, andb_false_r. cbn [negb].
  destruct (zlen (vout tx) >? MAX_COIN_OUTPUTS); cbn [snd coins_vout with_vout coins_math_cleanup].
  - cbn. clear - Hv. induction Hv as [|o l Ho _ IH]; [done|]. cbn. unfold sum_Z in *. cbn. lia.
  - rewrite Hd. clear - Hv. subst g. induction Hv as [|o l Ho _ IH]; [done|]. cbn [map]. unfold sum_Z in *. cbn in *.
    destruct (script_is_unspendable _); cbn; [lia|]. destruct (tx_out_is_null o); lia.
Qed.

Lemma apply_total us f tx f' undos gone : tx_ready tx -> check_transaction tx = Ok tt -> lists us f ->
  coins_is_pruned (f (tx_hash tx)) = true -> tx_effect f tx nHeight = Some (f', undos, gone) ->
  exists us', lists us' f' /\ total us' <= total us - total gone + sum_Z (map value (vout tx)) /\
    (transaction_is_coinbase tx = true -> gone = []).
Proof.
  intros Htx Hch Hus Hp (f0 & E & _ & ->)%apply_tx_split. destruct (structure_values tx Htx Hch) as (_ & _ & _ & Hv & _).
  assert (exists us0, lists us0 f0 /\ total us = total us0 + total gone /\ coins_is_pruned (f0 (tx_hash tx)) = true /\
    (transaction_is_coinbase tx = true -> gone = [])) as (us0 & Hus0 & Et & Hp0 & Hg).
  { pose proof (ready_positions tx Htx) as Hi. destruct (transaction_is_coinbase tx).
    - destruct E as (-> & _ & ->). exists us. split_and!; [done| |done|done]. unfold total. cbn. lia.
    - destruct (total_spends _ _ _ _ _ _ Hi Hus E) as (us0 & ? & ?). exists us0. split_and!; try done. by eapply spend_all_pruned. }
  exists (reverse (live_outputs (tx_hash tx) (new_record tx nHeight)) ++ us0). split; [by apply lists_create|]. split; [|done].
  rewrite total_app, (total_perm (reverse _) _ (reverse_Permutation _)). pose proof (live_total tx nHeight Hv). lia.
Qed.

Lemma valid_total txs us f fees f' uss : txs_valid f txs fees f' uss -> Forall tx_ready txs ->
  Forall (fun tx => check_transaction tx = Ok tt) txs -> Forall (fun tx => transaction_is_coinbase tx = false) txs ->
  no_overwrites f txs -> lists us f ->
  exists us', lists us' f' /\ total us' + fees <= total us + sum_Z (map net_unshielded txs).
Proof.
  intros Hv. revert us. induction Hv as [f|f tx txs fee fees f1 f' undos uss gone Hval Ea _ IH]; intros us Htx Hch Hcb Hno Hus.
  { exists us. split; [done|]. cbn. lia. }
  apply Forall_cons in Htx as [Htx Htxs]. apply Forall_cons in Hch as [Hch Hchs]. apply Forall_cons in Hcb as [Hcb Hcbs].
  pose proof Hno as [_ Hfr]. apply Forall_cons in Hfr as [Hfr _].
  destruct (apply_total us f tx f1 undos gone Htx Hch Hus Hfr Ea) as (us1 & Hus1 & Ht1 & _).
  destruct (IH us1 Htxs Hchs Hcbs ltac:(by eapply apply_tx_no_overwrites) Hus1) as (us' & Hus' & Ht). exists us'. split; [done|].
  unfold tx_valid in Hval. rewrite Hcb in Hval. destruct Hval as (outs & Eo & _ & -> & _).
  destruct (apply_tx_split _ _ _ _ _ _ Ea) as (f0 & Es & _ & _). rewrite Hcb in Es.
  destruct (structure_of tx Htx Hch) as (_ & _ & _ & _ & _ & (Hnd & _) & _).
  pose proof (spent_total _ _ _ _ _ _ (ready_positions tx Htx) Hnd Es Eo) as Eg.
  cbn [map]. unfold sum_Z at 4. cbn [foldr]. fold (sum_Z (map net_unshielded txs)). unfold net_unshielded at 1. lia.
Qed.

(** The coinbase takes the fees and the subsidy. *)
Lemma block_total txs us f fees f' uss subsidy : coinbase_leads txs -> txs_valid f txs fees f' uss -> Forall tx_ready txs ->
  Forall (fun tx => check_transaction tx = Ok tt) txs -> no_overwrites f txs -> lists us f ->
  (forall cb, head txs = Some cb -> transaction_get_value_out cb <= fees + subsidy) ->
  exists us', lists us' f' /\ total us' <= total us + subsidy + sum_Z (map net_unshielded txs).
Proof.
  intros Hcbf Hv Htx Hch Hno Hus Hsub. destruct Hv as [f|f cb txs fee fees f1 f' undos uss gone Hval Ea Hv]; [done|].
  destruct Hcbf as [Hcb Hcbs]. apply Forall_cons in Htx as [Htx Htxs]. apply Forall_cons in Hch as [Hch Hchs].
  pose proof Hno as [_ Hfr]. apply Forall_cons in Hfr as [Hfr _].
  destruct (apply_total us f cb f1 undos gone Htx Hch Hus Hfr Ea) as (us1 & Hus1 & Ht1 & Hg). rewrite (Hg Hcb) in Ht1.
  destruct (valid_total txs us1 f1 fees f' uss Hv Htxs Hchs Hcbs ltac:(by eapply apply_tx_no_overwrites) Hus1) as (us' & Hus' & Ht).
  exists us'. split; [done|]. specialize (Hsub cb eq_refl). unfold tx_valid in Hval. rewrite Hcb in Hval. subst fee.
  destruct (structure_values cb Htx Hch) as (_ & Hvb & Hjs & _ & Evo).
  assert (0 <= sum_Z (amounts_in cb)) as Hin.
  { apply sum_Z_nonneg. unfold amounts_in. rewrite forallb_app. apply andb_true_iff. split.
    - destruct (Z.geb_spec (value_balance cb) 0); [|done]. cbn. rewrite Hvb by lia. done.
    - apply forallb_forall. intros v Hin. apply list_elem_of_In, list_elem_of_fmap in Hin as (js & -> & Hj).
      by apply (proj1 (Forall_forall _ _) Hjs js Hj). }
  cbn [map]. unfold sum_Z at 1. cbn [foldr]. fold (sum_Z (map net_unshielded txs)). unfold net_unshielded at 1.
  change (total []) with 0 in Ht1. lia.
Qed.
End Sound.

(** ** Properties *)

Section Theorems.
Context `{AllocatorTotal} `{HashFunctionsOk} `{Secp256k1} `{CryptoRegistry} `{Clock}.
Variable skip : bool.
Variable deferred_below : Z.
Variable params : chain_params.
Variable run_pool : option (list (script * script_check) -> bool).

(** The parts of an accepted judgement *)
Lemma judge_block_accepted s b pindex just_check s' st :
  judge_block skip deferred_below params s b pindex just_check = Ok (s', Some st) ->
  coinbase_leads (vtx b) /\ Forall (fun tx => check_transaction tx = Ok tt) (vtx b) /\
  snd (turnstile b pindex) = Ok tt /\
  exists s1, judge_txs skip (expensive_at deferred_below params (ci_nHeight pindex))
      (consensus_current_epoch_branch_id (consensus params) (ci_nHeight pindex)) (ci_nHeight pindex)
      (with_best_block s (view_best s)) empty_tally (vtx b) = Ok (s1, st) /\
    judge_end params (ci_nHeight pindex) b just_check (vs_records s1) st = Ok tt /\
    s' = if just_check then s1 else with_best_block s1 (hash_of b pindex).
Proof.
  unfold judge_block. destruct (check_block _ _ _ _ true) as [u|v] eqn:Ecb; [|done].
  destruct (check_block_shape _ _ _ _ _ Ecb) as [Hcb Hch]. destruct (is_genesis params b pindex); [done|].
  intros ([s2 st2] & E & [= <- <-])%bind_ok. unfold judge_rest in E. cbv zeta in E. apply bind_unit_ok in E as [_ E].
  apply bind_unit_ok in E as [Et E]. apply bind_unit_ok in E as [_ E]. apply bind_ok in E as ([s1 st1] & E1 & E).
  apply bind_unit_ok in E as [E2 [= <- <-]]. split_and!; [done..|]. by exists s1.
Qed.

Lemma judge_end_ok h b just_check f st : judge_end params h b just_check f st = Ok tt ->
  forallb script_check_fn (omap (loaded f) (t_checks st)) = true /\
  forall cb, head (vtx b) = Some cb -> transaction_get_value_out cb <= t_fees st + get_block_subsidy (consensus params) h.
Proof.
  unfold judge_end. intros [Hs%ensure_ok E]%bind_unit_ok. apply bind_unit_ok in E as [_ E]. apply bind_unit_ok in E as [_ E].
  split; [done|]. intros cb Hcb. destruct (vtx b) as [|cb' rest]; [done|]. injection Hcb as ->. apply ensure_ok in E. lia.
Qed.

Lemma apply_txs_cached h s l txs s' uss : txs_effect skip h (with_cached s l) txs = Some (s', uss) ->
  exists s1, txs_effect skip h s txs = Some (s1, uss) /\ s' = with_cached s1 l.
Proof.
  revert s s' uss. induction txs as [|tx txs IH]; intros s s' uss; cbn [txs_effect]; [intros [= <- <-]; eauto|].
  cbn [vs_records with_cached]. destruct (tx_effect _ tx h) as [[[f us] gone]|]; cbn [mbind option_bind]; [|done].
  change (applied_state skip (with_cached s l) tx h f gone) with (with_cached (applied_state skip s tx h f gone) l).
  destruct (txs_effect _ _ _ txs) as [[s2 uss2]|] eqn:E; cbn [mbind option_bind]; [|done]. intros [= <- <-].
  destruct (IH _ _ _ E) as (s1 & -> & ->). by exists s1.
Qed.

Lemma judge_txs_apply e br h txs s st s' st' : judge_txs skip e br h s st txs = Ok (s', st') ->
  exists s1 uss l, txs_effect skip h s txs = Some (s1, uss) /\ t_undo st' = t_undo st ++ uss /\ s' = with_cached s1 l.
Proof.
  revert s st. induction txs as [|tx txs IH]; intros s st; cbn [judge_txs].
  { intros [= <- <-]. exists s, [], []. rewrite app_nil_r. split_and!; [done|done|by destruct s]. }
  intros ([s1 st1] & E & E')%bind_ok. destruct (IH _ _ E') as (s2 & uss & l & Ea & Eu & ->).
  destruct (judge_tx_new_checks _ _ _ _ _ _ _ _ _ E) as (scs & f & us & gone & Eap & -> & _ & Eu1 & _).
  cbn [txs_effect]. rewrite Eap. cbn [mbind option_bind]. destruct (apply_txs_cached _ _ _ _ _ _ Ea) as (s3 & -> & ->).
  exists s3, (us :: uss), (l ++ cells scs). split_and!; [done|by rewrite Eu, Eu1, <- app_assoc|by rewrite with_cached_app].
Qed.


(** What the code says of an accepted block *)
Lemma connect_accepted s b pindex just_check c st t c' : pool_runs run_pool -> block_ready s b -> presents c s ->
  connect_block skip deferred_below params run_pool b pindex just_check c = Some ((Ok (Some st), t), c') ->
  exists s', judge_block skip deferred_below params s b pindex just_check = Ok (s', Some st) /\ presents c' s'.
Proof.
  intros Hpool Hready Hp E. destruct (runs_connect_block skip deferred_below params run_pool s b pindex just_check c Hpool Hready Hp)
    as ([res t'] & c'' & E' & _ & Hres). rewrite E in E'. injection E' as <- <- <-. cbn [fst snd] in Hres.
  destruct (judge_block _ _ _ _ _ _ _) as [[s' st']|e]; [|by destruct Hres]. destruct Hres as [[= <-] Hp']. eauto.
Qed.

(** C14: An accepted block is valid against the records.  In the order of the block, every
    transaction but the coinbase spends existing outputs, spends a coinbase only after a hundred
    blocks, and takes in at least what it pays out; the coinbase pays at most the subsidy and
    the fees; and the cache ends with the inputs spent, the outputs new_record and the block as
    its best block. *)
Theorem connect_block_sound s b pindex c st t c' : pool_runs run_pool -> block_ready s b -> presents c s ->
  connect_block skip deferred_below params run_pool b pindex false c = Some ((Ok (Some st), t), c') ->
  exists fees f', txs_valid (ci_nHeight pindex) (vs_records s) (vtx b) fees f' (t_undo st) /\
    (forall cb, head (vtx b) = Some cb -> transaction_get_value_out cb <= fees + get_block_subsidy (consensus params) (ci_nHeight pindex)) /\
    (forall txid, record_of c' txid = f' txid) /\ cvc_hash_block c' = hash_of b pindex.
Proof.
  intros Hpool Hready Hp E. destruct (connect_accepted _ _ _ _ _ _ _ _ Hpool Hready Hp E) as (s' & Ej & Hp').
  destruct (judge_block_accepted _ _ _ _ _ _ Ej) as (_ & Hch & _ & s1 & E1 & E2 & ->).
  destruct (judge_txs_valid _ _ _ _ _ _ _ _ _ (proj1 Hready) Hch E1) as (fees & uss & Hv & Ef & Eu). cbn in Ef, Eu. subst uss.
  exists fees, (vs_records s1). split; [done|]. split; [|split; [apply (presents_records _ _ Hp')|apply (presents_best _ _ Hp')]].
  intros cb Hcb. apply judge_end_ok in E2 as [_ E2]. specialize (E2 cb Hcb). lia.
Qed.

(** C3: An accepted block creates no money.  The total of the unspent outputs grows by at most
    the subsidy and the net value that the transactions take out of the shielded pools. *)
Theorem connect_conserves_value s b pindex c st t c' us : pool_runs run_pool -> block_ready s b -> presents c s ->
  connect_block skip deferred_below params run_pool b pindex false c = Some ((Ok (Some st), t), c') ->
  lists us (vs_records s) ->
  exists us', lists us' (record_of c') /\
    total us' <= total us + get_block_subsidy (consensus params) (ci_nHeight pindex) + sum_Z (map net_unshielded (vtx b)).
Proof.
  intros Hpool Hready Hp E Hus. destruct (connect_accepted _ _ _ _ _ _ _ _ Hpool Hready Hp E) as (s' & Ej & Hp').
  destruct (judge_block_accepted _ _ _ _ _ _ Ej) as (Hcb & Hch & _ & s1 & E1 & E2 & ->). destruct Hready as (Htx & _ & Hno).
  destruct (judge_txs_valid _ _ _ _ _ _ _ _ _ Htx Hch E1) as (fees & uss & Hv & Ef & _). cbn in Ef.
  apply judge_end_ok in E2 as [_ E2].
  destruct (block_total _ _ us _ _ _ _ (get_block_subsidy (consensus params) (ci_nHeight pindex)) Hcb Hv Htx Hch Hno Hus) as (us' & Hus' & Ht).
  { intros cb Hcbe. specialize (E2 cb Hcbe). lia. }
  exists us'. split; [|done]. destruct Hus' as [Hnd Hus']. split; [done|]. intros u. rewrite Hus'. unfold unspent.
  by rewrite (presents_records _ _ Hp').
Qed.

Lemma applies_no_overwrites f txs : block_applies f txs -> no_overwrites f txs.
Proof. intros [Hnd Ha]. split; [done|]. eapply Forall_impl; [exact Ha|]. by intros tx []. Qed.


Lemma load_check_pure sc c x c' : load_check sc c = Some (x, c') -> c' = c.
Proof.
  unfold load_check, undefined, find_entry, read_entry, mbind, view_bind, mret, view_ret. destruct (sc_prevout sc) as [p|]; [|done].
  destruct (coins_map_find _ _); [|done]. destruct (coins_vout _ !! _); [|done]. by intros [= _ <-].
Qed.

(** The signature scripts of the block, in the order of its inputs *)
Definition spending_scripts (txs : list transaction) : list script :=
  mjoin (map (fun tx => if transaction_is_coinbase tx then [] else map script_sig (vin tx)) txs).

Lemma checks_of_sigs br tx d j ins outs : length outs = length ins -> map sc_script_sig (checks_of br tx d j ins outs) = map script_sig ins.
Proof.
  revert j outs. induction ins as [|i ins IH]; intros j [|o outs] Hl; try done. cbn [checks_of map]. cbn in Hl. f_equal.
  apply IH. lia.
Qed.

Lemma release_sig t l : map sc_script_sig (map (release t) l) = map sc_script_sig l.
Proof.
  induction l as [|sc l IH]; [done|]. cbn. rewrite IH. f_equal. unfold release. destruct (sc_prevout sc); [|done]. by case_decide.
Qed.

Lemma judge_txs_sigs br h txs s st s' st' : Forall tx_ready txs -> judge_txs skip true br h s st txs = Ok (s', st') ->
  map sc_script_sig (t_checks st') = map sc_script_sig (t_checks st) ++ spending_scripts txs.
Proof.
  intros Htx. revert s st. induction Htx as [|tx txs Htx _ IH]; intros s st; cbn [judge_txs].
  { intros [= <- <-]. by rewrite app_nil_r. }
  intros ([s1 st1] & E & E')%bind_ok. rewrite (IH _ _ E'). unfold spending_scripts. cbn [map mjoin list_join].
  destruct (judge_tx_new_checks _ _ _ _ _ _ _ _ _ E) as (scs & f & us & gone & _ & _ & -> & _ & _ & Hacc & Hcb).
  rewrite release_sig, map_app, <- app_assoc. f_equal. f_equal.
  destruct (transaction_is_coinbase tx); [by destruct (Hcb eq_refl) as [-> _]|].
  destruct (Hacc eq_refl) as (outs & fs & so & x & Ha & -> & _). unfold input_checks. rewrite (precompute_digests tx (proj1 Htx)).
  apply checks_of_sigs. symmetry. apply (length_mapM _ _ _ (accepted_outputs _ _ _ _ _ _ _ _ _ Ha)).
Qed.

(** C38: The scripts of the spent outputs are never run.  The checks of an accepted block are
    executed after the records have been updated, when the cells they point to have been
    emptied: every signature script of the block was verified against the empty script, and
    against nothing else. *)
Theorem scripts_not_checked s b pindex just_check c st t c' : pool_runs run_pool -> block_ready s b -> presents c s ->
  expensive_at deferred_below params (ci_nHeight pindex) = true ->
  connect_block skip deferred_below params run_pool b pindex just_check c = Some ((Ok (Some st), t), c') ->
  map sc_script_sig (t_checks st) = spending_scripts (vtx b) /\
  Forall (fun sc => domain_consensus_verify_script (tx_make_sig_checker (sc_tsc sc)) (sc_branch_id sc) (sc_flags sc)
                      (sc_script_sig sc) [] = Ok tt /\ load_check sc c' = Some (([], sc), c')) (t_checks st).
Proof.
  intros Hpool Hready Hp He E. destruct (connect_accepted _ _ _ _ _ _ _ _ Hpool Hready Hp E) as (s' & Ej & Hp').
  destruct (judge_block_accepted _ _ _ _ _ _ Ej) as (_ & _ & _ & s1 & E1 & E2 & Es'). rewrite He in E1. destruct Hready as (Htx & _ & Hno).
  split; [by rewrite (judge_txs_sigs _ _ _ _ _ _ _ Htx E1)|].
  assert (Forall (emptied s1) (t_checks st)) as Hem 
    by (eapply (judge_txs_cells _ _ _ _ _ (with_best_block s (view_best s))); [exact Htx|exact Hno| |exact E1]; by split).
  apply judge_end_ok in E2 as [E2 _]. apply Forall_forall. intros sc Hsc. pose proof (proj1 (Forall_forall _ _) Hem sc Hsc) as Hsce. split.
  - rewrite forallb_forall in E2. specialize (E2 ([], sc)). unfold script_check_fn in E2.
    destruct (domain_consensus_verify_script _ _ _ _ []) as [[]|e]; [done|]. exfalso. discriminate E2.
    apply list_elem_of_In, list_elem_of_omap. exists sc. split; [done|]. by apply emptied_loaded.
  - assert (emptied s' sc) as Hsce' by (destruct just_check; by subst s').
    destruct (runs_load sc s' c' (emptied_loadable _ _ Hsce') Hp') as (x & c2 & El & Ex & _).
    rewrite (emptied_loaded _ _ Hsce') in Ex. injection Ex as <-. rewrite El. f_equal. f_equal.
    by apply (load_check_pure sc c' _ _ El).
Qed.

End Theorems.

(** ** A concrete block

    The spent output demands a signature for a key hash; the input only pushes a one. *)

Definition locked_record : coins :=
  {| is_coinbase := false; coins_vout := [{| value := 5000; script_pub_key := p2pkh_script (replicate 20 9) |}];
     coins_height := 7; coins_version := 1 |}.

Definition locked_backing : coins_view := {|
  cv_get_coins := fun t => if decide (t = sample_txid 1) then Some locked_record else None;
  cv_get_best_block := None;
|}.

Definition locked_cache : coins_view_cache := coins_view_cache_init locked_backing.

Definition locked_state : view_state :=
  {| vs_base := locked_backing; vs_best := uint256_null; vs_commitment := utxo_commitment_init; vs_cached := [];
     vs_records := fun t => if decide (t = sample_txid 1) then locked_record else coins_init |}.

Lemma locked_presents : presents locked_cache locked_state.
Proof.
  constructor; [|done..|]; [|intros t; cbn; unfold record_of; cbn; by case_decide].
  constructor; [constructor; [apply nil_ok|done]| |intros t e E; done].
  intros t r. cbn. case_decide; [|done]. by intros [= <-].
Qed.

Definition thief : transaction :=
  spend_of [{| prevout := {| op_hash := sample_txid 1; op_n := 0 |}; script_sig := [0x51]; sequence := 0 |}]
    [{| value := 4000; script_pub_key := [0x51] |}] (sample_txid 3).

Definition theft_block : block := Eval vm_compute in
  {| header := {| nVersion := 4; hashPrevBlock := replicate 32 1;
                  hashMerkleRoot := fst (@compute_merkle_root_mutated checksum_hashes [sample_txid 2; sample_txid 3]);
                  hashFinalSaplingRoot := replicate 32 3; nTime := 1600000000; nBits := 0x1f07ffff;
                  nNonce := replicate 32 4; nSolution := [9; 8; 7] |};
     vtx := [block_coinbase; thief] |}.

Definition theft_index : connect_index :=
  {| ci_nHeight := 200; ci_phashBlock := None; ci_pprev := None;
     ci_totals := {| nSproutValue := None; nSaplingValue := 0; nChainSproutValue := None; nChainSaplingValue := None |} |}.

(** A pool that returns the verdicts of file Workpool *)
Definition sample_pool : option (list (script * script_check) -> bool) :=
  Some (forallb (@script_check_fn (fun _ => true) checksum_hashes toy_curve)).

Lemma sample_pool_runs : @pool_runs (fun _ => true) checksum_hashes toy_curve sample_pool.
Proof. intros run batch [= <-]. by apply verdict_iff. Qed.

Abbreviation connect_theft :=
  (@connect_block (fun _ => true) checksum_hashes toy_curve sample_registry 1600000000 false (-1) sample_chain_params sample_pool
    theft_block theft_index false locked_cache).

Lemma theft_connects : is_Some (r ← connect_theft; match fst (fst r) with Ok (Some st) => Some st | _ => None end).
Proof. vm_compute. eauto. Qed.

Lemma connect_theft_some : exists st t c', connect_theft = Some ((Ok (Some st), t), c').
Proof.
  destruct theft_connects as [st Hst]. destruct connect_theft as [[[[[st'|]|e] t] c']|]; cbn in Hst; try done. eauto.
Qed.

Lemma thief_ready : tx_ready thief.
Proof.
  split; [|by apply sample_txid_ok]. unfold tx_ok, thief, spend_of. cbn -[fixed zlen bytes_ok].
  assert (fixed 32 (sample_txid 1)) by by apply sample_txid_ok. split_and!; try done.
  - split; [done|]. apply Forall_singleton. split_and!; [|split; [done|compute_decide]|done]. split; [done|done].
  - split; [done|]. apply Forall_singleton. split; [done|]. split; [done|compute_decide].
Qed.

Lemma block_coinbase_ready : tx_ready block_coinbase.
Proof. split; [|by apply sample_txid_ok]. apply sample_coinbase_ok. Qed.

Lemma theft_txs_ready : Forall tx_ready (vtx theft_block).
Proof. apply Forall_cons. split; [apply block_coinbase_ready|]. apply Forall_singleton, thief_ready. Qed.

Lemma locked_capped : capped (vs_records locked_state).
Proof. intros t. cbn. by case_decide. Qed.

Lemma theft_applies : block_applies (vs_records locked_state) (vtx theft_block).
Proof.
  split; [apply (bool_decide_unpack _); by vm_compute|]. apply Forall_cons. split; [|apply Forall_singleton].
  - constructor; [by apply sample_txid_ok|done|done].
  - constructor; [by apply sample_txid_ok| |done]. intros _. apply Forall_singleton. split; [by apply sample_txid_ok|done].
Qed.

Lemma theft_ready : block_ready locked_state theft_block.
Proof. split_and!; [apply theft_txs_ready|apply locked_capped|apply applies_no_overwrites, theft_applies]. Qed.


Lemma connect_block_sound_witness : exists st t c' fees f', connect_theft = Some ((Ok (Some st), t), c') /\
  @txs_valid (fun _ => true) 200 (vs_records locked_state) (vtx theft_block) fees f' (t_undo st).
Proof.
  destruct connect_theft_some as (st & t & c' & E).
  destruct (@connect_block_sound (fun _ => true) (fun _ => eq_refl) checksum_hashes toy_curve sample_registry 1600000000 false (-1)
    sample_chain_params sample_pool locked_state theft_block theft_index locked_cache st t c' sample_pool_runs theft_ready locked_presents E)
    as (fees & f' & Hv & _). exists st, t, c', fees, f'. split; [exact E|exact Hv].
Defined.

Definition locked_utxo : utxo := {| u_txid := sample_txid 1; u_vout := 0; u_value := 5000; u_height := 7 |}.

Lemma locked_lists : lists [locked_utxo] (vs_records locked_state).
Proof.
  split; [apply NoDup_singleton|]. intros [t n v h]. rewrite list_elem_of_singleton. unfold unspent, locked_utxo. cbn. split.
  - intros [= -> -> -> ->]. split; [done|]. by eexists.
  - intros (Hn & o & Ho & -> & ->). case_decide; [subst t|done]. unfold output_of in Ho. cbn in Ho.
    destruct (Z.to_nat n) eqn:En; [|done]. cbn in Ho. injection Ho as <-. f_equal. lia.
Qed.

Lemma connect_conserves_value_witness : exists st t c' us', connect_theft = Some ((Ok (Some st), t), c') /\
  lists us' (record_of c') /\ total us' <= 5000 + get_block_subsidy (consensus sample_chain_params) 200.
Proof.
  destruct connect_theft_some as (st & t & c' & E).
  destruct (@connect_conserves_value (fun _ => true) (fun _ => eq_refl) checksum_hashes toy_curve sample_registry 1600000000 false (-1)
    sample_chain_params sample_pool locked_state theft_block theft_index locked_cache st t c' [locked_utxo] sample_pool_runs theft_ready
    locked_presents E locked_lists) as (us' & Hus' & Ht). exists st, t, c', us'. split; [exact E|]. split; [exact Hus'|].
  change (total [locked_utxo]) with 5000 in Ht. change (sum_Z (map net_unshielded (vtx theft_block))) with 0 in Ht.
  rewrite Z.add_0_r in Ht. exact Ht.
Defined.

Lemma locked_heights : heights_ok (vs_records locked_state).
Proof. intros x. cbn [vs_records locked_state]. case_decide; intros Hp; [cbn; lia|discriminate Hp]. Qed.


Lemma scripts_not_checked_witness : exists st t c', connect_theft = Some ((Ok (Some st), t), c') /\
  map sc_script_sig (t_checks st) = [[0x51]] /\
  output_of (record_of locked_cache (sample_txid 1)) 0 = Some {| value := 5000; script_pub_key := p2pkh_script (replicate 20 9) |}.
Proof.
  destruct connect_theft_some as (st & t & c' & E).
  destruct (@scripts_not_checked (fun _ => true) (fun _ => eq_refl) checksum_hashes toy_curve sample_registry 1600000000 false (-1)
    sample_chain_params sample_pool locked_state theft_block theft_index false locked_cache st t c' sample_pool_runs theft_ready
    locked_presents eq_refl E) as [Hs _]. exists st, t, c'. split; [exact E|]. split; [exact Hs|]. vm_compute. reflexivity.
Defined.

(** A block with a transaction that shields value *)
Definition deposit_block : block :=
  {| header := header theft_block;
     vtx := [{| overwintered := true; version := 4; version_group_id := SAPLING_VERSION_GROUP_ID; vin := [sample_input]; vout := [];
                lock_time := 0; expiry_height := 0; value_balance := -4000; v_shielded_spend := [];
                v_shielded_output := []; v_joinsplit := []; joinsplit_pubkey := uint256_null;
                joinsplit_sig := replicate 64 0; binding_sig := replicate 64 0; tx_hash := sample_txid 3 |}] |}.

Definition deposit_totals : pool_totals :=
  {| nSproutValue := Some 0; nSaplingValue := 0; nChainSproutValue := Some 0; nChainSaplingValue := Some 0 |}.

Definition deposit_index : connect_index :=
  {| ci_nHeight := 500000; ci_phashBlock := None; ci_pprev := Some deposit_totals; ci_totals := deposit_totals |}.

