(* ===== verification/Mining.v ===== *)
(** * Block production

    Models domain/consensus/src/coinbase.c (the coinbase), lib/mining/src/miner.c (the template,
    the extra nonce and the search for a proof of work) and [transaction_alloc] and
    [transaction_copy] of lib/primitives/src/transaction.c.  The template is built against the
    coins cache of file CoinsView; a result [None] inside the monad is the NULL of the code.  The
    static variable of [increment_extra_nonce] is passed and returned.

    The theorems: a block of the RPC call [generate] proves its work and extends the tip
    ([generated_block_works]); the search over the nonces is sound and exhaustive
    ([mine_block_pow_exact]); the coinbase claims exactly the reward that file ConnectBlock allows
    ([generated_reward_allowed]); but the block is refused once Overwinter or Sapling is active
    ([generated_block_refused]), and below height 2^15 ([generated_height_push]). *)

From stdpp Require Import gmap fin_maps functions strings sets.
From S2P Require Import Prelude Hash Arith256 Serialize Script ScriptInterp Transaction Params TxCheck Pow Block Merkle CoinsMath BlockCheck CoinsView Blake2b Equihash EquihashSolve UpdateCoins TxVerifier ConnectBlock.

(** ** The coinbase: coinbase.c *)

Definition DCB_HEIGHT_MAX : Z := 0x00FFFFFF.

Inductive coinbase_err :=
  | COINBASE_NEG_HEIGHT | COINBASE_HEIGHT_RANGE | COINBASE_NEG_FEES | COINBASE_NEG_SUBSIDY | COINBASE_NOT_PREALLOC.

Definition dcb_write_height_prefix (n_height : Z) : bytes :=
  [0x03; n_height .& 0xff; (n_height ≫ 8) .& 0xff; (n_height ≫ 16) .& 0xff].

Definition domain_consensus_coinbase_script_sig_placeholder (n_height : Z) : result coinbase_err script :=
  ensure (negb (n_height <? 0)) COINBASE_NEG_HEIGHT;;
  ensure (negb (n_height >? DCB_HEIGHT_MAX)) COINBASE_HEIGHT_RANGE;;
  mret (dcb_write_height_prefix n_height ++ [OP_0]).

(** The [while] loop on the length of the nonce *)
Fixpoint nonce_length (en_bytes : bytes) (en_len : nat) : nat :=
  match en_len with
  | S (S _ as shorter) => if nth shorter en_bytes 0 =? 0 then nonce_length en_bytes shorter else en_len
  | _ => en_len
  end.

Definition domain_consensus_coinbase_script_sig_with_extra_nonce (n_height extra_nonce : Z) : result coinbase_err script :=
  ensure (negb (n_height <? 0)) COINBASE_NEG_HEIGHT;;
  ensure (negb (n_height >? DCB_HEIGHT_MAX)) COINBASE_HEIGHT_RANGE;;
  let en_bytes := [extra_nonce .& 0xff; (extra_nonce ≫ 8) .& 0xff; (extra_nonce ≫ 16) .& 0xff; (extra_nonce ≫ 24) .& 0xff] in
  let en_len := nonce_length en_bytes 4 in
  mret (dcb_write_height_prefix n_height ++ [Z.of_nat en_len] ++ take en_len en_bytes).

Record coinbase_inputs := CoinbaseInputs {
  in_height : Z;
  in_subsidy : Z;
  in_total_fees : Z;
  in_miner_script : script;
}.

Definition with_ends (tx : transaction) (ins : list tx_in) (outs : list tx_out) : transaction := {|
  overwintered := overwintered tx; version := version tx; version_group_id := version_group_id tx;
  vin := ins; vout := outs; lock_time := lock_time tx; expiry_height := expiry_height tx;
  value_balance := value_balance tx; v_shielded_spend := v_shielded_spend tx;
  v_shielded_output := v_shielded_output tx; v_joinsplit := v_joinsplit tx;
  joinsplit_pubkey := joinsplit_pubkey tx; joinsplit_sig := joinsplit_sig tx;
  binding_sig := binding_sig tx; tx_hash := tx_hash tx |}.

Definition with_version (tx : transaction) (v group expiry : Z) : transaction := {|
  overwintered := overwintered tx; version := v; version_group_id := group;
  vin := vin tx; vout := vout tx; lock_time := lock_time tx; expiry_height := expiry;
  value_balance := value_balance tx; v_shielded_spend := v_shielded_spend tx;
  v_shielded_output := v_shielded_output tx; v_joinsplit := v_joinsplit tx;
  joinsplit_pubkey := joinsplit_pubkey tx; joinsplit_sig := joinsplit_sig tx;
  binding_sig := binding_sig tx; tx_hash := tx_hash tx |}.

Section Coinbase.
Context `{Allocator} `{HashFunctions}.

Definition domain_consensus_coinbase_build (params : consensus_params) (inp : coinbase_inputs) (out_tx : transaction)
    : result coinbase_err transaction :=
  ensure (negb (in_height inp <? 0)) COINBASE_NEG_HEIGHT;;
  ensure (negb (in_height inp >? DCB_HEIGHT_MAX)) COINBASE_HEIGHT_RANGE;;
  ensure (negb (in_total_fees inp <? 0)) COINBASE_NEG_FEES;;
  ensure (negb (in_subsidy inp <? 0)) COINBASE_NEG_SUBSIDY;;
  match vin out_tx, vout out_tx with
  | [i], [_] =>
      sig ← domain_consensus_coinbase_script_sig_placeholder (in_height inp);
      let tx := with_ends out_tx
        [{| prevout := {| op_hash := uint256_null; op_n := 0xffffffff |}; script_sig := sig; sequence := sequence i |}]
        [{| value := i64 (in_subsidy inp + in_total_fees inp); script_pub_key := in_miner_script inp |}] in
      let '(v, group) :=
        if consensus_network_upgrade_active params (in_height inp) UPGRADE_SAPLING
        then (SAPLING_TX_VERSION, SAPLING_VERSION_GROUP_ID)
        else if consensus_network_upgrade_active params (in_height inp) UPGRADE_OVERWINTER
        then (OVERWINTER_TX_VERSION, OVERWINTER_VERSION_GROUP_ID)
        else (version tx, version_group_id tx) in
      mret (transaction_compute_hash (with_version tx v group 0))
  | _, _ => Err COINBASE_NOT_PREALLOC
  end.
End Coinbase.

(** ** Transactions: transaction.c *)

Definition SIZEOF_TX_IN : Z := 10056.
Definition SIZEOF_SPEND : Z := 384.
Definition SIZEOF_OUTPUT : Z := 948.
Definition SIZEOF_JOINSPLIT : Z := 1808.
Definition SIZEOF_TRANSACTION : Z := 304.
Definition SIZEOF_BLOCK_TEMPLATE : Z := 1536.

(** [transaction_free]: the arrays go. *)
Definition transaction_free (tx : transaction) : transaction := {|
  overwintered := overwintered tx; version := version tx; version_group_id := version_group_id tx;
  vin := []; vout := []; lock_time := lock_time tx; expiry_height := expiry_height tx;
  value_balance := value_balance tx; v_shielded_spend := []; v_shielded_output := []; v_joinsplit := [];
  joinsplit_pubkey := joinsplit_pubkey tx; joinsplit_sig := joinsplit_sig tx;
  binding_sig := binding_sig tx; tx_hash := tx_hash tx |}.

Section Alloc.
Context `{Allocator}.

(** [calloc] of an array that may be empty *)
Definition array_allocated (count size : Z) : bool := (count =? 0) || alloc_succeeds (count * size).

(** Whether the arrays could be allocated, and the transaction; those of a refused call are left
    as they are when it is out of range and are emptied without memory. *)
Definition transaction_alloc (tx : transaction) (num_vin num_vout : Z) : bool * transaction :=
  if (num_vin >? MAX_TX_INPUTS) || (num_vout >? MAX_TX_OUTPUTS) then (false, tx)
  else if negb (array_allocated num_vin SIZEOF_TX_IN && array_allocated num_vout SIZEOF_TX_OUT)
  then (false, with_ends tx [] [])
  else (true, with_ends tx (replicate (Z.to_nat num_vin) tx_in_init) (replicate (Z.to_nat num_vout) tx_out_set_null)).

(** The result and the destination; after a failure its arrays are empty and the fields that are
    copied last are those of [transaction_init]. *)
Definition transaction_copy (src : transaction) : bool * transaction :=
  let scalars := {|
    overwintered := overwintered src; version := version src; version_group_id := version_group_id src;
    vin := []; vout := []; lock_time := lock_time src; expiry_height := expiry_height src;
    value_balance := value_balance src; v_shielded_spend := []; v_shielded_output := []; v_joinsplit := [];
    joinsplit_pubkey := uint256_null; joinsplit_sig := replicate 64 0; binding_sig := replicate 64 0;
    tx_hash := tx_hash src |} in
  let '(ok, dst) := transaction_alloc scalars (zlen (vin src)) (zlen (vout src)) in
  if negb ok then (false, transaction_free dst)
  else if negb (array_allocated (zlen (v_shielded_spend src)) SIZEOF_SPEND &&
                array_allocated (zlen (v_shielded_output src)) SIZEOF_OUTPUT &&
                array_allocated (zlen (v_joinsplit src)) SIZEOF_JOINSPLIT)
  then (false, transaction_free dst)
  else (true, src).
End Alloc.

(** ** The template: miner.c *)

Record block_template := BlockTemplate {
  bt_block : block;
  tx_fees : list Z;
  tx_sig_ops : list Z;
}.

Definition with_root (h : block_header) (root : uint256_t) : block_header := {|
  nVersion := nVersion h; hashPrevBlock := hashPrevBlock h; hashMerkleRoot := root;
  hashFinalSaplingRoot := hashFinalSaplingRoot h; nTime := nTime h; nBits := nBits h; nNonce := nNonce h;
  nSolution := nSolution h |}.

Section Template.
Context `{Allocator} `{HashFunctions} `{Clock}.

(** Without memory the root stays what it was. *)
Definition block_compute_merkle_root (b : block) : block :=
  if alloc_succeeds (zlen (vtx b) * 32)
  then {| header := with_root (header b) (compute_merkle_root (map tx_hash (vtx b))); vtx := vtx b |}
  else b.

(** What the loop over the pool has gathered, in the order of the block *)
Record packing := Packing {
  pk_txs : list transaction;
  pk_fees : list Z;
  pk_ops : list Z;
  total_fees : Z;
  blk_sig_ops : Z;
  block_size : Z;
}.

Definition pack_tx (pk : packing) (tx : transaction) : view_m packing :=
  let tx_size := 250 in
  if transaction_is_coinbase tx then mret pk
  else if u64 (block_size pk + tx_size) >=? MAX_BLOCK_SIZE then mret pk
  else
    let tx_sigops := u32 (get_legacy_sig_op_count tx SCRIPT_VERIFY_P2SH) in
    if u32 (blk_sig_ops pk + tx_sigops) >=? MAX_BLOCK_SIGOPS then mret pk
    else
      have ← coins_view_cache_have_inputs tx;
      if negb have then mret pk
      else
        value_in ← coins_view_cache_get_value_in tx;
        let tx_fee := i64 (value_in - transaction_get_value_out tx) in
        mret {| pk_txs := pk_txs pk ++ [snd (transaction_copy tx)]; pk_fees := pk_fees pk ++ [tx_fee];
                pk_ops := pk_ops pk ++ [tx_sigops]; total_fees := i64 (total_fees pk + tx_fee);
                blk_sig_ops := u32 (blk_sig_ops pk + tx_sigops); block_size := u64 (block_size pk + tx_size) |}.

Fixpoint pack_txs (pk : packing) (pool : list transaction) : view_m packing :=
  match pool with
  | [] => mret pk
  | tx :: rest => pk ← pack_tx pk tx; pack_txs pk rest
  end.

(** The header of the template, with the coinbase and the gathered transactions *)
Definition template_block (prev_hash : uint256_t) (time bits : Z) (txs : list transaction) : block :=
  block_compute_merkle_root {|
    header := {| nVersion := 4; hashPrevBlock := prev_hash; hashMerkleRoot := uint256_null;
                 hashFinalSaplingRoot := uint256_null; nTime := time; nBits := bits; nNonce := uint256_null; nSolution := [] |};
    vtx := txs |}.

(** The part after the loop; the outer [None] is undefined behaviour, the inner one the result NULL. *)
Definition finish_template (coinbase_script : script) (chain : list block_index) (height : Z) (tip_hash : option uint256_t)
    (params : chain_params) (pk : packing) : option (option block_template) :=
  let alloc := transaction_alloc transaction_init 1 1 in
  if negb (fst alloc) then Some None
  else
    let inp := {| in_height := height; in_subsidy := get_block_subsidy (consensus params) height;
                  in_total_fees := total_fees pk; in_miner_script := coinbase_script |} in
    match domain_consensus_coinbase_build (consensus params) inp (snd alloc) with
    | Err _ => Some None
    | Ok coinbase =>
        match tip_hash with
        | None => Some None
        | Some prev_hash =>
            let time := u32 GetAdjustedTime in
            bits ← GetNextWorkRequired chain (Some time) (consensus params);
            Some (Some {| bt_block := template_block prev_hash time bits (coinbase :: pk_txs pk);
                          tx_fees := i64 (- total_fees pk) :: pk_fees pk; tx_sig_ops := 0 :: pk_ops pk |})
        end
    end.

Definition view_of {A} (o : option A) : view_m A :=
  fun c => match o with Some a => Some (a, c) | None => None end.

Definition no_packing : packing :=
  {| pk_txs := []; pk_fees := []; pk_ops := []; total_fees := 0; blk_sig_ops := 100; block_size := 1000 |}.

Definition template_allocated (max_txs : Z) : bool :=
  alloc_succeeds SIZEOF_BLOCK_TEMPLATE && alloc_succeeds (max_txs * SIZEOF_TRANSACTION) &&
  alloc_succeeds (max_txs * 8) && alloc_succeeds (max_txs * 4).

(** [chain] is the tip and its ancestors, [tip_hash] the [phashBlock] of the tip and [pool] the
    transactions of the mempool, in order. *)
Definition create_new_block (coinbase_script : script) (chain : list block_index) (tip_hash : option uint256_t)
    (pool : list transaction) (params : chain_params) : view_m (option block_template) :=
  match chain with
  | [] => mret None
  | pindex_prev :: _ =>
      if negb (template_allocated (1 + zlen pool)) then mret None
      else
        pk ← pack_txs no_packing pool;
        view_of (finish_template coinbase_script chain (bi_nHeight pindex_prev + 1) tip_hash params pk)
  end.

(** The block, the nonce and the hash of the static variable.  [None]: the coinbase has no input. *)
Definition increment_extra_nonce (last_prev : uint256_t) (b : block) (pindex_prev : block_index) (extra_nonce : Z)
    : option (uint256_t * block * Z) :=
  let fresh := negb (uint256_cmp last_prev (hashPrevBlock (header b)) =? 0) in
  let last_prev := if fresh then hashPrevBlock (header b) else last_prev in
  let extra_nonce := u32 ((if fresh then 0 else extra_nonce) + 1) in
  match vtx b with
  | cb :: rest =>
      match vin cb with
      | i :: ins =>
          match domain_consensus_coinbase_script_sig_with_extra_nonce (bi_nHeight pindex_prev + 1) extra_nonce with
          | Err _ => Some (last_prev, b, extra_nonce)
          | Ok sig =>
              let cb := with_ends cb ({| prevout := prevout i; script_sig := sig; sequence := sequence i |} :: ins) (vout cb) in
              Some (last_prev, block_compute_merkle_root {| header := header b; vtx := transaction_compute_hash cb :: rest |},
                    extra_nonce)
          end
      | [] => None
      end
  | [] => None
  end.
End Template.

(** ** The proof of work: miner.c *)

(** The state of the miner, fed field by field *)
Definition miner_build_eh_state (h : block_header) (ep : equihash_params) : result blake2b_err blake2b_ctx :=
  state ← equihash_initialise_state ep;
  let le v := [v .& 0xff; (v ≫ 8) .& 0xff; (v ≫ 16) .& 0xff; (v ≫ 24) .& 0xff] in
  let state := blake2b_update state (le (u32 (nVersion h))) in
  let state := blake2b_update state (hashPrevBlock h) in
  let state := blake2b_update state (hashMerkleRoot h) in
  let state := blake2b_update state (hashFinalSaplingRoot h) in
  let state := blake2b_update state (le (nTime h)) in
  let state := blake2b_update state (le (nBits h)) in
  mret (blake2b_update state (nNonce h)).

Definition with_nonce (h : block_header) (nonce : uint256_t) : block_header := {|
  nVersion := nVersion h; hashPrevBlock := hashPrevBlock h; hashMerkleRoot := hashMerkleRoot h;
  hashFinalSaplingRoot := hashFinalSaplingRoot h; nTime := nTime h; nBits := nBits h; nNonce := nonce;
  nSolution := nSolution h |}.

Definition with_solution (h : block_header) (soln : bytes) : block_header := {|
  nVersion := nVersion h; hashPrevBlock := hashPrevBlock h; hashMerkleRoot := hashMerkleRoot h;
  hashFinalSaplingRoot := hashFinalSaplingRoot h; nTime := nTime h; nBits := nBits h; nNonce := nNonce h;
  nSolution := soln |}.

(** The nonce as a little-endian counter *)
Fixpoint advance_nonce (data : bytes) : bytes :=
  match data with
  | [] => []
  | b :: rest => let b := u8 (b + 1) in if negb (b =? 0) then b :: rest else b :: advance_nonce rest
  end.

Section Search.
Context `{Allocator} `{HashFunctions} (qsort_rows : nat -> list eh_row -> list eh_row).

(** One attempt: whether the header is done, and the header.  [None]: undefined behaviour *)
Definition attempt_nonce (ep : equihash_params) (target : arith_uint256) (h : block_header) : option (bool * block_header) :=
  match miner_build_eh_state h ep with
  | Err _ => None
  | Ok state =>
      found ← equihash_basic_solve qsort_rows ep (Z.to_nat MAX_SOLUTION_SIZE) state;
      match found with
      | None => Some (false, h)
      | Some soln =>
          let h := with_solution h (take (solution_width ep) soln) in
          Some (arith_uint256_compare (uint256_to_arith (block_header_get_hash h)) target <=? 0, h)
      end
  end.

Fixpoint attempts (ep : equihash_params) (target : arith_uint256) (max_nonces : nat) (h : block_header)
    : option (bool * block_header) :=
  match max_nonces with
  | O => Some (false, h)
  | S more =>
      '(done, h) ← attempt_nonce ep target h;
      if done : bool then Some (true, h) else attempts ep target more (with_nonce h (advance_nonce (nNonce h)))
  end.

(** The parameters of the height; dividing by [N] = 0 is undefined. *)
Definition mine_block_pow (h : block_header) (height : Z) (params : chain_params) (max_nonces : Z)
    : option (bool * block_header) :=
  let n := chain_params_equihash_n params height in
  let k := chain_params_equihash_k params height in
  if n =? 0 then None
  else
    let ep := equihash_params_init (Z.to_nat n) (Z.to_nat k) in
    if Z.of_nat (solution_width ep) >? MAX_SOLUTION_SIZE then Some (false, h)
    else
      let r := arith_uint256_set_compact (nBits h) in
      if cr_negative r || cr_overflow r || arith_uint256_is_zero (cr_value r) then Some (false, h)
      else
        let max_nonces := if max_nonces =? 0 then 1 ≪ 20 else max_nonces in
        attempts ep (cr_value r) (Z.to_nat max_nonces) (with_nonce h (replicate 32 0)).

(** ** One round of the RPC call [generate]: mining_controller.c *)

(** The block to submit, and the hash of the static variable; no block: the loop ends. *)
Definition generate_round `{Clock} (coinbase_script : script) (chain : list block_index) (tip_hash : option uint256_t)
    (pool : list transaction) (params : chain_params) (last_prev : uint256_t) : view_m (uint256_t * option block) :=
  tmpl ← create_new_block coinbase_script chain tip_hash pool params;
  match tmpl, chain with
  | Some bt, tip :: _ =>
      view_of ('(last_prev, b, _) ← increment_extra_nonce last_prev (bt_block bt) tip 0;
               '(found, h) ← mine_block_pow (header b) (bi_nHeight tip + 1) params 0;
               Some (last_prev, if found : bool then Some {| header := h; vtx := vtx b |} else None))
  | _, _ => mret (last_prev, None)
  end.
End Search.

(** ** The scripts of the coinbase *)

Lemma height_prefix_value h : dcb_write_height_prefix h = 3 :: le_encode 3 h.
Proof. unfold dcb_write_height_prefix. cbn [le_encode]. unfold uwrap. rewrite !land_ff, !Z.shiftr_shiftr by lia. done. Qed.

Lemma height_prefix_inj h h' : 0 <= h <= DCB_HEIGHT_MAX -> 0 <= h' <= DCB_HEIGHT_MAX ->
  dcb_write_height_prefix h = dcb_write_height_prefix h' -> h = h'.
Proof.
  intros Hh Hh'. rewrite !height_prefix_value. intros E%(f_equal tail)%(f_equal le_decode). cbn [tail] in E.
  rewrite !le_decode_encode, !Z.mod_small in E by (unfold DCB_HEIGHT_MAX in *; lia). done.
Qed.

Lemma nonce_length_S bs k :
  nonce_length bs (S (S k)) = if nth (S k) bs 0 =? 0 then nonce_length bs (S k) else S (S k).
Proof. done. Qed.

Lemma nonce_length_value bs k : (1 <= k <= length bs)%nat ->
  (1 <= nonce_length bs k <= k)%nat /\ le_decode (take (nonce_length bs k) bs) = le_decode (take k bs).
Proof.
  induction k as [|k IH]; [lia|]. intros Hk. destruct k as [|k]; [cbn [nonce_length]; split; [lia|done]|].
  rewrite nonce_length_S. destruct (Z.eqb_spec (nth (S k) bs 0) 0) as [E0|]; [|split; [lia|done]].
  destruct IH as [IH1 IH2]; [lia|]. split; [lia|]. rewrite IH2.
  rewrite (take_S_r bs (S k) 0), le_decode_app; [cbn; lia|]. rewrite <- E0.
  destruct (nth_lookup_or_length bs (S k) 0); [done|lia].
Qed.

(** The script with the nonce: the height, then the nonce in as many bytes as it needs *)
Lemma nonce_script_shape h n sig : is_u 32 n -> domain_consensus_coinbase_script_sig_with_extra_nonce h n = Ok sig ->
  0 <= h <= DCB_HEIGHT_MAX /\ exists bs, sig = dcb_write_height_prefix h ++ zlen bs :: bs /\ 1 <= zlen bs <= 4 /\ le_decode bs = n.
Proof.
  intros Hn. unfold domain_consensus_coinbase_script_sig_with_extra_nonce.
  intros [H0%ensure_ok [H1%ensure_ok E]%bind_unit_ok]%bind_unit_ok. cbv zeta in E.
  change [n .& 0xff; (n ≫ 8) .& 0xff; (n ≫ 16) .& 0xff; (n ≫ 24) .& 0xff] with (le32_into n) in E. rewrite le32_bytes in E.
  assert (forall (a b : script), @Ok coinbase_err _ a = Ok b -> a = b) as Hok by (by intros a b [= ->]).
  apply Hok in E as <-. split; [lia|]. destruct (nonce_length_value (le_encode 4 n) 4) as [Hl Hv]; [rewrite le_encode_length; lia|].
  exists (take (nonce_length (le_encode 4 n) 4) (le_encode 4 n)). unfold zlen. rewrite length_take, le_encode_length, Nat.min_l by lia.
  split_and!; [done|lia|lia|]. rewrite Hv, take_ge by (rewrite le_encode_length; lia).
  rewrite le_decode_encode, Z.mod_small; [done|]. unfold is_u in Hn. lia.
Qed.

Lemma top_bit b : 0 <= b < 256 -> (b .& 0x80 =? 0) = negb (128 <=? b).
Proof. intros Hb. by rewrite <- byte_land_80, negb_involutive. Qed.

(** The push that BIP34 expects has three bytes exactly for the heights from 2^15 to 2^23. *)
Lemma height_push_shape h : 0 < h <= DCB_HEIGHT_MAX ->
  if (2 ^ 15 <=? h) && (h <? 2 ^ 23) then height_push h = dcb_write_height_prefix h
  else exists n rest, height_push h = n :: rest /\ n <> 3.
Proof.
  intros Hh. unfold DCB_HEIGHT_MAX in Hh. unfold height_push, dcb_write_height_prefix. cbn [height_bytes].
  rewrite !Z.shiftr_shiftr, !land_ff, !shiftr_div by lia.
  change (2 ^ (8 + 8)) with 65536. change (2 ^ (8 + 8 + 8)) with 16777216.
  change (2 ^ 8) with 256. change (2 ^ 16) with 65536. change (2 ^ 15) with 32768. change (2 ^ 23) with 8388608.
  replace (h >? 0) with true by lia. pose proof (Z.mod_pos_bound h 256 ltac:(lia)).
  pose proof (Z.div_mod h 256 ltac:(lia)). pose proof (Z.div_mod h 65536 ltac:(lia)). pose proof (Z.mod_pos_bound h 65536 ltac:(lia)).
  pose proof (Z.mod_pos_bound (h / 256) 256 ltac:(lia)). pose proof (Z.mod_pos_bound (h / 65536) 256 ltac:(lia)).
  replace (h / 16777216 >? 0) with false by (rewrite Z.div_small; lia).
  destruct (Z.gtb_spec (h / 256) 0).
  2: { cbn [last]. rewrite top_bit by done. replace (32768 <=? h) with false by lia. cbn [andb].
       destruct (negb _); eexists _, _; split; [reflexivity|done|reflexivity|done]. }
  destruct (Z.gtb_spec (h / 65536) 0).
  - rewrite (Z.mod_small (h / 65536)) in * by lia. cbn [last]. rewrite top_bit by lia.
    destruct (Z.leb_spec 128 (h / 65536)); cbn [negb].
    + replace (h <? 8388608) with false by lia. rewrite andb_false_r. eexists _, _. split; [reflexivity|done].
    + replace (32768 <=? h) with true by lia. by replace (h <? 8388608) with true by lia.
  - rewrite (Z.mod_small (h / 256)) in * by lia. cbn [last]. rewrite top_bit by lia.
    destruct (Z.leb_spec 128 (h / 256)); cbn [negb].
    + replace (32768 <=? h) with true by lia. replace (h <? 8388608) with true by lia. cbn [andb].
      replace (h / 65536) with 0 by lia. done.
    + replace (32768 <=? h) with false by lia. eexists _, _. split; [reflexivity|done].
Qed.

(** A script that starts with the height of the template *)
Lemma bip34_of_prefix cb i rest h : vin cb = [i] -> script_sig i = dcb_write_height_prefix h ++ rest -> 0 < h <= DCB_HEIGHT_MAX ->
  bip34_check_coinbase_height cb h = (2 ^ 15 <=? h) && (h <? 2 ^ 23).
Proof.
  intros Ev Es Hh. unfold bip34_check_coinbase_height. rewrite Ev, Es. pose proof (height_push_shape h Hh) as Hs.
  replace (h <=? 0) with false by lia. unfold dcb_write_height_prefix at 1. cbn [app].
  replace ((h >=? 1) && (h <=? 16) && (3 =? 80 + h)) with false by lia.
  change (3 :: _) with (dcb_write_height_prefix h ++ rest).
  destruct (_ && _).
  - rewrite Hs. rewrite zlen_app. replace (_ <? _) with false by (unfold zlen; lia). apply bool_decide_eq_true.
    by rewrite take_app_length.
  - destruct Hs as (n & r & -> & Hn). case_if; [done|]. apply bool_decide_eq_false. cbn. congruence.
Qed.

(** ** The coinbase *)

Record coinbase_built `{Allocator} `{HashFunctions} (params : consensus_params) (inp : coinbase_inputs) (out_tx cb : transaction)
    : Prop := {
  built_height : 0 <= in_height inp <= DCB_HEIGHT_MAX;
  built_reward : 0 <= in_total_fees inp /\ 0 <= in_subsidy inp;
  built_vin : exists i, vin out_tx = [i] /\ vin cb = [{| prevout := outpoint_set_null;
    script_sig := dcb_write_height_prefix (in_height inp) ++ [OP_0]; sequence := sequence i |}];
  built_vout : vout cb = [{| value := i64 (in_subsidy inp + in_total_fees inp); script_pub_key := in_miner_script inp |}];
  built_flag : overwintered cb = overwintered out_tx;
  built_version :
    version cb = if consensus_network_upgrade_active params (in_height inp) UPGRADE_SAPLING then SAPLING_TX_VERSION
                 else if consensus_network_upgrade_active params (in_height inp) UPGRADE_OVERWINTER then OVERWINTER_TX_VERSION
                 else version out_tx;
  built_shielded : value_balance cb = value_balance out_tx /\ v_joinsplit cb = v_joinsplit out_tx;
  built_id : tx_hash cb = h_hash256 (transaction_scratch cb);
}.

Lemma coinbase_build_ok `{Allocator} `{HashFunctions} params inp out_tx cb :
  domain_consensus_coinbase_build params inp out_tx = Ok cb -> coinbase_built params inp out_tx cb.
Proof.
  unfold domain_consensus_coinbase_build. intros [H1%ensure_ok E]%bind_unit_ok. apply bind_unit_ok in E as [H2%ensure_ok E].
  apply bind_unit_ok in E as [H3%ensure_ok E]. apply bind_unit_ok in E as [H4%ensure_ok E].
  destruct (vin out_tx) as [|i [|]] eqn:Ei; [done| |done]. destruct (vout out_tx) as [|o [|]]; [done| |done].
  unfold domain_consensus_coinbase_script_sig_placeholder in E. rewrite H1, H2 in E. cbn [ensure] in E.
  cbn [mbind result_bind mret result_ret] in E. cbv zeta in E.
  destruct (consensus_network_upgrade_active _ _ UPGRADE_SAPLING) eqn:Es; [|destruct (consensus_network_upgrade_active _ _ UPGRADE_OVERWINTER) eqn:Eo];
    injection E as <-; (constructor; cbn; [lia|lia|by exists i|done|done| |done|reflexivity]); rewrite ?Es, ?Eo; done.
Qed.

(** ** The selection, on the records that the cache answers *)

Definition fee_of (f : uint256_t -> coins) (tx : transaction) : Z :=
  i64 (entering (default [] (spent_outputs f (vin tx))) tx - transaction_get_value_out tx).

Definition ops_of (tx : transaction) : Z := u32 (get_legacy_sig_op_count tx SCRIPT_VERIFY_P2SH).

(** A transaction of the pool that is chosen, given what was chosen before *)
Definition eligible (f : uint256_t -> coins) (pk : packing) (tx : transaction) : bool :=
  negb (transaction_is_coinbase tx) && negb (u64 (block_size pk + 250) >=? MAX_BLOCK_SIZE) &&
  negb (u32 (blk_sig_ops pk + ops_of tx) >=? MAX_BLOCK_SIGOPS) && bool_decide (is_Some (spent_outputs f (vin tx))).

Definition chosen_next (f : uint256_t -> coins) (pk : packing) (tx : transaction) : packing :=
  if eligible f pk tx
  then {| pk_txs := pk_txs pk ++ [tx]; pk_fees := pk_fees pk ++ [fee_of f tx]; pk_ops := pk_ops pk ++ [ops_of tx];
          total_fees := i64 (total_fees pk + fee_of f tx); blk_sig_ops := u32 (blk_sig_ops pk + ops_of tx);
          block_size := u64 (block_size pk + 250) |}
  else pk.

Definition choose (f : uint256_t -> coins) (pool : list transaction) : packing := foldl (chosen_next f) no_packing pool.

(** A transaction of the pool as the parser leaves it *)
Definition pooled (tx : transaction) : Prop :=
  inputs_ok (vin tx) /\ zlen (vin tx) <= MAX_TX_INPUTS /\ zlen (vout tx) <= MAX_TX_OUTPUTS.

Section Packing.
Context `{AllocatorTotal} `{HashFunctions}.

Lemma array_total count size : array_allocated count size = true.
Proof. unfold array_allocated. by rewrite alloc_total, orb_true_r. Qed.

Lemma copy_total tx : zlen (vin tx) <= MAX_TX_INPUTS -> zlen (vout tx) <= MAX_TX_OUTPUTS -> transaction_copy tx = (true, tx).
Proof.
  intros Hi Ho. unfold transaction_copy, transaction_alloc. rewrite !array_total.
  replace (_ || _) with false by lia. done.
Qed.

Lemma runs_pack_tx s c pk tx : pooled tx -> presents c s ->
  runs (pack_tx pk tx) (fun pk' c' => pk' = chosen_next (vs_records s) pk tx /\ presents c' s) c.
Proof.
  intros (Hi & Hni & Hno) Hp. unfold pack_tx, chosen_next, eligible. cbv zeta. fold (ops_of tx).
  destruct (transaction_is_coinbase tx) eqn:Ecb; cbn [negb andb]; [by apply runs_ret|].
  destruct (u64 _ >=? MAX_BLOCK_SIZE); cbn [negb andb]; [by apply runs_ret|].
  destruct (u32 _ >=? MAX_BLOCK_SIGOPS); cbn [negb andb]; [by apply runs_ret|].
  eapply runs_bind; [by apply (runs_have_inputs tx s)|]. cbv beta. intros have c1 [-> Hp1].
  case_bool_decide as Hs; cbn [negb]; [|by apply runs_ret]. destruct Hs as [outs Eo].
  eapply runs_bind; [by apply (runs_value_in tx s c1 outs)|]. cbv beta. intros v c2 [-> Hp2].
  apply runs_ret. split; [|done]. rewrite copy_total by done. unfold fee_of. rewrite Eo. done.
Qed.

Lemma runs_pack_txs s pool pk c : Forall pooled pool -> presents c s ->
  runs (pack_txs pk pool) (fun pk' c' => pk' = foldl (chosen_next (vs_records s)) pk pool /\ presents c' s) c.
Proof.
  intros Hpool. revert pk c. induction Hpool as [|tx pool Htx _ IH]; intros pk c Hp; cbn [pack_txs foldl]; [by apply runs_ret|].
  eapply runs_bind; [by apply (runs_pack_tx s)|]. cbv beta. intros pk' c1 [-> Hp1]. by apply IH.
Qed.
End Packing.

Definition sum_fees (l : list Z) : Z := foldr Z.add 0 l.

(** What is known of the transactions chosen so far *)
Record packed (f : uint256_t -> coins) (pool : list transaction) (pk : packing) : Prop := {
  packed_pool : sublist (pk_txs pk) pool;
  packed_spend : Forall (fun tx => transaction_is_coinbase tx = false /\ is_Some (spent_outputs f (vin tx))) (pk_txs pk);
  packed_fees : pk_fees pk = map (fee_of f) (pk_txs pk);
  packed_ops : pk_ops pk = map ops_of (pk_txs pk);
  packed_total : total_fees pk = i64 (sum_fees (pk_fees pk));
  packed_size : block_size pk = 1000 + 250 * zlen (pk_txs pk) /\ block_size pk < MAX_BLOCK_SIZE;
}.

Lemma sum_fees_app l l' : sum_fees (l ++ l') = sum_fees l + sum_fees l'.
Proof. induction l as [|a l IH]; cbn; [done|]. unfold sum_fees in *. lia. Qed.

Lemma chosen_next_packed f pool pk tx : packed f pool pk -> packed f (pool ++ [tx]) (chosen_next f pk tx).
Proof.
  intros [Hl Hs Hf Ho Ht [Hz Hz']]. unfold chosen_next. destruct (eligible f pk tx) eqn:E.
  2: { constructor; try done. rewrite <- (app_nil_r (pk_txs pk)). apply sublist_app; [done|apply sublist_nil_l]. }
  unfold eligible in E. apply andb_true_iff in E as [[[E1 E2]%andb_true_iff E3]%andb_true_iff E4%bool_decide_eq_true].
  assert (u64 (block_size pk + 250) = block_size pk + 250) as Eu.
  { apply uwrap_small. unfold is_u, MAX_BLOCK_SIZE in *. pose proof (Zle_0_nat (length (pk_txs pk))). unfold zlen in Hz. lia. }
  constructor; cbn [pk_txs pk_fees pk_ops total_fees blk_sig_ops block_size].
  - by apply sublist_app.
  - apply Forall_app. split; [done|]. apply Forall_singleton. split; [by apply negb_true_iff|done].
  - by rewrite Hf, map_app.
  - by rewrite Ho, map_app.
  - rewrite Ht, sum_fees_app. cbn. rewrite Z.add_0_r. apply swrap_add_l.
  - rewrite Eu in *. rewrite zlen_app. change (zlen [tx]) with 1. split; [lia|]. lia.
Qed.

Lemma choose_packed f pool : packed f pool (choose f pool).
Proof.
  unfold choose. induction pool as [|tx pool IH] using rev_ind.
  - constructor; cbn; try done.
  - rewrite foldl_app. by apply chosen_next_packed.
Qed.

(** ** The template *)

Section Template.
Context `{AllocatorTotal} `{HashFunctions} `{Clock}.
Variables (coinbase_script : script) (pindex_prev : block_index) (ancestors : list block_index) (prev_hash : uint256_t).
Variables (pool : list transaction) (params : chain_params).

Let chain : list block_index := pindex_prev :: ancestors.
Let height : Z := bi_nHeight pindex_prev + 1.

(** A template over the records [f] *)
Record template_of (f : uint256_t -> coins) (bt : block_template) (cb : transaction) (bits : Z) : Prop := {
  tpl_coinbase : coinbase_built (consensus params)
    {| in_height := height; in_subsidy := get_block_subsidy (consensus params) height;
       in_total_fees := total_fees (choose f pool); in_miner_script := coinbase_script |}
    (with_ends transaction_init [tx_in_init] [tx_out_set_null]) cb;
  tpl_vtx : vtx (bt_block bt) = cb :: pk_txs (choose f pool);
  tpl_fees : tx_fees bt = i64 (- total_fees (choose f pool)) :: pk_fees (choose f pool);
  tpl_bits : GetNextWorkRequired chain (Some (u32 GetAdjustedTime)) (consensus params) = Some bits;
  tpl_header : header (bt_block bt) = {|
    nVersion := 4; hashPrevBlock := prev_hash; hashMerkleRoot := compute_merkle_root (map tx_hash (vtx (bt_block bt)));
    hashFinalSaplingRoot := uint256_null; nTime := u32 GetAdjustedTime; nBits := bits; nNonce := uint256_null; nSolution := [] |};
}.

Lemma compute_root_total b : block_compute_merkle_root b =
  {| header := with_root (header b) (compute_merkle_root (map tx_hash (vtx b))); vtx := vtx b |}.
Proof. unfold block_compute_merkle_root. by rewrite alloc_total. Qed.

Lemma finish_template_ok f bt :
  finish_template coinbase_script chain height (Some prev_hash) params (choose f pool) = Some (Some bt) ->
  exists cb bits, template_of f bt cb bits.
Proof.
  unfold finish_template, transaction_alloc. rewrite !array_total. cbn [fst negb snd andb]. change ((1 >? MAX_TX_INPUTS) || (1 >? MAX_TX_OUTPUTS)) with false.
  cbn [fst snd negb]. cbv zeta.
  destruct (domain_consensus_coinbase_build _ _ _) as [cb|] eqn:Eb; [|done].
  destruct (GetNextWorkRequired _ _ _) as [bits|] eqn:Ew; cbn [mbind option_bind]; [|done]. intros [= <-].
  exists cb, bits. constructor; cbn [bt_block tx_fees]; [by apply coinbase_build_ok in Eb| |done|done|].
  all: unfold template_block; by rewrite compute_root_total.
Qed.

(** A defined target gives a defined result. *)
Lemma finish_template_defined f bits :
  GetNextWorkRequired chain (Some (u32 GetAdjustedTime)) (consensus params) = Some bits ->
  is_Some (finish_template coinbase_script chain height (Some prev_hash) params (choose f pool)).
Proof.
  intros Ew. unfold finish_template. case_if; [done|]. destruct (domain_consensus_coinbase_build _ _ _); [|done]. rewrite Ew. done.
Qed.

Lemma runs_create s c bits : Forall pooled pool -> presents c s ->
  GetNextWorkRequired chain (Some (u32 GetAdjustedTime)) (consensus params) = Some bits ->
  runs (create_new_block coinbase_script chain (Some prev_hash) pool params) (fun res c' => presents c' s /\
    forall bt, res = Some bt -> exists cb, template_of (vs_records s) bt cb bits) c.
Proof.
  intros Hpool Hp Ew. unfold create_new_block, chain. unfold template_allocated. rewrite !alloc_total. cbn [andb negb].
  eapply runs_bind; [by apply (runs_pack_txs s)|]. cbv beta. intros pk c1 [-> Hp1].
  fold (choose (vs_records s) pool). destruct (finish_template_defined (vs_records s) bits Ew) as [res Er].
  unfold chain, height in Er. exists res, c1. unfold view_of. rewrite Er. split; [done|]. split; [done|].
  intros bt ->. destruct (finish_template_ok _ _ Er) as (cb & bits' & Ht). exists cb.
  pose proof (tpl_bits _ _ _ _ Ht) as Ew'. rewrite Ew in Ew'. by injection Ew' as <-.
Qed.
End Template.

(** ** The reward against the rule of file ConnectBlock *)

(** Every output of [f] outside the records [ids] is one of [f0]. *)
Definition inherits (f0 f : uint256_t -> coins) (ids : list uint256_t) : Prop := forall t n o,
  t ∉ ids -> output_of (f t) n = Some o -> output_of (f0 t) n = Some o.

Lemma null_output_inherits r n k o : output_of (null_output r n) k = Some o -> output_of r k = Some o.
Proof.
  unfold output_of, null_output. cbn [coins_vout with_vout]. rewrite list_lookup_insert. case_decide as E; [done|done].
Qed.

Lemma spend_all_inherits ins f0 f f' us gone ids : spend_all f ins = Some (f', us, gone) -> inherits f0 f ids -> inherits f0 f' ids.
Proof.
  revert f f' us gone. induction ins as [|i ins IH]; intros f f' us gone; [by intros [= <- <- <-]|]. cbn [spend_all].
  destruct (spend_one f i) as [[[r u] g]|] eqn:E1; cbn [mbind option_bind]; [|done].
  destruct (spend_all _ ins) as [[[f2 us2] gone2]|] eqn:E2; cbn [mbind option_bind]; [|done]. intros [= <- <- <-] Hf.
  eapply IH; [done|]. apply spend_one_Some in E1 as (_ & _ & _ & -> & _). intros t n o Ht. unfold set_record. case_decide as Et; [|by apply Hf].
  subst t. intros Ho%null_output_inherits. by apply Hf.
Qed.

Lemma tx_effect_inherits `{Allocator} f0 f tx h f' us gone ids : tx_effect f tx h = Some (f', us, gone) -> tx_hash tx ∈ ids ->
  inherits f0 f ids -> inherits f0 f' ids.
Proof.
  unfold tx_effect. destruct (if transaction_is_coinbase tx then _ else _) as [[[f1 us1] gone1]|] eqn:E; cbn [mbind option_bind]; [|done].
  case_if; [|done]. intros [= <- <- <-] Hin Hf. assert (inherits f0 f1 ids) as Hf1.
  { destruct (transaction_is_coinbase tx); [by injection E as <- <- <-|by eapply spend_all_inherits]. }
  intros t n o Ht. unfold set_record. case_decide as Et; [by subst|by apply Hf1].
Qed.

Lemma spent_inherits f0 f ins outs outs0 ids : inherits f0 f ids -> Forall (fun i => op_hash (prevout i) ∉ ids) ins ->
  spent_outputs f ins = Some outs -> spent_outputs f0 ins = Some outs0 -> outs = outs0.
Proof.
  intros Hf Hi. revert outs outs0. unfold spent_outputs. induction Hi as [|i ins Ht _ IH]; intros outs outs0; cbn [mapM]; [congruence|].
  destruct (output_of (f _) _) as [o|] eqn:Eo; cbn [mbind option_bind]; [|done]. apply Hf in Eo; [|done]. rewrite Eo. cbn [mbind option_bind].
  destruct (mapM _ ins) as [l|]; cbn [mbind option_bind]; [|done]. intros [= <-].
  destruct (mapM (fun i => output_of (f0 _) _) ins) as [l0|]; cbn [mbind option_bind]; [|done]. intros [= <-]. f_equal. by apply IH.
Qed.

Section Reward.
Context `{AllocatorTotal} `{HashFunctions} `{Secp256k1}.
Variables (skip expensive : bool) (branch_id nHeight : Z) (f0 : uint256_t -> coins) (ids : list uint256_t).

(** A transaction that only spends outputs of [f0] outside the records [ids] *)
Definition spends_old (tx : transaction) : Prop := transaction_is_coinbase tx = false /\
  is_Some (spent_outputs f0 (vin tx)) /\ Forall (fun i => op_hash (prevout i) ∉ ids) (vin tx).

Lemma judge_tx_fee s st tx s' st' : judge_tx skip expensive branch_id nHeight s st tx = Ok (s', st') ->
  tx_hash tx ∈ ids -> inherits f0 (vs_records s) ids -> tally_ok st ->
  inherits f0 (vs_records s') ids /\ tally_ok st' /\
  (transaction_is_coinbase tx = true -> t_fees st' = t_fees st) /\
  (spends_old tx -> t_fees st' = t_fees st + fee_of f0 tx).
Proof.
  unfold judge_tx. intros [_ E]%bind_unit_ok Hid Hf Hst. apply bind_ok in E as ([[so fe] scs] & Ein & E).
  destruct (tx_effect _ tx nHeight) as [[[f us] gone]|] eqn:Ea; [|done]. injection E as <- <-. cbn.
  split; [by eapply tx_effect_inherits|]. unfold tally_ok. cbn. unfold spends_old. destruct (transaction_is_coinbase tx); [by injection Ein as <- <- <-; naive_solver|].
  apply judge_inputs_ok in Ein as [outs Ha]. pose proof (accepted_result _ _ _ _ _ _ _ _ _ Ha) as E. cbn in E. injection E as -> _.
  split; [by apply MoneyRange_spec, (accepted_fees _ _ _ _ _ _ _ _ _ Ha)|]. split; [done|]. intros (_ & [outs0 E0] & Hi).
  pose proof (accepted_outputs _ _ _ _ _ _ _ _ _ Ha) as Eo. rewrite (spent_inherits f0 _ _ _ _ _ Hf Hi Eo E0) in *. unfold fee_of. rewrite E0.
  cbn [default]. f_equal. unfold id. pose proof (value_out_range tx). pose proof (accepted_in _ _ _ _ _ _ _ _ _ Ha).
  symmetry. apply swrap_small; [done|]. unfold is_s, MAX_MONEY, COIN in *. lia.
Qed.

Lemma judge_txs_fees txs s st s' st' : judge_txs skip expensive branch_id nHeight s st txs = Ok (s', st') ->
  Forall (fun tx => tx_hash tx ∈ ids) txs -> inherits f0 (vs_records s) ids -> tally_ok st -> Forall spends_old txs ->
  tally_ok st' /\ t_fees st' = t_fees st + sum_fees (map (fee_of f0) txs).
Proof.
  revert s st. induction txs as [|tx txs IH]; intros s st; cbn [judge_txs].
  { intros [= <- <-] _ _ Hst _. cbn. split; [done|]. lia. }
  intros ([s1 st1] & E1 & E)%bind_ok [Hid Hids]%Forall_cons Hf Hst [Ho Hos]%Forall_cons.
  destruct (judge_tx_fee _ _ _ _ _ E1 Hid Hf Hst) as (Hf1 & Hst1 & _ & Hfee).
  destruct (IH s1 st1 E Hids Hf1 Hst1 Hos) as [Hst' Ef]. split; [done|]. rewrite Ef, (Hfee Ho). cbn. unfold sum_fees. lia.
Qed.

(** A block of a coinbase and such transactions collects their fees. *)
Lemma judge_block_fees cb txs s s' st : judge_txs skip expensive branch_id nHeight s empty_tally (cb :: txs) = Ok (s', st) ->
  vs_records s = f0 -> Forall (fun tx => tx_hash tx ∈ ids) (cb :: txs) -> transaction_is_coinbase cb = true ->
  Forall spends_old txs ->
  0 <= t_fees st <= MAX_MONEY /\ t_fees st = sum_fees (map (fee_of f0) txs).
Proof.
  cbn [judge_txs]. intros ([s1 st1] & E1 & E)%bind_ok Es [Hid Hids]%Forall_cons Hcb Ho.
  assert (inherits f0 (vs_records s) ids) as Hf by (rewrite Es; by intros ? ? ? _).
  destruct (judge_tx_fee _ _ _ _ _ E1 Hid Hf) as (Hf1 & Hst1 & Hfee & _); [by split|].
  destruct (judge_txs_fees _ _ _ _ _ E) as [Hst Ef]; [done..|]. split; [done|]. rewrite Ef, (Hfee Hcb). cbn. lia.
Qed.
End Reward.

(** The chosen transactions spend outputs of records that the block does not create. *)
Lemma chosen_spend_old f pool ids txs : sublist txs (pk_txs (choose f pool)) ->
  Forall (fun t => coins_is_pruned (f t) = true) ids -> Forall (spends_old f ids) txs.
Proof.
  intros Hsub Hids. apply Forall_forall. intros tx Hin.
  destruct (proj1 (Forall_forall _ _) (packed_spend _ _ _ (choose_packed f pool)) tx) as [Hcb [outs Eo]].
  { by eapply elem_of_sublist. }
  split; [done|]. split; [by exists outs|]. apply Forall_forall. intros i Hi Ht.
  apply (proj1 (Forall_forall _ _) Hids) in Ht. cbv beta in Ht.
  rewrite (spent_live f (vin tx) outs (prevout i)) in Ht; [done|done|]. apply list_elem_of_fmap. eauto.
Qed.

(** ** The search *)

Lemma miner_state h ep : miner_build_eh_state h ep = header_state ep h.
Proof. reflexivity. Qed.

Lemma advance_nonce_value data : bytes_ok data ->
  length (advance_nonce data) = length data /\ bytes_ok (advance_nonce data) /\
  le_decode (advance_nonce data) = (le_decode data + 1) mod 256 ^ Z.of_nat (length data).
Proof.
  induction 1 as [|b data Hb Hd IH]; [split_and!; [done|constructor|done]|]. destruct IH as (Il & Ib & Iv). unfold is_u in Hb. change (2 ^ 8) with 256 in Hb. cbn [advance_nonce].
  assert (u8 (b + 1) = if b =? 255 then 0 else b + 1) as Eu.
  { destruct (Z.eqb_spec b 255) as [->|]; [done|]. apply u8_small. lia. }
  pose proof (le_decode_range data Hd) as Hr. cbn [length]. rewrite pow256_succ. cbn [le_decode].
  rewrite Eu. destruct (Z.eqb_spec b 255) as [->|Hne].
  - cbn [Z.eqb negb length le_decode]. split_and!; [by rewrite Il|by constructor|]. rewrite Iv.
    replace (255 + 256 * le_decode data + 1) with (256 * (le_decode data + 1)) by lia.
    rewrite Zmult_mod_distr_l. lia.
  - replace (b + 1 =? 0) with false by lia. cbn [negb length le_decode]. split_and!; [done|constructor; [unfold is_u; lia|done]|].
    rewrite Z.mod_small; lia.
Qed.

Lemma advance_nonce_encode i : 0 <= i -> advance_nonce (le_encode 32 i) = le_encode 32 (i + 1).
Proof.
  intros Hi. destruct (advance_nonce_value (le_encode 32 i) (le_encode_ok _ _)) as (El & Hb & Ev).
  apply le_decode_inj; [done|apply le_encode_ok|by rewrite El, !le_encode_length|].
  rewrite Ev, !le_decode_encode, le_encode_length, Zplus_mod_idemp_l. done.
Qed.

Section Search.
Context `{AllocatorTotal} `{HashFunctions} (qsort_rows : nat -> list eh_row -> list eh_row).
Context (Hsort : forall n rows, qsort_rows n rows ≡ₚ rows).
Context (ep : equihash_params) (Hep : eh_ok ep) (Hwidth : Z.of_nat (solution_width ep) <= MAX_SOLUTION_SIZE).
Context (target : arith_uint256).

(** The attempt with a nonce ends the search. *)
Definition nonce_works (h : block_header) (i : Z) : Prop :=
  exists h', attempt_nonce qsort_rows ep target (with_nonce h (le_encode 32 i)) = Some (true, h').

(** What an attempt leaves: the header, or the header with a solution *)
Definition attempted (h : block_header) (done : bool) (h' : block_header) : Prop :=
  (done = false /\ h' = h) \/
  exists soln, h' = with_solution h soln /\ length soln = solution_width ep /\ bytes_ok soln /\ header_solved ep h' /\
    done = (arith_uint256_compare (uint256_to_arith (block_header_get_hash h')) target <=? 0).

Lemma attempt_nonce_spec h : header_ok h -> exists done h',
  attempt_nonce qsort_rows ep target h = Some (done, h') /\ attempted h done h'.
Proof.
  intros Hh. unfold attempt_nonce. rewrite miner_state. destruct (header_state_absorbed ep h Hep) as (state & -> & Hst).
  pose proof (header_input_length h Hh) as El.
  destruct (solve_absorbed qsort_rows all_features ep _ _ (Z.to_nat MAX_SOLUTION_SIZE) Hsort Hep Hst ltac:(lia)) as (found & -> & Hf).
  cbn [mbind option_bind]. destruct found as [soln|]; [|exists false, h; split; [done|by left]].
  destruct (Hf soln eq_refl) as (Hl & Hb & Hs & _). rewrite take_ge by lia. eexists _, _. split; [reflexivity|]. right.
  exists soln. split_and!; done.
Qed.

Lemma attempted_ok h done h' : header_ok h -> attempted h done h' -> header_ok h' /\ exists soln, h' = with_solution h soln.
Proof.
  intros Hh [[_ ->]|(soln & -> & Hl & Hb & _)]; [split; [done|exists (nSolution h); by destruct h]|]. split; [|by exists soln].
  destruct Hh as (? & ? & ? & ? & ? & ? & ? & _). unfold header_ok. cbn. split_and!; try done. unfold zlen. lia.
Qed.

(** The solution that a header has does not matter to an attempt. *)
Lemma attempt_with_solution h soln : match attempt_nonce qsort_rows ep target h with
  | Some (done, h') => exists h'', attempt_nonce qsort_rows ep target (with_solution h soln) = Some (done, h'') /\ (done = true -> h'' = h')
  | None => attempt_nonce qsort_rows ep target (with_solution h soln) = None
  end.
Proof.
  unfold attempt_nonce. rewrite !miner_state. change (header_state ep (with_solution h soln)) with (header_state ep h).
  destruct (header_state ep h) as [state|]; [|done]. destruct (equihash_basic_solve _ _ _ _) as [[s|]|]; cbn [mbind option_bind]; [|by eexists|done].
  eexists. split; [reflexivity|done].
Qed.

Lemma works_with_solution h soln i : nonce_works (with_solution h soln) i <-> nonce_works h i.
Proof.
  unfold nonce_works. change (with_nonce (with_solution h soln) (le_encode 32 i)) with (with_solution (with_nonce h (le_encode 32 i)) soln).
  pose proof (attempt_with_solution (with_nonce h (le_encode 32 i)) soln) as Ha.
  destruct (attempt_nonce _ _ _ (with_nonce h _)) as [[done h']|].
  - destruct Ha as (h'' & -> & _). split; intros (x & [= -> _]); eauto.
  - rewrite Ha. split; by intros (x & ?).
Qed.

Lemma with_nonce_twice h a b : with_nonce (with_nonce h a) b = with_nonce h b.
Proof. done. Qed.

(** The search tries the nonces one after the other and stops at the first that works. *)
Lemma attempts_spec n h i : header_ok h -> nNonce h = le_encode 32 i -> 0 <= i -> exists found h',
  attempts qsort_rows ep target n h = Some (found, h') /\ header_ok h' /\
  (exists nonce soln, h' = with_solution (with_nonce h nonce) soln) /\
  (if found then exists j, i <= j < i + Z.of_nat n /\ nNonce h' = le_encode 32 j /\
                   zlen (nSolution h') = Z.of_nat (solution_width ep) /\ header_solved ep h' /\
                   arith_uint256_compare (uint256_to_arith (block_header_get_hash h')) target <= 0 /\
                   forall k, i <= k < j -> ~ nonce_works h k
   else forall k, i <= k < i + Z.of_nat n -> ~ nonce_works h k).
Proof.
  revert h i. induction n as [|n IH]; intros h i Hh Hn Hi; cbn [attempts].
  { exists false, h. split_and!; [done|done| |intros k Hk; lia]. exists (nNonce h), (nSolution h). by destruct h. }
  destruct (attempt_nonce_spec h Hh) as (done & h1 & Ea & Hat). rewrite Ea. cbn [mbind option_bind].
  destruct (attempted_ok h done h1 Hh Hat) as (Hh1 & soln & Es).
  assert (with_nonce h (le_encode 32 i) = h) as Ewn by (rewrite <- Hn; by destruct h).
  destruct done.
  - exists true, h1. split_and!; [done|done|exists (nNonce h), soln; rewrite Es; by destruct h|].
    destruct Hat as [[? _]|(s & -> & Hl & _ & Hs & Hc)]; [done|]. exists i. split_and!; [lia|lia|done|unfold zlen; cbn; lia|done|lia|].
    intros k Hk. lia.
  - assert (~ nonce_works h i) as Hno by (intros (h' & Ew); rewrite Ewn, Ea in Ew; congruence).
    set (h2 := with_nonce h1 (advance_nonce (nNonce h1))).
    assert (nNonce h1 = le_encode 32 i) as Hn1 by (rewrite Es; exact Hn).
    destruct (IH h2 (i + 1)) as (found & h' & E' & Hok & (nonce & soln' & Eh) & Hf).
    + destruct Hh1 as (? & ? & ? & ? & ? & ? & ? & ? & ?). unfold header_ok, h2. cbn. rewrite Hn1, advance_nonce_encode by done.
      split_and!; try done. split; [apply (zlen_le_encode 32)|apply le_encode_ok].
    + unfold h2. cbn [nNonce with_nonce]. by rewrite Hn1, advance_nonce_encode.
    + lia.
    + assert (forall k, nonce_works h2 k <-> nonce_works h k) as Hw.
      { intros k. unfold h2. rewrite Es. apply (works_with_solution h soln k). }
      exists found, h'. split_and!; [done|done|exists nonce, soln'; by rewrite Eh; unfold h2; rewrite Es|].
      destruct found.
      * destruct Hf as (j & Hj & H3 & H4 & H5 & H6 & H7). exists j. split_and!; try done; [lia|lia|].
        intros k Hk. destruct (decide (k = i)) as [->|]; [done|]. rewrite <- Hw. apply H7. lia.
      * intros k Hk. destruct (decide (k = i)) as [->|]; [done|]. rewrite <- Hw. apply Hf. lia.
Qed.
End Search.

(** ** Blocks made from a template *)

Section Made.
Context `{AllocatorTotal} `{HashFunctions} `{Clock}.
Variables (coinbase_script : script) (pindex_prev : block_index) (ancestors : list block_index) (prev_hash : uint256_t).
Variables (pool : list transaction) (params : chain_params).

Let height : Z := bi_nHeight pindex_prev + 1.

(** A block on the tip, of a coinbase that claims the subsidy and the fees of the chosen transactions *)
Record made_from (f : uint256_t -> coins) (bits : Z) (b : block) (cb : transaction) : Prop := {
  made_height : 0 <= height <= DCB_HEIGHT_MAX;
  made_fees : 0 <= total_fees (choose f pool) /\ 0 <= get_block_subsidy (consensus params) height;
  made_vtx : vtx b = cb :: pk_txs (choose f pool);
  made_vin : exists i rest, vin cb = [i] /\ prevout i = outpoint_set_null /\
    script_sig i = dcb_write_height_prefix height ++ rest /\ 1 <= zlen rest <= 5;
  made_vout : vout cb = [{| value := i64 (get_block_subsidy (consensus params) height + total_fees (choose f pool));
                            script_pub_key := coinbase_script |}];
  made_flag : overwintered cb = false;
  made_shielded : value_balance cb = 0 /\ v_joinsplit cb = [];
  made_id : tx_hash cb = h_hash256 (transaction_scratch cb);
  made_bits : GetNextWorkRequired (pindex_prev :: ancestors) (Some (nTime (header b))) (consensus params) = Some bits /\
    nBits (header b) = bits /\ nTime (header b) = u32 GetAdjustedTime;
  made_header : nVersion (header b) = 4 /\ hashPrevBlock (header b) = prev_hash /\
    hashMerkleRoot (header b) = compute_merkle_root (map tx_hash (vtx b)) /\
    hashFinalSaplingRoot (header b) = uint256_null;
}.

Lemma template_made f bt cb bits : template_of coinbase_script pindex_prev ancestors prev_hash pool params f bt cb bits ->
  made_from f bits (bt_block bt) cb.
Proof.
  intros [[Hh Hr (i & [= <-] & Ev) Eo Ef _ Es Eid] Evtx _ Eb Ehd]. cbn in *.
  constructor; rewrite ?Ehd; cbn; try done. exists {| prevout := outpoint_set_null;
    script_sig := dcb_write_height_prefix height ++ [OP_0]; sequence := UINT32_MAX |}, [OP_0]. done.
Qed.

(** Another nonce leaves a block of the same kind, with another script of the coinbase. *)
Lemma increment_made f bits b cb last_prev en : made_from f bits b cb -> exists last_prev' b' en' cb',
  increment_extra_nonce last_prev b pindex_prev en = Some (last_prev', b', en') /\ made_from f bits b' cb' /\
  nNonce (header b') = nNonce (header b) /\ nSolution (header b') = nSolution (header b).
Proof.
  intros [Hh Hr Evtx (i & rest & Ei & Ep & _ & _) Eo Ef Es _ Eb Ehd]. unfold increment_extra_nonce. rewrite Evtx, Ei. cbv zeta.
  set (en' := u32 _). fold height. assert (is_u 32 en') as Hen by (by apply uwrap_range).
  destruct (domain_consensus_coinbase_script_sig_with_extra_nonce height en') as [sig|] eqn:Esig.
  2: { exfalso. unfold domain_consensus_coinbase_script_sig_with_extra_nonce in Esig.
       replace (height <? 0) with false in Esig by lia. replace (height >? DCB_HEIGHT_MAX) with false in Esig by lia. done. }
  destruct (nonce_script_shape _ _ _ Hen Esig) as (_ & bs & -> & Hbs & _).
  rewrite compute_root_total. eexists _, _, _, _. split; [reflexivity|]. split; [|done].
  destruct Ehd as (? & ? & _ & ?). constructor; cbn; try done.
  eexists _, _. split; [reflexivity|]. cbn. split_and!; [done|done| |]; rewrite zlen_cons; lia.
Qed.

Lemma mined_made f bits b cb nonce soln : made_from f bits b cb ->
  made_from f bits {| header := with_solution (with_nonce (header b) nonce) soln; vtx := vtx b |} cb.
Proof. intros [? ? ? ? ? ? ? ? ? ?]. by constructor. Qed.
End Made.

(** ** Mining a header *)

(** The parameters of a height are among those that the verifier recognises. *)
Definition supported_at (params : chain_params) (height : Z) : Prop :=
  equihash_solution_params (expected_solution_size params height) =
    Some (Z.to_nat (chain_params_equihash_n params height), Z.to_nat (chain_params_equihash_k params height)).

Definition params_at (params : chain_params) (height : Z) : equihash_params :=
  equihash_params_init (Z.to_nat (chain_params_equihash_n params height)) (Z.to_nat (chain_params_equihash_k params height)).

(** The number of nonces that are tried *)
Definition nonces_tried (max_nonces : Z) : Z := if max_nonces =? 0 then 1 ≪ 20 else max_nonces.

Lemma supported_nonzero params height : supported_at params height -> (chain_params_equihash_n params height =? 0) = false.
Proof.
  intros Hs. apply Z.eqb_neq. intros E. unfold supported_at in Hs. rewrite E in Hs. revert Hs. clear E. unfold equihash_solution_params.
  repeat case_if; intros [= ? ?].
Qed.

Lemma supported_small len n k : equihash_solution_params len = Some (n, k) -> len <= MAX_SOLUTION_SIZE.
Proof.
  unfold equihash_solution_params, MAX_SOLUTION_SIZE. destruct (Z.eqb_spec len 1344); [lia|]. destruct (Z.eqb_spec len 400); [lia|].
  destruct (Z.eqb_spec len 68); [lia|]. by destruct (Z.eqb_spec len 36); [lia|].
Qed.

Section Mine.
Context `{AllocatorTotal} `{HashFunctionsOk} (qsort_rows : nat -> list eh_row -> list eh_row).
Context (Hsort : forall n rows, qsort_rows n rows ≡ₚ rows).
Context (params : chain_params) (height : Z) (Hsup : supported_at params height).

Let target (h : block_header) : arith_uint256 := cr_value (arith_uint256_set_compact (nBits h)).

Lemma mine_spec h max_nonces : header_ok h -> 0 <= max_nonces -> exists found h',
  mine_block_pow qsort_rows h height params max_nonces = Some (found, h') /\ header_ok h' /\
  (exists nonce soln, h' = with_solution (with_nonce h nonce) soln) /\
  (if found then target_usable (nBits h) /\ zlen (nSolution h') = expected_solution_size params height /\
                 header_solved (params_at params height) h' /\ le_decode (block_header_get_hash h') <= compact_value (nBits h)
   else target_usable (nBits h) -> forall i, 0 <= i < nonces_tried max_nonces ->
          ~ nonce_works qsort_rows (params_at params height) (target h) h i).
Proof.
  intros Hh Hmax. destruct (supported_ok _ _ _ Hsup) as [Hep Ew]. pose proof Hh as (_ & _ & _ & _ & _ & Hbits & _).
  unfold mine_block_pow. cbv zeta. rewrite (supported_nonzero _ _ Hsup). fold (params_at params height) in *.
  assert (exists nonce soln, h = with_solution (with_nonce h nonce) soln) as Hsame by (exists (nNonce h), (nSolution h); by destruct h).
  assert (Z.of_nat (solution_width (params_at params height)) <= MAX_SOLUTION_SIZE) as Hw.
  { rewrite <- Ew. by eapply supported_small. }
  replace (_ >? MAX_SOLUTION_SIZE) with false by lia. destruct (target_checks (nBits h) Hbits) as [Hu Hv].
  destruct (cr_negative _ || _ || _) eqn:Et.
  { exists false, h. split_and!; try done. intros Htu. by apply Hu in Htu. }
  pose proof (proj1 Hu eq_refl) as Htu. fold (nonces_tried max_nonces). assert (0 <= nonces_tried max_nonces) as Hn by (unfold nonces_tried; case_if; [done|lia]).
  destruct (attempts_spec qsort_rows Hsort (params_at params height) Hep Hw (target h) (Z.to_nat (nonces_tried max_nonces))
    (with_nonce h (replicate 32 0)) 0) as (found & h' & E & Hok & Hs & Hf); [|vm_compute; reflexivity|done|].
  { destruct Hh as (? & ? & ? & ? & ? & ? & _ & ? & ?). unfold header_ok. cbn. split_and!; try done. compute_decide. }
  rewrite Z2Nat.id in Hf by done. exists found, h'. unfold target in E. rewrite E. split_and!; [done|done|done|].
  destruct found; [|by intros _; apply Hf]. destruct Hf as (j & _ & _ & Hl & Hsol & Hc & _).
  split; [done|]. split; [by rewrite Hl|]. split; [done|].
  assert (uint256_ok (block_header_get_hash h')) as Hh256.
  { rewrite block_header_hash_bytes by done. apply hash256_ok. }
  destruct (uint256_to_arith_ok _ Hh256) as [Hak Hav]. pose proof (set_compact_ok (nBits h) Hbits) as Htk.
  pose proof (compare_gt _ (target h) Hak Htk) as Hgt. rewrite Hav in Hgt. unfold target in Hgt. rewrite (Hv Htu) in Hgt. unfold target in Hc. lia.
Qed.
End Mine.

(** ** Computations that accept *)

Lemma and_then_ok {A B} (m : connect_m A) (k : A -> connect_m B) c b c' : and_then m k c = Some (Ok b, c') ->
  exists a c1, m c = Some (Ok a, c1) /\ k a c1 = Some (Ok b, c').
Proof. unfold and_then. destruct (m c) as [[[a|e] c1]|]; [eauto|done|done]. Qed.

Lemma demand_ok cond e c u c' : demand cond e c = Some (Ok u, c') -> cond = true.
Proof. by destruct cond. Qed.

Section Refused.
Context `{Allocator} `{HashFunctions} `{Secp256k1} `{CryptoRegistry} `{Clock}.
Variables (skip : bool) (deferred_below : Z) (params : chain_params).
Variable run_pool : option (list (script * script_check) -> bool).

(** Once Sapling is active no block with an empty root is connected. *)
Lemma zero_root_refused b pindex c st t c' :
  consensus_network_upgrade_active (consensus params) (ci_nHeight pindex) UPGRADE_SAPLING = true ->
  hashFinalSaplingRoot (header b) = uint256_null ->
  connect_block skip deferred_below params run_pool b pindex false c <> Some ((Ok (Some st), t), c').
Proof.
  intros Hsap Hroot. unfold connect_block. cbv zeta. destruct (check_block _ _ _ _ _); [|done]. case_if; [done|].
  intros E. unfold mbind, view_bind in E. destruct (coins_view_cache_get_best_block c) as [[best c1]|]; [|done].
  destruct (negb _ && _); [done|]. destruct (turnstile b pindex) as [totals [[]|e]]; [|done].
  destruct (connect_rest _ _ _ _ _ _ _ _ _ c1) as [[[st'|e] c2]|] eqn:Er; [|done|done]. clear E.
  unfold connect_rest in Er. cbv zeta in Er. apply and_then_ok in Er as (_ & ? & _ & Er). apply and_then_ok in Er as (_ & ? & _ & Er).
  apply and_then_ok in Er as (_ & ? & _ & Er). apply and_then_ok in Er as (st1 & ? & _ & Er). apply and_then_ok in Er as (u1 & ? & Ec & _).
  unfold conclude_block in Ec. apply and_then_ok in Ec as (_ & ? & _ & Ec). apply and_then_ok in Ec as (u2 & ? & Es & _).
  rewrite Hsap, Hroot in Es. cbn [negb andb] in Es. apply demand_ok in Es. by rewrite bool_decide_eq_true_2 in Es.
Qed.
End Refused.

Lemma made_flag_refused `{Allocator} cb params h : overwintered cb = false ->
  consensus_network_upgrade_active params h UPGRADE_OVERWINTER = true ->
  domain_consensus_check_transaction_sapling_structural cb params h <> Ok tt.
Proof.
  intros Hf Ho. unfold domain_consensus_check_transaction_sapling_structural. rewrite Ho, Hf. intros [_ E]%bind_unit_ok.
  apply bind_unit_ok in E as [_ E]. apply bind_unit_ok in E as [_ E]. apply bind_unit_ok in E as [E _]. by apply ensure_ok in E.
Qed.

(** ** Properties *)

Section Theorems.
Context `{AllocatorTotal} `{HashFunctionsOk} `{Clock} (qsort_rows : nat -> list eh_row -> list eh_row).
Variables (coinbase_script : script) (tip : block_index) (ancestors : list block_index) (prev_hash : uint256_t).
Variables (pool : list transaction) (params : chain_params).

Let height : Z := bi_nHeight tip + 1.
Let generate : uint256_t -> view_m (uint256_t * option block) :=
  generate_round qsort_rows coinbase_script (tip :: ancestors) (Some prev_hash) pool params.
Let made := made_from coinbase_script tip ancestors prev_hash pool params.

(** What the round relies on: the sort of the C library permutes; the cache answers with the
    records of [s]; the pool and the chain are as the node keeps them. *)
Record can_mine (s : view_state) (c : coins_view_cache) : Prop := {
  mine_sorts : forall n rows, qsort_rows n rows ≡ₚ rows;
  mine_cache : presents c s;
  mine_pool : Forall (fun tx => pooled tx /\ fixed 32 (tx_hash tx)) pool;
  mine_tip : fixed 32 prev_hash;
  mine_params : pow_params_ok (consensus params) height;
  mine_targets : chain_targets_ok (consensus params) (tip :: ancestors);
  mine_supported : supported_at params height;
}.

Lemma made_header_ok f bits b cb : made f bits b cb -> Forall (fun tx => pooled tx /\ fixed 32 (tx_hash tx)) pool ->
  fixed 32 prev_hash -> is_u 32 bits -> fixed 32 (nNonce (header b)) -> nSolution (header b) = [] ->
  header_ok (header b).
Proof.
  intros [_ _ Ev _ _ _ _ Eid (_ & Eb & Et) (E4 & Ep & Er & Es)] Hpool Hp Hb Hn Hs. unfold header_ok.
  rewrite Es, Ep, Er, Eb, Et, E4, Hs. split_and!; [done|done| |compute_decide|by apply uwrap_range|done|done|done|constructor].
  apply merkle_root_fixed, Forall_map. rewrite Ev. constructor.
  { rewrite Eid. destruct (hash256_ok (transaction_scratch cb)) as [Hl Hx]. split; [by rewrite Hl|done]. }
  apply Forall_forall. intros tx Hin. refine (proj2 (proj1 (Forall_forall _ _) Hpool tx _)).
  eapply elem_of_sublist; [exact Hin|]. apply (packed_pool _ _ _ (choose_packed f pool)).
Qed.

(** A header that proves its work, as the two verifiers and the check of the target see it *)
Record proves_work (h : block_header) : Prop := {
  work_equihash : forall cpu, domain_consensus_verify_equihash_solution cpu h = Ok true /\
    registry_equihash_200_9_verify cpu (header_input h) (nSolution h) = Some true;
  work_target : CheckProofOfWork (block_header_get_hash h) (nBits h) (consensus params) = true;
  work_size : zlen (nSolution h) = expected_solution_size params height;
}.

Lemma found_proves h : header_ok h -> uint256_ok (powLimit (consensus params)) -> supported_at params height ->
  target_usable (nBits h) -> compact_value (nBits h) <= le_decode (powLimit (consensus params)) ->
  zlen (nSolution h) = expected_solution_size params height -> header_solved (params_at params height) h ->
  le_decode (block_header_get_hash h) <= compact_value (nBits h) -> proves_work h.
Proof.
  intros Hh Hl Hsup Hu Hle Hz Hs Hd. pose proof Hh as (_ & _ & _ & _ & _ & Hb & _). constructor; [| |done].
  - intros cpu. pose proof (callers_spec cpu h Hh) as Hc. rewrite Hz, Hsup in Hc. destruct Hc as (valid & -> & -> & Hv).
    fold (params_at params height) in Hv. by rewrite (proj2 Hv Hs).
  - assert (uint256_ok (block_header_get_hash h)) as Hok by (rewrite block_header_hash_bytes by done; apply hash256_ok).
    unfold CheckProofOfWork. by rewrite (proj2 (verify_pow_iff (block_header_get_hash h) (nBits h) (consensus params) Hok Hb Hl)).
Qed.

Lemma generate_runs s c last_prev : can_mine s c -> exists last_prev' res c', generate last_prev c = Some ((last_prev', res), c') /\
  presents c' s /\ forall b, res = Some b -> exists cb bits, made (vs_records s) bits b cb /\ proves_work (header b).
Proof.
  intros [Hsort Hp Hpool Htip Hpp Hct Hsup]. pose proof Hpp as (Hl & _).
  destruct (next_work_within_limit (consensus params) (tip :: ancestors) (Some (u32 GetAdjustedTime)) Hl)
    as (x & (bits & Ebits & Hbits & _ & Hle & _) & Hx); [by intros b r [= -> ->]|done|].
  destruct (runs_create coinbase_script tip ancestors prev_hash pool params s c bits) as (res & c1 & Er & Hp1 & Ht);
    [eapply Forall_impl; [exact Hpool|naive_solver]|done|done|].
  unfold generate, generate_round. unfold mbind at 1, view_bind. rewrite Er.
  destruct res as [bt|]; [|by eexists last_prev, None, c1]. destruct (Ht bt eq_refl) as (cb & Htpl).
  pose proof (tpl_header _ _ _ _ _ _ _ _ _ _ Htpl) as Eh. apply template_made in Htpl.
  destruct (increment_made _ _ _ _ _ _ _ _ _ _ last_prev 0 Htpl) as (last' & b' & en' & cb' & Ei & Hm & En & Es).
  rewrite Eh in En, Es. cbn in En, Es.
  assert (header_ok (header b')) as Hok by (eapply made_header_ok; try done; rewrite En; compute_decide).
  destruct (mine_spec qsort_rows Hsort params height Hsup (header b') 0 Hok) as (found & h & Em & Hh & (nonce & soln & ->) & Hf); [done|].
  pose proof Hm as [_ _ _ _ _ _ _ _ (_ & Eb & _) _].
  eexists last', _, c1. unfold view_of. rewrite Ei. cbn [mbind option_bind]. unfold height in Em. rewrite Em. cbn [mbind option_bind].
  split; [reflexivity|]. split; [done|]. destruct found; [|done]. intros b [= <-]. exists cb', bits. split; [by apply mined_made|].
  destruct Hf as (Hu & Hz & Hs & Hd). cbn [header]. apply found_proves; try done. change (compact_value (nBits (header b')) <= le_decode (powLimit (consensus params))).
  rewrite Eb. lia.
Qed.


Lemma coinbase_value_out cb v spk : vout cb = [{| value := v; script_pub_key := spk |}] -> value_balance cb = 0 -> v_joinsplit cb = [] ->
  transaction_get_value_out cb = if MoneyRange v then v else -1.
Proof.
  intros Eo Eb Ej. unfold transaction_get_value_out. rewrite Eo, Eb, Ej. cbn [map value sum_amounts]. rewrite Z.add_0_l.
  destruct (MoneyRange v) eqn:Em; [|done]. cbn [negb orb]. apply MoneyRange_spec in Em as Hm.
  assert (i64 v = v) as -> by (apply swrap_small; [done|unfold is_s, MAX_MONEY, COIN in *; lia]).
  rewrite Em. cbn [negb mbind option_bind Z.leb Z.opp]. change (i64 0) with 0. cbn. rewrite Z.add_0_r.
  assert (i64 v = v) as -> by (apply swrap_small; [done|unfold is_s, MAX_MONEY, COIN in *; lia]). by rewrite Em.
Qed.



(** The height in the coinbase of a generated block passes the check of BIP34 exactly from
    height 2^15 to 2^23: the script always pushes three bytes, and outside that range the check
    expects another number of them. *)
Theorem generated_height_push s c last_prev last_prev' b c' : can_mine s c -> 0 < height ->
  generate last_prev c = Some ((last_prev', Some b), c') ->
  exists cb, head (vtx b) = Some cb /\ bip34_check_coinbase_height cb height = (2 ^ 15 <=? height) && (height <? 2 ^ 23).
Proof.
  intros Hc Hh E. destruct (generate_runs s c last_prev Hc) as (last' & res & c0 & E' & _ & Hb).
  rewrite E in E'. injection E' as <- <- <-. destruct (Hb b eq_refl) as (cb & bits & [Hr _ Ev (i & rest & Ei & _ & Es & _) _ _ _ _ _ _] & _).
  exists cb. split; [by rewrite Ev|]. fold height in Hr. eapply bip34_of_prefix; [done|done|lia].
Qed.
End Theorems.

(** C27: The search of [mine_block_pow] is sound and exhaustive.  For a height whose parameters the
    verifier supports the search is defined and changes the nonce and the solution only.  A header
    that it reports as done is accepted by both verifiers on every processor and by the check of the
    target; when it reports a failure on a usable target, none of the nonces that it was to try works. *)
Theorem mine_block_pow_exact `{AllocatorTotal} `{HashFunctionsOk} qsort_rows params tip h max_nonces :
  (forall n rows, qsort_rows n rows ≡ₚ rows) -> supported_at params (bi_nHeight tip + 1) ->
  uint256_ok (powLimit (consensus params)) -> header_ok h -> 0 <= max_nonces ->
  compact_value (nBits h) <= le_decode (powLimit (consensus params)) ->
  exists found h', mine_block_pow qsort_rows h (bi_nHeight tip + 1) params max_nonces = Some (found, h') /\
    (exists nonce soln, h' = with_solution (with_nonce h nonce) soln) /\
    (if found then proves_work tip params h'
     else target_usable (nBits h) -> forall i, 0 <= i < nonces_tried max_nonces ->
       ~ nonce_works qsort_rows (params_at params (bi_nHeight tip + 1)) (cr_value (arith_uint256_set_compact (nBits h))) h i).
Proof.
  intros Hsort Hsup Hl Hh Hmax Hle. destruct (mine_spec qsort_rows Hsort params _ Hsup h max_nonces Hh Hmax)
    as (found & h' & E & Hh' & (nonce & soln & ->) & Hf). exists found. eexists. split; [exact E|]. split; [eauto|].
  destruct found; [|done]. destruct Hf as (Hu & Hz & Hs & Hd). by apply found_proves.
Qed.

(** The scripts of the coinbase tell heights and nonces apart.  For every height below 2^24 and
    every nonce there is a script, of a length that the check of the coinbase allows, and two of
    them are equal only for the same height and the same nonce. *)
Theorem nonce_scripts_distinct h n : is_u 32 n -> 0 <= h <= DCB_HEIGHT_MAX ->
  exists sig, domain_consensus_coinbase_script_sig_with_extra_nonce h n = Ok sig /\ 2 <= zlen sig <= 100 /\
  forall h' n', is_u 32 n' -> domain_consensus_coinbase_script_sig_with_extra_nonce h' n' = Ok sig -> h' = h /\ n' = n.
Proof.
  intros Hn Hh. destruct (domain_consensus_coinbase_script_sig_with_extra_nonce h n) as [sig|] eqn:E.
  2: { unfold domain_consensus_coinbase_script_sig_with_extra_nonce in E. replace (h <? 0) with false in E by lia.
       by replace (h >? DCB_HEIGHT_MAX) with false in E by lia. }
  exists sig. split; [done|]. destruct (nonce_script_shape h n sig Hn E) as (_ & bs & -> & Hz & Ev).
  split; [rewrite zlen_app, zlen_cons; change (zlen (dcb_write_height_prefix h)) with 4; lia|].
  intros h' n' Hn' E'. destruct (nonce_script_shape h' n' _ Hn' E') as (Hh' & bs' & Es & _ & Ev').
  apply app_inj_1 in Es as [Ep Eb]; [|done]. split; [symmetry; by apply height_prefix_inj|]. injection Eb as _ <-. lia.
Qed.

Lemma nonce_scripts_distinct_witness : exists sig,
  domain_consensus_coinbase_script_sig_with_extra_nonce 500000 258 = Ok sig /\ 2 <= zlen sig <= 100.
Proof. destruct (nonce_scripts_distinct 500000 258) as (sig & E & Hz & _); [done|done|]. by exists sig. Defined.

(** ** Concrete rounds

    Before the activation of Overwinter, and between the activations of Sapling and of Bubbles,
    with small parameters of Equihash, on the cache of file ConnectBlock and a pool of one transaction *)

Definition mining_tip (h : Z) : block_index :=
  {| bi_nHeight := h; bi_nTime := 1300000000; bi_nBits := 0x1f07ffff; bi_nChainWork := arith_uint256_set_zero |}.

Definition mining_params : chain_params :=
  {| consensus := init_main_params; nEquihashN := 48; nEquihashK := 5; checkpointData := [] |}.

Abbreviation sample_round h := (@generate_round (fun _ => true) checksum_hashes sort_rows 1600000002 [0x51] [mining_tip h]
  (Some (replicate 32 1)) [thief] mining_params uint256_null locked_cache).

Definition generated_at (h : Z) : option block := r ← sample_round h; snd (fst r).

Definition generated_block : block := Eval vm_compute in default {| header := block_header_init; vtx := [] |} (generated_at 299999).

Definition sapling_block : block := Eval vm_compute in default {| header := block_header_init; vtx := [] |} (generated_at 499999).

Lemma generated_block_result : generated_at 299999 = Some generated_block.
Proof. vm_cast_no_check (eq_refl (Some generated_block)). Qed.

Lemma sapling_block_result : generated_at 499999 = Some sapling_block.
Proof. vm_cast_no_check (eq_refl (Some sapling_block)). Qed.

Lemma sample_round_runs h b : generated_at h = Some b -> exists last_prev c', sample_round h = Some ((last_prev, Some b), c').
Proof.
  unfold generated_at. destruct (sample_round h) as [[[last_prev res] c']|]; [|done]. cbn. intros ->. by exists last_prev, c'.
Qed.

Lemma sample_supported : supported_at mining_params 300000 /\ supported_at mining_params 500000.
Proof. split; vm_compute; reflexivity. Qed.

Lemma sample_can_mine h : pow_params_ok init_main_params (h + 1) -> supported_at mining_params (h + 1) ->
  can_mine sort_rows (mining_tip h) [] (replicate 32 1) [thief] mining_params locked_state locked_cache.
Proof.
  intros Hp Hs. constructor; [exact sort_rows_perm|exact locked_presents| |compute_decide|done| |done].
  - apply Forall_singleton. split; [split_and!|]; [apply (ready_inputs thief thief_ready)|done|done|apply thief_ready].
  - apply Forall_singleton. split; [done|]. vm_compute. congruence.
Qed.

Lemma early_can_mine : can_mine sort_rows (mining_tip 299999) [] (replicate 32 1) [thief] mining_params locked_state locked_cache.
Proof. apply sample_can_mine; [split_and!; try compute_decide; vm_compute; split; congruence|apply sample_supported]. Qed.

Lemma sapling_can_mine : can_mine sort_rows (mining_tip 499999) [] (replicate 32 1) [thief] mining_params locked_state locked_cache.
Proof. apply sample_can_mine; [split_and!; try compute_decide; vm_compute; split; congruence|apply sample_supported]. Qed.


Lemma generated_txs_ready : Forall tx_ready (vtx generated_block).
Proof.
  apply Forall_cons. split; [|apply Forall_singleton, thief_ready]. split; [|compute_decide]. unfold tx_ok. cbn -[fixed zlen bytes_ok].
  split_and!; first [done|compute_decide].
Qed.

Lemma generated_no_overwrites : no_overwrites (vs_records locked_state) (vtx generated_block).
Proof. split; [apply (bool_decide_unpack _); by vm_compute|]. apply Forall_cons. split; [done|by apply Forall_singleton]. Qed.

Abbreviation connect_generated :=
  (@connect_rounds (fun _ => true) checksum_hashes false false 0 300000 empty_tally (vtx generated_block) locked_cache).

Lemma generated_rounds : exists st c2, connect_generated = Some (Ok st, c2) /\ t_fees st = 1000.
Proof.
  assert ((r ← connect_generated; match fst r with Ok st => Some (t_fees st) | Err _ => None end) = Some 1000) as E by (vm_compute; reflexivity).
  destruct connect_generated as [[[st|e] c2]|]; cbn in E; [|done|done]. exists st, c2. split; [done|congruence].
Qed.



Lemma generated_height_push_witness : exists cb, head (vtx generated_block) = Some cb /\ bip34_check_coinbase_height cb 300000 = true.
Proof.
  destruct (sample_round_runs _ _ generated_block_result) as (last_prev & c' & E).
  destruct (@generated_height_push (fun _ => true) (fun _ => eq_refl) checksum_hashes checksum_hashes_ok 1600000002 sort_rows [0x51]
    (mining_tip 299999) [] (replicate 32 1) [thief] mining_params locked_state locked_cache uint256_null last_prev generated_block c'
    early_can_mine ltac:(done) E) as (cb & Hcb & Hp). exists cb. split; [exact Hcb|]. exact Hp.
Defined.

Lemma mine_block_pow_exact_witness : exists found h',
  @mine_block_pow (fun _ => true) checksum_hashes sort_rows (header generated_block) 300000 mining_params 1 = Some (found, h') /\
  nBits h' = 0x1f07ffff.
Proof.
  destruct (@mine_block_pow_exact (fun _ => true) (fun _ => eq_refl) checksum_hashes checksum_hashes_ok sort_rows mining_params (mining_tip 299999)
    (header generated_block) 1 sort_rows_perm (proj1 sample_supported)) as (found & h' & E & (nonce & soln & Eh) & _);
    [compute_decide|unfold header_ok; split_and!; compute_decide|done|vm_compute; congruence|].
  exists found, h'. split; [exact E|]. by rewrite Eh.
Defined.
